(* ===== verification/_CoqProject ===== *)
-Q . S2P
Prelude.v
Endian.v
Events.v
Services.v
CircularBuffer.v
KeyValueHash.v
CommonBuffer.v
BufBuilder.v
Bson.v
BsonBuilder.v
CDataWrapper.v
BsonValidate.v
Container.v
ProcessingQueue.v
Dispatcher.v
DispatcherSpec.v
DispatcherRegistry.v
DispatcherService.v
BatchCommand.v
BatchSandbox.v
CommandHistory.v
BatchExecutor.v
ExecutorSpec.v
AttributesSetting.v
SharedCache.v
ControlUnit.v
ServiceFeeder.v
DirectIO.v
DirectIOSpec.v
MessageChannel.v
MessageChannelSpec.v
DeviceChannel.v
