(* ===== verification/Prelude.v ===== *)
(** * A verification library for the !CHAOS control framework

    !CHAOS drives scientific devices.  A control unit runs the commands of a device and
    publishes its data; the data travel as BSON documents through RPC and direct I/O
    channels, land in a live cache that user interfaces read, and changes are announced
    with event packs.  This library models the C++ core that those paths share, under
    [src/chaos/common], and proves what makes it correct.

    ** Files

    - [Prelude] (this file): tactics, hint databases, machine integers, byte lists,
      bounded memory accesses and the error monad the components share.
    - [Endian]: [utility/endianess.h].  The masks and shifts of every size are the
      reversal of the bytes of the value, and converting twice is the identity.
    - [Events]: [event/evt_desc].  The 1024-byte pack with its bit-field header, the alert
      and instrument descriptors, the factory.  What is set is what is read back, also by
      a descriptor the pack is copied to; exactly which sizes are safe.  The factory writes
      behind the object it reads the type into.
    - [Services]: [utility/InizializableService] and [StartableService].  The drivers of
      the two state machines refine the abstract life cycle of a service; what happens
      when a method throws.
    - [CircularBuffer]: [utility/SingleBufferCircularBuffer.h].  The ring holds the latest
      values; the reallocated cell never changes memory a reader holds.
    - [KeyValueHash]: [utility/TemplatedKeyValueHash.h].  Nodes in a heap; insertion and
      lookup refine a finite map, removal does so for keys that are alone in their list.
    - [CommonBuffer]: [caching_system/common_buffer].  Any history of writer, readers and
      collector is free of use after free, data held by a reader are stable, the collector
      frees exactly the expired and unreferenced elements.
    - [BufBuilder]: [bson/util/builder.h].  Growth with [int] arithmetic and the 64 MB limit.
    - [Bson]: [bson/bsontypes.h], [bsonelement.h], [bsonobj.h], [bsonobjiterator.h],
      [bson-inl.h].  Elements, checked getters and lookup on raw bytes; a document is given
      by the inductive types [val] and [doc] with their encoding, and the accessors agree with it.
    - [BsonBuilder]: [bson/bsonobjbuilder.h].  Builders on a shared buffer, nested builders
      included; what was appended is what is read.
    - [CDataWrapper]: [data/CDataWrapper.cpp].  The container refines an ordered list of
      named values through any sequence of additions and resets, and survives
      serialisation, nesting and the finalisation of arrays.
    - [BsonValidate]: [bson/bson_validate.cpp].  Up to the text of its messages the validator
      never reads outside of the block; it accepts a document of [Bson] with the right size
      field and rejects one with another; a negative string size makes it loop.
    - [Container]: what users of [CDataWrapper] rely on, as the class [Container] with laws on
      the document it holds; [CDataWrapper] is an instance, and so are plain documents.  The
      exceptions of the framework and the monad of code that throws and catches them.
    - [Dispatcher], [DispatcherSpec], [DispatcherRegistry], [DispatcherService]:
      [action/ActionDescriptor], [action/DomainActions] and [dispatcher].  The registration of
      actions refines one table; every message gets a verdict and is queued or deleted; a
      request for a registered action is answered.  A run on containers is a run on
      documents ([Dispatcher], second half), where the code computes.
    - [ProcessingQueue]: [pqueue].  The plain and the priority queue with their worker
      threads, as two instances of one class: no element is lost or settled twice, no
      wake-up is lost, the workers end after [deinit], except that a [deinit] that waits for
      a non-empty queue never returns.
    - [BatchCommand], [BatchSandbox]: [batch_command/BatchCommand], [BatchCommandSandbox].
      The checker and scheduler threads of a control unit as interleaved steps: every
      command follows the life cycle queued, running, paused, ended; which command the
      checker chooses and what it does to the current one.
    - [CommandHistory], [BatchExecutor], [ExecutorSpec]: [batch_command/BatchCommandExecutor].
      The submission of commands from requests, the actions of the clients, the life cycle
      of the sandboxes, and the history of the commands with its two indices.  The state a
      client reads is the place of the command in the sandbox, whatever the capper and the
      clients remove; which submissions are refused and what an accepted one does.
    - [AttributesSetting]: [data/cache/AttributesSetting].  The values of a set of attributes
      in a heap, their index by name, the bitmap of the changed ones.
    - [SharedCache]: the cache of four such sets, whose life cycle is that of the services of
      [Services], behind the class [SharedCacheInterface], and the calls user code makes
      through [AttributeSharedCacheWrapper].  Any sequence of calls refines four lists of
      attributes; a value object stays where it is until the cache is released.
    - [ControlUnit]: the part of [cu_toolkit/ControlManager/AbstractControlUnit.cpp] that fills
      the cache from the description of a device, serves [setDatasetAttribute] and publishes
      the data sets.  It joins [SharedCache], [CDataWrapper] and [Bson]: what the driver gets
      is the serialised document of the current values.
    - [ServiceFeeder]: [network/URLServiceFeeder].  The choice among equivalent services, in
      turn or by fail-over, on top of a heap given by the class [OnlineQueue]: as long as the
      client takes a URL offline before it removes it, a request gets the service of a URL
      in use that is online, and none only when all in use are offline.
    - [DirectIO], [DirectIOSpec]: [direct_io].  The bit-field header and the macros of a
      pack, the device channel at the client and at the server, the frames the ZMQ client and
      server write and read, the dispatcher of the endpoints.  Every operation of a client
      reaches the handler of the addressed endpoint with its values, and live endpoints
      have routes of their own; the one operation that asks for an answer makes the server
      write behind the block of the answer.
    - [MessageChannel], [MessageChannelSpec]: [message/MessageChannel] with the semaphores of
      [thread].  Requests and answers as interleaved critical sections: every answer is
      given to one place, the request with its number if that still waits; a request with a
      time limit comes back, one without can wait for ever although its answer has come.
    - [DeviceChannel]: [message/DeviceMessageChannel].  The calls of a device, from the
      caller through the dispatchers of both sides to the action and back.

    The files depend on each other as the code does: [Events] uses the byte accesses of the
    prelude, [BsonBuilder] the buffer of [BufBuilder] and the readers of [Bson],
    [CDataWrapper] all three, [BsonValidate] the documents of [Bson], [Container] the
    wrapper, [Dispatcher] the containers and the queue of [ProcessingQueue], [BatchSandbox]
    the commands of [BatchCommand], [BatchExecutor] the sandboxes, the history, the
    services and the containers, [SharedCache] the sets of [AttributesSetting],
    [ControlUnit] the cache and the wrapper, and [DirectIO] the byte order of [Endian], the
    accesses of [Events] and the wrapper, whose class [Container] [DirectIOSpec] relies on.
    [MessageChannel] and [DeviceChannel] use containers and the names of [Dispatcher], and
    [DeviceChannel] the documents [DispatcherSpec] and [DispatcherService] are about.

    ** Conventions

    A [w]-bit integer is a [Z] with its wrap-around written out.  Memory that can be freed
    is an explicit heap ([gmap] from addresses), and a null, dangling or out-of-bounds
    access is [None] or [Fault]; thrown exceptions are values of their own.  Code outside
    the repository is a parameter: user handlers, the hash function of the table, the state
    numbers of [boost::msm], the wall clock, the bytes of fresh memory, user services, [lexical_cast], the
    properties the entity database returns, the result of [realloc] for size zero, the
    order of [std::priority_queue] among equal priorities, the actions a device registers,
    the answer of the RPC forwarder, [__PRETTY_FUNCTION__], the factories of commands and the
    texts of their faults, [boost::heap::priority_queue], the handler of a feeder,
    which sends and receives of a socket succeed, the handlers of a direct I/O channel, the
    identifier of a channel.

    ** Bounds and fuel

    Loops over linked nodes carry a bound derived from the heap and are proved not to exhaust
    it under the invariants.  [BsonValidate.run] takes a number of rounds;
    [validate_decides_documents] shows that two rounds per byte of the document are
    enough for the result; [valid_loops_forever] has an input no number is enough for.  The
    element iteration of [Bson] is bounded by the length of the block it reads.

    ** Concurrency

    The operations of [CommonBuffer], [KeyValueHash], [CircularBuffer] and [SharedCache] are
    atomic with respect to each other, in arbitrary order.  [BatchSandbox] interleaves the
    two threads and the callers where the code releases the mutex of the current command, and
    [ProcessingQueue] any number of workers and callers at every critical section,
    notification and call into user code, spurious wake-ups included.  [MessageChannel]
    interleaves requests, answers and changes of the handler in the same way.

    ** Not modelled

    Vendored or third-party code the sources only call: the bundled sqlite amalgamation,
    [FastDelegate.h], murmurhash, the mutable documents, JSON, base64 and string formatting
    of the BSON library, the memcached slab allocator.  Pure I/O: the sockets and threads of
    the ZMQ, libuv and asio transports, the MongoDB, Couchbase and memcached drivers, logging,
    plug-in loading.  Programs around the core: the data service, the node directory, the UI
    toolkit, the CU toolkit but for the part of [AbstractControlUnit] above, examples and
    tests; the meta-data server is written in Java.

    Of the parts that are modelled, these are left out.  [direct_io]: the performance and
    system channels, which build their packs as the device channel does, and the bookkeeping
    of connections.  [message]: the channel of the meta-data server, whose requests are made
    as those of a device, and the broker, which creates the parts.  [bson]: the ordering of values ([woCompare]), which no modelled component
    calls.  [AbstractControlUnit]: the loading of drivers and the steps of its life cycle,
    which are calls into user code around the machine of [Services]. *)

From Stdlib Require Export ZArith Lia.
From stdpp Require Export base gmap strings sorting list_numbers gmultiset.
From stdpp Require Export list.

#[global] Set Default Goal Selector "!".

Declare Scope chaos_scope.
Delimit Scope chaos_scope with chaos.

(** ** Automation shared by the components *)

Create HintDb chaos.
Create HintDb chaos_bits.

(** Case analysis on the first [match] or [if] of the goal or of a hypothesis,
    keeping the equation. *)
Ltac split_match :=
  match goal with
  | |- context [match ?x with _ => _ end] => destruct x eqn:?; simplify_eq/=
  | H : context [match ?x with _ => _ end] |- _ => destruct x eqn:?; simplify_eq/=
  end.

(** Reduce binds and maps of the option monad, and nothing else. *)
Ltac simpl_opt := cbn [mbind option_bind fmap option_fmap option_map].
Ltac simpl_opt_in H := cbn [mbind option_bind fmap option_fmap option_map] in H.

(** Turn boolean comparisons into the propositions they decide. *)
Ltac reflect_bool :=
  repeat match goal with
  | H : (_ && _)%bool = true |- _ => apply andb_prop in H; destruct H
  | H : (_ || _)%bool = false |- _ => apply orb_false_elim in H; destruct H
  | H : negb _ = true |- _ => apply negb_true_iff in H
  | H : negb _ = false |- _ => apply negb_false_iff in H
  | H : (_ <? _)%Z = true |- _ => apply Z.ltb_lt in H
  | H : (_ <? _)%Z = false |- _ => apply Z.ltb_ge in H
  | H : (_ <=? _)%Z = true |- _ => apply Z.leb_le in H
  | H : (_ <=? _)%Z = false |- _ => apply Z.leb_gt in H
  | H : (_ =? _)%Z = true |- _ => apply Z.eqb_eq in H
  | H : (_ =? _)%Z = false |- _ => apply Z.eqb_neq in H
  | H : (_ <? _)%nat = true |- _ => apply Nat.ltb_lt in H
  | H : (_ <? _)%nat = false |- _ => apply Nat.ltb_ge in H
  | H : (_ <=? _)%nat = true |- _ => apply Nat.leb_le in H
  | H : (_ <=? _)%nat = false |- _ => apply Nat.leb_gt in H
  | H : (_ =? _)%nat = true |- _ => apply Nat.eqb_eq in H
  | H : (_ =? _)%nat = false |- _ => apply Nat.eqb_neq in H
  | H : bool_decide _ = true |- _ => apply bool_decide_eq_true in H
  | H : bool_decide _ = false |- _ => apply bool_decide_eq_false in H
  end.

(** Nonlinear goals with [/] and [mod] by constants. *)
Ltac zdiv := Z.to_euclidean_division_equations; nia.

(** ** Machine integers

    A [w]-bit unsigned value is a [Z] in [0, 2^w); a signed one is a [Z] in
    [-2^(w-1), 2^(w-1)).  [uwrap] and [swrap] are the conversions C makes. *)

Definition uwrap (w z : Z) : Z := (z mod 2 ^ w)%Z.
Definition swrap (w z : Z) : Z := ((z + 2 ^ (w - 1)) mod 2 ^ w - 2 ^ (w - 1))%Z.

Notation u8 := (uwrap 8).
Notation u16 := (uwrap 16).
Notation u32 := (uwrap 32).
Notation u64 := (uwrap 64).
Notation s8 := (swrap 8).
Notation s32 := (swrap 32).
Notation s64 := (swrap 64).

Definition in_u (w z : Z) : Prop := (0 <= z < 2 ^ w)%Z.
Definition in_s (w z : Z) : Prop := (- 2 ^ (w - 1) <= z < 2 ^ (w - 1))%Z.

Lemma uwrap_range w z : (0 <= w)%Z -> in_u w (uwrap w z).
Proof. intros Hw. apply Z.mod_pos_bound. lia. Qed.

Lemma uwrap_small w z : in_u w z -> uwrap w z = z.
Proof. intros H. by apply Z.mod_small. Qed.

Lemma uwrap_idemp w z : (0 <= w)%Z -> uwrap w (uwrap w z) = uwrap w z.
Proof. intros Hw. by apply uwrap_small, uwrap_range. Qed.

Lemma swrap_range w z : (0 < w)%Z -> in_s w (swrap w z).
Proof.
  intros Hw. unfold in_s, swrap.
  assert (2 ^ w = 2 * 2 ^ (w - 1))%Z as E.
  { rewrite <- Z.pow_succ_r by lia. f_equal. lia. }
  pose proof (Z.mod_pos_bound (z + 2 ^ (w - 1)) (2 ^ w) ltac:(lia)). lia.
Qed.

Lemma swrap_small w z : (0 < w)%Z -> in_s w z -> swrap w z = z.
Proof.
  intros Hw H. unfold in_s, swrap in *.
  assert (2 ^ w = 2 * 2 ^ (w - 1))%Z as E.
  { rewrite <- Z.pow_succ_r by lia. f_equal. lia. }
  rewrite Z.mod_small; lia.
Qed.

Lemma uwrap_swrap w z : (0 < w)%Z -> uwrap w (swrap w z) = uwrap w z.
Proof.
  intros Hw. unfold uwrap, swrap. rewrite <- (Zminus_mod_idemp_l _ _ (2 ^ w)), Z.mod_mod, Zminus_mod_idemp_l by lia. f_equal. lia.
Qed.

(** Reading the bits of a signed value back as signed gives the value. *)
Lemma swrap_uwrap w z : (0 < w)%Z -> swrap w (uwrap w z) = swrap w z.
Proof.
  intros Hw. unfold swrap, uwrap. f_equal.
  by rewrite Zplus_mod_idemp_l.
Qed.

(** ** Bytes

    A byte is a [Z] in [0, 256); memory regions are lists of bytes. *)

Definition is_byte (b : Z) : Prop := (0 <= b < 256)%Z.
Definition bytes (l : list Z) : Prop := Forall is_byte l.

#[export] Instance is_byte_dec b : Decision (is_byte b).
Proof. unfold is_byte. apply _. Defined.

Lemma is_byte_mod z : is_byte (z mod 256).
Proof. unfold is_byte. apply Z.mod_pos_bound. lia. Qed.

(** Little-endian serialisation of the low [n] bytes of [z], and its inverse. *)
Fixpoint le_bytes (n : nat) (z : Z) : list Z :=
  match n with
  | O => []
  | S n => (z mod 256)%Z :: le_bytes n (z / 256)%Z
  end.

Fixpoint le_val (l : list Z) : Z :=
  match l with
  | [] => 0%Z
  | b :: l => (b + 256 * le_val l)%Z
  end.

Definition be_bytes (n : nat) (z : Z) : list Z := reverse (le_bytes n z).
Definition be_val (l : list Z) : Z := le_val (reverse l).

Lemma le_bytes_length n z : length (le_bytes n z) = n.
Proof. revert z; induction n; intros z; simpl; auto. Qed.

Lemma le_bytes_bytes n z : bytes (le_bytes n z).
Proof.
  revert z; induction n as [|n IH]; intros z; simpl; constructor; auto using is_byte_mod.
  apply IH.
Qed.

Lemma pow256_S n : (256 ^ Z.of_nat (S n) = 256 * 256 ^ Z.of_nat n)%Z.
Proof. rewrite Nat2Z.inj_succ, Z.pow_succ_r by lia. lia. Qed.

Lemma le_val_bytes_mod n z : le_val (le_bytes n z) = (z mod 256 ^ Z.of_nat n)%Z.
Proof.
  revert z; induction n as [|n IH]; intros z; simpl le_bytes; simpl le_val.
  - by rewrite Z.mod_1_r.
  - rewrite IH, pow256_S. rewrite Z.rem_mul_r by lia. lia.
Qed.

Lemma le_val_bytes n z : (0 <= z < 256 ^ Z.of_nat n)%Z -> le_val (le_bytes n z) = z.
Proof. intros H. rewrite le_val_bytes_mod. by apply Z.mod_small. Qed.

Lemma le_val_range l : bytes l -> (0 <= le_val l < 256 ^ Z.of_nat (length l))%Z.
Proof.
  induction 1 as [|b l Hb Hl IH]; simpl le_val; simpl length.
  - lia.
  - rewrite pow256_S. unfold is_byte in Hb. lia.
Qed.

Lemma le_bytes_val l : bytes l -> le_bytes (length l) (le_val l) = l.
Proof.
  induction 1 as [|b l Hb Hl IH]; simpl; [done|].
  unfold is_byte in Hb. f_equal.
  - replace (b + 256 * le_val l)%Z with (b + le_val l * 256)%Z by lia.
    rewrite Z.mod_add by lia. apply Z.mod_small; lia.
  - replace (b + 256 * le_val l)%Z with (b + le_val l * 256)%Z by lia.
    rewrite Z.div_add by lia. rewrite Z.div_small by lia. by rewrite Z.add_0_l.
Qed.

Lemma le_bytes_take k n z : k <= n -> take k (le_bytes n z) = le_bytes k z.
Proof.
  revert n z; induction k as [|k IH]; intros n z Hk; [done|].
  destruct n as [|n]; [lia|]. simpl. f_equal. apply IH. lia.
Qed.

Lemma le_bytes_inj n x y :
  (0 <= x < 256 ^ Z.of_nat n)%Z -> (0 <= y < 256 ^ Z.of_nat n)%Z ->
  le_bytes n x = le_bytes n y -> x = y.
Proof. intros Hx Hy H. rewrite <- (le_val_bytes n x), <- (le_val_bytes n y); congruence. Qed.

Lemma be_val_bytes n z : (0 <= z < 256 ^ Z.of_nat n)%Z -> be_val (be_bytes n z) = z.
Proof. intros H. unfold be_val, be_bytes. rewrite reverse_involutive. by apply le_val_bytes. Qed.

(** ** Bounded memory regions

    [buf_read] and [buf_write] are the loads, stores and [memcpy]s of the code on
    an object of fixed size; [None] is an access outside of the object, which is
    undefined behaviour in C and C++. *)

Definition buf_read (buf : list Z) (off n : nat) : option (list Z) :=
  if decide (off + n <= length buf) then Some (take n (drop off buf)) else None.

Definition buf_write (buf : list Z) (off : nat) (bs : list Z) : option (list Z) :=
  if decide (off + length bs <= length buf)
  then Some (take off buf ++ bs ++ drop (off + length bs) buf) else None.

Lemma buf_write_Some buf off bs buf' :
  buf_write buf off bs = Some buf' ->
  off + length bs <= length buf /\ buf' = take off buf ++ bs ++ drop (off + length bs) buf.
Proof. unfold buf_write. case_decide; naive_solver. Qed.

Lemma buf_write_length buf off bs buf' :
  buf_write buf off bs = Some buf' -> length buf' = length buf.
Proof.
  intros [H ->]%buf_write_Some. rewrite !length_app, length_take, length_drop. lia.
Qed.

Lemma buf_write_ok buf off bs :
  off + length bs <= length buf -> is_Some (buf_write buf off bs).
Proof. intros H. unfold buf_write. rewrite decide_True by done. eauto. Qed.

(** Lookup in a written region: new bytes inside, old bytes outside. *)
Lemma buf_write_lookup buf off bs buf' i :
  buf_write buf off bs = Some buf' ->
  buf' !! i = if decide (off <= i < off + length bs) then bs !! (i - off) else buf !! i.
Proof.
  intros [H ->]%buf_write_Some. case_decide as Hi.
  - rewrite lookup_app_r; rewrite length_take_le by lia; [|lia].
    rewrite lookup_app_l by lia. done.
  - destruct (decide (i < off)).
    + rewrite lookup_app_l by (rewrite length_take_le; lia).
      rewrite lookup_take_lt by lia. done.
    + rewrite lookup_app_r by (rewrite length_take_le; lia).
      rewrite lookup_app_r by (rewrite length_take_le; lia).
      rewrite lookup_drop, length_take_le by lia. f_equal; lia.
Qed.

Lemma buf_read_length buf off n l : buf_read buf off n = Some l -> length l = n.
Proof.
  unfold buf_read. case_decide; intros; simplify_eq. rewrite length_take, length_drop. lia.
Qed.

Lemma buf_read_ext buf1 buf2 off n :
  length buf1 = length buf2 ->
  (forall i, off <= i < off + n -> buf1 !! i = buf2 !! i) ->
  buf_read buf1 off n = buf_read buf2 off n.
Proof.
  intros Hlen H. unfold buf_read. rewrite Hlen. case_decide; [|done]. f_equal.
  apply list_eq. intros i. destruct (decide (i < n)).
  - rewrite !lookup_take_lt, !lookup_drop by lia. apply H. lia.
  - rewrite !lookup_take_ge by lia. done.
Qed.

(** A load of exactly the stored range gives the stored bytes. *)
Lemma buf_read_write_eq buf off bs buf' n :
  buf_write buf off bs = Some buf' -> n = length bs -> buf_read buf' off n = Some bs.
Proof.
  intros Hw ->. pose proof (buf_write_length _ _ _ _ Hw) as HL.
  pose proof (buf_write_Some _ _ _ _ Hw) as [Hb ->].
  unfold buf_read. rewrite decide_True by lia. f_equal.
  rewrite drop_app_ge by (rewrite length_take; lia).
  rewrite length_take_le by lia. rewrite Nat.sub_diag, drop_0.
  by rewrite take_app_length.
Qed.

(** A load disjoint from the stored range gives what was there. *)
Lemma buf_read_write_ne buf off bs buf' off2 n :
  buf_write buf off bs = Some buf' ->
  off2 + n <= off \/ off + length bs <= off2 ->
  buf_read buf' off2 n = buf_read buf off2 n.
Proof.
  intros Hw Hd. apply buf_read_ext; [by eapply buf_write_length|].
  intros i Hi. rewrite (buf_write_lookup _ _ _ _ _ Hw). rewrite decide_False by lia. done.
Qed.

Lemma bytes_take n l : bytes l -> bytes (take n l).
Proof. apply Forall_take. Qed.
Lemma bytes_drop n l : bytes l -> bytes (drop n l).
Proof. apply Forall_drop. Qed.
Lemma bytes_app l k : bytes l -> bytes k -> bytes (l ++ k).
Proof. intros. by apply Forall_app. Qed.
Lemma bytes_replicate n b : is_byte b -> bytes (replicate n b).
Proof. intros. by apply Forall_replicate. Qed.

Lemma buf_write_bytes buf off bs buf' :
  bytes buf -> bytes bs -> buf_write buf off bs = Some buf' -> bytes buf'.
Proof.
  intros Hb Hbs [_ ->]%buf_write_Some.
  auto using bytes_app, bytes_take, bytes_drop.
Qed.

Lemma buf_read_bytes buf off n l : bytes buf -> buf_read buf off n = Some l -> bytes l.
Proof.
  unfold buf_read. case_decide; intros; simplify_eq. auto using bytes_take, bytes_drop.
Qed.

#[export] Hint Resolve le_bytes_bytes bytes_take bytes_drop bytes_app is_byte_mod
  buf_write_bytes buf_read_bytes le_bytes_length buf_write_length buf_read_length : chaos.

(** ** A state monad with failure

    Code that threads a shared store through many calls is written in [ST S]:
    a computation takes the store and gives a result with the new store, or [None]
    when it makes an undefined step (a null or dangling dereference, or a loop that
    exceeds its bound). *)

Definition ST (S A : Type) : Type := S -> option (A * S).

#[export] Instance ST_ret S : MRet (ST S) := fun A a s => Some (a, s).
#[export] Instance ST_bind S : MBind (ST S) :=
  fun A B k c s => match c s with Some (a, s') => k a s' | None => None end.

Definition st_get {S} : ST S S := fun s => Some (s, s).
Definition st_put {S} (s : S) : ST S unit := fun _ => Some (tt, s).
Definition st_modify {S} (f : S -> S) : ST S unit := fun s => Some (tt, f s).
Definition st_gets {S A} (f : S -> A) : ST S A := fun s => Some (f s, s).
Definition st_fail {S A} : ST S A := fun _ => None.
Definition st_lift {S A} (o : option A) : ST S A :=
  fun s => match o with Some a => Some (a, s) | None => None end.

(** Total correctness: the computation succeeds and its result satisfies [Q]. *)
Definition wp {S A} (c : ST S A) (Q : A -> S -> Prop) (s : S) : Prop :=
  match c s with Some (a, s') => Q a s' | None => False end.

Lemma wp_elim {S A} (c : ST S A) Q s : wp c Q s -> exists a s', c s = Some (a, s') /\ Q a s'.
Proof. unfold wp. destruct (c s) as [[a s']|]; [eauto|done]. Qed.

Lemma wp_intro {S A} (c : ST S A) (Q : A -> S -> Prop) s a s' :
  c s = Some (a, s') -> Q a s' -> wp c Q s.
Proof. unfold wp. by intros ->. Qed.

Lemma wp_bind {S A B} (c : ST S A) (k : A -> ST S B) Q s :
  wp c (fun a => wp (k a) Q) s -> wp (c ≫= k) Q s.
Proof. unfold wp, mbind, ST_bind. by destruct (c s) as [[a s']|]. Qed.

Lemma wp_ret {S A} (a : A) Q (s : S) : Q a s -> wp (mret a) Q s.
Proof. done. Qed.

Lemma wp_mono {S A} (c : ST S A) (P Q : A -> S -> Prop) s :
  wp c P s -> (forall a s', P a s' -> Q a s') -> wp c Q s.
Proof. unfold wp. destruct (c s) as [[a s']|]; eauto. Qed.

Lemma wp_get {S} (Q : S -> S -> Prop) s : Q s s -> wp st_get Q s.
Proof. done. Qed.
Lemma wp_gets {S A} (f : S -> A) Q s : Q (f s) s -> wp (st_gets f) Q s.
Proof. done. Qed.
Lemma wp_modify {S} (f : S -> S) (Q : unit -> S -> Prop) s : Q tt (f s) -> wp (st_modify f) Q s.
Proof. done. Qed.
Lemma wp_lift {S A} (o : option A) a Q (s : S) : o = Some a -> Q a s -> wp (st_lift o) Q s.
Proof. by intros ->. Qed.

(** Peel binds and the state primitives off the goal. *)
Ltac wp_step :=
  lazymatch goal with
  | |- wp (_ ≫= _) _ _ => apply wp_bind
  | |- wp (mret _) _ _ => apply wp_ret
  | |- wp st_get _ _ => apply wp_get
  | |- wp (st_gets _) _ _ => apply wp_gets
  | |- wp (st_modify _) _ _ => apply wp_modify
  end.
Ltac wp_steps := repeat (cbn beta match; wp_step); cbn beta match.

(** Use a specification for the first command and name its result and store. *)
Ltac wp_use H := eapply wp_mono; [eapply H|].

(** ** Outcomes of code that throws

    [Ret] is a normal result, [Throw code] an exception (or failed assertion) with its
    number, [Fault] undefined behaviour. *)

Inductive outcome (A : Type) : Type :=
  | Ret (a : A)
  | Throw (code : Z)
  | Fault.
Arguments Ret {A}.
Arguments Throw {A}.
Arguments Fault {A}.

#[export] Instance outcome_ret : MRet outcome := fun A a => Ret a.
#[export] Instance outcome_bind : MBind outcome := fun A B k c =>
  match c with Ret a => k a | Throw e => Throw e | Fault => Fault end.

(** A memory access that must be in range. *)
Definition access {A} (o : option A) : outcome A :=
  match o with Some a => Ret a | None => Fault end.

(** [massert], [uassert], [verify]. *)
Definition check (code : Z) (b : bool) : outcome unit := if b then Ret tt else Throw code.

Lemma outcome_bind_ret {A B} (a : A) (k : A -> outcome B) : (Ret a ≫= k) = k a.
Proof. done. Qed.

Lemma outcome_bind_inv {A B} (c : outcome A) (k : A -> outcome B) b :
  (c ≫= k) = Ret b -> exists a, c = Ret a /\ k a = Ret b.
Proof. destruct c; simpl; intros H; try done. eauto. Qed.

(** Reduce binds of [outcome], and nothing else. *)
Ltac simpl_out := cbn [mbind outcome_bind mret outcome_ret].

(** ** State with exceptions

    [EX S]: the code changes the state and may throw; the changes it made before the
    exception stay. *)

Definition EX (S A : Type) : Type := S -> outcome A * S.

#[export] Instance EX_ret S : MRet (EX S) := fun A a s => (Ret a, s).
#[export] Instance EX_bind S : MBind (EX S) := fun A B k c s =>
  match c s with
  | (Ret a, s') => k a s'
  | (Throw e, s') => (Throw e, s')
  | (Fault, s') => (Fault, s')
  end.

Definition ex_get {S} : EX S S := fun s => (Ret s, s).
Definition ex_gets {S A} (f : S -> A) : EX S A := fun s => (Ret (f s), s).
Definition ex_modify {S} (f : S -> S) : EX S unit := fun s => (Ret tt, f s).
Definition ex_lift {S A} (o : outcome A) : EX S A := fun s => (o, s).

(** [try c catch e then h e]. *)
Definition ex_catch {S A} (c : EX S A) (h : Z -> EX S A) : EX S A := fun s =>
  match c s with (Throw e, s') => h e s' | r => r end.

(** Run a computation on a part of the state. *)
Definition ex_zoom {S T A} (get : S -> T) (put : T -> S -> S) (c : EX T A) : EX S A := fun s =>
  let '(r, t) := c (get s) in (r, put t s).

Lemma ex_bind_ret {S A B} (c : EX S A) (k : A -> EX S B) s a s' :
  c s = (Ret a, s') -> (c ≫= k) s = k a s'.
Proof. unfold mbind, EX_bind. by intros ->. Qed.

Lemma ex_bind_throw {S A B} (c : EX S A) (k : A -> EX S B) s e s' :
  c s = (Throw e, s') -> (c ≫= k) s = (Throw e, s').
Proof. unfold mbind, EX_bind. by intros ->. Qed.

Lemma ex_bind_fault {S A B} (c : EX S A) (k : A -> EX S B) s s' :
  c s = (Fault, s') -> (c ≫= k) s = (Fault, s').
Proof. unfold mbind, EX_bind. by intros ->. Qed.

(** Run the first command of the goal, by computation or with an equation. *)
Ltac ex_step := erewrite ex_bind_ret; [|reflexivity]; cbn beta.
Ltac ex_use H := erewrite ex_bind_ret; [|apply H]; cbn beta.

(** ** Texts

    The bytes of a string constant. *)
Definition chars (s : String.string) : list Z :=
  (fun c => Z.of_nat (Ascii.nat_of_ascii c)) <$> String.list_ascii_of_string s.
