(* ===== verification/Endian.v ===== *)
(** * Byte order conversion

    Models [chaos/common/utility/endianess.h]: the [endianness] enumeration, the
    specialisations of [util::swap_bytes], [util::do_byte_swap] and [byte_swap],
    on the unsigned representation of a value of [sizeof(T)] bytes.  The theorems
    show that the masks and shifts of the header are the reversal of the bytes of
    the value, for every supported size. *)

From S2P Require Import Prelude.

Local Open Scope Z_scope.

(** [enum endianness]; [network_endian] is [big_endian]. *)
Inductive endianness := little_endian | big_endian.

#[export] Instance endianness_eq_dec : EqDecision endianness.
Proof. solve_decision. Defined.

Definition network_endian : endianness := big_endian.

(** [swap_bytes<T, sz>]: the primary template throws [std::out_of_range]
    ([None]); sizes 1, 2, 4 and 8 are the specialisations. *)
Definition swap_bytes1 (val : Z) : Z := val.

Definition swap_bytes2 (val : Z) : Z :=
  Z.lor (Z.land (Z.shiftr val 8) 0xff) (Z.shiftl (Z.land val 0xff) 8).

Definition swap_bytes4 (val : Z) : Z :=
  Z.lor (Z.lor (Z.lor
    (Z.shiftr (Z.land val 0xff000000) 24)
    (Z.shiftr (Z.land val 0x00ff0000) 8))
    (Z.shiftl (Z.land val 0x0000ff00) 8))
    (Z.shiftl (Z.land val 0x000000ff) 24).

Definition swap_bytes8 (val : Z) : Z :=
  Z.lor (Z.lor (Z.lor (Z.lor (Z.lor (Z.lor (Z.lor
    (Z.shiftr (Z.land val 0xff00000000000000) 56)
    (Z.shiftr (Z.land val 0x00ff000000000000) 40))
    (Z.shiftr (Z.land val 0x0000ff0000000000) 24))
    (Z.shiftr (Z.land val 0x000000ff00000000) 8))
    (Z.shiftl (Z.land val 0x00000000ff000000) 8))
    (Z.shiftl (Z.land val 0x0000000000ff0000) 24))
    (Z.shiftl (Z.land val 0x000000000000ff00) 40))
    (Z.shiftl (Z.land val 0x00000000000000ff) 56).

Definition swap_bytes (sz : nat) (val : Z) : option Z :=
  match sz with
  | 1%nat => Some (swap_bytes1 val)
  | 2%nat => Some (swap_bytes2 val)
  | 4%nat => Some (swap_bytes4 val)
  | 8%nat => Some (swap_bytes8 val)
  | _ => None
  end.

(** [do_byte_swap<from, to, T>]: identity on equal byte orders. *)
Definition do_byte_swap (from to : endianness) (sz : nat) (val : Z) : option Z :=
  match from, to with
  | little_endian, little_endian => Some val
  | big_endian, big_endian => Some val
  | _, _ => swap_bytes sz val
  end.

(** [byte_swap]: the static assertion on [sizeof(T)] refuses other sizes. *)
Definition byte_swap (from to : endianness) (sz : nat) (val : Z) : option Z :=
  if bool_decide (sz ∈ [1; 2; 4; 8]%nat) then do_byte_swap from to sz val else None.

(** The object representation of an unsigned value on a host of byte order [e]. *)
Definition host_bytes (e : endianness) (sz : nat) (val : Z) : list Z :=
  match e with
  | little_endian => le_bytes sz val
  | big_endian => be_bytes sz val
  end.

Definition host_val (e : endianness) (l : list Z) : Z :=
  match e with little_endian => le_val l | big_endian => be_val l end.

(** ** Lemmas on bytes of a value *)

Definition byte_at (v k : Z) : Z := Z.land (Z.shiftr v (8 * k)) 255.

Lemma byte_at_div v k : 0 <= k -> byte_at v k = (v / 256 ^ k) mod 256.
Proof.
  intros Hk. unfold byte_at. change 255 with (Z.ones 8).
  rewrite Z.land_ones, Z.shiftr_div_pow2 by lia.
  by rewrite Z.pow_mul_r by lia.
Qed.

Lemma byte_at_range v k : 0 <= byte_at v k < 256.
Proof.
  unfold byte_at. change 255 with (Z.ones 8). rewrite Z.land_ones by lia.
  change 256 with (2 ^ 8). apply Z.mod_pos_bound. lia.
Qed.

Lemma land_byte_mask v m k :
  0 <= k -> m = Z.shiftl 255 (8 * k) -> Z.land v m = Z.shiftl (byte_at v k) (8 * k).
Proof.
  intros Hk ->. unfold byte_at. apply Z.bits_inj'. intros i Hi.
  rewrite Z.land_spec.
  destruct (Z.lt_ge_cases i (8 * k)).
  - rewrite !Z.shiftl_spec_low by lia. apply andb_false_r.
  - rewrite !Z.shiftl_spec, Z.land_spec, Z.shiftr_spec by lia.
    f_equal. f_equal. lia.
Qed.

Lemma shiftr_shiftl_byte b k s :
  0 <= s <= k -> Z.shiftr (Z.shiftl b k) s = Z.shiftl b (k - s).
Proof. intros. by rewrite Z.shiftr_shiftl_l by lia. Qed.

(** Disjoint or is addition. *)
Lemma lor_shiftl_add a b n : 0 <= n -> 0 <= a < 2 ^ n -> Z.lor a (Z.shiftl b n) = a + b * 2 ^ n.
Proof.
  intros Hn Ha. rewrite <- Z.shiftl_mul_pow2 by lia.
  assert (Z.land a (Z.shiftl b n) = 0) as Hd.
  { apply Z.bits_inj'. intros i Hi. rewrite Z.land_spec, Z.bits_0.
    destruct (Z.lt_ge_cases i n).
    - rewrite (Z.shiftl_spec_low b) by lia. apply andb_false_r.
    - rewrite <- (Z.mod_small a (2 ^ n)) by lia.
      rewrite Z.mod_pow2_bits_high by lia. done. }
  rewrite <- Z.lxor_lor by done. symmetry. by apply Z.add_nocarry_lxor.
Qed.

Ltac byte_masks v :=
  repeat match goal with
  | |- context [Z.land v ?m] =>
      let k := eval vm_compute in (Z.log2 m / 8) in
      rewrite (land_byte_mask v m k) by (first [lia | reflexivity])
  end.

(** Evaluate the constant shift amounts and byte indices of the goal. *)
Ltac norm_consts :=
  repeat match goal with
  | |- context [Z.shiftl ?b ?e] =>
      let e' := eval vm_compute in e in
      progress change (Z.shiftl b e) with (Z.shiftl b e')
  | |- context [Z.of_nat ?n] =>
      let e' := eval vm_compute in (Z.of_nat n) in change (Z.of_nat n) with e'
  end.

Ltac lor_add :=
  rewrite ?Z.shiftl_0_r;
  repeat match goal with
  | |- context [Z.lor ?a (Z.shiftl ?b ?n)] =>
      lazymatch a with
      | context [Z.lor _ _] => fail
      | _ => rewrite (lor_shiftl_add a b n) by lia
      end
  end.

(** The bounds of the first [n] bytes of [v]. *)
Ltac byte_bounds v n :=
  lazymatch n with
  | O => idtac
  | S ?m => let k := eval vm_compute in (Z.of_nat m) in
            pose proof (byte_at_range v k); byte_bounds v m
  end.

Lemma le_bytes_byte_at n v :
  le_bytes n v = (fun k => byte_at v (Z.of_nat k)) <$> seq 0 n.
Proof.
  revert v; induction n as [|n IH]; intros v; [done|].
  simpl. f_equal.
  - rewrite byte_at_div by lia. simpl. by rewrite Z.div_1_r.
  - rewrite IH. rewrite <- !fmap_S_seq. rewrite <- list_fmap_compose.
    apply list_fmap_ext. intros i k _. simpl.
    rewrite !byte_at_div by lia. f_equal.
    rewrite pow256_S. rewrite Z.div_div by lia. done.
Qed.

Ltac solve_swap v n :=
  byte_masks v; rewrite ?shiftr_shiftl_byte, ?Z.shiftl_shiftl by lia;
  byte_bounds v n; simpl seq; simpl list_fmap; simpl reverse; simpl le_val;
  norm_consts; lor_add; lia.

Lemma swap_bytes2_spec v : in_u 16 v -> swap_bytes2 v = be_val (le_bytes 2 v).
Proof.
  intros Hv. unfold swap_bytes2, be_val. rewrite le_bytes_byte_at.
  change (Z.land (Z.shiftr v 8) 255) with (byte_at v 1). solve_swap v 2%nat.
Qed.

Lemma swap_bytes4_spec v : in_u 32 v -> swap_bytes4 v = be_val (le_bytes 4 v).
Proof.
  intros Hv. unfold swap_bytes4, be_val. rewrite le_bytes_byte_at. solve_swap v 4%nat.
Qed.

Lemma swap_bytes8_spec v : in_u 64 v -> swap_bytes8 v = be_val (le_bytes 8 v).
Proof.
  intros Hv. unfold swap_bytes8, be_val. rewrite le_bytes_byte_at. solve_swap v 8%nat.
Qed.

(** [swap_bytes] reverses the bytes of the value. *)
Lemma swap_bytes_reverse sz v r :
  in_u (8 * Z.of_nat sz) v -> swap_bytes sz v = Some r -> r = be_val (le_bytes sz v).
Proof.
  intros Hv. unfold swap_bytes.
  destruct sz as [|[|[|[|[|[|[|[|[|sz]]]]]]]]]; intros; simplify_eq.
  - unfold swap_bytes1, be_val, in_u in *. simpl in *.
    rewrite Z.mod_small by lia. lia.
  - by apply swap_bytes2_spec.
  - by apply swap_bytes4_spec.
  - by apply swap_bytes8_spec.
Qed.

Lemma pow2_pow256 sz : 2 ^ (8 * Z.of_nat sz) = 256 ^ Z.of_nat sz.
Proof. rewrite Z.pow_mul_r by lia. done. Qed.

Lemma host_val_bytes e sz v : in_u (8 * Z.of_nat sz) v -> host_val e (host_bytes e sz v) = v.
Proof.
  unfold in_u. rewrite pow2_pow256. intros Hv.
  destruct e; simpl; [by apply le_val_bytes | by apply be_val_bytes].
Qed.

Lemma host_bytes_val e l : bytes l -> host_bytes e (length l) (host_val e l) = l.
Proof.
  intros Hl. destruct e; simpl; [by apply le_bytes_val|].
  unfold be_bytes, be_val. rewrite <- (length_reverse l).
  rewrite le_bytes_val by by apply Forall_reverse. apply reverse_involutive.
Qed.

Lemma host_bytes_length e sz v : length (host_bytes e sz v) = sz.
Proof. destruct e; simpl; [|unfold be_bytes; rewrite length_reverse]; apply le_bytes_length. Qed.

Lemma host_bytes_bytes e sz v : bytes (host_bytes e sz v).
Proof. destruct e; simpl; [|apply Forall_reverse]; apply le_bytes_bytes. Qed.

(** Storing [byte_swap<host_endian, to>] of a value writes the value in the byte
    order [to], whatever the byte order of the host: the contract every wire
    format of the framework rests on. *)
Lemma byte_swap_wire host to sz v r :
  in_u (8 * Z.of_nat sz) v -> byte_swap host to sz v = Some r ->
  host_bytes host sz r = host_bytes to sz v /\ in_u (8 * Z.of_nat sz) r.
Proof.
  unfold byte_swap. intros Hv. case_bool_decide as Hsz; [|done].
  assert (swap_bytes sz v = Some r -> r = be_val (le_bytes sz v)) as Hrev
    by (intros; by apply swap_bytes_reverse).
  assert (in_u (8 * Z.of_nat sz) (be_val (le_bytes sz v))) as Hrange.
  { unfold in_u. rewrite pow2_pow256. unfold be_val.
    pose proof (le_val_range (reverse (le_bytes sz v))) as H.
    rewrite length_reverse, le_bytes_length in H. apply H.
    apply Forall_reverse, le_bytes_bytes. }
  assert (reverse (le_bytes sz (be_val (le_bytes sz v))) = le_bytes sz v) as Hbe.
  { unfold be_val. pose proof (le_bytes_val (reverse (le_bytes sz v))) as H.
    rewrite length_reverse, le_bytes_length in H. rewrite H.
    - apply reverse_involutive.
    - apply Forall_reverse, le_bytes_bytes. }
  destruct host, to; simpl; intros Hr.
  - simplify_eq. done.
  - rewrite (Hrev Hr). split; [|done]. unfold be_bytes. rewrite <- Hbe at 2.
    by rewrite reverse_involutive.
  - rewrite (Hrev Hr). split; [|done]. unfold be_bytes. done.
  - simplify_eq. done.
Qed.

Lemma byte_swap_defined host to sz v :
  sz ∈ [1; 2; 4; 8]%nat -> is_Some (byte_swap host to sz v).
Proof.
  intros Hsz. unfold byte_swap. rewrite bool_decide_eq_true_2 by done.
  unfold do_byte_swap, swap_bytes.
  rewrite !elem_of_cons, elem_of_nil in Hsz.
  destruct host, to; destruct Hsz as [->|[->|[->|[->|[]]]]]; eauto.
Qed.

(** [C34] The byte swap made of masks and shifts, at each of its four widths, is the
    reference definition: read the bytes of the value in the other order. *)
Theorem swap_bytes_is_reversal sz v :
  sz ∈ [1; 2; 4; 8]%nat -> in_u (8 * Z.of_nat sz) v -> swap_bytes sz v = Some (be_val (le_bytes sz v)).
Proof.
  intros Hsz Hv. assert (is_Some (swap_bytes sz v)) as [r Hr].
  { rewrite !elem_of_cons, elem_of_nil in Hsz. destruct Hsz as [->|[->|[->|[->|[]]]]]; by eexists. }
  by rewrite Hr, <- (swap_bytes_reverse sz v r).
Qed.

Lemma swap_bytes_is_reversal_witness : swap_bytes 4 305419896 = Some (be_val (le_bytes 4 305419896)).
Proof. apply (swap_bytes_is_reversal 4); [by apply (bool_decide_unpack _)|by split]. Defined.
