(* ===== verification/Events.v ===== *)
(** * Event packs

    Models [chaos/common/event/evt_desc]: the 1024-byte event pack of
    [EventDescriptor] with its bit-field header, the alert and instrument
    descriptors that fill it and the [EventFactory] that rebuilds a descriptor
    from a received pack.  Every load, store and [memcpy] on the pack is a
    bounded access of [Prelude]: [None] is an access outside of the array.  The
    host is little endian ([BOOST_LITTLE_ENDIAN]) and allocates bit-fields from
    the least significant bit, as GCC and Clang do there. *)

From S2P Require Import Prelude Endian.

Local Open Scope Z_scope.

(** ** Constants of EventDescriptor.h *)

Definition EVENT_DATA_BYTE_LENGTH : nat := 1024.
Definition EVT_HEADER_BYTE_LENGTH : nat := 4.
Definition EVT_DATA_MAX_BYTE_LENGTH : Z := 1019.
Definition EVT_SUB_CODE_OFFSET : nat := 5.
Definition EVT_SUB_CODE_PRIORITY_OFFSET : nat := 7.
Definition EVT_IDENTIFICATION_LENGTH_INFO_OFFSET : nat := 9.
Definition EVT_IDENTIFICATION_VALUE_INFO_OFFSET : nat := 10.
Definition EVT_ALERT_DEFAULT_PRIORITY : Z := 63.
Definition EVT_INSTRUMENT_DEFAULT_PRIORITY : Z := 31.

Definition host_endian : endianness := little_endian.

(** [typedef enum EventType] *)
Inductive EventType :=
  | EventTypeAlert | EventTypeInstrument | EventTypeCommand | EventTypeCustom.

Definition EventType_num (t : EventType) : Z :=
  match t with
  | EventTypeAlert => 0 | EventTypeInstrument => 1
  | EventTypeCommand => 2 | EventTypeCustom => 3
  end.

(** [typedef enum EventDataType] *)
Inductive EventDataType :=
  | EventDataInt8 | EventDataInt16 | EventDataInt32 | EventDataInt64
  | EventDataDouble | EventDataCString | EventDataBinary.

Definition EventDataType_num (t : EventDataType) : Z :=
  match t with
  | EventDataInt8 => 0 | EventDataInt16 => 1 | EventDataInt32 => 2
  | EventDataInt64 => 3 | EventDataDouble => 4 | EventDataCString => 5
  | EventDataBinary => 6
  end.

(** [struct EventHeader]: bit-fields of 16, 3 and 13 bits in one 32-bit word. *)
Record EventHeader := mkEventHeader { sign : Z; version : Z; hlength : Z }.

Definition EventHeader_pack (h : EventHeader) : Z :=
  Z.lor (Z.lor (Z.land (sign h) 0xffff)
               (Z.shiftl (Z.land (version h) 0x7) 16))
        (Z.shiftl (Z.land (hlength h) 0x1fff) 19).

Definition EventHeader_unpack (w : Z) : EventHeader :=
  {| sign := Z.land w 0xffff;
     version := Z.land (Z.shiftr w 16) 0x7;
     hlength := Z.land (Z.shiftr w 19) 0x1fff |}.

(** [struct EventTypeAndPriority]: bit-fields of 2 and 6 bits in one byte. *)
Record EventTypeAndPriority := mkTypeAndPriority { ttype : Z; tpriority : Z }.

Definition TypeAndPriority_pack (t : EventTypeAndPriority) : Z :=
  Z.lor (Z.land (ttype t) 0x3) (Z.shiftl (Z.land (tpriority t) 0x3f) 2).

Definition TypeAndPriority_unpack (w : Z) : EventTypeAndPriority :=
  {| ttype := Z.land w 0x3; tpriority := Z.land (Z.shiftr w 2) 0x3f |}.

(** ** [class EventDescriptor]

    The members [tmp8] and [tmp32] are scratch space written before each read, so
    only the type, the priority and the pack itself are state. *)
Record EventDescriptor := mkEvent {
  instanceType : EventType;
  instancePriority : Z;
  eventData : list Z }.

Definition set_eventData (e : EventDescriptor) (d : list Z) : EventDescriptor :=
  {| instanceType := instanceType e; instancePriority := instancePriority e; eventData := d |}.

(** A load and a store of an unsigned integer of [n] bytes, converted between the
    host and the little-endian order of the pack. *)
Definition load_le (buf : list Z) (off n : nat) : option Z :=
  bs ← buf_read buf off n;
  byte_swap little_endian host_endian n (host_val host_endian bs).

Definition store_le (buf : list Z) (off n : nat) (v : Z) : option (list Z) :=
  r ← byte_swap host_endian little_endian n v;
  buf_write buf off (host_bytes host_endian n r).

Definition initData (e : EventDescriptor) : option EventDescriptor :=
  let data := replicate EVENT_DATA_BYTE_LENGTH 0 in
  let header := mkEventHeader 0x4345 1 5 in
  data ← store_le data 0 4 (EventHeader_pack header);
  let typeAndPriority := mkTypeAndPriority (EventType_num (instanceType e)) (instancePriority e) in
  data ← store_le data EVT_HEADER_BYTE_LENGTH 1 (TypeAndPriority_pack typeAndPriority);
  Some (set_eventData e data).

(** The constructor; the array is uninitialised until [initData] clears it. *)
Definition new_EventDescriptor (t : EventType) (prio : Z) : option EventDescriptor :=
  initData (mkEvent t prio []).

Definition getEventHeaderVersion (e : EventDescriptor) : option Z :=
  w ← load_le (eventData e) 0 4; Some (version (EventHeader_unpack w)).

(** The parameter is a [uint8_t]: callers' wider sizes are converted. *)
Definition setEventDataLength (e : EventDescriptor) (newSize : Z) : option EventDescriptor :=
  w ← load_le (eventData e) 0 4;
  let h := EventHeader_unpack w in
  d ← store_le (eventData e) 0 4
        (EventHeader_pack (mkEventHeader (sign h) (version h) (u8 newSize)));
  Some (set_eventData e d).

Definition getEventDataLength (e : EventDescriptor) : option Z :=
  w ← load_le (eventData e) 0 4; Some (hlength (EventHeader_unpack w)).

Definition getEventData (e : EventDescriptor) : list Z := eventData e.

(** [memcpy(eventData, serializedEvent, length)] *)
Definition setEventData (e : EventDescriptor) (serializedEvent : list Z) (len : nat)
  : option EventDescriptor :=
  src ← buf_read serializedEvent 0 len;
  d ← buf_write (eventData e) 0 src;
  Some (set_eventData e d).

Definition getEventType (e : EventDescriptor) : option Z :=
  w ← load_le (eventData e) EVT_HEADER_BYTE_LENGTH 1; Some (ttype (TypeAndPriority_unpack w)).

Definition getEventPriority (e : EventDescriptor) : option Z :=
  w ← load_le (eventData e) EVT_HEADER_BYTE_LENGTH 1; Some (tpriority (TypeAndPriority_unpack w)).

Definition setSubCode (e : EventDescriptor) (subCode : Z) : option EventDescriptor :=
  d ← store_le (eventData e) EVT_SUB_CODE_OFFSET 2 (u16 subCode); Some (set_eventData e d).

Definition getSubCode (e : EventDescriptor) : option Z :=
  load_le (eventData e) EVT_SUB_CODE_OFFSET 2.

Definition setSubCodePriority (e : EventDescriptor) (p : Z) : option EventDescriptor :=
  d ← store_le (eventData e) EVT_SUB_CODE_PRIORITY_OFFSET 2 (u16 p); Some (set_eventData e d).

Definition getSubCodePriority (e : EventDescriptor) : option Z :=
  load_le (eventData e) EVT_SUB_CODE_PRIORITY_OFFSET 2.

(** A plain one-byte load. *)
Definition load_byte (buf : list Z) (off : nat) : option Z := buf !! off.

Definition getIdentificationlength (e : EventDescriptor) : option Z :=
  load_byte (eventData e) EVT_IDENTIFICATION_LENGTH_INFO_OFFSET.

(** [identification] is [None] for a null pointer, else the memory it points to. *)
Definition setSenderIdentification (e : EventDescriptor) (identification : option (list Z))
    (identificationLength : Z) : option (EventDescriptor * Z) :=
  d ← buf_write (eventData e) EVT_IDENTIFICATION_LENGTH_INFO_OFFSET [identificationLength];
  d ← match identification with
      | Some src =>
          if 0 <? identificationLength
          then bs ← buf_read src 0 (Z.to_nat identificationLength);
               buf_write d EVT_IDENTIFICATION_VALUE_INFO_OFFSET bs
          else Some d
      | None => Some d
      end;
  Some (set_eventData e d, identificationLength).

(** [None] (inner) is the null pointer; else the offset of the identifier. *)
Definition getIdentification (e : EventDescriptor) : option (option nat) :=
  n ← load_byte (eventData e) EVT_IDENTIFICATION_LENGTH_INFO_OFFSET;
  Some (if n =? 0 then None else Some EVT_IDENTIFICATION_VALUE_INFO_OFFSET).

(** A typed value: [*((T* )valuePtr)] loaded, converted and stored in [n] bytes. *)
Definition store_value (buf : list Z) (off n : nat) (valuePtr : list Z) : option (list Z) :=
  v ← buf_read valuePtr 0 n;
  store_le buf off n (host_val host_endian v).

(** The [switch] on the value type: the pack with the value and [dataDim]. *)
Definition write_value (d : list Z) (off : nat) (valueType : EventDataType)
    (valuePtr : list Z) (valueSize : nat) : option (list Z * nat) :=
  match valueType with
  | EventDataInt8 => d ← store_value d off 1 valuePtr; Some (d, 1%nat)
  | EventDataInt16 => d ← store_value d off 2 valuePtr; Some (d, 2%nat)
  | EventDataInt32 => d ← store_value d off 4 valuePtr; Some (d, 4%nat)
  | EventDataInt64 => d ← store_value d off 8 valuePtr; Some (d, 8%nat)
  | EventDataDouble => d ← store_value d off 8 valuePtr; Some (d, 8%nat)
  | EventDataCString | EventDataBinary =>
      bs ← buf_read valuePtr 0 valueSize; d ← buf_write d off bs; Some (d, valueSize)
  end.

Definition setIdentificationAndValueWithType (e : EventDescriptor)
    (identification : option (list Z)) (identificationLength : Z)
    (valueType : EventDataType) (valuePtr : list Z) (valueSize : nat) : option EventDescriptor :=
  '(e, idSize) ← setSenderIdentification e identification identificationLength;
  let base := (EVT_IDENTIFICATION_VALUE_INFO_OFFSET + Z.to_nat idSize)%nat in
  d ← buf_write (eventData e) base [EventDataType_num valueType];
  '(d, dataDim) ← write_value d (base + 1) valueType valuePtr valueSize;
  setEventDataLength (set_eventData e d)
    (Z.of_nat EVT_IDENTIFICATION_VALUE_INFO_OFFSET + Z.of_nat dataDim + idSize + 1).

Definition getEventValueType (e : EventDescriptor) : option Z :=
  idLen ← load_byte (eventData e) EVT_IDENTIFICATION_LENGTH_INFO_OFFSET;
  load_byte (eventData e) (EVT_IDENTIFICATION_VALUE_INFO_OFFSET + Z.to_nat idLen).

Definition getEventValueSize (e : EventDescriptor) : option Z :=
  idLen ← load_byte (eventData e) EVT_IDENTIFICATION_LENGTH_INFO_OFFSET;
  packDimension ← getEventDataLength e;
  Some (u16 (packDimension - (Z.of_nat EVT_IDENTIFICATION_LENGTH_INFO_OFFSET + idLen + 2))).

(** [getEventValue(valuePtr, size)]: [valuePtr] is [None] for null, else the
    destination object; [size_nonnull] tells whether [size] points to a variable.
    The result is the destination after the call and the value of [*size], when
    the call assigned them. *)
Definition getEventValue (e : EventDescriptor) (valuePtr : option (list Z)) (size_nonnull : bool)
  : option (option (list Z) * option Z) :=
  if (bool_decide (is_Some valuePtr) && negb size_nonnull)%bool then Some (valuePtr, None)
  else if negb size_nonnull then None
  else
    idLen ← load_byte (eventData e) EVT_IDENTIFICATION_LENGTH_INFO_OFFSET;
    packDimension ← getEventDataLength e;
    let size := u16 (packDimension - (Z.of_nat EVT_IDENTIFICATION_LENGTH_INFO_OFFSET + idLen + 2)) in
    dst ← valuePtr;
    src ← buf_read (eventData e)
            (EVT_IDENTIFICATION_VALUE_INFO_OFFSET + Z.to_nat idLen + 1) (Z.to_nat size);
    dst ← buf_write dst 0 src;
    Some (Some dst, Some size).

(** ** [class AlertEventDescriptor] *)

Definition EventAlertThresholdCrossing : Z := 0.
Definition EventAlertThresholdReset : Z := 1.
Definition EventAlertLastCodeNumber : Z := EventAlertThresholdReset.

Definition new_AlertEventDescriptor : option EventDescriptor :=
  new_EventDescriptor EventTypeAlert EVT_ALERT_DEFAULT_PRIORITY.

Definition setAlertCode (e : EventDescriptor) (alertCode : Z) : option EventDescriptor :=
  setSubCode e alertCode.
Definition getAlertCode (e : EventDescriptor) : option Z := getSubCode e.

Definition setAlertCustomCode (e : EventDescriptor) (c : Z) : option EventDescriptor :=
  setSubCode e (c + EventAlertLastCodeNumber).
Definition getAlertCustomCode (e : EventDescriptor) : option Z :=
  c ← getSubCode e; Some (u16 (c - EventAlertLastCodeNumber)).

Definition setAlert (e : EventDescriptor) (identifier : option (list Z)) (identifierLength : Z)
    (alertCode priority : Z) (valueType : EventDataType) (valuePtr : list Z) (valueSize : nat)
  : option EventDescriptor :=
  e ← setAlertCode e alertCode;
  e ← setSubCodePriority e priority;
  setIdentificationAndValueWithType e identifier identifierLength valueType valuePtr valueSize.

Definition setCustomAlert (e : EventDescriptor) (identifier : option (list Z)) (identifierLength : Z)
    (alertCustomCode priority : Z) (valueType : EventDataType) (valuePtr : list Z) (valueSize : nat)
  : option EventDescriptor :=
  e ← setAlertCustomCode e alertCustomCode;
  e ← setSubCodePriority e priority;
  setIdentificationAndValueWithType e identifier identifierLength valueType valuePtr valueSize.

(** ** [class InstrumentEventDescriptor] *)

Definition EventInstrumentInitialized : Z := 0.
Definition EventInstrumentDeinitialized : Z := 1.
Definition EventInstrumentStarted : Z := 2.
Definition EventInstrumentStopped : Z := 3.
Definition EventInstrumentNewScheduleDelay : Z := 4.
Definition EventInstrumentInputDatasetAttributeChanged : Z := 5.
Definition EventInstrumentHeartbeat : Z := 6.
Definition InstrumentLastCodeNumber : Z := EventInstrumentHeartbeat.

Definition new_InstrumentEventDescriptor : option EventDescriptor :=
  new_EventDescriptor EventTypeInstrument EVT_INSTRUMENT_DEFAULT_PRIORITY.

(** [strlen(instrumentID)] converted to the [uint8_t] length parameter. *)
Definition id_length (instrumentID : list Z) : Z := u8 (Z.of_nat (length instrumentID)).

Definition setNewScheduleDelay (e : EventDescriptor) (instrumentID : list Z) (newValue : Z)
  : option EventDescriptor :=
  e ← setSubCode e EventInstrumentNewScheduleDelay;
  e ← setSubCodePriority e 0;
  setIdentificationAndValueWithType e (Some instrumentID) (id_length instrumentID)
    EventDataInt64 (host_bytes host_endian 8 newValue) 0.

Definition setDatasetInputAttributeChanged (e : EventDescriptor) (instrumentID : list Z)
    (errorCode : Z) : option EventDescriptor :=
  e ← setSubCode e EventInstrumentInputDatasetAttributeChanged;
  e ← setSubCodePriority e 0;
  setIdentificationAndValueWithType e (Some instrumentID) (id_length instrumentID)
    EventDataInt16 (host_bytes host_endian 2 errorCode) 0.

Definition setEartbeat (e : EventDescriptor) (instrumentID : list Z) : option EventDescriptor :=
  let state := 0 in
  e ← setSubCode e EventInstrumentHeartbeat;
  e ← setSubCodePriority e 0;
  setIdentificationAndValueWithType e (Some instrumentID) (id_length instrumentID)
    EventDataInt8 (host_bytes host_endian 1 state) 0.

(** [setInstrument] throws a [CException] for the reserved codes. *)
Inductive event_result (A : Type) :=
  | EvOk (a : A)
  | EvThrow (code : Z)
  | EvUB.
Arguments EvOk {A} a. Arguments EvThrow {A} code. Arguments EvUB {A}.

Definition ev_of_option {A} (o : option A) : event_result A :=
  match o with Some a => EvOk a | None => EvUB end.

Definition setInstrument (e : EventDescriptor) (identifier : option (list Z)) (identifierLength : Z)
    (alertCode priority : Z) (valueType : EventDataType) (valuePtr : list Z) (valueSize : nat)
  : event_result EventDescriptor :=
  if alertCode <=? InstrumentLastCodeNumber then EvThrow 0
  else ev_of_option (
    e ← setSubCode e alertCode;
    e ← setSubCodePriority e priority;
    setIdentificationAndValueWithType e identifier identifierLength valueType valuePtr valueSize).

(** ** [EventFactory::getEventInstance]

    [serializedEvent] is [None] for a null pointer.  The 16 bits of the header are stored
    through a pointer to the one-byte [EventTypeAndPriority] object on the heap, a bounded
    access like the others. *)
Definition sizeof_EventTypeAndPriority : nat := 1.

Definition getEventInstance (serializedEvent : option (list Z)) (len : Z)
  : event_result EventDescriptor :=
  match serializedEvent with
  | None => EvThrow 0
  | Some ev =>
      if EVT_DATA_MAX_BYTE_LENGTH <? len then EvThrow 1
      else match buf_read ev 0 2 with
      | None => EvUB
      | Some sg =>
          if negb (host_val host_endian sg =? 0x4345) then EvThrow 2
          else match
            w ← load_le ev EVT_HEADER_BYTE_LENGTH 2;
            obj ← buf_write (replicate sizeof_EventTypeAndPriority 0) 0 (host_bytes host_endian 2 w);
            load_byte obj 0
          with
          | None => EvUB
          | Some t =>
              if ttype (TypeAndPriority_unpack t) =? 0
              then ev_of_option (r ← new_AlertEventDescriptor; setEventData r ev (Z.to_nat len))
              else EvThrow 3
          end
      end
  end.

(** ** Lemmas *)

#[global] Arguments EventHeader_unpack : simpl never.
#[global] Arguments EventHeader_pack : simpl never.
#[global] Arguments TypeAndPriority_unpack : simpl never.
#[global] Arguments TypeAndPriority_pack : simpl never.

(** On a little-endian host the conversions are the identity on the four sizes. *)
Lemma load_le_val buf off n :
  n ∈ [1; 2; 4; 8]%nat -> load_le buf off n = le_val <$> buf_read buf off n.
Proof.
  intros Hn. unfold load_le, byte_swap. destruct (buf_read buf off n); [|done]. simpl.
  by rewrite bool_decide_eq_true_2.
Qed.

Lemma store_le_bytes buf off n v :
  n ∈ [1; 2; 4; 8]%nat -> store_le buf off n v = buf_write buf off (le_bytes n v).
Proof. intros Hn. unfold store_le, byte_swap. by rewrite bool_decide_eq_true_2. Qed.

Ltac size_mem := rewrite !elem_of_cons; auto 10.

Lemma load_store_eq buf off n v buf' :
  n ∈ [1; 2; 4; 8]%nat -> in_u (8 * Z.of_nat n) v ->
  store_le buf off n v = Some buf' -> load_le buf' off n = Some v.
Proof.
  intros Hn Hv. rewrite store_le_bytes, load_le_val by done. intros Hw.
  rewrite (buf_read_write_eq _ _ _ _ _ Hw) by by rewrite le_bytes_length.
  simpl. f_equal. apply le_val_bytes. unfold in_u in Hv. by rewrite <- pow2_pow256.
Qed.

Lemma load_le_frame buf off bs buf' off2 n :
  n ∈ [1; 2; 4; 8]%nat -> buf_write buf off bs = Some buf' ->
  (off2 + n <= off \/ off + length bs <= off2)%nat -> load_le buf' off2 n = load_le buf off2 n.
Proof.
  intros Hn Hw Hd. rewrite !load_le_val by done.
  by rewrite (buf_read_write_ne _ _ _ _ _ _ Hw Hd).
Qed.

Lemma load_byte_read buf off : load_byte buf off = (bs ← buf_read buf off 1; bs !! 0%nat).
Proof.
  unfold load_byte, buf_read. case_decide; simpl.
  - rewrite lookup_take_lt, lookup_drop by lia. f_equal. lia.
  - rewrite lookup_ge_None_2 by lia. done.
Qed.

Lemma load_byte_frame buf off bs buf' i :
  buf_write buf off bs = Some buf' -> (i < off \/ off + length bs <= i)%nat ->
  load_byte buf' i = load_byte buf i.
Proof.
  intros Hw Hd. unfold load_byte. rewrite (buf_write_lookup _ _ _ _ _ Hw).
  rewrite decide_False by lia. done.
Qed.

Lemma load_byte_write buf off b bs buf' :
  buf_write buf off (b :: bs) = Some buf' -> load_byte buf' off = Some b.
Proof.
  intros Hw. unfold load_byte. rewrite (buf_write_lookup _ _ _ _ _ Hw).
  simpl. rewrite decide_True by lia. by rewrite Nat.sub_diag.
Qed.

(** Bit-field packing. *)
Lemma land_ones_small v w m : 0 <= w -> m = Z.ones w -> in_u w v -> Z.land v m = v.
Proof. intros Hw -> Hv. rewrite Z.land_ones by done. by apply Z.mod_small. Qed.

Lemma field_low a b n : 0 <= n -> in_u n a -> Z.land (a + b * 2 ^ n) (Z.ones n) = a.
Proof.
  intros Hn Ha. rewrite Z.land_ones by done. rewrite Z.mod_add by lia. by apply Z.mod_small.
Qed.

Lemma field_high a b n : 0 <= n -> in_u n a -> Z.shiftr (a + b * 2 ^ n) n = b.
Proof.
  intros Hn Ha. rewrite Z.shiftr_div_pow2 by done. rewrite Z.div_add by lia.
  rewrite Z.div_small by done. lia.
Qed.

Lemma EventHeader_pack_sum s v l :
  in_u 16 s -> in_u 3 v -> in_u 13 l ->
  EventHeader_pack (mkEventHeader s v l) = s + (v + l * 2 ^ 3) * 2 ^ 16.
Proof.
  intros Hs Hv Hl. unfold EventHeader_pack. simpl.
  rewrite (land_ones_small s 16), (land_ones_small v 3), (land_ones_small l 13) by done.
  unfold in_u in *. lor_add. lia.
Qed.

Lemma EventHeader_roundtrip s v l :
  in_u 16 s -> in_u 3 v -> in_u 13 l ->
  EventHeader_unpack (EventHeader_pack (mkEventHeader s v l)) = mkEventHeader s v l.
Proof.
  intros Hs Hv Hl. rewrite EventHeader_pack_sum by done. unfold EventHeader_unpack.
  assert (Z.shiftr (s + (v + l * 2 ^ 3) * 2 ^ 16) 16 = v + l * 2 ^ 3) as E16
    by (apply field_high; [lia|done]).
  assert (Z.shiftr (s + (v + l * 2 ^ 3) * 2 ^ 16) 19 = l) as E19.
  { change 19 with (16 + 3). rewrite <- Z.shiftr_shiftr by lia. rewrite E16.
    by apply field_high. }
  rewrite E16, E19. f_equal.
  - change 65535 with (Z.ones 16). by apply field_low.
  - change 7 with (Z.ones 3). by apply field_low.
  - by apply (land_ones_small l 13).
Qed.

Lemma EventHeader_pack_range h : in_u 32 (EventHeader_pack h).
Proof.
  destruct h as [s v l].
  assert (forall x w m, 0 <= w -> m = Z.ones w -> in_u w (Z.land x m)) as Hland.
  { intros x w m Hw ->. rewrite Z.land_ones by done. by apply uwrap_range. }
  pose proof (Hland s 16 0xffff ltac:(lia) eq_refl) as Hs.
  pose proof (Hland v 3 0x7 ltac:(lia) eq_refl) as Hv.
  pose proof (Hland l 13 0x1fff ltac:(lia) eq_refl) as Hl.
  assert (EventHeader_pack (mkEventHeader s v l) =
          EventHeader_pack (mkEventHeader (Z.land s 0xffff) (Z.land v 7) (Z.land l 0x1fff))) as ->.
  { unfold EventHeader_pack. simpl.
    by rewrite <- !Z.land_assoc, !Z.land_diag. }
  rewrite EventHeader_pack_sum by done. unfold in_u in *. lia.
Qed.

Lemma EventHeader_unpack_range w :
  in_u 16 (sign (EventHeader_unpack w)) /\ in_u 3 (version (EventHeader_unpack w)).
Proof.
  unfold EventHeader_unpack. cbn [sign version].
  change 65535 with (Z.ones 16). change 7 with (Z.ones 3).
  rewrite !Z.land_ones by lia. split; apply uwrap_range; lia.
Qed.

Lemma TypeAndPriority_roundtrip t p :
  in_u 2 t -> in_u 6 p ->
  TypeAndPriority_unpack (TypeAndPriority_pack (mkTypeAndPriority t p)) = mkTypeAndPriority t p
  /\ in_u 8 (TypeAndPriority_pack (mkTypeAndPriority t p)).
Proof.
  intros Ht Hp. unfold TypeAndPriority_pack, TypeAndPriority_unpack. simpl.
  rewrite (land_ones_small t 2), (land_ones_small p 6) by done.
  rewrite lor_shiftl_add by (unfold in_u in *; lia).
  rewrite field_high by done. rewrite (land_ones_small p 6) by done.
  change 3 with (Z.ones 2). rewrite field_low by done.
  split; [done|]. unfold in_u in *. lia.
Qed.

(** *** The invariant of a pack *)

Definition wf_event (e : EventDescriptor) : Prop :=
  length (eventData e) = EVENT_DATA_BYTE_LENGTH /\ bytes (eventData e).

Lemma wf_set e d : length d = EVENT_DATA_BYTE_LENGTH -> bytes d -> wf_event (set_eventData e d).
Proof. by split. Qed.

(** A store inside the pack succeeds and keeps the invariant. *)
Lemma wf_write e off bs :
  wf_event e -> bytes bs -> (off + length bs <= EVENT_DATA_BYTE_LENGTH)%nat ->
  exists d, buf_write (eventData e) off bs = Some d /\ wf_event (set_eventData e d).
Proof.
  intros [HL HB] Hbs Hoff. destruct (buf_write_ok (eventData e) off bs) as [d Hd].
  { by rewrite HL. }
  exists d. split; [done|]. split; simpl.
  - by rewrite (buf_write_length _ _ _ _ Hd).
  - exact (buf_write_bytes _ _ _ _ HB Hbs Hd).
Qed.

(** The bytes a value of type [vt] takes in the pack. *)
Definition value_dim (vt : EventDataType) (valueSize : nat) : nat :=
  match vt with
  | EventDataInt8 => 1 | EventDataInt16 => 2 | EventDataInt32 => 4
  | EventDataInt64 | EventDataDouble => 8
  | EventDataCString | EventDataBinary => valueSize
  end.

(** Storing a typed value copies its object representation. *)
Lemma store_value_copy buf off n vp :
  n ∈ [1; 2; 4; 8]%nat -> bytes vp ->
  store_value buf off n vp = (bs ← buf_read vp 0 n; buf_write buf off bs).
Proof.
  intros Hn Hvp. unfold store_value. destruct (buf_read vp 0 n) as [v|] eqn:Hv; [|done]. simpl.
  rewrite store_le_bytes by done. f_equal.
  rewrite <- (buf_read_length _ _ _ _ Hv). apply le_bytes_val. by eapply buf_read_bytes.
Qed.

Lemma write_value_copy d off vt vp vs :
  bytes vp ->
  write_value d off vt vp vs =
    (bs ← buf_read vp 0 (value_dim vt vs); d ← buf_write d off bs; Some (d, value_dim vt vs)).
Proof.
  intros Hvp.
  destruct vt; simpl; rewrite ?store_value_copy by (size_mem || done); try done;
    match goal with |- context [buf_read vp 0 ?n] => by destruct (buf_read vp 0 n) end.
Qed.

(** The first two bytes of a pack, as [EventFactory] loads them. *)
Definition event_signature (e : EventDescriptor) : option Z :=
  host_val host_endian <$> buf_read (eventData e) 0 2.

Lemma event_signature_word e w :
  bytes (eventData e) ->
  buf_read (eventData e) 0 4 = Some w -> event_signature e = Some (le_val w mod 65536).
Proof.
  intros HB Hw. unfold event_signature.
  assert (buf_read (eventData e) 0 2 = Some (take 2 w)) as ->.
  { revert Hw. unfold buf_read. repeat case_decide; intros; simplify_eq; [|lia].
    by rewrite take_take. }
  simpl_opt. f_equal. cbn [host_val host_endian].
  assert (bytes w) as HBw by by eapply buf_read_bytes.
  rewrite <- (le_bytes_val w HBw) at 1. rewrite (buf_read_length _ _ _ _ Hw).
  rewrite le_bytes_take by lia. by rewrite le_val_bytes_mod.
Qed.

(** The header of a pack after [setEventDataLength]. *)
Lemma setEventDataLength_spec e n :
  wf_event e ->
  exists e', setEventDataLength e n = Some e' /\ wf_event e' /\
    getEventDataLength e' = Some (u8 n) /\
    getEventHeaderVersion e' = getEventHeaderVersion e /\
    event_signature e' = event_signature e /\
    (forall i, (4 <= i)%nat -> eventData e' !! i = eventData e !! i).
Proof.
  intros Hwf. pose proof Hwf as [HL HB]. unfold setEventDataLength.
  assert (4%nat ∈ [1; 2; 4; 8]%nat) as H4 by size_mem.
  rewrite load_le_val by done.
  assert (exists w, buf_read (eventData e) 0 4 = Some w) as [w Hw].
  { unfold buf_read. rewrite HL. rewrite decide_True by (unfold EVENT_DATA_BYTE_LENGTH; lia). eauto. }
  rewrite Hw. simpl_opt. rewrite store_le_bytes by done.
  set (h := EventHeader_pack _).
  destruct (wf_write e 0 (le_bytes 4 h) Hwf (le_bytes_bytes _ _)) as (d & Hd & Hwf').
  { rewrite le_bytes_length. unfold EVENT_DATA_BYTE_LENGTH. lia. }
  rewrite Hd. simpl_opt. eexists. split; [done|]. split; [done|].
  assert (load_le d 0 4 = Some h) as Hload.
  { eapply load_store_eq; [done|apply EventHeader_pack_range|].
    rewrite store_le_bytes by done. exact Hd. }
  unfold getEventDataLength, getEventHeaderVersion. cbn [eventData set_eventData].
  rewrite Hload. simpl_opt. rewrite load_le_val, Hw by done. simpl_opt. subst h.
  assert (in_u 8 (u8 n)) as Hn by (apply uwrap_range; lia).
  rewrite EventHeader_roundtrip; cbn [sign version hlength].
  - split; [done|]. split; [done|]. split.
    + rewrite (event_signature_word e w) by done.
      set (h := EventHeader_pack _) in *.
      rewrite (event_signature_word _ (le_bytes 4 h)).
      * rewrite le_val_bytes by (apply EventHeader_pack_range). subst h.
        rewrite EventHeader_pack_sum.
        -- rewrite Z.mod_add by lia. unfold EventHeader_unpack. cbn [sign].
           change 65535 with (Z.ones 16). rewrite Z.land_ones by lia.
           f_equal. by rewrite Z.mod_mod.
        -- apply EventHeader_unpack_range.
        -- apply EventHeader_unpack_range.
        -- unfold in_u in *. lia.
      * destruct Hwf'. done.
      * eapply buf_read_write_eq; [exact Hd|]. by rewrite le_bytes_length.
    + intros i Hi. rewrite (buf_write_lookup _ _ _ _ _ Hd). rewrite le_bytes_length.
      rewrite decide_False by lia. done.
  - apply EventHeader_unpack_range.
  - apply EventHeader_unpack_range.
  - unfold in_u in *. lia.
Qed.

Lemma buf_read_zero src n : (n <= length src)%nat -> buf_read src 0 n = Some (take n src).
Proof. intros Hn. unfold buf_read. rewrite decide_True by lia. by rewrite drop_0. Qed.

(** Facts about the bytes of the pack that a later store leaves alone. *)
Definition same_outside (off n : nat) (d d' : list Z) : Prop :=
  length d' = length d /\ forall i, (i < off \/ off + n <= i)%nat -> d' !! i = d !! i.

Lemma write_same_outside d off bs d' :
  buf_write d off bs = Some d' -> same_outside off (length bs) d d'.
Proof.
  intros Hw. split; [by eapply buf_write_length|]. intros i Hi.
  rewrite (buf_write_lookup _ _ _ _ _ Hw). rewrite decide_False by lia. done.
Qed.

Lemma buf_read_same d d' off n off2 m :
  same_outside off n d d' -> (off2 + m <= off \/ off + n <= off2)%nat ->
  buf_read d' off2 m = buf_read d off2 m.
Proof. intros [HL H] Hd. apply buf_read_ext; [done|]. intros i Hi. apply H. lia. Qed.

(** The identification written by [setSenderIdentification]. *)
Lemma setSenderIdentification_spec e id idl :
  wf_event e -> bytes id -> in_u 8 idl -> (Z.to_nat idl <= length id)%nat ->
  exists e', setSenderIdentification e (Some id) idl = Some (e', idl) /\ wf_event e' /\
    eventData e' !! EVT_IDENTIFICATION_LENGTH_INFO_OFFSET = Some idl /\
    buf_read (eventData e') EVT_IDENTIFICATION_VALUE_INFO_OFFSET (Z.to_nat idl)
      = Some (take (Z.to_nat idl) id) /\
    (forall i, (i < 9)%nat -> eventData e' !! i = eventData e !! i).
Proof.
  intros Hwf Hid Hidl Hlen. unfold in_u in Hidl. unfold setSenderIdentification.
  destruct (wf_write e EVT_IDENTIFICATION_LENGTH_INFO_OFFSET [idl] Hwf) as (d & Hd & Hwf1).
  { apply Forall_singleton. unfold is_byte. lia. }
  { vm_compute. lia. }
  rewrite Hd. simpl_opt.
  assert (d !! EVT_IDENTIFICATION_LENGTH_INFO_OFFSET = Some idl) as Hlenbyte
    by exact (load_byte_write _ _ _ _ _ Hd).
  destruct (write_same_outside _ _ _ _ Hd) as [HLd Hout]. simpl in Hout.
  destruct (0 <? idl) eqn:Hpos; reflect_bool.
  - rewrite buf_read_zero by done. simpl_opt.
    destruct (wf_write (set_eventData e d) EVT_IDENTIFICATION_VALUE_INFO_OFFSET
                (take (Z.to_nat idl) id) Hwf1) as (d2 & Hd2 & Hwf2).
    { by apply bytes_take. }
    { rewrite length_take_le by done.
      unfold EVT_IDENTIFICATION_VALUE_INFO_OFFSET, EVENT_DATA_BYTE_LENGTH. lia. }
    cbn [eventData set_eventData] in Hd2. rewrite Hd2. simpl_opt.
    eexists. split; [done|]. split; [exact Hwf2|]. cbn [eventData set_eventData].
    destruct (write_same_outside _ _ _ _ Hd2) as [HLd2 Hout2].
    unfold EVT_IDENTIFICATION_VALUE_INFO_OFFSET, EVT_IDENTIFICATION_LENGTH_INFO_OFFSET in *.
    repeat split.
    + rewrite Hout2 by lia. done.
    + eapply buf_read_write_eq; [exact Hd2|]. by rewrite length_take_le.
    + intros i Hi. rewrite Hout2, Hout by lia. done.
  - simpl_opt. eexists. split; [done|]. split; [exact Hwf1|]. cbn [eventData set_eventData].
    replace (Z.to_nat idl) with 0%nat by lia. repeat split; [done| |].
    + unfold buf_read. destruct Hwf1 as [HL _]. cbn [eventData set_eventData] in HL.
      rewrite HL. rewrite decide_True by (vm_compute; lia). done.
    + intros i Hi. apply Hout. unfold EVT_IDENTIFICATION_LENGTH_INFO_OFFSET. lia.
Qed.

(** The whole pack: identification, type, value and (8-bit) length. *)
Lemma setIdentificationAndValue_spec e id idl vt vp vs :
  wf_event e -> bytes id -> bytes vp -> in_u 8 idl ->
  (Z.to_nat idl <= length id)%nat -> (value_dim vt vs <= length vp)%nat ->
  (11 + Z.to_nat idl + value_dim vt vs <= EVENT_DATA_BYTE_LENGTH)%nat ->
  exists e', setIdentificationAndValueWithType e (Some id) idl vt vp vs = Some e' /\ wf_event e' /\
    getIdentificationlength e' = Some idl /\
    buf_read (eventData e') EVT_IDENTIFICATION_VALUE_INFO_OFFSET (Z.to_nat idl)
      = Some (take (Z.to_nat idl) id) /\
    getEventValueType e' = Some (EventDataType_num vt) /\
    buf_read (eventData e') (11 + Z.to_nat idl) (value_dim vt vs)
      = Some (take (value_dim vt vs) vp) /\
    getEventDataLength e' = Some (u8 (11 + idl + Z.of_nat (value_dim vt vs))) /\
    event_signature e' = event_signature e /\
    (forall i, (4 <= i < 9)%nat -> eventData e' !! i = eventData e !! i).
Proof.
  intros Hwf Hid Hvp Hidl Hlen Hdim Htot. unfold setIdentificationAndValueWithType.
  destruct (setSenderIdentification_spec e id idl) as (e1 & -> & Hwf1 & HLb & Hidb & Hfr1); try done.
  simpl_opt. unfold EVENT_DATA_BYTE_LENGTH in Htot.
  destruct (wf_write e1 (EVT_IDENTIFICATION_VALUE_INFO_OFFSET + Z.to_nat idl)
              [EventDataType_num vt] Hwf1) as (d2 & Hd2 & Hwf2).
  { apply Forall_singleton. unfold is_byte. destruct vt; simpl; lia. }
  { unfold EVENT_DATA_BYTE_LENGTH, EVT_IDENTIFICATION_VALUE_INFO_OFFSET. simpl. lia. }
  rewrite Hd2. simpl_opt. rewrite write_value_copy by done.
  rewrite buf_read_zero by done. simpl_opt.
  destruct (wf_write (set_eventData e1 d2)
              (EVT_IDENTIFICATION_VALUE_INFO_OFFSET + Z.to_nat idl + 1)
              (take (value_dim vt vs) vp) Hwf2) as (d3 & Hd3 & Hwf3).
  { by apply bytes_take. }
  { rewrite length_take_le by done.
    unfold EVENT_DATA_BYTE_LENGTH, EVT_IDENTIFICATION_VALUE_INFO_OFFSET. lia. }
  cbn [eventData set_eventData] in Hd3. rewrite Hd3. simpl_opt.
  replace (Z.of_nat EVT_IDENTIFICATION_VALUE_INFO_OFFSET + Z.of_nat (value_dim vt vs) + idl + 1)
    with (11 + idl + Z.of_nat (value_dim vt vs))
    by (unfold EVT_IDENTIFICATION_VALUE_INFO_OFFSET; lia).
  change (set_eventData (set_eventData e1 d2) d3) with (set_eventData e1 d3) in *.
  destruct (setEventDataLength_spec (set_eventData e1 d3)
              (11 + idl + Z.of_nat (value_dim vt vs)) Hwf3)
    as (e' & He' & Hwf' & Hlen' & _ & Hsg' & Hfr').
  change (set_eventData (set_eventData e1 d2) d3) with (set_eventData e1 d3).
  exists e'. split; [exact He'|]. split; [exact Hwf'|].
  cbn [eventData set_eventData] in Hfr'.
  destruct (write_same_outside _ _ _ _ Hd2) as [HL2 Hout2]. simpl in Hout2.
  destruct (write_same_outside _ _ _ _ Hd3) as [HL3 Hout3].
  assert (length (eventData e') = length d3) as HL' by (destruct Hwf', Hwf3; simpl in *; congruence).
  unfold EVT_IDENTIFICATION_VALUE_INFO_OFFSET, EVT_IDENTIFICATION_LENGTH_INFO_OFFSET in *.
  assert (load_byte (eventData e') 9 = Some idl) as Hidlen.
  { unfold load_byte. rewrite Hfr', Hout3, Hout2 by lia. done. }
  assert (d2 !! (10 + Z.to_nat idl)%nat = Some (EventDataType_num vt)) as Hty
    by exact (load_byte_write _ _ _ _ _ Hd2).
  repeat split; try done.
  - rewrite <- Hidb. apply buf_read_ext; [congruence|].
    intros i Hi. rewrite Hfr', Hout3, Hout2 by lia. done.
  - unfold getEventValueType, EVT_IDENTIFICATION_VALUE_INFO_OFFSET.
    change EVT_IDENTIFICATION_LENGTH_INFO_OFFSET with 9%nat. rewrite Hidlen. simpl_opt.
    unfold load_byte. rewrite Hfr', Hout3 by lia. done.
  - rewrite <- (buf_read_write_eq _ _ _ _ (value_dim vt vs) Hd3) by by rewrite length_take_le.
    replace (10 + Z.to_nat idl + 1)%nat with (11 + Z.to_nat idl)%nat by lia.
    apply buf_read_ext; [done|]. intros i Hi. apply Hfr'. lia.
  - rewrite Hsg'. unfold event_signature. cbn [eventData set_eventData]. f_equal.
    destruct Hwf as [HLe _], Hwf1 as [HLe1 _].
    apply buf_read_ext; [congruence|]. intros i Hi. rewrite Hout3, Hout2, Hfr1 by lia. done.
  - intros i Hi. rewrite Hfr', Hout3, Hout2, Hfr1 by lia. done.
Qed.

(** A 16-bit field of the pack. *)
Lemma store16_spec e off v :
  wf_event e -> (off + 2 <= EVENT_DATA_BYTE_LENGTH)%nat ->
  exists d, store_le (eventData e) off 2 (u16 v) = Some d /\ wf_event (set_eventData e d) /\
    load_le d off 2 = Some (u16 v) /\ same_outside off 2 (eventData e) d.
Proof.
  intros Hwf Hoff. assert (2%nat ∈ [1; 2; 4; 8]%nat) as H2 by size_mem.
  destruct (wf_write e off (le_bytes 2 (u16 v)) Hwf (le_bytes_bytes _ _)) as (d & Hd & Hwf').
  { by rewrite le_bytes_length. }
  assert (store_le (eventData e) off 2 (u16 v) = Some d) as Hs by by rewrite store_le_bytes.
  exists d. split; [done|]. split; [done|]. split.
  - eapply load_store_eq; [done|by apply uwrap_range|done].
  - pose proof (write_same_outside _ _ _ _ Hd) as H. by rewrite le_bytes_length in H.
Qed.

Lemma load_le_same d d' off n off2 m :
  m ∈ [1; 2; 4; 8]%nat -> same_outside off n d d' ->
  (off2 + m <= off \/ off + n <= off2)%nat -> load_le d' off2 m = load_le d off2 m.
Proof. intros. rewrite !load_le_val by done. by erewrite buf_read_same. Qed.

(** The constructor gives a well-formed pack with the protocol header. *)
Lemma new_EventDescriptor_spec t prio :
  in_u 6 prio ->
  exists e, new_EventDescriptor t prio = Some e /\ wf_event e /\
    event_signature e = Some 0x4345 /\ getEventHeaderVersion e = Some 1 /\
    getEventDataLength e = Some 5 /\
    getEventType e = Some (EventType_num t) /\ getEventPriority e = Some prio.
Proof.
  intros Hp. unfold new_EventDescriptor, initData. cbn [instanceType instancePriority].
  set (e0 := mkEvent t prio (replicate EVENT_DATA_BYTE_LENGTH 0)).
  assert (wf_event e0) as Hwf0.
  { split; [apply length_replicate|]. apply bytes_replicate. by split. }
  assert (1%nat ∈ [1; 2; 4; 8]%nat) as H1 by size_mem.
  assert (4%nat ∈ [1; 2; 4; 8]%nat) as H4 by size_mem.
  set (h := EventHeader_pack _).
  destruct (wf_write e0 0 (le_bytes 4 h) Hwf0 (le_bytes_bytes _ _)) as (d1 & Hd1 & Hwf1).
  { rewrite le_bytes_length. vm_compute. lia. }
  rewrite store_le_bytes by done. cbn [eventData e0] in Hd1. rewrite Hd1. simpl_opt.
  set (tp := TypeAndPriority_pack _).
  destruct (wf_write (set_eventData e0 d1) EVT_HEADER_BYTE_LENGTH (le_bytes 1 tp)
              Hwf1 (le_bytes_bytes _ _)) as (d2 & Hd2 & Hwf2).
  { rewrite le_bytes_length. vm_compute. lia. }
  rewrite store_le_bytes by done. cbn [eventData set_eventData] in Hd2. rewrite Hd2. simpl_opt.
  eexists. split; [done|]. split; [exact Hwf2|].
  destruct (TypeAndPriority_roundtrip (EventType_num t) prio) as [Htp Htpr]; [|done|].
  { destruct t; by vm_compute. }
  assert (load_le d2 EVT_HEADER_BYTE_LENGTH 1 = Some tp) as Ltp.
  { eapply load_store_eq; [done|exact Htpr|]. by rewrite store_le_bytes. }
  assert (load_le d2 0 4 = Some h) as Lh.
  { rewrite (load_le_frame _ _ _ _ _ _ H4 Hd2) by (vm_compute; lia).
    eapply load_store_eq; [done|apply EventHeader_pack_range|]. by rewrite store_le_bytes. }
  assert (buf_read d2 0 4 = Some (le_bytes 4 h)) as Rh.
  { rewrite (buf_read_write_ne _ _ _ _ _ _ Hd2) by (vm_compute; lia).
    eapply buf_read_write_eq; [exact Hd1|]. by rewrite le_bytes_length. }
  assert (EventHeader_unpack h = mkEventHeader 0x4345 1 5) as Hh by by apply EventHeader_roundtrip.
  split.
  { rewrite (event_signature_word _ (le_bytes 4 h)); [by vm_compute|by destruct Hwf2|exact Rh]. }
  unfold getEventHeaderVersion, getEventDataLength, getEventType, getEventPriority.
  cbn [eventData set_eventData]. rewrite Lh, Ltp. simpl_opt. fold tp in Htp. by rewrite Hh, Htp.
Qed.

(** What a reader of an alert pack sees. *)
Record alert_view (e : EventDescriptor) (id : list Z) (idl code prio : Z)
    (vt : EventDataType) (vp : list Z) (dim : nat) : Prop := {
  av_type : getEventType e = Some (EventType_num EventTypeAlert);
  av_eprio : getEventPriority e = Some EVT_ALERT_DEFAULT_PRIORITY;
  av_code : getAlertCode e = Some (u16 code);
  av_prio : getSubCodePriority e = Some (u16 prio);
  av_idlen : getIdentificationlength e = Some idl;
  av_id : buf_read (getEventData e) EVT_IDENTIFICATION_VALUE_INFO_OFFSET (Z.to_nat idl)
          = Some (take (Z.to_nat idl) id);
  av_vtype : getEventValueType e = Some (EventDataType_num vt);
  av_vdata : buf_read (getEventData e) (11 + Z.to_nat idl) dim = Some (take dim vp);
  av_len : getEventDataLength e = Some (u8 (11 + idl + Z.of_nat dim));
  av_sign : event_signature e = Some 0x4345 }.

Ltac frame_load H off n :=
  rewrite (load_le_same _ _ _ _ off n ltac:(size_mem) H) by (vm_compute; lia).

Lemma setAlert_view id idl code prio vt vp vs :
  bytes id -> bytes vp -> in_u 8 idl ->
  (Z.to_nat idl <= length id)%nat -> (value_dim vt vs <= length vp)%nat ->
  (11 + Z.to_nat idl + value_dim vt vs <= EVENT_DATA_BYTE_LENGTH)%nat ->
  exists e0 e, new_AlertEventDescriptor = Some e0 /\
    setAlert e0 (Some id) idl code prio vt vp vs = Some e /\ wf_event e /\
    alert_view e id idl code prio vt vp (value_dim vt vs).
Proof.
  intros Hid Hvp Hidl Hlen Hdim Htot.
  destruct (new_EventDescriptor_spec EventTypeAlert EVT_ALERT_DEFAULT_PRIORITY ltac:(done))
    as (e0 & Hnew & Hwf0 & Hsg0 & _ & _ & Hty0 & Hpr0).
  exists e0. unfold setAlert, setAlertCode, setSubCode, setSubCodePriority.
  destruct (store16_spec e0 EVT_SUB_CODE_OFFSET code Hwf0 ltac:(vm_compute; lia))
    as (d1 & Hd1 & Hwf1 & Hl1 & Hs1).
  rewrite Hd1. simpl_opt. cbn [eventData set_eventData].
  destruct (store16_spec (set_eventData e0 d1) EVT_SUB_CODE_PRIORITY_OFFSET prio Hwf1
              ltac:(vm_compute; lia)) as (d2 & Hd2 & Hwf2 & Hl2 & Hs2).
  cbn [eventData set_eventData] in Hd2. rewrite Hd2. simpl_opt.
  destruct (setIdentificationAndValue_spec (set_eventData (set_eventData e0 d1) d2)
              id idl vt vp vs) as (e & He & Hwf & H1 & H2 & H3 & H4 & H5 & H6 & H7); try done.
  exists e. split; [done|]. split; [exact He|]. split; [done|].
  cbn [eventData set_eventData] in *.
  assert (length (eventData e) = length d2) as HL by (destruct Hwf, Hwf2; simpl in *; congruence).
  assert (forall off n, n ∈ [1; 2; 4; 8]%nat -> (4 <= off)%nat -> (off + n <= 9)%nat ->
            load_le (eventData e) off n = load_le d2 off n) as Hload.
  { intros off n Hn Hlo Hhi. rewrite !load_le_val by done. f_equal.
    apply buf_read_ext; [done|]. intros i Hi. apply H7. lia. }
  split; try done.
  - unfold getEventType. rewrite Hload by (size_mem || (vm_compute; lia)).
    frame_load Hs2 EVT_HEADER_BYTE_LENGTH 1%nat. frame_load Hs1 EVT_HEADER_BYTE_LENGTH 1%nat. done.
  - unfold getEventPriority. rewrite Hload by (size_mem || (vm_compute; lia)).
    frame_load Hs2 EVT_HEADER_BYTE_LENGTH 1%nat. frame_load Hs1 EVT_HEADER_BYTE_LENGTH 1%nat. done.
  - unfold getAlertCode, getSubCode. rewrite Hload by (size_mem || (vm_compute; lia)).
    frame_load Hs2 EVT_SUB_CODE_OFFSET 2%nat. done.
  - unfold getSubCodePriority. rewrite Hload by (size_mem || (vm_compute; lia)). done.
  - rewrite H6. rewrite <- Hsg0. unfold event_signature. cbn [eventData set_eventData]. f_equal.
    erewrite (buf_read_same _ _ _ _ _ _ Hs2) by (vm_compute; lia).
    erewrite (buf_read_same _ _ _ _ _ _ Hs1) by (vm_compute; lia). done.
Qed.

Lemma getEventValueSize_view e id idl code prio vt vp dim :
  in_u 8 idl -> alert_view e id idl code prio vt vp dim ->
  getEventValueSize e = Some (u16 (u8 (11 + idl + Z.of_nat dim) - (11 + idl))).
Proof.
  intros Hidl V. unfold getEventValueSize.
  change (load_byte (eventData e) EVT_IDENTIFICATION_LENGTH_INFO_OFFSET)
    with (getIdentificationlength e).
  rewrite (av_idlen _ _ _ _ _ _ _ _ V), (av_len _ _ _ _ _ _ _ _ V). simpl_opt.
  do 2 f_equal. unfold EVT_IDENTIFICATION_LENGTH_INFO_OFFSET. lia.
Qed.

Lemma u8_fits idl dim : in_u 8 idl -> (11 + Z.to_nat idl + dim <= 255)%nat ->
  u8 (11 + idl + Z.of_nat dim) = 11 + idl + Z.of_nat dim.
Proof. intros H1 H2. apply uwrap_small. unfold in_u in *. lia. Qed.

(** What a reader of a pack of at most 255 bytes gets. *)
Lemma alert_value_read e id idl code prio vt vp dim dst :
  in_u 8 idl -> alert_view e id idl code prio vt vp dim -> (dim <= length vp)%nat ->
  (11 + Z.to_nat idl + dim <= 255)%nat -> (dim <= length dst)%nat ->
  getEventValueSize e = Some (Z.of_nat dim) /\
  getEventValue e (Some dst) true = Some (Some (take dim vp ++ drop dim dst), Some (Z.of_nat dim)).
Proof.
  intros Hidl V Hdim Htot Hdst.
  assert (getEventValueSize e = Some (Z.of_nat dim)) as Hsize.
  { rewrite (getEventValueSize_view _ _ _ _ _ _ _ _ Hidl V). f_equal.
    rewrite u8_fits by done. unfold in_u in Hidl.
    rewrite uwrap_small; [lia|]. unfold in_u. lia. }
  split; [done|]. unfold getEventValue. rewrite bool_decide_eq_true_2 by eauto. cbn [andb negb].
  pose proof Hsize as Hsize'. unfold getEventValueSize in Hsize'.
  assert (load_byte (eventData e) EVT_IDENTIFICATION_LENGTH_INFO_OFFSET = Some idl) as Hb
    by exact (av_idlen _ _ _ _ _ _ _ _ V).
  rewrite Hb, (av_len _ _ _ _ _ _ _ _ V) in *. simpl_opt. simpl_opt_in Hsize'.
  injection Hsize' as Hsize'. rewrite Hsize', Nat2Z.id.
  replace (EVT_IDENTIFICATION_VALUE_INFO_OFFSET + Z.to_nat idl + 1)%nat
    with (11 + Z.to_nat idl)%nat by (unfold EVT_IDENTIFICATION_VALUE_INFO_OFFSET; lia).
  pose proof (av_vdata _ _ _ _ _ _ _ _ V) as Hd. unfold getEventData in Hd. rewrite Hd. simpl_opt.
  unfold buf_write. rewrite length_take_le by done. rewrite decide_True by lia. simpl_opt.
  by rewrite Nat.add_0_l.
Qed.

Lemma setEventData_fresh ev len :
  bytes ev -> (len <= length ev)%nat -> (len <= EVENT_DATA_BYTE_LENGTH)%nat ->
  exists r e0, new_AlertEventDescriptor = Some e0 /\ setEventData e0 ev len = Some r /\
    wf_event r /\ (forall i, (i < len)%nat -> eventData r !! i = ev !! i).
Proof.
  intros Hb Hlen Hmax.
  destruct (new_EventDescriptor_spec EventTypeAlert EVT_ALERT_DEFAULT_PRIORITY ltac:(done))
    as (e0 & Hnew & Hwf0 & _).
  unfold setEventData. rewrite buf_read_zero by done. simpl_opt.
  destruct (wf_write e0 0 (take len ev) Hwf0) as (d & Hd & Hwf).
  { by apply bytes_take. }
  { by rewrite length_take_le. }
  exists (set_eventData e0 d), e0. rewrite Hd. split; [done|]. split; [done|]. split; [done|].
  intros i Hi. cbn [eventData set_eventData]. rewrite (buf_write_lookup _ _ _ _ _ Hd).
  rewrite length_take_le by done. rewrite decide_True by lia.
  rewrite lookup_take_lt by lia. f_equal. lia.
Qed.

(** A reader sees nothing beyond the length of the alert. *)
Lemma alert_view_prefix e r id idl code prio vt vp dim len :
  length (eventData e) = length (eventData r) -> in_u 8 idl ->
  11 + idl + Z.of_nat dim <= Z.of_nat len -> alert_view e id idl code prio vt vp dim ->
  (forall i, (i < len)%nat -> eventData r !! i = eventData e !! i) ->
  alert_view r id idl code prio vt vp dim.
Proof.
  intros HL Hidl Hlen V Hag. unfold in_u in Hidl.
  assert (forall off n, (off + n <= len)%nat ->
            buf_read (eventData r) off n = buf_read (eventData e) off n) as Hread.
  { intros off n Hon. apply buf_read_ext; [congruence|]. intros i Hi. apply Hag. lia. }
  assert (forall off n, n ∈ [1; 2; 4; 8]%nat -> (off + n <= len)%nat ->
            load_le (eventData r) off n = load_le (eventData e) off n) as Hload.
  { intros off n Hn Hon. rewrite !load_le_val by done. by rewrite Hread. }
  destruct V.
  unfold getEventType, getEventPriority, getAlertCode, getSubCode, getSubCodePriority,
    getIdentificationlength, getEventValueType, getEventDataLength, event_signature, load_byte,
    EVT_HEADER_BYTE_LENGTH, EVT_SUB_CODE_OFFSET, EVT_SUB_CODE_PRIORITY_OFFSET,
    EVT_IDENTIFICATION_LENGTH_INFO_OFFSET, EVT_IDENTIFICATION_VALUE_INFO_OFFSET, getEventData in *.
  split; unfold getEventType, getEventPriority, getAlertCode, getSubCode,
    getSubCodePriority, getIdentificationlength, getEventValueType, getEventDataLength,
    event_signature, load_byte, EVT_HEADER_BYTE_LENGTH, EVT_SUB_CODE_OFFSET,
    EVT_SUB_CODE_PRIORITY_OFFSET, EVT_IDENTIFICATION_LENGTH_INFO_OFFSET,
    EVT_IDENTIFICATION_VALUE_INFO_OFFSET, getEventData in *;
    rewrite ?Hload, ?Hread, ?Hag by (size_mem || lia); try done.
  rewrite av_idlen0 in *. simpl_opt. simpl_opt_in av_vtype0. by rewrite Hag by lia.
Qed.

(** [C33] A standard alert written by [setAlert] into a fresh [AlertEventDescriptor], for
    every value type and every identifier and value whose pack is at most 255 bytes long,
    is read back by the getters: type, priority, code, code priority, identifier, value
    type, value size and the value itself.  So it is from a second descriptor into which
    [setEventData] copies the pack, or any part of it with at least the bytes of the
    alert.  No access leaves the 1024-byte packs. *)
Theorem alert_pack_roundtrip id idl code prio vt vp vs dst len
    (Hid : bytes id) (Hvp : bytes vp) (Hidl : in_u 8 idl)
    (Hcode : 0 <= code <= EventAlertLastCodeNumber) (Hprio : in_u 16 prio)
    (Hlen : (Z.to_nat idl <= length id)%nat) (Hdim : (value_dim vt vs <= length vp)%nat)
    (Htot : (11 + Z.to_nat idl + value_dim vt vs <= 255)%nat)
    (Hdst : (value_dim vt vs <= length dst)%nat)
    (Hcopy : (11 + Z.to_nat idl + value_dim vt vs <= len <= EVENT_DATA_BYTE_LENGTH)%nat) :
  exists e0 e r, new_AlertEventDescriptor = Some e0 /\
    setAlert e0 (Some id) idl code prio vt vp vs = Some e /\
    setEventData e0 (getEventData e) len = Some r /\
    forall x, x = e \/ x = r ->
      alert_view x id idl code prio vt vp (value_dim vt vs) /\
      getEventValueSize x = Some (Z.of_nat (value_dim vt vs)) /\
      getEventValue x (Some dst) true =
        Some (Some (take (value_dim vt vs) vp ++ drop (value_dim vt vs) dst),
              Some (Z.of_nat (value_dim vt vs))).
Proof.
  destruct (setAlert_view id idl code prio vt vp vs) as (e0 & e & H1 & H2 & [HL HB] & V); try done.
  { unfold EVENT_DATA_BYTE_LENGTH. lia. }
  destruct (setEventData_fresh (eventData e) len) as (r & e0' & Hnew & Hset & [HLr _] & Hag); [done|lia|lia|].
  assert (e0' = e0) as -> by congruence. exists e0, e, r. do 3 (split; [done|]).
  assert (alert_view r id idl code prio vt vp (value_dim vt vs)) as Vr.
  { eapply (alert_view_prefix e r); [congruence|done| |done|exact Hag]. unfold in_u in Hidl. lia. }
  intros x [-> | ->]; (split; [done|]); by eapply alert_value_read.
Qed.

Lemma alert_pack_roundtrip_witness :
  exists e0 e r, new_AlertEventDescriptor = Some e0 /\
    setAlert e0 (Some [65; 66]) 2 1 7 EventDataInt16 [1; 2] 0 = Some e /\
    setEventData e0 (getEventData e) 15 = Some r /\
    forall x, x = e \/ x = r ->
      alert_view x [65; 66] 2 1 7 EventDataInt16 [1; 2] 2 /\
      getEventValueSize x = Some 2 /\
      getEventValue x (Some [0; 0; 9]) true = Some (Some [1; 2; 9], Some 2).
Proof.
  apply (alert_pack_roundtrip [65; 66] 2 1 7 EventDataInt16 [1; 2] 0 [0; 0; 9] 15);
    repeat constructor; vm_compute; congruence || lia.
Defined.

(** The length field of a pack holds the pack length modulo 256, because
    [setEventDataLength] takes a [uint8_t]: the value size a reader computes is the
    size that was written exactly when the pack is at most 255 bytes long, although
    packs up to 1024 bytes are written without leaving the array. *)
Theorem alert_value_size_iff id idl code prio vt vp vs
    (Hid : bytes id) (Hvp : bytes vp) (Hidl : in_u 8 idl)
    (Hlen : (Z.to_nat idl <= length id)%nat) (Hdim : (value_dim vt vs <= length vp)%nat)
    (Htot : (11 + Z.to_nat idl + value_dim vt vs <= EVENT_DATA_BYTE_LENGTH)%nat) :
  exists e0 e, new_AlertEventDescriptor = Some e0 /\
    setAlert e0 (Some id) idl code prio vt vp vs = Some e /\
    (getEventValueSize e = Some (Z.of_nat (value_dim vt vs)) <->
     (11 + Z.to_nat idl + value_dim vt vs <= 255)%nat).
Proof.
  destruct (setAlert_view id idl code prio vt vp vs) as (e0 & e & H1 & H2 & H3 & V); try done.
  exists e0, e. do 2 (split; [done|]).
  rewrite (getEventValueSize_view _ _ _ _ _ _ _ _ Hidl V).
  unfold EVENT_DATA_BYTE_LENGTH, in_u in *. split.
  - intros [= H]. unfold uwrap in H. zdiv.
  - intros H. f_equal. rewrite u8_fits by (done || lia).
    rewrite uwrap_small; [lia|]. unfold in_u. lia.
Qed.

Lemma alert_value_size_iff_witness :
  exists e0 e, new_AlertEventDescriptor = Some e0 /\
    setAlert e0 (Some []) 0 1 7 EventDataBinary (replicate 300 0) 300 = Some e /\
    (getEventValueSize e = Some 300 <-> (11 + 0 + 300 <= 255)%nat).
Proof.
  apply (alert_value_size_iff [] 0 1 7 EventDataBinary (replicate 300 0) 300).
  - constructor.
  - apply bytes_replicate. by split.
  - by split.
  - done.
  - vm_compute. lia.
  - vm_compute. lia.
Defined.

(** [EventFactory::getEventInstance] on any pack it does not refuse: the store of the header leaves the one-byte object it is written to. *)
Theorem factory_store_overruns ev len sg :
  len <= EVT_DATA_MAX_BYTE_LENGTH -> buf_read ev 0 2 = Some sg -> le_val sg = 0x4345 ->
  getEventInstance (Some ev) len = EvUB.
Proof.
  intros Hlen Hr Hsg. unfold getEventInstance. rewrite (proj2 (Z.ltb_ge _ _)) by done. rewrite Hr.
  change (host_val host_endian sg) with (le_val sg). rewrite Hsg. cbn [negb Z.eqb Pos.eqb].
  by destruct (load_le ev EVT_HEADER_BYTE_LENGTH 2).
Qed.
