(* ===== verification/Services.v ===== *)
(** * Service life cycle

    Models [chaos/common/utility/InizializableService.{h,cpp}] and
    [chaos/common/utility/StartableService.{h,cpp}]: the two state machines (their
    transition tables are the rows of the source), the static functions that drive
    a service through them and the containers that own a service.  The service's
    own [init], [deinit], [start] and [stop] are virtual methods: they are a record
    of functions on the service's private state, each of which may throw. *)

From S2P Require Import Prelude.

Local Open Scope Z_scope.

(** ** The state machines *)

(** States of [service_state_machine]; the spelling is the source's. *)
Inductive svc_state := Deinitilized | Initialized | Started | Stopped.

(** [EventType] *)
Inductive svc_event := ev_initialize | ev_deinitialize | ev_start | ev_stop.

#[export] Instance svc_state_eq_dec : EqDecision svc_state.
Proof. solve_decision. Defined.
#[export] Instance svc_event_eq_dec : EqDecision svc_event.
Proof. solve_decision. Defined.

(** A [boost::msm::front::Row] without action and guard: source, event, target. *)
Definition row : Type := svc_state * svc_event * svc_state.

(** [id_states_machine::transition_table] *)
Definition id_table : list row :=
  [ (Deinitilized, ev_initialize, Initialized);
    (Initialized, ev_deinitialize, Deinitilized) ].

(** [ss_state_machine::transition_table] *)
Definition ss_table : list row :=
  [ (Deinitilized, ev_initialize, Initialized);
    (Initialized, ev_deinitialize, Deinitilized);
    (Initialized, ev_start, Started);
    (Started, ev_stop, Stopped);
    (Stopped, ev_start, Started);
    (Stopped, ev_deinitialize, Deinitilized) ].

(** [process_event]: the row for the current state and the event is taken
    ([HANDLED_TRUE]); without one the state is kept and [no_transition] is called. *)
Fixpoint process_event (t : list row) (s : svc_state) (e : svc_event) : svc_state * bool :=
  match t with
  | [] => (s, false)
  | (src, ev, tgt) :: t =>
      if bool_decide (src = s /\ ev = e) then (tgt, true) else process_event t s e
  end.

Section Service.

(** The private state of the service, the text of a [CException], and the numbers
    [boost::msm] gives the states ([current_state()[0]]). *)
Context {U E : Type}.
Context (state_id : svc_state -> Z).

(** The virtual methods: the new private state, and the exception if one is thrown. *)
Record service_methods := {
  m_init : U -> U * option E;
  m_deinit : U -> U * option E;
  m_start : U -> U * option E;
  m_stop : U -> U * option E }.

Context (M : service_methods).

(** A [StartableService]: it has the state machine of its base class and its own. *)
Record service := mkService {
  base_machine : svc_state;
  state_machine : svc_state;
  serviceState : Z;
  priv : U }.

(** The outcome of a driver: it returns [true], throws one of its own exceptions,
    rethrows an exception of the service, or dereferences a null pointer. *)
Inductive outcome :=
  | Ret (b : bool)
  | ThrowNull
  | ThrowState
  | ThrowService (ex : E)
  | NullDeref.

Definition with_base (s : service) (b : svc_state) : service :=
  mkService b (state_machine s) (serviceState s) (priv s).
Definition with_machine (s : service) (m : svc_state) : service :=
  mkService (base_machine s) m (serviceState s) (priv s).
Definition with_state (s : service) (n : Z) : service :=
  mkService (base_machine s) (state_machine s) n (priv s).
Definition with_priv (s : service) (u : U) : service :=
  mkService (base_machine s) (state_machine s) (serviceState s) u.

(** *** [InizializableService] *)

Definition is_event (s : service) (e : svc_event) : service * bool :=
  let '(b, h) := process_event id_table (base_machine s) e in (with_base s b, h).

(** The inner handler of a throwing [init] and the outer handler both send
    [deinitialize]; the outer one runs for every exception. *)
Definition is_initImplementation (impl : option service) : option service * outcome :=
  match impl with
  | None => (None, NullDeref)
  | Some s =>
      match is_event s ev_initialize with
      | (s, true) =>
          let '(u, r) := m_init M (priv s) in
          let s := with_priv s u in
          match r with
          | Some ex =>
              let '(s, _) := is_event s ev_deinitialize in
              let '(s, _) := is_event s ev_deinitialize in
              (Some s, ThrowService ex)
          | None => (Some (with_state s (state_id (base_machine s))), Ret true)
          end
      | (s, false) =>
          let '(s, _) := is_event s ev_deinitialize in
          (Some s, ThrowState)
      end
  end.

Definition is_deinitImplementation (impl : option service) : option service * outcome :=
  match impl with
  | None => (None, ThrowNull)
  | Some s =>
      match is_event s ev_deinitialize with
      | (s, true) =>
          let '(u, r) := m_deinit M (priv s) in
          let s := with_priv s u in
          match r with
          | Some ex => (Some s, ThrowService ex)
          | None => (Some (with_state s (state_id (base_machine s))), Ret true)
          end
      | (s, false) => (Some s, ThrowState)
      end
  end.

(** *** [StartableService] *)

Definition ss_event (s : service) (e : svc_event) : service * bool :=
  let '(m, h) := process_event ss_table (state_machine s) e in (with_machine s m, h).

Definition initImplementation (impl : option service) : option service * outcome :=
  match impl with
  | None => (None, ThrowNull)
  | Some s =>
      match ss_event s ev_initialize with
      | (s, true) =>
          let '(u, r) := m_init M (priv s) in
          let s := with_priv s u in
          match r with
          | Some ex =>
              let '(s, _) := ss_event s ev_deinitialize in (Some s, ThrowService ex)
          | None => (Some (with_state s (state_id (state_machine s))), Ret true)
          end
      | (s, false) => (Some s, ThrowState)
      end
  end.

Definition deinitImplementation (impl : option service) : option service * outcome :=
  match impl with
  | None => (None, ThrowNull)
  | Some s =>
      match ss_event s ev_deinitialize with
      | (s, true) =>
          let '(u, r) := m_deinit M (priv s) in
          let s := with_priv s u in
          match r with
          | Some ex => (Some s, ThrowService ex)
          | None => (Some (with_state s (state_id (state_machine s))), Ret true)
          end
      | (s, false) => (Some s, ThrowState)
      end
  end.

(** A throwing [start] sends [initialize] to roll back. *)
Definition startImplementation (impl : option service) : option service * outcome :=
  match impl with
  | None => (None, ThrowNull)
  | Some s =>
      match ss_event s ev_start with
      | (s, true) =>
          let '(u, r) := m_start M (priv s) in
          let s := with_priv s u in
          match r with
          | Some ex =>
              let '(s, _) := ss_event s ev_initialize in (Some s, ThrowService ex)
          | None => (Some (with_state s (state_id (state_machine s))), Ret true)
          end
      | (s, false) => (Some s, ThrowState)
      end
  end.

Definition stopImplementation (impl : option service) : option service * outcome :=
  match impl with
  | None => (None, ThrowNull)
  | Some s =>
      match ss_event s ev_stop with
      | (s, true) =>
          let '(u, r) := m_stop M (priv s) in
          let s := with_priv s u in
          match r with
          | Some ex =>
              let '(s, _) := ss_event s ev_start in (Some s, ThrowService ex)
          | None => (Some (with_state s (state_id (state_machine s))), Ret true)
          end
      | (s, false) => (Some s, ThrowState)
      end
  end.

(** The constructors: both machines in their initial state. *)
Definition new_service (u : U) (IS_DEINTIATED : Z) : service :=
  mkService Deinitilized Deinitilized IS_DEINTIATED u.

(** *** [StartableServiceContainer<T>] *)

Record container := mkContainer {
  delete_on_dispose : bool;
  service_name : string;
  startable_service_instance : option service }.

Definition with_instance (c : container) (i : option service) : container :=
  mkContainer (delete_on_dispose c) (service_name c) i.

Definition container_init (c : container) : container * outcome :=
  let '(i, o) := initImplementation (startable_service_instance c) in (with_instance c i, o).
Definition container_start (c : container) : container * outcome :=
  let '(i, o) := startImplementation (startable_service_instance c) in (with_instance c i, o).
Definition container_stop (c : container) : container * outcome :=
  let '(i, o) := stopImplementation (startable_service_instance c) in (with_instance c i, o).
Definition container_deinit (c : container) : container * outcome :=
  let '(i, o) := deinitImplementation (startable_service_instance c) in (with_instance c i, o).

(** [reset] deletes the current instance, if any, and takes the new one. *)
Definition container_reset (c : container) (new_instance : option service) (name : string)
  : container :=
  mkContainer (delete_on_dispose c) name new_instance.

(** ** Specification: the life cycle of a service

    A call of a virtual method, with whether it returned ([true]) or threw. *)
Inductive callback := cb_init | cb_deinit | cb_start | cb_stop.

(** The life cycle contract: which method may be called in which state, and the
    state its normal or exceptional return leads to.  A [start] that throws leaves
    the service started: the code's rollback event has no row in that state. *)
Definition life_step (s : svc_state) (c : callback) (ok : bool) : option svc_state :=
  match s, c, ok with
  | Deinitilized, cb_init, true => Some Initialized
  | Deinitilized, cb_init, false => Some Deinitilized
  | Initialized, cb_deinit, _ => Some Deinitilized
  | Stopped, cb_deinit, _ => Some Deinitilized
  | Initialized, cb_start, _ => Some Started
  | Stopped, cb_start, _ => Some Started
  | Started, cb_stop, true => Some Stopped
  | Started, cb_stop, false => Some Started
  | _, _, _ => None
  end.

Fixpoint life_run (s : svc_state) (log : list (callback * bool)) : option svc_state :=
  match log with
  | [] => Some s
  | (c, ok) :: log => s' ← life_step s c ok; life_run s' log
  end.

(** ** Sequences of driver calls *)

Inductive op := OInit | ODeinit | OStart | OStop.

Definition run_op (o : op) (s : service) : service * outcome :=
  let '(r, out) := match o with
    | OInit => initImplementation (Some s)
    | ODeinit => deinitImplementation (Some s)
    | OStart => startImplementation (Some s)
    | OStop => stopImplementation (Some s)
    end in
  (default s r, out).

Definition op_callback (o : op) : callback :=
  match o with OInit => cb_init | ODeinit => cb_deinit | OStart => cb_start | OStop => cb_stop end.

Fixpoint run_ops (ops : list op) (s : service) : service :=
  match ops with
  | [] => s
  | o :: ops => run_ops ops (fst (run_op o s))
  end.

End Service.

Arguments service : clear implicits.
Arguments service_methods : clear implicits.
Arguments outcome : clear implicits.
Arguments container : clear implicits.

(** *** Observing the calls

    [logged M] behaves as [M] and appends to a log each method that is called, with
    whether it returned. *)
Definition log_of {U E} (c : callback) (m : U -> U * option E)
    (p : U * list (callback * bool)) : (U * list (callback * bool)) * option E :=
  let '(u, r) := m (fst p) in
  ((u, snd p ++ [(c, match r with None => true | Some _ => false end)]), r).

Definition logged {U E} (M : service_methods U E)
  : service_methods (U * list (callback * bool)) E :=
  {| m_init := log_of cb_init (m_init M);
     m_deinit := log_of cb_deinit (m_deinit M);
     m_start := log_of cb_start (m_start M);
     m_stop := log_of cb_stop (m_stop M) |}.

(** ** Lemmas *)

(** One driver call: a method call the contract allows, or no method call, the
    state kept and an exception. *)
Lemma run_op_step {U E} (state_id : svc_state -> Z) (M : service_methods U E) o s s' out :
  run_op state_id M o s = (s', out) ->
  (out = Ret true /\ life_step (state_machine s) (op_callback o) true = Some (state_machine s')
     /\ serviceState s' = state_id (state_machine s')) \/
  (exists ex, out = ThrowService ex /\
     life_step (state_machine s) (op_callback o) false = Some (state_machine s')
     /\ serviceState s' = serviceState s) \/
  (out = ThrowState /\ s' = s /\
     forall ok, life_step (state_machine s) (op_callback o) ok = None).
Proof.
  unfold run_op. destruct s as [b m n u].
  destruct o; simpl; unfold initImplementation, deinitImplementation, startImplementation,
    stopImplementation, ss_event; destruct m; simpl;
    repeat match goal with
    | |- context [let '(_, _) := ?f M u in _] => destruct (f M u) as [? [?|]]; simpl
    end; intros; simplify_eq/=;
    first [ left; by auto
          | right; left; eexists; by auto
          | right; right; split; [done|]; split; [done|]; by intros [] ].
Qed.

(** The log of a logged service grows by the one method call of the step, if any. *)
Lemma run_op_logged {U E} (state_id : svc_state -> Z) (M : service_methods U E) o s s' out :
  run_op state_id (logged M) o s = (s', out) ->
  exists log, snd (priv s') = snd (priv s) ++ log /\
    life_run (state_machine s) log = Some (state_machine s').
Proof.
  unfold run_op. destruct s as [b m n [u l]].
  destruct o; simpl; unfold initImplementation, deinitImplementation, startImplementation,
    stopImplementation, ss_event; destruct m; simpl; unfold log_of; simpl;
    repeat match goal with
    | |- context [?f M u] => destruct (f M u) as [? [?|]]; simpl
    end; intros; simplify_eq/=;
    first [ eexists; split; [reflexivity|]; reflexivity
          | exists []; split; [symmetry; apply app_nil_r|]; reflexivity ].
Qed.

Lemma life_run_app s l1 l2 :
  life_run s (l1 ++ l2) = (s' ← life_run s l1; life_run s' l2).
Proof.
  revert s; induction l1 as [|[c ok] l1 IH]; intros s; [done|]. simpl.
  destruct (life_step s c ok) as [s1|]; simpl; [apply IH|done].
Qed.

(** ** The theorems *)

(** [C13] Whatever sequence of [initImplementation], [startImplementation],
    [stopImplementation] and [deinitImplementation] calls a client makes, and
    whatever the service's methods throw, the methods that are called follow the
    life cycle contract and the state machine is in the state the contract says. *)
Theorem startable_service_follows_lifecycle {U E} (state_id : svc_state -> Z)
    (M : service_methods U E) (ops : list op) (s : service (U * list (callback * bool))) :
  let s' := run_ops state_id (logged M) ops s in
  exists log, snd (priv s') = snd (priv s) ++ log /\
    life_run (state_machine s) log = Some (state_machine s').
Proof.
  revert s; induction ops as [|o ops IH]; intros s.
  - exists []. split; [symmetry; apply app_nil_r|done].
  - simpl. destruct (run_op state_id (logged M) o s) as [s1 out] eqn:Ho. simpl.
    destruct (run_op_logged _ _ _ _ _ _ Ho) as (l1 & Hl1 & Hr1).
    destruct (IH s1) as (l2 & Hl2 & Hr2). exists (l1 ++ l2).
    rewrite Hl2, Hl1, app_assoc, life_run_app, Hr1. done.
Qed.

(** A driver call that returns normally leaves [serviceState] equal to the
    number of the state of the state machine; one that throws because the event has
    no transition changes nothing. *)
Theorem startable_service_state_coherent {U E} (state_id : svc_state -> Z)
    (M : service_methods U E) (o : op) (s s' : service U) (out : outcome E)
    (H : run_op state_id M o s = (s', out)) :
  (out = Ret true -> serviceState s' = state_id (state_machine s')) /\
  (out = ThrowState -> s' = s).
Proof.
  destruct (run_op_step _ _ _ _ _ _ H) as [(-> & _ & Hs) | [(ex & -> & _ & Hs) | (-> & -> & _)]];
    split; intros; simplify_eq; done.
Qed.

Definition demo_methods (fail_start : bool) : service_methods nat unit :=
  {| m_init := fun n => (S n, None);
     m_deinit := fun n => (n, None);
     m_start := fun n => (n, if fail_start then Some tt else None);
     m_stop := fun n => (n, None) |}.

Definition demo_id (s : svc_state) : Z :=
  match s with Deinitilized => 0 | Initialized => 1 | Started => 2 | Stopped => 3 end.

Lemma startable_service_state_coherent_witness :
  exists s', run_op demo_id (demo_methods false) OInit (new_service 0%nat 0) = (s', Ret true) /\
    serviceState s' = demo_id (state_machine s').
Proof.
  eexists. split; [reflexivity|].
  exact (proj1 (startable_service_state_coherent demo_id (demo_methods false) OInit
                  (new_service 0%nat 0) _ (Ret true) eq_refl) eq_refl).
Defined.

(** A [start] method that throws is not rolled back: the event [initialize] the
    handler sends has no row for the state [Started], so the machine stays there and
    a further [startImplementation] or [deinitImplementation] throws without calling
    the service, until it is stopped. *)
Theorem failed_start_stays_started {U E} (state_id : svc_state -> Z)
    (M : service_methods U E) (s : service U) (u : U) (ex : E)
    (Hst : state_machine s = Initialized \/ state_machine s = Stopped)
    (Hfail : m_start M (priv s) = (u, Some ex)) :
  exists s', startImplementation state_id M (Some s) = (Some s', ThrowService ex) /\
    state_machine s' = Started /\
    startImplementation state_id M (Some s') = (Some s', ThrowState) /\
    deinitImplementation state_id M (Some s') = (Some s', ThrowState).
Proof.
  destruct s as [b m n v]; simpl in *.
  exists (mkService b Started n u).
  unfold startImplementation, deinitImplementation, ss_event.
  destruct Hst as [-> | ->]; simpl; rewrite Hfail; simpl; done.
Qed.

Lemma failed_start_stays_started_witness :
  exists s', startImplementation demo_id (demo_methods true)
               (Some (mkService Deinitilized Initialized 1 0%nat)) = (Some s', ThrowService tt) /\
    state_machine s' = Started /\
    startImplementation demo_id (demo_methods true) (Some s') = (Some s', ThrowState) /\
    deinitImplementation demo_id (demo_methods true) (Some s') = (Some s', ThrowState).
Proof.
  apply (failed_start_stays_started demo_id (demo_methods true)
           (mkService Deinitilized Initialized 1 0%nat) 0%nat tt); [by left|reflexivity].
Defined.

(** A second [InizializableService::initImplementation] of an initialised service
    throws and, in its handler, moves the state machine to [Deinitilized] although
    [deinit] is not called: the resources of the first [init] are still held and a
    third call runs [init] again. *)
Theorem second_init_forgets_first {U E} (state_id : svc_state -> Z)
    (M : service_methods U E) (s : service U)
    (Hst : base_machine s = Initialized) :
  exists s', is_initImplementation state_id M (Some s) = (Some s', ThrowState) /\
    base_machine s' = Deinitilized /\ priv s' = priv s /\
    is_deinitImplementation state_id M (Some s') = (Some s', ThrowState).
Proof.
  destruct s as [b m n v]; simpl in *. subst b.
  exists (mkService Deinitilized m n v). done.
Qed.

Lemma second_init_forgets_first_witness :
  exists s', is_initImplementation demo_id (demo_methods false)
               (Some (mkService Initialized Deinitilized 1 5%nat)) = (Some s', ThrowState) /\
    base_machine s' = Deinitilized /\ priv s' = 5%nat /\
    is_deinitImplementation demo_id (demo_methods false) (Some s') = (Some s', ThrowState).
Proof.
  apply (second_init_forgets_first demo_id (demo_methods false)
           (mkService Initialized Deinitilized 1 5%nat)). reflexivity.
Defined.
