(* ===== verification/CircularBuffer.v ===== *)
(** * Circular and pointer buffers

    Models [chaos/common/utility/SingleBufferCircularBuffer.h]: the fixed-size
    circular buffer a data producer writes ([SingleBufferCircularBuffer]) and the
    shared, reallocated memory cell of [PointerBuffer], whose readers hold shared
    pointers to its memory. *)

From S2P Require Import Prelude.

Local Open Scope Z_scope.

Module Circular.
Section Circular.
Context {T : Type} (zero : T).

(** [basePointer] is [None] when [malloc] failed; [writePointer] is kept as an
    offset from it, as the code computes it. *)
Record SingleBufferCircularBuffer := mkBuffer {
  currentPostion : Z;
  bufferDimension : Z;
  basePointer : option (list T);
  writePointer : Z }.

(** The constructor: [malloc], zeroed when it succeeds. *)
Definition new_buffer (malloc_ok : bool) (dim : Z) : SingleBufferCircularBuffer :=
  mkBuffer 0 dim (if malloc_ok then Some (replicate (Z.to_nat dim) zero) else None) 0.

(** [addValue]; [None] is a null dereference, a store outside of the buffer or a
    remainder by zero. *)
Definition addValue (b : SingleBufferCircularBuffer) (newValue : T)
  : option SingleBufferCircularBuffer :=
  match basePointer b with
  | None => None
  | Some l =>
      if (0 <=? writePointer b) && (writePointer b <? Z.of_nat (length l))
         && negb (bufferDimension b =? 0)
      then
        let l := <[Z.to_nat (writePointer b) := newValue]> l in
        let pos := Z.rem (currentPostion b + 1) (bufferDimension b) in
        Some (mkBuffer pos (bufferDimension b) (Some l) pos)
      else None
  end.

Definition getWriteBufferPosition (b : SingleBufferCircularBuffer) : Z := currentPostion b.
Definition getDimension (b : SingleBufferCircularBuffer) : Z := bufferDimension b.

(** [*(basePointer + ((currentPostion - 1) % bufferDimension))], with the C remainder,
    whose sign is that of the dividend. *)
Definition getLastValue (b : SingleBufferCircularBuffer) : option T :=
  match basePointer b with
  | None => None
  | Some l =>
      if bufferDimension b =? 0 then None
      else
        let i := Z.rem (currentPostion b - 1) (bufferDimension b) in
        if 0 <=? i then l !! Z.to_nat i else None
  end.

Fixpoint addValues (b : SingleBufferCircularBuffer) (vs : list T)
  : option SingleBufferCircularBuffer :=
  match vs with
  | [] => Some b
  | v :: vs => b ← addValue b v; addValues b vs
  end.

(** ** Lemmas *)

(** The buffer after the values [vs] (oldest first) have been added. *)
Definition holds (b : SingleBufferCircularBuffer) (vs : list T) : Prop :=
  exists l, basePointer b = Some l /\ 0 < bufferDimension b /\
    length l = Z.to_nat (bufferDimension b) /\
    currentPostion b = Z.of_nat (length vs) mod bufferDimension b /\
    writePointer b = currentPostion b /\
    (forall k, (k < length vs)%nat -> Z.of_nat (length vs - k) <= bufferDimension b ->
       l !! Z.to_nat (Z.of_nat k mod bufferDimension b) = vs !! k).

Lemma new_buffer_holds dim : 0 < dim -> holds (new_buffer true dim) [].
Proof.
  intros Hd. exists (replicate (Z.to_nat dim) zero). simpl.
  rewrite length_replicate. repeat split; try done.
  intros k Hk. simpl in Hk. lia.
Qed.

Lemma mod_succ_rem n d : 0 < d -> 0 <= n -> Z.rem (n mod d + 1) d = (n + 1) mod d.
Proof.
  intros Hd Hn. pose proof (Z.mod_pos_bound n d Hd).
  rewrite Z.rem_mod_nonneg by lia. by rewrite Zplus_mod_idemp_l.
Qed.

(** Two of the last [d] indices that share a slot are equal. *)
Lemma slot_inj n k d : 0 < d -> 0 <= k < n -> n - k < d -> n mod d <> k mod d.
Proof.
  intros Hd Hk Hn Heq.
  assert ((n - k) mod d = 0) as H0.
  { rewrite Zminus_mod, Heq, Z.sub_diag. apply Z.mod_0_l. lia. }
  rewrite Z.mod_small in H0 by lia. lia.
Qed.

Lemma addValue_holds b vs v :
  holds b vs -> exists b', addValue b v = Some b' /\ holds b' (vs ++ [v]) /\
    bufferDimension b' = bufferDimension b.
Proof.
  intros (l & Hl & Hd & HL & Hpos & Hwp & Hk). unfold addValue. rewrite Hl.
  pose proof (Z.mod_pos_bound (Z.of_nat (length vs)) (bufferDimension b) Hd) as Hb.
  rewrite Hwp, Hpos. rewrite (proj2 (Z.leb_le _ _)), (proj2 (Z.ltb_lt _ _)) by lia.
  rewrite (proj2 (Z.eqb_neq _ _)) by lia. simpl. eexists. split; [done|]. split; [|done].
  eexists. simpl. split; [done|]. split; [done|]. rewrite length_insert, length_app. simpl.
  split; [done|]. split; [|split; [done|]].
  { rewrite mod_succ_rem by lia. f_equal. lia. }
  intros k Hlt Hwin.
  destruct (decide (k = length vs)) as [->|Hne].
  - rewrite list_lookup_insert_eq by lia. rewrite lookup_app_r, Nat.sub_diag by lia. done.
  - rewrite lookup_app_l by lia. rewrite list_lookup_insert_ne; [apply Hk; lia|].
    pose proof (slot_inj (Z.of_nat (length vs)) (Z.of_nat k) (bufferDimension b)).
    pose proof (Z.mod_pos_bound (Z.of_nat k) (bufferDimension b) Hd). lia.
Qed.

Lemma addValues_holds b vs ws :
  holds b vs -> exists b', addValues b ws = Some b' /\ holds b' (vs ++ ws) /\
    bufferDimension b' = bufferDimension b.
Proof.
  revert b vs; induction ws as [|w ws IH]; intros b vs Hh.
  - exists b. by rewrite app_nil_r.
  - destruct (addValue_holds b vs w Hh) as (b1 & H1 & Hh1 & Hd1). simpl. rewrite H1. simpl_opt.
    destruct (IH b1 _ Hh1) as (b2 & H2 & Hh2 & Hd2). exists b2.
    rewrite <- app_assoc in Hh2. split; [done|]. split; [done|congruence].
Qed.

End Circular.
Arguments SingleBufferCircularBuffer : clear implicits.

(** [C40] After any sequence of [addValue] calls on a fresh buffer of positive
    dimension no store leaves the buffer, the write position is the number of values
    modulo the dimension, and each of the last [dimension] values is in its slot,
    the [k]-th at [k] modulo the dimension: the buffer is exactly the recent history.  The
    class comment places the last value at the end of the buffer; it is in the slot before
    the write position. *)
Theorem circular_buffer_keeps_history {T} (zero : T) (dim : Z) (vs : list T) (Hdim : 0 < dim) :
  exists b l, addValues (new_buffer zero true dim) vs = Some b /\
    basePointer b = Some l /\ length l = Z.to_nat dim /\
    getWriteBufferPosition b = Z.of_nat (length vs) mod dim /\
    forall k, (k < length vs)%nat -> Z.of_nat (length vs - k) <= dim ->
      l !! Z.to_nat (Z.of_nat k mod dim) = vs !! k.
Proof.
  destruct (addValues_holds (new_buffer zero true dim) [] vs (new_buffer_holds zero dim Hdim))
    as (b & Hb & (l & Hl & _ & HL & Hp & _ & Hk) & Hd).
  simpl in *. rewrite Hd in *. exists b, l. done.
Qed.

Lemma circular_buffer_keeps_history_witness :
  exists b l, addValues (new_buffer 0 true 3) [7; 8; 9; 10] = Some b /\
    basePointer b = Some l /\ length l = Z.to_nat 3 /\
    getWriteBufferPosition b = Z.of_nat 4 mod 3 /\
    forall k, (k < 4)%nat -> Z.of_nat (4 - k) <= 3 ->
      l !! Z.to_nat (Z.of_nat k mod 3) = [7; 8; 9; 10] !! k.
Proof. apply (circular_buffer_keeps_history 0 3 [7; 8; 9; 10]). lia. Defined.

(** [getLastValue] gives the value added last, except when the number of added
    values is a multiple of a dimension greater than one: the C remainder
    [(0 - 1) % dimension] is then -1 and the read is in front of the buffer. *)
Theorem getLastValue_spec {T} (zero : T) (dim : Z) (vs : list T) (v : T) (Hdim : 0 < dim) :
  exists b, addValues (new_buffer zero true dim) (vs ++ [v]) = Some b /\
    getLastValue b =
      if decide (dim = 1 \/ Z.of_nat (S (length vs)) mod dim <> 0) then Some v else None.
Proof.
  destruct (addValues_holds (new_buffer zero true dim) [] (vs ++ [v]) (new_buffer_holds zero dim Hdim))
    as (b & Hb & (l & Hl & _ & HL & Hp & _ & Hk) & Hd).
  simpl in *. rewrite Hd in *. exists b. split; [done|].
  unfold getLastValue. rewrite Hl, Hd. rewrite (proj2 (Z.eqb_neq _ _)) by lia.
  rewrite length_app in Hp. simpl in Hp. rewrite Hp.
  replace (length vs + 1)%nat with (S (length vs)) in * by lia.
  pose proof (Z.mod_pos_bound (Z.of_nat (S (length vs))) dim Hdim) as Hb'.
  specialize (Hk (length vs)). rewrite length_app in Hk. simpl in Hk.
  rewrite lookup_app_r, Nat.sub_diag in Hk by lia. simpl in Hk.
  destruct (decide (Z.of_nat (S (length vs)) mod dim = 0)) as [E|E].
  - rewrite E. destruct (decide (dim = 1)) as [->|Hd1].
    + rewrite decide_True by auto. simpl. rewrite Z.mod_1_r in Hk. apply Hk; lia.
    + rewrite decide_False by tauto.
      assert (Z.rem (0 - 1) dim = -1) as ->.
      { rewrite Z.sub_0_l. rewrite Z.rem_opp_l by lia. rewrite Z.rem_1_l by lia. done. }
      done.
  - rewrite decide_True by auto.
    rewrite Z.rem_mod_nonneg by lia.
    assert ((Z.of_nat (S (length vs)) mod dim - 1) mod dim = Z.of_nat (length vs) mod dim) as ->.
    { rewrite Zminus_mod_idemp_l. f_equal. lia. }
    pose proof (Z.mod_pos_bound (Z.of_nat (length vs)) dim Hdim).
    rewrite (proj2 (Z.leb_le _ _)) by lia. apply Hk; lia.
Qed.

Lemma getLastValue_spec_witness :
  exists b, addValues (new_buffer 0 true 2) ([5] ++ [6]) = Some b /\
    getLastValue b = if decide (2 = 1 \/ Z.of_nat 2 mod 2 <> 0) then Some 6 else None.
Proof. apply (getLastValue_spec 0 2 [5] 6). lia. Defined.

End Circular.

(** ** [PointerBuffer]

    The memory blocks are a heap; a [shared_ptr] is the address of a block.  Blocks
    stay in the heap while somebody may hold them. *)
Module Pointer.

Record PointerBuffer := mkPointer {
  ptr : option nat;
  bufferDimension : Z }.

Definition new_PointerBuffer : PointerBuffer := mkPointer None 0.

(** The heap of blocks with the next fresh address; [malloc] succeeds. *)
Record heap := mkHeap { blocks : gmap nat (list Z); next : nat }.

Definition malloc (h : heap) (n : Z) : heap * nat :=
  (mkHeap (<[next h := replicate (Z.to_nat n) 0]> (blocks h)) (S (next h)), next h).

Definition memcpy (h : heap) (p : nat) (src : list Z) : option heap :=
  b ← blocks h !! p; b ← buf_write b 0 src; Some (mkHeap (<[p := b]> (blocks h)) (next h)).

(** The copy of [updateData] into the block [p]. *)
Definition fill (h : heap) (p : nat) (src : list Z) (srcDataLen : Z)
  : option (heap * PointerBuffer) :=
  data ← buf_read src 0 (Z.to_nat srcDataLen);
  h ← memcpy h p data;
  Some (h, mkPointer (Some p) srcDataLen).

(** [updateData(srcPtr, srcDataLen)]; [srcPtr] is [None] for null. *)
Definition updateData (h : heap) (b : PointerBuffer) (srcPtr : option (list Z)) (srcDataLen : Z)
  : option (heap * PointerBuffer) :=
  match srcPtr with
  | None => Some (h, b)
  | Some src =>
      if srcDataLen <=? 0 then Some (h, b)
      else
        let '(h, p) :=
          match ptr b with
          | Some p => if negb (bufferDimension b =? srcDataLen) then malloc h srcDataLen else (h, p)
          | None => malloc h srcDataLen
          end in
        fill h p src srcDataLen
  end.

(** [getPtr(bufDim)]: the shared pointer and the dimension. *)
Definition getPtr (b : PointerBuffer) : option nat * Z := (ptr b, bufferDimension b).

(** [getTypedPtr<T>(bufDim)]: the dimension in elements. *)
Definition getTypedPtr (sizeof_T : Z) (b : PointerBuffer) : option nat * Z :=
  (ptr b, Z.quot (bufferDimension b) sizeof_T).

(** The invariant: the block has the recorded dimension, addresses are below [next]. *)
Definition wf (h : heap) (b : PointerBuffer) : Prop :=
  (forall p, is_Some (blocks h !! p) -> (p < next h)%nat) /\
  match ptr b with
  | None => True
  | Some p => exists l, blocks h !! p = Some l /\ Z.of_nat (length l) = bufferDimension b
  end.

Definition fresh_ok (h : heap) : Prop := forall p, is_Some (blocks h !! p) -> (p < next h)%nat.

Lemma fill_spec h p l src len :
  0 < len -> len <= Z.of_nat (length src) -> blocks h !! p = Some l -> Z.of_nat (length l) = len ->
  fill h p src len =
    Some (mkHeap (<[p := take (Z.to_nat len) src]> (blocks h)) (next h), mkPointer (Some p) len).
Proof.
  intros Hpos Hlen Hl HL. unfold fill, buf_read. rewrite decide_True by lia. simpl_opt.
  rewrite drop_0. unfold memcpy. rewrite Hl. simpl_opt. unfold buf_write.
  rewrite length_take_le by lia. rewrite decide_True by lia. simpl.
  rewrite drop_ge by lia. by rewrite app_nil_r.
Qed.

Lemma fill_wf h p src len :
  0 < len -> len <= Z.of_nat (length src) -> fresh_ok h -> is_Some (blocks h !! p) ->
  wf (mkHeap (<[p := take (Z.to_nat len) src]> (blocks h)) (next h)) (mkPointer (Some p) len).
Proof.
  intros Hpos Hlen Hf Hp. split; simpl.
  - intros q [x Hx]. destruct (decide (q = p)) as [->|Hne]; [by apply Hf|].
    rewrite lookup_insert_ne in Hx by done. apply Hf. eauto.
  - eexists. rewrite lookup_insert_eq. split; [done|]. rewrite length_take_le; lia.
Qed.

Lemma malloc_fresh h n : fresh_ok h -> fresh_ok (fst (malloc h n)) /\ blocks h !! next h = None.
Proof.
  intros Hf. split.
  - intros q [x Hx]. simpl in *. destruct (decide (q = next h)) as [->|Hne]; [lia|].
    rewrite lookup_insert_ne in Hx by done. specialize (Hf q ltac:(eauto)). lia.
  - destruct (blocks h !! next h) eqn:E; [|done]. specialize (Hf (next h) ltac:(eauto)). lia.
Qed.

(** [updateData] with data of [srcDataLen] bytes succeeds, stores exactly these
    bytes, and every block a reader got from [getPtr] before keeps its contents when
    the length changes; when the length is the same the block is overwritten in
    place, so the reader sees the new data. *)
Theorem updateData_spec h b src len (Hwf : wf h b) (Hpos : 0 < len)
    (Hlen : len <= Z.of_nat (length src)) :
  exists h' b' p, updateData h b (Some src) len = Some (h', b') /\ wf h' b' /\
    getPtr b' = (Some p, len) /\ blocks h' !! p = Some (take (Z.to_nat len) src) /\
    (forall q, is_Some (blocks h !! q) -> (ptr b = Some q -> bufferDimension b <> len) ->
       blocks h' !! q = blocks h !! q) /\
    (ptr b <> None -> bufferDimension b = len -> ptr b = Some p).
Proof.
  destruct Hwf as [Hf Hptr]. destruct (malloc_fresh h len Hf) as [Hf1 Hnone].
  unfold updateData. rewrite (proj2 (Z.leb_gt _ _)) by lia.
  destruct (decide (ptr b <> None /\ bufferDimension b = len)) as [[Hp Hd]|Hnew].
  - destruct (ptr b) as [p|]; [|done]. destruct Hptr as (l & Hl & HL).
    rewrite (proj2 (Z.eqb_eq _ _) Hd). simpl negb. cbn match.
    rewrite (fill_spec _ _ l) by (done || lia).
    do 3 eexists. split; [done|]. split; [apply fill_wf; eauto|]. split; [done|]. simpl.
    split; [by rewrite lookup_insert_eq|]. split; [|done].
    intros q Hq Hne. rewrite lookup_insert_ne; [done|]. intros ->. by apply Hne.
  - replace (match ptr b with
             | Some p => if negb (bufferDimension b =? len) then malloc h len else (h, p)
             | None => malloc h len end) with (malloc h len).
    2:{ destruct (ptr b); [|done]. rewrite (proj2 (Z.eqb_neq _ _)); [done|]. naive_solver. }
    destruct (malloc h len) as [h1 p1] eqn:Hm. simpl in Hf1.
    assert (blocks h1 !! p1 = Some (replicate (Z.to_nat len) 0)) as Hb1.
    { injection Hm as <- <-. simpl. by rewrite lookup_insert_eq. }
    rewrite (fill_spec _ _ _ _ _ Hpos Hlen Hb1) by (rewrite length_replicate; lia).
    do 3 eexists. split; [done|]. split; [apply fill_wf; eauto|]. split; [done|]. simpl.
    split; [by rewrite lookup_insert_eq|]. split; [|naive_solver].
    intros q [x Hq] _. injection Hm as <- <-. simpl. rewrite insert_insert_eq.
    rewrite lookup_insert_ne; [done|]. intros <-. congruence.
Qed.

Lemma updateData_spec_witness :
  exists h' b' p, updateData (mkHeap ∅ 0) new_PointerBuffer (Some [1; 2; 3]) 2 = Some (h', b') /\
    wf h' b' /\ getPtr b' = (Some p, 2) /\ blocks h' !! p = Some [1; 2].
Proof.
  destruct (updateData_spec (mkHeap ∅ 0) new_PointerBuffer [1; 2; 3] 2)
    as (h' & b' & p & H1 & H2 & H3 & H4 & _).
  - split; [|done]. intros p [x Hx]. simpl in Hx. by rewrite lookup_empty in Hx.
  - lia.
  - simpl. lia.
  - by exists h', b', p.
Defined.

End Pointer.
