(* ===== verification/KeyValueHash.v ===== *)
(** * Chained hash table

    Models [chaos/common/utility/TemplatedKeyValueHash.h]: a vector of lazily created
    list heads, each the head of a doubly linked list of heap nodes with the same
    masked hash.  Nodes live in an explicit heap and pointers are addresses, so that
    freed nodes and stale pointers are visible: [None] is a null or dangling
    dereference.  The hash function is the template parameter [H]. *)

From S2P Require Import Prelude.

Local Open Scope Z_scope.

Section Hash.
Context {T : Type}.

(** [H::hash(key, key_len, 0)], a [uint32_t]. *)
Context (hash : list Z -> Z).

(** [struct KeyValueHashElement<T>]; [key_len] is the length of [key]. *)
Record KeyValueHashElement := mkElement {
  element : T;
  key : list Z;
  next : option nat;
  prev : option nat }.

(** [hash_vector]: a null pointer, or the [HashHeadElementList] with its [head]. *)
Record TemplatedKeyValueHash := mkHash {
  hash_mask : Z;
  hash_vector : list (option (option nat));
  nodes : gmap nat KeyValueHashElement;
  fresh : nat }.

Definition hashsize (n : Z) : Z := u32 (Z.shiftl 1 n).
Definition hashmask (n : Z) : Z := u32 (hashsize n - 1).

(** The constructors, with a successful [calloc] of the vector. *)
Definition new_hash (hash_power : Z) : TemplatedKeyValueHash :=
  mkHash (hashmask hash_power) (replicate (Z.to_nat (hashsize hash_power)) None) ∅ 0.

Definition slot_of (t : TemplatedKeyValueHash) (k : list Z) : nat :=
  Z.to_nat (Z.land (hash k) (hash_mask t)).

Definition with_vector (t : TemplatedKeyValueHash) v : TemplatedKeyValueHash :=
  mkHash (hash_mask t) v (nodes t) (fresh t).
Definition with_nodes (t : TemplatedKeyValueHash) n : TemplatedKeyValueHash :=
  mkHash (hash_mask t) (hash_vector t) n (fresh t).

(** [getListByHash]: the head of the slot, which is created when missing. *)
Definition getListByHash (t : TemplatedKeyValueHash) (idx : nat)
  : option (TemplatedKeyValueHash * option nat) :=
  slot ← hash_vector t !! idx;
  match slot with
  | Some head => Some (t, head)
  | None => Some (with_vector t (<[idx := Some None]> (hash_vector t)), None)
  end.

(** The search loop: [Some None] is the end of the list, [Some (Some p)] the node
    with the key.  The loop visits each node at most once on a list without a cycle,
    so the number of live nodes bounds it. *)
Fixpoint find_node (fuel : nat) (ns : gmap nat KeyValueHashElement) (cur : option nat)
    (k : list Z) : option (option nat) :=
  match cur, fuel with
  | None, _ => Some None
  | Some p, S fuel =>
      n ← ns !! p;
      if bool_decide (k = key n) then Some (Some p) else find_node fuel ns (next n) k
  | Some _, O => None
  end.

Definition search (t : TemplatedKeyValueHash) (head : option nat) (k : list Z)
  : option (option nat) := find_node (S (size (nodes t))) (nodes t) head k.

(** [getElement(key, key_len, element_ptr)]: the error code and the element, when
    found.  The store through [element_ptr] needs it to be non-null. *)
Definition getElement (t : TemplatedKeyValueHash) (k : list Z) (element_ptr_nonnull : bool)
  : option (TemplatedKeyValueHash * Z * option T) :=
  '(t, head) ← getListByHash t (slot_of t k);
  match head with
  | None => Some (t, -2, None)
  | Some _ =>
      r ← search t head k;
      match r with
      | None => Some (t, -3, None)
      | Some p =>
          n ← nodes t !! p;
          if element_ptr_nonnull then Some (t, 0, Some (element n)) else None
      end
  end.

(** [addElement]: the lookup passes a null [element_ptr]. *)
Definition addElement (t : TemplatedKeyValueHash) (k : list Z) (e : T)
  : option (TemplatedKeyValueHash * Z) :=
  '(t, err, _) ← getElement t k false;
  if err =? 0 then Some (t, -1)
  else
    '(t, head) ← getListByHash t (slot_of t k);
    let p := fresh t in
    let ns := <[p := mkElement e k head None]> (nodes t) in
    ns ← match head with
         | Some h =>
             n ← ns !! h;
             Some (<[h := mkElement (element n) (key n) (next n) (Some p)]> ns)
         | None => Some ns
         end;
    Some (mkHash (hash_mask t) (<[slot_of t k := Some (Some p)]> (hash_vector t)) ns (S p), 0).

(** [removeElement], with the key and element given to [clearHashTableElement]. *)
Definition removeElement (t : TemplatedKeyValueHash) (k : list Z)
  : option (TemplatedKeyValueHash * option (list Z * T)) :=
  '(t, head) ← getListByHash t (slot_of t k);
  r ← search t head k;
  match r with
  | None => Some (t, None)
  | Some p =>
      n ← nodes t !! p;
      t ← match prev n with
          | Some pv =>
              nx ← next n;
              m ← nodes t !! nx;
              Some (with_nodes t (<[nx := mkElement (element m) (key m) (next m) (Some pv)]> (nodes t)))
          | None => Some (with_vector t (<[slot_of t k := Some (next n)]> (hash_vector t)))
          end;
      Some (with_nodes t (delete p (nodes t)), Some (key n, element n))
  end.

(** The inner loop of [clear]: free a list, reporting the cleared elements. *)
Fixpoint clear_list (fuel : nat) (ns : gmap nat KeyValueHashElement) (cur : option nat)
  : option (gmap nat KeyValueHashElement * list (list Z * T)) :=
  match cur, fuel with
  | None, _ => Some (ns, [])
  | Some p, S fuel =>
      n ← ns !! p;
      '(ns, out) ← clear_list fuel (delete p ns) (next n);
      Some (ns, (key n, element n) :: out)
  | Some _, O => None
  end.

(** The outer loop over the slots from [idx] on. *)
Fixpoint clear_slots (count idx : nat) (t : TemplatedKeyValueHash)
  : option (TemplatedKeyValueHash * list (list Z * T)) :=
  match count with
  | O => Some (t, [])
  | S count =>
      slot ← hash_vector t !! idx;
      match slot with
      | None => clear_slots count (S idx) t
      | Some head =>
          '(ns, out) ← clear_list (S (size (nodes t))) (nodes t) head;
          let t := mkHash (hash_mask t) (<[idx := Some None]> (hash_vector t)) ns (fresh t) in
          '(t, out') ← clear_slots count (S idx) t;
          Some (t, out ++ out')
      end
  end.

Definition clear (t : TemplatedKeyValueHash) : option (TemplatedKeyValueHash * list (list Z * T)) :=
  clear_slots (length (hash_vector t)) 0 t.

(** ** Representation

    [seg ns cur l]: the list from [cur] has the addresses, keys and elements [l]. *)
Fixpoint seg (ns : gmap nat KeyValueHashElement) (cur : option nat)
    (l : list (nat * (list Z * T))) : Prop :=
  match l with
  | [] => cur = None
  | (p, (k, e)) :: l => cur = Some p /\ exists n, ns !! p = Some n /\ key n = k /\
      element n = e /\ seg ns (next n) l
  end.

(** The list of slot [idx]; a slot without a head is empty. *)
Definition slot_head (t : TemplatedKeyValueHash) (idx : nat) : option nat :=
  match hash_vector t !! idx with Some (Some head) => head | _ => None end.

Record models (t : TemplatedKeyValueHash) (m : gmap (list Z) T)
    (chain : nat -> list (nat * (list Z * T))) : Prop := {
  mo_size : forall k, (slot_of t k < length (hash_vector t))%nat;
  mo_fresh : forall p, is_Some (nodes t !! p) -> (p < fresh t)%nat;
  mo_seg : forall idx, seg (nodes t) (slot_head t idx) (chain idx);
  mo_head : forall idx p n, slot_head t idx = Some p -> nodes t !! p = Some n -> prev n = None;
  mo_slot : forall idx p k e, (p, (k, e)) ∈ chain idx -> slot_of t k = idx;
  mo_nodup : forall idx, NoDup (chain idx).*1;
  mo_keys : forall idx, NoDup (chain idx).*2.*1;
  mo_map : forall k e, m !! k = Some e <-> exists p, (p, (k, e)) ∈ chain (slot_of t k) }.

Definition repr (t : TemplatedKeyValueHash) (m : gmap (list Z) T) : Prop :=
  exists chain, models t m chain.

(** ** Lemmas *)

Lemma seg_in ns cur l p k e :
  seg ns cur l -> (p, (k, e)) ∈ l -> exists n, ns !! p = Some n /\ key n = k /\ element n = e.
Proof.
  revert cur; induction l as [|[q [k' e']] l IH]; intros cur Hs Hin; [by apply elem_of_nil in Hin|].
  destruct Hs as (-> & n & Hn & Hk & He & Hs). apply elem_of_cons in Hin as [Heq|Hin].
  - simplify_eq. eauto.
  - eauto.
Qed.

(** The addresses of a list without repetition are live nodes, so their number is
    at most the number of nodes: the bound of the loops is enough. *)
Lemma seg_length ns cur l : seg ns cur l -> NoDup l.*1 -> (length l <= size ns)%nat.
Proof.
  intros Hs Hnd.
  assert (list_to_set l.*1 ⊆ dom ns) as Hsub.
  { intros p Hp. rewrite elem_of_list_to_set in Hp. apply list_elem_of_fmap in Hp as ([q [k e]] & -> & Hin).
    destruct (seg_in _ _ _ _ _ _ Hs Hin) as (n & Hn & _). apply elem_of_dom. eauto. }
  apply subseteq_size in Hsub. rewrite size_list_to_set, length_fmap in Hsub by done.
  by rewrite size_dom in Hsub.
Qed.

Lemma find_node_spec fuel ns cur l k :
  seg ns cur l -> (length l < fuel)%nat ->
  (exists p e, find_node fuel ns cur k = Some (Some p) /\ (p, (k, e)) ∈ l) \/
  (find_node fuel ns cur k = Some None /\ forall p e, (p, (k, e)) ∉ l).
Proof.
  revert cur fuel; induction l as [|[q [k' e']] l IH]; intros cur fuel Hs Hf.
  - simpl in Hs. subst cur. right. split; [by destruct fuel|]. intros p e. apply not_elem_of_nil.
  - destruct Hs as (-> & n & Hn & Hk & He & Hs). destruct fuel as [|fuel]; simpl in *; [lia|].
    rewrite Hn. simpl_opt. case_bool_decide as Heq.
    + left. exists q, e'. split; [done|]. subst. apply elem_of_cons. by left.
    + destruct (IH (next n) fuel Hs ltac:(lia)) as [(p & e & Hf' & Hin)|[Hf' Hno]].
      * left. exists p, e. split; [done|]. apply elem_of_cons. by right.
      * right. split; [done|]. intros p e Hin. apply elem_of_cons in Hin as [Hin|Hin].
        -- simplify_eq.
        -- by apply (Hno p e).
Qed.

Lemma search_spec t m chain k :
  models t m chain ->
  (exists p e, search t (slot_head t (slot_of t k)) k = Some (Some p) /\
     (p, (k, e)) ∈ chain (slot_of t k) /\ m !! k = Some e) \/
  (search t (slot_head t (slot_of t k)) k = Some None /\ m !! k = None).
Proof.
  intros M. unfold search.
  pose proof (mo_seg _ _ _ M (slot_of t k)) as Hs.
  pose proof (seg_length _ _ _ Hs (mo_nodup _ _ _ M _)) as HL.
  destruct (find_node_spec (S (size (nodes t))) _ _ _ k Hs ltac:(lia)) as [(p & e & Hf & Hin)|[Hf Hno]].
  - left. exists p, e. split; [done|]. split; [done|]. apply (mo_map _ _ _ M). eauto.
  - right. split; [done|]. destruct (m !! k) as [e|] eqn:E; [|done].
    apply (mo_map _ _ _ M) in E as [p Hin]. by apply Hno in Hin.
Qed.

(** Creating a missing slot changes nothing a client can see. *)
Lemma getListByHash_spec t m chain k :
  models t m chain ->
  exists t', getListByHash t (slot_of t k) = Some (t', slot_head t (slot_of t k)) /\
    models t' m chain /\ hash_mask t' = hash_mask t /\ nodes t' = nodes t /\ fresh t' = fresh t /\
    (forall idx, slot_head t' idx = slot_head t idx) /\
    length (hash_vector t') = length (hash_vector t).
Proof.
  intros M. unfold getListByHash.
  destruct (lookup_lt_is_Some_2 _ _ (mo_size _ _ _ M k)) as [slot Hslot].
  rewrite Hslot. simpl_opt. destruct slot as [head|].
  - exists t. unfold slot_head at 1. rewrite Hslot. done.
  - set (t' := with_vector t (<[slot_of t k:=Some None]> (hash_vector t))).
    assert (forall idx, slot_head t' idx = slot_head t idx) as Hh.
    { intros idx. unfold slot_head, t'. simpl. rewrite list_lookup_insert.
      case_decide as Hd; [|done]. destruct Hd as [<- _]. by rewrite Hslot. }
    exists t'. unfold slot_head at 1. rewrite Hslot. split; [done|]. split; [|split; [done|]].
    + destruct M. split; try done.
      * intros k0. unfold t'. simpl. rewrite length_insert. apply mo_size0.
      * intros idx. rewrite Hh. apply mo_seg0.
      * intros idx p n. rewrite Hh. apply mo_head0.
    + repeat split; try done. unfold t'. simpl. apply length_insert.
Qed.

Lemma slot_of_mask t t' k : hash_mask t' = hash_mask t -> slot_of t' k = slot_of t k.
Proof. unfold slot_of. by intros ->. Qed.

(** A list survives changes of the heap that keep keys, elements and next pointers. *)
Definition same_links (n n' : KeyValueHashElement) : Prop :=
  key n' = key n /\ element n' = element n /\ next n' = next n.

Lemma seg_mono ns ns' cur l :
  (forall p n, p ∈ l.*1 -> ns !! p = Some n -> exists n', ns' !! p = Some n' /\ same_links n n') ->
  seg ns cur l -> seg ns' cur l.
Proof.
  revert cur; induction l as [|[q [k e]] l IH]; intros cur Hmono Hs; [done|].
  destruct Hs as (-> & n & Hn & Hk & He & Hs).
  destruct (Hmono q n) as (n' & Hn' & Hk' & He' & Hx'); [by left|done|].
  split; [done|]. exists n'. split; [done|]. split; [congruence|]. split; [congruence|].
  rewrite Hx'. apply IH; [|done]. intros p m Hp. apply Hmono. by right.
Qed.

Lemma new_hash_repr hash_power :
  0 <= hash_power <= 31 -> repr (new_hash hash_power) ∅.
Proof.
  intros Hp. exists (fun _ => []). unfold new_hash, hashmask, hashsize.
  assert (0 < 2 ^ hash_power <= 2 ^ 31) as Hpow.
  { split; [lia|]. apply Z.pow_le_mono_r; lia. }
  rewrite Z.shiftl_1_l. rewrite (uwrap_small 32 (2 ^ hash_power)) by (unfold in_u; lia).
  rewrite uwrap_small by (unfold in_u; lia).
  assert (forall idx : nat, slot_head (mkHash (2 ^ hash_power - 1)
            (replicate (Z.to_nat (2 ^ hash_power)) None) ∅ 0) idx = None) as Hh.
  { intros idx. unfold slot_head. simpl.
    destruct (replicate _ _ !! idx) as [x|] eqn:E; [|done].
    apply lookup_replicate in E as [-> _]. done. }
  split; simpl.
  - intros k. unfold slot_of. simpl. rewrite length_replicate.
    replace (2 ^ hash_power - 1) with (Z.ones hash_power) by (rewrite Z.ones_equiv; lia).
    rewrite Z.land_ones by lia.
    pose proof (Z.mod_pos_bound (hash k) (2 ^ hash_power)). lia.
  - intros p [x Hx]. by rewrite lookup_empty in Hx.
  - intros idx. by rewrite Hh.
  - intros idx p n Hp'. by rewrite Hh in Hp'.
  - intros idx p k e H. by apply not_elem_of_nil in H.
  - intros idx. constructor.
  - intros idx. constructor.
  - intros k e. rewrite lookup_empty. split; [done|]. intros [p H]. by apply not_elem_of_nil in H.
Qed.

Lemma getElement_repr t m chain k (nonnull : bool) :
  models t m chain -> (nonnull = true \/ m !! k = None) ->
  exists t' code, getElement t k nonnull = Some (t', code, m !! k) /\ models t' m chain /\
    hash_mask t' = hash_mask t /\ (code = 0 <-> is_Some (m !! k)).
Proof.
  intros M Hnn. unfold getElement.
  destruct (getListByHash_spec t m chain k M) as (t' & Hg & M' & Hm & Hn & Hf & Hh & HLen).
  rewrite Hg. simpl_opt. cbn match.
  pose proof (search_spec t' m chain k M') as Hsearch.
  rewrite (slot_of_mask t t' k Hm), Hh in Hsearch.
  destruct (slot_head t (slot_of t k)) as [h|] eqn:Hhd.
  - destruct Hsearch as [(p & e & Hs & Hin & Hme)|[Hs Hme]]; rewrite Hs; simpl_opt.
    + destruct (seg_in _ _ _ _ _ _ (mo_seg _ _ _ M (slot_of t k)) Hin) as (n & Hnp & Hk & He).
      rewrite Hn, Hnp. simpl_opt. rewrite Hme in *. destruct Hnn as [->|]; [|done].
      exists t', 0. split; [by rewrite He|]. split; [done|]. split; [done|]. split; eauto.
    + exists t', (-3). rewrite Hme. split; [done|]. split; [done|]. split; [done|].
      split; [lia|]. by intros [x Hx].
  - exists t', (-2). destruct Hsearch as [(p & e & Hs & _)|[Hs Hme]]; [done|].
    rewrite Hme. split; [done|]. split; [done|]. split; [done|]. split; [lia|]. by intros [x Hx].
Qed.

(** The heap part of [addElement]: the old head gets a previous element. *)
Definition link_head (ns1 : gmap nat KeyValueHashElement) (head : option nat) (p : nat)
  : option (gmap nat KeyValueHashElement) :=
  match head with
  | Some h => n ← ns1 !! h; Some (<[h := mkElement (element n) (key n) (next n) (Some p)]> ns1)
  | None => Some ns1
  end.

Lemma link_head_spec ns head p new :
  ns !! p = None -> (forall h, head = Some h -> is_Some (ns !! h)) ->
  exists ns2, link_head (<[p := new]> ns) head p = Some ns2 /\ ns2 !! p = Some new /\
    (forall q n, ns !! q = Some n -> exists n', ns2 !! q = Some n' /\ same_links n n') /\
    (forall q, head <> Some q -> q <> p -> ns2 !! q = ns !! q) /\
    (forall q, is_Some (ns2 !! q) -> is_Some (ns !! q) \/ q = p).
Proof.
  intros Hp Hh. unfold link_head. destruct head as [h|].
  - destruct (Hh h eq_refl) as [n Hn]. assert (h <> p) as Hhp by congruence.
    rewrite lookup_insert_ne by done. rewrite Hn. simpl_opt.
    eexists. split; [done|]. repeat split.
    + by rewrite lookup_insert_ne, lookup_insert_eq by done.
    + intros q n' Hq. destruct (decide (q = h)) as [->|Hne].
      * rewrite lookup_insert_eq. eexists. split; [done|]. by simplify_eq.
      * rewrite lookup_insert_ne by done. rewrite lookup_insert_ne by congruence. by exists n'.
    + intros q Hq Hqp. by rewrite !lookup_insert_ne by congruence.
    + intros q [x Hx]. destruct (decide (q = h)) as [->|Hne]; [left; eauto|].
      rewrite lookup_insert_ne in Hx by done. destruct (decide (q = p)) as [->|Hqp]; [by right|].
      rewrite lookup_insert_ne in Hx by done. left. eauto.
  - eexists. split; [done|]. repeat split.
    + by rewrite lookup_insert_eq.
    + intros q n Hq. rewrite lookup_insert_ne by congruence. by exists n.
    + intros q _ Hq. by rewrite lookup_insert_ne by congruence.
    + intros q [x Hx]. destruct (decide (q = p)) as [->|Hqp]; [by right|].
      rewrite lookup_insert_ne in Hx by done. left. eauto.
Qed.

(** A head of one slot is not the head of another: its key fixes the slot. *)
Lemma heads_distinct t m chain i j q :
  models t m chain -> slot_head t i = Some q -> slot_head t j = Some q -> i = j.
Proof.
  intros M Hi Hj. pose proof (mo_seg _ _ _ M i) as S1. rewrite Hi in S1.
  pose proof (mo_seg _ _ _ M j) as S2. rewrite Hj in S2.
  pose proof (mo_slot _ _ _ M i) as L1. pose proof (mo_slot _ _ _ M j) as L2.
  destruct (chain i) as [|[q1 [k1 e1]] l1]; [done|]. destruct S1 as ([= <-] & n1 & E1 & K1 & _).
  destruct (chain j) as [|[q2 [k2 e2]] l2]; [done|]. destruct S2 as ([= <-] & n2 & E2 & K2 & _).
  rewrite <- (L1 q k1 e1), <- (L2 q k2 e2) by by left. congruence.
Qed.

Lemma head_live t m chain i q :
  models t m chain -> slot_head t i = Some q -> is_Some (nodes t !! q).
Proof.
  intros M Hi. pose proof (mo_seg _ _ _ M i) as S1. rewrite Hi in S1.
  destruct (chain i) as [|[q1 [k1 e1]] l1]; [done|]. destruct S1 as ([= <-] & n1 & E1 & _). eauto.
Qed.

(** Changing the head of one slot leaves the other slots. *)
Lemma slot_head_set t t' idx h i :
  (idx < length (hash_vector t))%nat -> hash_vector t' = <[idx := Some h]> (hash_vector t) ->
  slot_head t' i = if decide (i = idx) then h else slot_head t i.
Proof.
  intros Hlt Hv. unfold slot_head. rewrite Hv, list_lookup_insert. case_decide as Hd.
  - destruct Hd as [<- Hd]. by rewrite decide_True.
  - case_decide as Hi; [|done]. subst i. exfalso. by apply Hd.
Qed.

(** Lists of two slots have no node in common: the key of a node fixes its slot. *)
Lemma segs_disjoint t (chain : nat -> list (nat * (list Z * T))) i j p k e :
  (forall i p k e, (p, (k, e)) ∈ chain i -> slot_of t k = i) ->
  seg (nodes t) (slot_head t i) (chain i) -> seg (nodes t) (slot_head t j) (chain j) ->
  (p, (k, e)) ∈ chain i -> p ∈ (chain j).*1 -> i = j.
Proof.
  intros Hslot Si Sj Hi Hj. apply list_elem_of_fmap in Hj as ([p2 [k2 e2]] & Heq & Hj).
  simpl in Heq. subst p2.
  destruct (seg_in _ _ _ _ _ _ Si Hi) as (n1 & E1 & K1 & _).
  destruct (seg_in _ _ _ _ _ _ Sj Hj) as (n2 & E2 & K2 & _).
  rewrite <- (Hslot i p k e Hi), <- (Hslot j p k2 e2 Hj). congruence.
Qed.

(** A new node at the front of the list of its key represents the extended map. *)
Lemma models_push t t' m chain k e :
  models t m chain -> m !! k = None ->
  let idx := slot_of t k in let p := fresh t in let new := mkElement e k (slot_head t idx) None in
  hash_mask t' = hash_mask t -> fresh t' = S p ->
  hash_vector t' = <[idx := Some (Some p)]> (hash_vector t) -> nodes t' !! p = Some new ->
  (forall q n, nodes t !! q = Some n -> exists n', nodes t' !! q = Some n' /\ same_links n n') ->
  (forall q, slot_head t idx <> Some q -> q <> p -> nodes t' !! q = nodes t !! q) ->
  (forall q, is_Some (nodes t' !! q) -> is_Some (nodes t !! q) \/ q = p) ->
  models t' (<[k := e]> m) (fun i => if decide (i = idx) then (p, (k, e)) :: chain idx else chain i).
Proof.
  intros M Hk idx p new Hmask Hfr Hv Hnp Hlinks Hframe Hdom.
  assert (forall k', slot_of t' k' = slot_of t k') as Hslot by (intros; by apply slot_of_mask).
  pose proof (fun i => slot_head_set t t' idx (Some p) i (mo_size _ _ _ M k) Hv) as Hhead.
  assert (nodes t !! p = None) as Hpn.
  { destruct (nodes t !! p) eqn:E; [|done]. pose proof (mo_fresh _ _ _ M p ltac:(eauto)). subst p. lia. }
  assert (forall i, seg (nodes t') (slot_head t i) (chain i)) as Hold.
  { intros i. apply (seg_mono (nodes t)); [|apply (mo_seg _ _ _ M)]. eauto. }
  assert (forall q e', (q, (k, e')) ∉ chain idx) as Hnew.
  { intros q e' Hin. assert (m !! k = Some e') by (apply (mo_map _ _ _ M); eauto). congruence. }
  split.
  - intros k'. rewrite Hslot, Hv, length_insert. apply (mo_size _ _ _ M).
  - intros q Hq. rewrite Hfr. apply Hdom in Hq as [Hq| ->]; [|lia]. pose proof (mo_fresh _ _ _ M q Hq). lia.
  - intros i. rewrite Hhead. case_decide as Hi; [|apply Hold]. split; [done|]. exists new. by repeat split; [..|apply Hold].
  - intros i q n. rewrite Hhead. case_decide as Hi; [intros [= <-]; rewrite Hnp; by intros [= <-]|].
    intros Hq Hqn. apply (mo_head _ _ _ M i q); [done|]. rewrite <- Hframe; [done| |].
    + intros Hhq. apply Hi. by eapply heads_distinct.
    + intros ->. destruct (head_live _ _ _ _ _ M Hq). congruence.
  - intros i q k' e'. rewrite Hslot. case_decide as Hi; [|apply (mo_slot _ _ _ M)]. subst i.
    intros [?|Hin]%elem_of_cons; [by simplify_eq|]. by eapply (mo_slot _ _ _ M).
  - intros i. case_decide as Hi; [|apply (mo_nodup _ _ _ M)]. constructor; [|apply (mo_nodup _ _ _ M)].
    intros ([q [k' e']] & Hq & Hin)%list_elem_of_fmap. simpl in Hq. subst q.
    destruct (seg_in _ _ _ _ _ _ (mo_seg _ _ _ M idx) Hin) as (n & Hn & _). congruence.
  - intros i. case_decide as Hi; [|apply (mo_keys _ _ _ M)]. constructor; [|apply (mo_keys _ _ _ M)].
    intros ([k' e'] & Hq & ([q [k2 e0]] & ? & Hin)%list_elem_of_fmap)%list_elem_of_fmap.
    simplify_eq/=. by apply Hnew in Hin.
  - intros k' e'. rewrite Hslot, lookup_insert. destruct (decide (k = k')) as [<-|Hne].
    + rewrite decide_True by done. split; [intros [= <-]; exists p; by left|].
      intros (q & [?|Hin]%elem_of_cons); [by simplify_eq|]. by apply Hnew in Hin.
    + rewrite (mo_map _ _ _ M). case_decide as Hi; [|done]. rewrite Hi. set_solver.
Qed.

Lemma addElement_models t m chain k e :
  models t m chain -> m !! k = None ->
  exists t' chain', addElement t k e = Some (t', 0) /\ models t' (<[k := e]> m) chain'.
Proof.
  intros M0 Hk0. unfold addElement.
  destruct (getElement_repr t m chain k false M0 (or_intror Hk0)) as (t1 & code & Hge & M1 & Hm1 & Hc).
  rewrite Hge. simpl_opt. cbn match.
  destruct (code =? 0) eqn:Ec; reflect_bool; [exfalso; destruct (proj1 Hc Ec) as [x Hx]; congruence|].
  destruct (getListByHash_spec t1 m chain k M1) as (t2 & Hg & M & Hm2 & _ & _ & Hh2 & _).
  rewrite Hg. simpl_opt. cbn match. rewrite <- (Hh2 (slot_of t1 k)), <- (slot_of_mask t1 t2 k Hm2).
  set (head := slot_head t2 (slot_of t2 k)). set (new := mkElement e k head None).
  destruct (link_head_spec (nodes t2) head (fresh t2) new) as (ns2 & Hl & Hnp & Hlinks & Hframe & Hdom).
  { destruct (nodes t2 !! fresh t2) eqn:E; [|done]. pose proof (mo_fresh _ _ _ M _ ltac:(eauto)). lia. }
  { intros h Hhd. by eapply head_live. }
  unfold link_head in Hl. rewrite Hl. simpl_opt. eexists _, _. split; [done|]. by apply models_push.
Qed.

Lemma clear_list_spec fuel ns cur l :
  seg ns cur l -> NoDup l.*1 -> (length l < fuel)%nat ->
  exists ns', clear_list fuel ns cur = Some (ns', l.*2) /\
    forall q, ns' !! q = if decide (q ∈ l.*1) then None else ns !! q.
Proof.
  revert fuel ns cur; induction l as [|[p [k e]] l IH]; intros fuel ns cur Hs Hnd Hf.
  - simpl in Hs. subst cur. exists ns. split; [by destruct fuel|]. intros q.
    rewrite decide_False; [done|]. apply not_elem_of_nil.
  - destruct Hs as (-> & n & Hn & Hk & He & Hs). destruct fuel as [|fuel]; simpl in *; [lia|].
    apply NoDup_cons in Hnd as [Hp Hnd]. rewrite Hn. simpl_opt.
    destruct (IH fuel (delete p ns) (next n)) as (ns' & Hc & Hl); [|done|lia|].
    { eapply seg_mono; [|exact Hs]. intros q m Hq Hm. exists m.
      rewrite lookup_delete_ne by (intros ->; done). done. }
    rewrite Hc. simpl_opt. cbn match. exists ns'. split; [by rewrite Hk, He|]. intros q. rewrite Hl.
    destruct (decide (q = p)) as [->|Hne].
    + rewrite decide_False by done. rewrite lookup_delete_eq. rewrite decide_True by by left. done.
    + rewrite lookup_delete_ne by done. repeat case_decide; set_solver.
Qed.

(** Slots from [idx] on are still lists; the slots before have been emptied. *)
Lemma clear_slots_spec count idx t (chain : nat -> list (nat * (list Z * T))) :
  (idx + count = length (hash_vector t))%nat ->
  (forall i, (idx <= i)%nat -> seg (nodes t) (slot_head t i) (chain i)) ->
  (forall i, NoDup (chain i).*1) ->
  (forall i p k e, (p, (k, e)) ∈ chain i -> slot_of t k = i) ->
  exists t' out, clear_slots count idx t = Some (t', out) /\
    hash_mask t' = hash_mask t /\ fresh t' = fresh t /\
    length (hash_vector t') = length (hash_vector t) /\ nodes t' ⊆ nodes t /\
    (forall i, slot_head t' i = if decide (idx <= i)%nat then None else slot_head t i) /\
    (forall k e, (k, e) ∈ out <-> exists i, (idx <= i < idx + count)%nat /\ (k, e) ∈ (chain i).*2).
Proof.
  revert idx t; induction count as [|count IH]; intros idx t Hlen Hseg Hnd Hslot.
  - exists t, []. repeat split; try done.
    + intros i. case_decide; [|done]. unfold slot_head. rewrite lookup_ge_None_2 by lia. done.
    + intros H. by apply not_elem_of_nil in H.
    + intros (i & Hi & _). lia.
  - cbn [clear_slots]. destruct (lookup_lt_is_Some_2 (hash_vector t) idx ltac:(lia)) as [slot Hsl].
    rewrite Hsl. simpl_opt. destruct slot as [head|].
    + assert (slot_head t idx = head) as Hhd by (unfold slot_head; by rewrite Hsl).
      pose proof (Hseg idx ltac:(lia)) as Hs. rewrite Hhd in Hs.
      destruct (clear_list_spec (S (size (nodes t))) _ _ _ Hs (Hnd idx)) as (ns' & Hc & Hl).
      { pose proof (seg_length _ _ _ Hs (Hnd idx)). lia. }
      rewrite Hc. simpl_opt. cbn match. set (t1 := mkHash _ _ _ _).
      pose proof (fun i => slot_head_set t t1 idx None i ltac:(lia) eq_refl) as Hh1.
      destruct (IH (S idx) t1) as (t' & out & Hcs & Hm & Hfr & HL & Hns & Hhd' & Hout).
      * unfold t1. simpl. rewrite length_insert. lia.
      * intros i Hi. rewrite Hh1, decide_False by lia. unfold t1. simpl.
        eapply seg_mono; [|apply Hseg; lia]. intros p n Hp Hn. exists n. rewrite Hl.
        rewrite decide_False; [done|]. intros Hp'.
        apply list_elem_of_fmap in Hp as ([p1 [k1 e1]] & -> & Hin1).
        assert (i = idx); [|lia].
        eapply (segs_disjoint t chain); [done|apply Hseg; lia|by rewrite Hhd|exact Hin1|exact Hp'].
      * done.
      * intros i p k e. apply Hslot.
      * rewrite Hcs. simpl_opt. cbn match. exists t', ((chain idx).*2 ++ out).
        split; [done|]. split; [done|]. split; [done|]. split.
        { rewrite HL. unfold t1. simpl. apply length_insert. }
        split.
        { etrans; [exact Hns|]. unfold t1. simpl. apply map_subseteq_spec. intros q n.
          rewrite Hl. by case_decide. }
        split.
        { intros i. rewrite Hhd', Hh1. repeat case_decide; try done; lia. }
        intros k e. rewrite elem_of_app, Hout. split.
        -- intros [H|(i & Hi & H)]; [exists idx; split; [lia|done]|exists i; split; [lia|done]].
        -- intros (i & Hi & H). destruct (decide (i = idx)) as [->|]; [by left|right].
           exists i. split; [lia|done].
    + destruct (IH (S idx) t) as (t' & out & Hcs & Hm & Hfr & HL & Hns & Hhd' & Hout);
        [lia|intros i Hi; apply Hseg; lia|done|done|].
      assert (slot_head t idx = None) as Hhd by (unfold slot_head; by rewrite Hsl).
      pose proof (Hseg idx ltac:(lia)) as Hs. rewrite Hhd in Hs.
      exists t', out. repeat (split; [done|]). split.
      * intros i. rewrite Hhd'. repeat case_decide; try done; [lia|].
        replace i with idx by lia. done.
      * intros k e. rewrite Hout. split; intros (i & Hi & H); exists i; (split; [|done]); [lia|].
        destruct (decide (i = idx)) as [->|]; [|lia]. exfalso.
        destruct (chain idx) as [|[q [k0 e0]] l]; [by apply not_elem_of_nil in H|]. by destruct Hs.
Qed.

(** A key whose slot no other key has is alone in its list. *)
Lemma alone_chain t m chain k e p :
  models t m chain -> (p, (k, e)) ∈ chain (slot_of t k) ->
  (forall k', is_Some (m !! k') -> slot_of t k' = slot_of t k -> k' = k) ->
  chain (slot_of t k) = [(p, (k, e))].
Proof.
  intros M Hin Halone. pose proof (mo_keys _ _ _ M (slot_of t k)) as Hnd.
  assert (forall q k' e', (q, (k', e')) ∈ chain (slot_of t k) -> k' = k) as Hall.
  { intros q k' e' Hq. pose proof (mo_slot _ _ _ M _ q k' e' Hq) as Sq.
    apply Halone; [|done]. exists e'. apply (mo_map _ _ _ M). rewrite Sq. eauto. }
  destruct (chain (slot_of t k)) as [|[q1 [k1 e1]] [|[q2 [k2 e2]] l]].
  - by apply not_elem_of_nil in Hin.
  - apply list_elem_of_singleton in Hin. by simplify_eq.
  - exfalso. simpl in Hnd. apply NoDup_cons in Hnd as [Hnin _]. apply Hnin.
    rewrite (Hall q1 k1 e1), (Hall q2 k2 e2) by set_solver. by left.
Qed.

(** Emptying the slot of a key that is alone in it removes the binding. *)
Lemma models_empty t t' m chain k e p :
  models t m chain -> chain (slot_of t k) = [(p, (k, e))] ->
  hash_mask t' = hash_mask t -> fresh t' = fresh t ->
  hash_vector t' = <[slot_of t k := Some None]> (hash_vector t) -> nodes t' = delete p (nodes t) ->
  models t' (delete k m) (fun i => if decide (i = slot_of t k) then [] else chain i).
Proof.
  intros M Hch Hmask Hfr Hv Hns. set (idx := slot_of t k) in *.
  assert (forall k', slot_of t' k' = slot_of t k') as Hslot by (intros; by apply slot_of_mask).
  pose proof (fun i => slot_head_set t t' idx None i (mo_size _ _ _ M k) Hv) as Hhead.
  split.
  - intros k'. rewrite Hslot, Hv, length_insert. apply (mo_size _ _ _ M).
  - intros q [x Hq]. rewrite Hns in Hq. apply lookup_delete_Some in Hq as [_ Hq].
    rewrite Hfr. apply (mo_fresh _ _ _ M). eauto.
  - intros i. rewrite Hhead. case_decide as Hi; [done|]. rewrite Hns.
    eapply seg_mono; [|apply (mo_seg _ _ _ M)]. intros q n' Hq Hn'. exists n'.
    apply list_elem_of_fmap in Hq as ([q' [k' e'']] & -> & Hq). simpl in *.
    rewrite lookup_delete_ne; [done|]. intros ->. apply Hi.
    eapply (segs_disjoint t chain); [apply (mo_slot _ _ _ M)|apply (mo_seg _ _ _ M)..|exact Hq|].
    rewrite Hch. by left.
  - intros i q n'. rewrite Hhead, Hns. case_decide as Hi; [done|]. intros Hq Hn'.
    apply lookup_delete_Some in Hn' as [_ Hn']. by apply (mo_head _ _ _ M i q).
  - intros i q k' e'. rewrite Hslot. case_decide as Hi; [intros Hx; by apply not_elem_of_nil in Hx|].
    apply (mo_slot _ _ _ M).
  - intros i. case_decide; [constructor|apply (mo_nodup _ _ _ M)].
  - intros i. case_decide; [constructor|apply (mo_keys _ _ _ M)].
  - intros k' e'. rewrite Hslot, lookup_delete_Some, (mo_map _ _ _ M). case_decide as Hi.
    + split; [|intros [q Hq]; by apply not_elem_of_nil in Hq].
      intros [Hne [q Hq]]. rewrite Hi, Hch in Hq. apply list_elem_of_singleton in Hq. by simplify_eq.
    + split; [by intros [_ ?]|]. intros Hq. split; [|done]. intros <-. by apply Hi.
Qed.

End Hash.

(** ** The theorems *)

(** [C37] [addElement] of a key that is not in the table returns 0 and adds the
    binding: the table then represents the extended map, whatever keys share the
    slot. *)
Theorem addElement_spec {T} (hash : list Z -> Z) (t : @TemplatedKeyValueHash T)
    (m : gmap (list Z) T) (k : list Z) (e : T)
    (Hr : repr hash t m) (Hk : m !! k = None) :
  exists t', addElement hash t k e = Some (t', 0) /\ repr hash t' (<[k := e]> m).
Proof.
  destruct Hr as [chain M]. destruct (addElement_models hash t m chain k e M Hk) as (t' & c' & H & M').
  exists t'. split; [done|]. by exists c'.
Qed.

Lemma addElement_spec_witness :
  exists t', addElement (fun _ => 1) (new_hash 1) [5] 7 = Some (t', 0) /\
    repr (fun _ => 1) t' (<[[5] := 7]> ∅).
Proof.
  apply (addElement_spec (fun _ => 1) (new_hash 1) ∅ [5] 7);
    [apply new_hash_repr; lia | apply lookup_empty].
Defined.

(** [getElement] agrees with the represented map: it returns 0 with the element
    exactly for the keys of the map and a negative code otherwise, and changes
    nothing a client can see. *)
Theorem getElement_spec {T} (hash : list Z -> Z) (t : @TemplatedKeyValueHash T)
    (m : gmap (list Z) T) (k : list Z) (Hr : repr hash t m) :
  exists t' code, getElement hash t k true = Some (t', code, m !! k) /\ repr hash t' m /\
    (code = 0 <-> is_Some (m !! k)).
Proof.
  destruct Hr as [chain M].
  destruct (getElement_repr hash t m chain k true M ltac:(by left)) as (t' & c & H & M' & _ & Hc).
  exists t', c. split; [done|]. split; [|done]. by exists chain.
Qed.

Lemma getElement_spec_witness :
  exists t' code, getElement (fun _ => 1) (@new_hash Z 1) [5] true
      = Some (t', code, (∅ : gmap (list Z) Z) !! [5]) /\
    repr (fun _ => 1) t' ∅ /\ (code = 0 <-> is_Some ((∅ : gmap (list Z) Z) !! [5])).
Proof.
  apply (getElement_spec (fun _ => 1) (new_hash 1) ∅ [5]). apply new_hash_repr. lia.
Defined.

(** [clear] frees every list, calls [clearHashTableElement] for exactly the
    bindings of the table and leaves a table that represents the empty map. *)
Theorem clear_spec {T} (hash : list Z -> Z) (t : @TemplatedKeyValueHash T)
    (m : gmap (list Z) T) (Hr : repr hash t m) :
  exists t' out, clear t = Some (t', out) /\ repr hash t' ∅ /\
    forall k e, (k, e) ∈ out <-> m !! k = Some e.
Proof.
  destruct Hr as [chain M]. unfold clear.
  destruct (clear_slots_spec hash (length (hash_vector t)) 0 t chain)
    as (t' & out & Hc & Hm & Hf & HL & Hn & Hh & Hout); [lia|..].
  { intros i _. apply (mo_seg _ _ _ _ M). }
  { apply (mo_nodup _ _ _ _ M). }
  { apply (mo_slot _ _ _ _ M). }
  assert (forall i, slot_head t' i = None) as Hnone.
  { intros i. rewrite Hh. by rewrite decide_True by lia. }
  assert (forall k, slot_of hash t' k = slot_of hash t k) as Hsl by (intros; by apply slot_of_mask).
  exists t', out. split; [done|]. split.
  - exists (fun _ => []). split.
    + intros k. rewrite Hsl, HL. apply (mo_size _ _ _ _ M).
    + intros p [n Hp]. rewrite Hf. apply (mo_fresh _ _ _ _ M).
      exists n. by eapply lookup_weaken.
    + intros i. by rewrite Hnone.
    + intros i p n Hp. by rewrite Hnone in Hp.
    + intros i p k e H. by apply not_elem_of_nil in H.
    + intros i. constructor.
    + intros i. constructor.
    + intros k e. rewrite lookup_empty. split; [done|]. intros [p H]. by apply not_elem_of_nil in H.
  - intros k e. rewrite Hout, (mo_map _ _ _ _ M). split.
    + intros (i & _ & Hin). apply list_elem_of_fmap in Hin as ([p [k' e']] & Heq & Hin).
      simpl in Heq. simplify_eq. exists p. by rewrite (mo_slot _ _ _ _ M i p k' e' Hin).
    + intros [p Hin]. exists (slot_of hash t k). split.
      * pose proof (mo_size _ _ _ _ M k). lia.
      * apply list_elem_of_fmap. by exists (p, (k, e)).
Qed.

Lemma clear_spec_witness :
  exists t1 t' out, addElement (fun _ => 1) (new_hash 1) [5] 7 = Some (t1, 0) /\
    clear t1 = Some (t', out) /\ repr (fun _ => 1) t' ∅ /\
    forall k e, (k, e) ∈ out <-> (<[[5] := 7]> ∅ : gmap (list Z) Z) !! k = Some e.
Proof.
  assert (repr (T := Z) (fun _ => 1) (new_hash 1) ∅) as [c0 M0] by (apply new_hash_repr; lia).
  destruct (addElement_models (fun _ => 1) (new_hash 1) ∅ c0 [5] 7 M0 (lookup_empty _)) as (t1 & c & H & M).
  destruct (clear_spec (fun _ => 1) t1 (<[[5] := 7]> ∅) (ex_intro _ c M)) as (t' & out & H1 & H2 & H3).
  by exists t1, t', out.
Defined.

(** [removeElement] removes the binding of a key that is alone in its slot, calls
    [clearHashTableElement] for it, and keeps every other binding. *)
Theorem removeElement_alone_spec {T} (hash : list Z -> Z) (t : @TemplatedKeyValueHash T)
    (m : gmap (list Z) T) (k : list Z) (e : T)
    (Hr : repr hash t m) (Hk : m !! k = Some e)
    (Halone : forall k', is_Some (m !! k') -> slot_of hash t k' = slot_of hash t k -> k' = k) :
  exists t', removeElement hash t k = Some (t', Some (k, e)) /\ repr hash t' (delete k m).
Proof.
  destruct Hr as [chain M0]. unfold removeElement.
  destruct (getListByHash_spec hash t m chain k M0) as (t1 & Hg & M & Hm & Hn & Hf & Hh & HL).
  rewrite Hg. simpl_opt. cbn match. rewrite <- Hh.
  assert (forall k', slot_of hash t1 k' = slot_of hash t k') as Hsl by (intros; by apply slot_of_mask).
  pose proof (search_spec hash t1 m chain k M) as Hs. rewrite <- Hsl.
  destruct Hs as [(p & e' & Hs & Hin & Hme)|[_ Hme]]; [|congruence].
  rewrite Hs. simpl_opt. assert (e' = e) as -> by congruence.
  assert (chain (slot_of hash t1 k) = [(p, (k, e))]) as Hch.
  { apply (alone_chain hash t1 m); [done|done|]. intros k' Hk'. rewrite !Hsl. by apply Halone. }
  pose proof (mo_seg _ _ _ _ M (slot_of hash t1 k)) as Hseg. rewrite Hch in Hseg.
  destruct Hseg as (Hhd & n & Hnp & Hkn & Hen & Hnext). simpl in Hnext.
  rewrite Hnp. simpl_opt. rewrite (mo_head _ _ _ _ M _ p n Hhd Hnp). simpl_opt.
  rewrite Hkn, Hen, Hnext. eexists. split; [done|]. eexists. by apply (models_empty hash t1 _ m chain k e p).
Qed.

Lemma removeElement_alone_spec_witness :
  exists t1 t', addElement (fun _ => 1) (new_hash 1) [5] 7 = Some (t1, 0) /\
    removeElement (fun _ => 1) t1 [5] = Some (t', Some ([5], 7)) /\
    repr (fun _ => 1) t' (delete [5] (<[[5] := 7]> ∅)).
Proof.
  assert (repr (T := Z) (fun _ => 1) (new_hash 1) ∅) as [c0 M0] by (apply new_hash_repr; lia).
  destruct (addElement_models (fun _ => 1) (new_hash 1) ∅ c0 [5] 7 M0 (lookup_empty _)) as (t1 & c & H & M).
  destruct (removeElement_alone_spec (fun _ => 1) t1 (<[[5] := 7]> ∅) [5] 7 (ex_intro _ c M)) as (t' & H1 & H2).
  - apply lookup_insert_eq.
  - intros k' [x Hx] _. apply lookup_insert_Some in Hx as [[-> _]|[_ Hx]]; [done|].
    by rewrite lookup_empty in Hx.
  - by exists t1, t'.
Defined.

(** Removal is not safe when keys share a slot: after adding two keys of one slot,
    removing the first added (which is not the head) dereferences the null [next]
    pointer, and removing the head first leaves a stale [prev] pointer in the other,
    whose removal then does the same. *)
Theorem removeElement_collision_unsafe {T} (e1 e2 : T) :
  (exists t, (x ← addElement (fun _ => 0) (new_hash 1) [1] e1;
              x ← addElement (fun _ => 0) (fst x) [2] e2; Some (fst x)) = Some t /\
     removeElement (fun _ => 0) t [1] = None /\
     exists t', removeElement (fun _ => 0) t [2] = Some (t', Some ([2], e2)) /\
       removeElement (fun _ => 0) t' [1] = None).
Proof. eexists. split; [reflexivity|]. split; [reflexivity|]. eexists. split; reflexivity. Qed.
