(* ===== verification/CommonBuffer.v ===== *)
(** * The cache of the live data: [CommonBuffer]

    Models [chaos/common/caching_system/common_buffer]: the linked queue of
    [CommonBuffer.h] with its nodes ([Element.h]), the reference-counting
    [SmartPointer], the readers ([IteratorBase.h], [IteratorReader.h]) and the garbage
    collector ([IteratorGarbage.h]).  Nodes live in a heap; a freed node is gone from
    it, so that every use after free is a failure ([None]).  Counters are 32-bit and
    wrap.  Each reading of the wall clock gives the next value of an arbitrary
    sequence [clock].  An operation runs without interference from the others; the
    theorems are about arbitrary sequences of operations of one writer, one garbage
    collector and the readers. *)

From S2P Require Import Prelude.

Local Open Scope Z_scope.

(** [AbstractDataElement<T>]: a time stamp (a [long]) and a payload. *)
Record AbstractDataElement {A : Type} := mkData { getTimestamp : Z; getData : A }.
Arguments AbstractDataElement : clear implicits.
Arguments mkData {A}.

(** [class Element<T>] *)
Record Element {A : Type} := mkElem {
  enext : option nat;
  readerCount : Z;
  referenceCount : Z;
  edata : option (AbstractDataElement A);
  timedOut : Z }.
Arguments Element : clear implicits.
Arguments mkElem {A}.

(** [class CommonBuffer<U>] with the heap of its nodes and the clock position. *)
Record CommonBuffer {A : Type} := mkBuf {
  heap : gmap nat (Element A);
  fresh : nat;
  head : nat;
  tail : nat;
  last : option nat;
  pivot : nat;
  validita : Z;
  elementiInCodaValidi : Z;
  elementiInCodaValidiCorrenti : Z;
  elementiInGarbage : Z;
  elementiInCodaCorrenti : Z;
  elementiInCoda : Z;
  elementiInEliminati : Z;
  numeroOsservazioni : Z;
  tick : nat }.
Arguments CommonBuffer : clear implicits.
Arguments mkBuf {A}.

Section Buffer.
Context {A : Type}.
Context (clock : nat -> Z).

Local Notation Buf := (CommonBuffer A).
Local Notation M := (ST (CommonBuffer A)).
Local Notation Elem := (Element A).

(** *** Field updates *)

Definition set_heap (f : gmap nat Elem -> gmap nat Elem) (b : Buf) : Buf :=
  mkBuf (f (heap b)) (fresh b) (head b) (tail b) (last b) (pivot b) (validita b)
    (elementiInCodaValidi b) (elementiInCodaValidiCorrenti b) (elementiInGarbage b)
    (elementiInCodaCorrenti b) (elementiInCoda b) (elementiInEliminati b)
    (numeroOsservazioni b) (tick b).
Definition set_fresh (n : nat) (b : Buf) : Buf :=
  mkBuf (heap b) n (head b) (tail b) (last b) (pivot b) (validita b)
    (elementiInCodaValidi b) (elementiInCodaValidiCorrenti b) (elementiInGarbage b)
    (elementiInCodaCorrenti b) (elementiInCoda b) (elementiInEliminati b)
    (numeroOsservazioni b) (tick b).
Definition set_head (n : nat) (b : Buf) : Buf :=
  mkBuf (heap b) (fresh b) n (tail b) (last b) (pivot b) (validita b)
    (elementiInCodaValidi b) (elementiInCodaValidiCorrenti b) (elementiInGarbage b)
    (elementiInCodaCorrenti b) (elementiInCoda b) (elementiInEliminati b)
    (numeroOsservazioni b) (tick b).
Definition set_tail (n : nat) (b : Buf) : Buf :=
  mkBuf (heap b) (fresh b) (head b) n (last b) (pivot b) (validita b)
    (elementiInCodaValidi b) (elementiInCodaValidiCorrenti b) (elementiInGarbage b)
    (elementiInCodaCorrenti b) (elementiInCoda b) (elementiInEliminati b)
    (numeroOsservazioni b) (tick b).
Definition set_last (n : option nat) (b : Buf) : Buf :=
  mkBuf (heap b) (fresh b) (head b) (tail b) n (pivot b) (validita b)
    (elementiInCodaValidi b) (elementiInCodaValidiCorrenti b) (elementiInGarbage b)
    (elementiInCodaCorrenti b) (elementiInCoda b) (elementiInEliminati b)
    (numeroOsservazioni b) (tick b).
Definition set_pivot (n : nat) (b : Buf) : Buf :=
  mkBuf (heap b) (fresh b) (head b) (tail b) (last b) n (validita b)
    (elementiInCodaValidi b) (elementiInCodaValidiCorrenti b) (elementiInGarbage b)
    (elementiInCodaCorrenti b) (elementiInCoda b) (elementiInEliminati b)
    (numeroOsservazioni b) (tick b).
Definition set_validita (v : Z) (b : Buf) : Buf :=
  mkBuf (heap b) (fresh b) (head b) (tail b) (last b) (pivot b) v
    (elementiInCodaValidi b) (elementiInCodaValidiCorrenti b) (elementiInGarbage b)
    (elementiInCodaCorrenti b) (elementiInCoda b) (elementiInEliminati b)
    (numeroOsservazioni b) (tick b).
Definition set_correnti (v : Z) (b : Buf) : Buf :=
  mkBuf (heap b) (fresh b) (head b) (tail b) (last b) (pivot b) (validita b)
    (elementiInCodaValidi b) (elementiInCodaValidiCorrenti b) (elementiInGarbage b)
    v (elementiInCoda b) (elementiInEliminati b)
    (numeroOsservazioni b) (tick b).
Definition set_tick (n : nat) (b : Buf) : Buf :=
  mkBuf (heap b) (fresh b) (head b) (tail b) (last b) (pivot b) (validita b)
    (elementiInCodaValidi b) (elementiInCodaValidiCorrenti b) (elementiInGarbage b)
    (elementiInCodaCorrenti b) (elementiInCoda b) (elementiInEliminati b)
    (numeroOsservazioni b) n.

(** *** [Element.h] *)

(** [Element()] *)
Definition new_Element : Elem := mkElem None 0 0 None 0.

(** A dereference: it fails on a node that has been freed. *)
Definition deref (p : nat) : M Elem := fun b => e ← heap b !! p; Some (e, b).
Definition store (p : nat) (e : Elem) : M unit :=
  fun b => _ ← heap b !! p; Some (tt, set_heap <[p := e]> b).

Definition increment (p : nat) : M unit :=
  e ← deref p;
  store p (mkElem (enext e) (u32 (readerCount e + 1)) (referenceCount e) (edata e) (timedOut e)).
Definition decrementCounter (p : nat) : M unit :=
  e ← deref p;
  store p (mkElem (enext e) (u32 (readerCount e - 1)) (referenceCount e) (edata e) (timedOut e)).
Definition incrementReferenceCount (p : nat) : M unit :=
  e ← deref p;
  store p (mkElem (enext e) (readerCount e) (u32 (referenceCount e + 1)) (edata e) (timedOut e)).
Definition decrementReferenceCount (p : nat) : M unit :=
  e ← deref p;
  store p (mkElem (enext e) (readerCount e) (u32 (referenceCount e - 1)) (edata e) (timedOut e)).
Definition setData (p : nat) (d : AbstractDataElement A) (timeout : Z) : M unit :=
  e ← deref p;
  store p (mkElem (enext e) (readerCount e) (referenceCount e) (Some d) timeout).
Definition set_next (p : nat) (n : option nat) : M unit :=
  e ← deref p;
  store p (mkElem n (readerCount e) (referenceCount e) (edata e) (timedOut e)).

(** [my_time::getMillisTimestamp()] *)
Definition getMillisTimestamp : M Z := fun b => Some (clock (tick b), set_tick (S (tick b)) b).

(** [isValid]: the comparison of the [uint64_t] with the [long] is unsigned. *)
Definition isValid (p : nat) : M bool :=
  actualTime ← getMillisTimestamp;
  e ← deref p;
  mret (negb (bool_decide (is_Some (edata e)) && (timedOut e <? u64 actualTime))).

(** *** [SmartPointer.h]: construction and destruction; a pointer is its element. *)

Definition new_SmartPointer (p : nat) : M nat := incrementReferenceCount p;; mret p.
Definition delete_SmartPointer (sp : nat) : M unit := decrementReferenceCount sp.

(** *** [CommonBuffer.h] *)

Definition incrementElementCounter : M unit :=
  st_modify (fun b => set_correnti (u32 (elementiInCodaCorrenti b + 1)) b).
Definition decrementElementCounter : M unit :=
  st_modify (fun b => set_correnti (u32 (elementiInCodaCorrenti b - 1)) b).

(** [MemoryAllocator::allocate]: a fresh address with a default element. *)
Definition allocate : M nat := fun b =>
  Some (fresh b, set_fresh (S (fresh b)) (set_heap <[fresh b := new_Element]> b)).
(** [MemoryAllocator::deallocate] *)
Definition deallocate (p : nat) : M unit := fun b =>
  _ ← heap b !! p; Some (tt, set_heap (delete p) b).

Definition allocNode : M nat := incrementElementCounter;; allocate.
Definition deAllocNode (p : nat) : M unit := decrementElementCounter;; deallocate p.

(** The constructor: one dummy element is head, tail and pivot. *)
Definition new_CommonBuffer (validity : Z) : Buf :=
  mkBuf {[ 0%nat := new_Element ]} 1 0 0 None 0 (if validity <? 1 then 1 else validity)
    0 0 0 0 0 0 0 0.

(** [lockPivot] and [attachStream] repeat until [pivot] did not change between the
    two reads; without interference the first round succeeds. *)
Fixpoint lock_loop (fuel : nat) : M nat :=
  match fuel with
  | O => st_fail
  | S fuel =>
      inizio ← st_gets pivot;
      increment inizio;;
      dopo ← st_gets pivot;
      if decide (inizio = dopo) then mret inizio
      else decrementCounter inizio;; lock_loop fuel
  end.

Definition lockPivot : M nat := lock_loop 1.
Definition unlockPivot (p : nat) : M unit := decrementCounter p.

(** [dequeue]: cuts the tail unless it is the pivot or the head. *)
Definition dequeue : M bool :=
  b ← st_get;
  let temp := tail b in
  if decide (temp = pivot b \/ temp = head b) then mret false
  else
    e ← deref temp;
    match enext e with
    | None => st_fail
    | Some n => st_modify (set_tail n);; deAllocNode temp;; mret true
    end.

(** The loop of [clearUnusedData].  [prev] is null at the tail.  It gives the
    numbers of elements visited and freed. *)
Fixpoint clear_loop (fuel : nat) (cursor : option nat) (endp testa : nat) (prevp : option nat)
    (visited freed : Z) : M (Z * Z) :=
  match cursor with
  | None => mret (visited, freed)
  | Some c =>
      if decide (c = endp \/ c = testa) then mret (visited, freed)
      else match fuel with
      | O => st_fail
      | S fuel =>
          e ← deref c;
          b ← st_get;
          if referenceCount e <=? 0 then
            if decide (c = tail b) then
              dequeue;;
              b ← st_get;
              clear_loop fuel (Some (tail b)) endp testa None (visited + 1) (freed + 1)
            else
              match prevp with
              | None => st_fail
              | Some p =>
                  set_next p (enext e);;
                  deAllocNode c;;
                  match enext e with
                  | None => mret (visited, freed)
                  | Some s => clear_loop fuel (Some s) endp testa prevp (visited + 1) (freed + 1)
                  end
              end
          else
            match enext e with
            | None => mret (visited, freed)
            | Some s => clear_loop fuel (Some s) endp testa (Some c) (visited + 1) freed
            end
      end
  end.

Definition clear_stats (visited freed : Z) (b : Buf) : Buf :=
  let validiCorrenti := u32 (elementiInCodaCorrenti b - visited) in
  mkBuf (heap b) (fresh b) (head b) (tail b) (last b) (pivot b) (validita b)
    (u32 (elementiInCodaValidi b + validiCorrenti)) validiCorrenti
    (u32 (elementiInGarbage b + visited)) (elementiInCodaCorrenti b)
    (u32 (elementiInCoda b + elementiInCodaCorrenti b))
    (u32 (elementiInEliminati b + freed)) (u32 (numeroOsservazioni b + 1)) (tick b).

Definition clearUnusedData : M unit :=
  b ← st_get;
  '(visited, freed) ← clear_loop (size (heap b)) (Some (tail b)) (pivot b) (head b) None 0 0;
  st_modify (clear_stats visited freed).

(** [enqueue]: the writer fills the dummy head and appends a new dummy. *)
Definition enqueue (data : AbstractDataElement A) (smartPointer : bool) : M (option nat) :=
  node ← allocNode;
  set_next node None;;
  b ← st_get;
  let testa := head b in
  let timeout := u64 (getTimestamp data + validita b) in
  setData testa data timeout;;
  st_modify (set_last (Some testa));;
  rit ← (if smartPointer then p ← new_SmartPointer testa; mret (Some p) else mret None);
  set_next testa (Some node);;
  st_modify (set_head node);;
  mret rit.

Definition setValidity (validity : Z) : M unit :=
  st_modify (set_validita (if validity <? 1 then 1 else validity)).
Definition getValidity : M Z := st_gets validita.
Definition getCounter : M Z := st_gets elementiInCodaCorrenti.
Definition getElementInValidity : M Z := st_gets elementiInCodaValidiCorrenti.

(** *** [IteratorBase.h] *)

Record Iterator := mkIter {
  current : option nat;
  stopAndResume : option nat;
  lastDiv : option nat }.

Definition new_Iterator : Iterator := mkIter None None None.

Definition cur (it : Iterator) : M nat := st_lift (current it).
Definition with_current (it : Iterator) (c : option nat) : Iterator :=
  mkIter c (stopAndResume it) (lastDiv it).
Definition with_stop (it : Iterator) (s : option nat) : Iterator :=
  mkIter (current it) s (lastDiv it).

(** [if(readerCount > 0) decrementCounter();] *)
Definition leaveStream (it : Iterator) : M unit :=
  c ← cur it; e ← deref c;
  if 0 <? readerCount e then decrementCounter c else mret tt.

Definition updateIterator (it : Iterator) : M Iterator :=
  c ← cur it; e ← deref c;
  match enext e with
  | None => st_fail
  | Some n =>
      increment n;;
      leaveStream it;;
      mret (with_current it (Some n))
  end.

Definition isReady (it : Iterator) : M bool :=
  b ← st_get; c ← cur it; e ← deref c;
  mret (negb (bool_decide (enext e = None) || bool_decide (c = head b)
              || bool_decide (edata e = None))).

(** Replace the resume pointer by one to the current element. *)
Definition resume_here (it : Iterator) : M Iterator :=
  (match stopAndResume it with Some s => delete_SmartPointer s | None => mret tt end);;
  c ← cur it;
  s ← new_SmartPointer c;
  mret (with_stop it (Some s)).

(** The [do ... while] of [jumpToNextValidElement]. *)
Fixpoint jump_loop (fuel : nat) (it : Iterator) (testa : nat) : M (bool * Iterator) :=
  match fuel with
  | O => st_fail
  | S fuel =>
      ready ← isReady it;
      if (ready : bool) then
        it ← updateIterator it;
        c ← cur it;
        v ← isValid c;
        if (negb v && negb (bool_decide (c = testa)))%bool then jump_loop fuel it testa
        else mret (true, it)
      else
        it ← resume_here it;
        leaveStream it;;
        mret (false, it)
  end.

Definition jumpToNextValidElement (it : Iterator) : M (bool * Iterator) :=
  b ← st_get;
  let testa := head b in
  c ← cur it; e ← deref c;
  (if readerCount e =? 0 then increment c else mret tt);;
  ready ← isReady it;
  if (ready : bool) then
    v ← isValid c;
    if (v : bool) then mret (true, it) else jump_loop (S (size (heap b))) it testa
  else
    it ← resume_here it;
    leaveStream it;;
    mret (false, it).

(** [attachStream]: the iterator starts at the pivot, with a reader count on it. *)
Definition attachStream (it : Iterator) : M Iterator :=
  p ← lock_loop 1; mret (mkIter (Some p) (stopAndResume it) None).

(** *** [IteratorReader.h] *)

Definition drop_stop (it : Iterator) : M Iterator :=
  match stopAndResume it with
  | Some s => delete_SmartPointer s;; mret (with_stop it None)
  | None => mret it
  end.

Definition chooseCurrent (it : Iterator) : M (bool * Iterator) :=
  b ← st_get;
  let testa := head b in
  match stopAndResume it with
  | Some _ =>
      c ← cur it;
      v ← isValid c;
      if (v : bool) then
        increment c;;
        it ← drop_stop it;
        mret (true, it)
      else
        e ← deref c;
        if decide (enext e = None \/ c = testa) then
          it ← resume_here it; mret (false, it)
        else
          increment c;;
          e ← deref c;
          let limitTimeStamp := timedOut e in
          if decide (pivot b = testa) then
            leaveStream it;;
            it ← drop_stop it;
            it ← attachStream it;
            '(ok, it) ← jumpToNextValidElement it;
            if (ok : bool) then mret (true, with_stop it None) else mret (false, it)
          else
            pe ← deref (pivot b);
            if timedOut pe <? limitTimeStamp then
              '(ok, it) ← jumpToNextValidElement it;
              if (ok : bool) then it ← drop_stop it; mret (true, it) else mret (false, it)
            else
              leaveStream it;;
              it ← drop_stop it;
              it ← attachStream it;
              '(ok, it) ← jumpToNextValidElement it;
              if (ok : bool) then mret (true, with_stop it None) else mret (false, it)
  | None =>
      match current it with
      | None => it ← attachStream it; mret (true, it)
      | Some _ => mret (true, it)
      end
  end.

(** The reading loop: pointers to consecutive elements up to the head. *)
Fixpoint read_loop (limit : nat) (it : Iterator) (testa : nat) : M (list nat * Iterator) :=
  match limit with
  | O => mret ([], it)
  | S limit =>
      ready ← isReady it;
      c ← cur it;
      if ((ready : bool) && negb (bool_decide (c = testa)))%bool then
        sp ← new_SmartPointer c;
        it ← updateIterator it;
        '(sps, it) ← read_loop limit it testa;
        mret (sp :: sps, it)
      else mret ([], it)
  end.

(** [bufferedReader(limit, buffer)]: the pointers pushed into the buffer and the
    returned count.  A negative limit stands for [INT_MAX]; the loop ends at the head,
    so that it makes no more rounds than there are nodes. *)
Definition INT_MAX : Z := 2147483647.
Definition read_limit (limit : Z) : Z := if limit <? 0 then INT_MAX else limit.

Definition bufferedReader (limit : Z) (it : Iterator) : M (list nat * Z * Iterator) :=
  tempPivot ← lockPivot;
  '(ok, it) ← chooseCurrent it;
  unlockPivot tempPivot;;
  if negb ok then mret ([], 0, it)
  else
    b ← st_get;
    let lim := Z.to_nat (Z.min (read_limit limit) (Z.of_nat (size (heap b)))) in
    '(sps, it) ← read_loop lim it (head b);
    it ← resume_here it;
    leaveStream it;;
    mret (sps, Z.of_nat (length sps), it).

(** *** [IteratorGarbage.h] *)

(** [getIteratorGarbage]: the collector holds a reader count on the pivot. *)
Definition getIteratorGarbage : M Iterator :=
  p ← st_gets pivot; increment p;; mret (mkIter (Some p) None None).

Definition markOldData (it : Iterator) : M (bool * Iterator) :=
  b ← st_get;
  let tempDiv := pivot b in
  let hd := head b in
  v ← isValid tempDiv;
  e ← deref tempDiv;
  match enext e with
  | Some nx =>
      if decide (v = false /\ tempDiv <> hd /\ nx <> hd) then
        it ← (if decide (lastDiv it <> Some tempDiv) then
                increment nx;; decrementCounter tempDiv;;
                mret (mkIter (Some nx) (stopAndResume it) (Some tempDiv))
              else mret it);
        e ← deref tempDiv;
        if readerCount e <=? 0 then
          st_modify (set_pivot nx);; mret (true, it)
        else mret (false, it)
      else mret (false, it)
  | None => mret (false, it)
  end.

Fixpoint mark_loop (fuel : nat) (it : Iterator) : M Iterator :=
  match fuel with
  | O => st_fail
  | S fuel =>
      '(again, it) ← markOldData it;
      if (again : bool) then mark_loop fuel it else mret it
  end.

Definition clearQueue (it : Iterator) : M Iterator :=
  clearUnusedData;;
  ready ← isReady it;
  b ← st_get;
  if (ready : bool) then mark_loop (S (size (heap b))) it else mret it.

(** The destructor: frees from the tail to the last node. *)
Fixpoint destroy_loop (fuel : nat) (toDelete : nat) : M unit :=
  match fuel with
  | O => st_fail
  | S fuel =>
      e ← deref toDelete;
      match enext e with
      | Some n => deallocate toDelete;; destroy_loop fuel n
      | None => mret tt
      end
  end.

Definition delete_CommonBuffer : M unit :=
  b ← st_get;
  destroy_loop (size (heap b)) (tail b);;
  deallocate (head b).

End Buffer.

(** ** Invariants

    [inv b q]: [q] is the list of the nodes of the queue, from the tail to the head;
    it is the whole heap.  Every node but the last, the dummy head, holds data. *)
Section Invariant.
Context {A : Type}.
Local Notation Buf := (CommonBuffer A).

Definition linked (h : gmap nat (Element A)) (q : list nat) : Prop :=
  forall i p, q !! i = Some p ->
    exists e, h !! p = Some e /\ enext e = q !! S i /\ (edata e = None <-> q !! S i = None).

Record inv (b : Buf) (q : list nat) : Prop := {
  i_linked : linked (heap b) q;
  i_nodup : NoDup q;
  i_dom : forall p, is_Some (heap b !! p) <-> p ∈ q;
  i_tail : q !! 0%nat = Some (tail b);
  i_head : list.last q = Some (head b);
  i_pivot : pivot b ∈ q;
  i_fresh : forall p, p ∈ q -> (p < fresh b)%nat;
  i_count : elementiInCodaCorrenti b = u32 (Z.of_nat (length q) - 1) }.

(** The reference count of a node is the number of smart pointers to it. *)
Definition refs_ok (b : Buf) (held : gmultiset nat) : Prop :=
  forall p e, heap b !! p = Some e -> referenceCount e = u32 (Z.of_nat (multiplicity p held)).

(** A node is valid at a time unless it holds data that have timed out. *)
Definition valid_at (b : Buf) (p : nat) (now : Z) : bool :=
  match heap b !! p with
  | Some e => negb (bool_decide (is_Some (edata e)) && (timedOut e <? u64 now))
  | None => false
  end.

(** What operations of readers leave alone: everything but reader and reference
    counts and the clock. *)
Definition eshape (e : Element A) := (enext e, edata e, timedOut e).
Definition brest (b : Buf) :=
  (fresh b, head b, tail b, last b, pivot b, validita b, elementiInCodaCorrenti b).

Record frame (b b' : Buf) : Prop := {
  fr_heap : forall p, eshape <$> heap b' !! p = eshape <$> heap b !! p;
  fr_rest : brest b' = brest b }.

#[export] Instance frame_equivalence : Equivalence frame.
Proof.
  split.
  - by split.
  - intros x y [H1 H2]. split; [intros p; by rewrite H1|done].
  - intros x y z [H1 H2] [H3 H4]. split; [intros p; by rewrite H3, H1|congruence].
Qed.

Lemma frame_lookup b b' p e : frame b b' -> heap b !! p = Some e ->
  exists e', heap b' !! p = Some e' /\ eshape e' = eshape e.
Proof.
  intros [H _] He. specialize (H p). rewrite He in H. simpl in H.
  destruct (heap b' !! p) as [e'|]; [|done]. apply (inj Some) in H. eauto.
Qed.

Lemma frame_dom b b' p : frame b b' -> is_Some (heap b' !! p) <-> is_Some (heap b !! p).
Proof. intros [H _]. rewrite <- !(fmap_is_Some eshape). by rewrite H. Qed.

Lemma inv_frame b b' q : frame b b' -> inv b q -> inv b' q.
Proof.
  intros F [I1 I2 I3 I4 I5 I6 I7 I8]. pose proof (fr_rest _ _ F) as R. unfold brest in R. simplify_eq.
  split; try congruence.
  - intros i p Hp. destruct (I1 i p Hp) as (e & He & Hn & Hd).
    destruct (frame_lookup _ _ _ _ F He) as (e' & He' & Hsh). unfold eshape in Hsh. simplify_eq.
    exists e'. split; [done|]. split; congruence.
  - intros p. rewrite (frame_dom _ _ _ F). apply I3.
  - intros p Hp. pose proof (I7 p Hp). lia.
Qed.

Lemma frame_head b b' : frame b b' -> head b' = head b.
Proof. intros [_ H]. unfold brest in H. by simplify_eq. Qed.

Lemma frame_pivot b b' : frame b b' -> pivot b' = pivot b.
Proof. intros [_ H]. unfold brest in H. by simplify_eq. Qed.

Lemma frame_valid_at b b' p n : frame b b' -> valid_at b' p n = valid_at b p n.
Proof.
  intros F. unfold valid_at. pose proof (fr_heap _ _ F p) as E.
  destruct (heap b' !! p) as [[]|], (heap b !! p) as [[]|]; try done.
  simpl in E. unfold eshape in E. simpl in *. injection E as -> -> ->. done.
Qed.

(** A change of the counters of one node. *)
Lemma frame_store b p e e' :
  heap b !! p = Some e -> eshape e' = eshape e -> frame b (set_heap <[p := e']> b).
Proof.
  intros He Hs. split; [|done]. intros q. simpl. destruct (decide (q = p)) as [->|Hne].
  - rewrite lookup_insert_eq, He. simpl. by rewrite Hs.
  - by rewrite lookup_insert_ne.
Qed.

End Invariant.

Section Specs.
Context {A : Type}.
Context (clock : nat -> Z).
Local Notation Buf := (CommonBuffer A).
Implicit Types (b : Buf) (q : list nat) (held : gmultiset nat).

Lemma wp_deref p (Q : Element A -> Buf -> Prop) b e :
  heap b !! p = Some e -> Q e b -> wp (deref p) Q b.
Proof. intros He HQ. unfold wp, deref. by rewrite He. Qed.

Lemma wp_store p e0 e (Q : unit -> Buf -> Prop) b :
  heap b !! p = Some e0 -> Q tt (set_heap <[p := e]> b) -> wp (store p e) Q b.
Proof. intros He HQ. unfold wp, store. by rewrite He. Qed.

Lemma inv_live b q p : inv b q -> p ∈ q -> exists e, heap b !! p = Some e.
Proof. intros I Hp. by apply (i_dom _ _ I) in Hp. Qed.

Lemma u32_add_idemp a c : u32 (u32 a + c) = u32 (a + c).
Proof. unfold uwrap. by rewrite Zplus_mod_idemp_l. Qed.

Lemma refs_ok_eq b held held' : refs_ok b held -> held = held' -> refs_ok b held'.
Proof. by intros H <-. Qed.

(** Reader counts do not affect the queue, the references or the clock. *)
Lemma wp_count_tick (op : nat -> ST Buf unit) p b q held (Q : unit -> Buf -> Prop) :
  (op = increment \/ op = decrementCounter) ->
  inv b q -> refs_ok b held -> p ∈ q ->
  (forall b', frame b b' -> inv b' q -> refs_ok b' held -> tick b' = tick b -> Q tt b') ->
  wp (op p) Q b.
Proof.
  intros Hop I R Hp HQ. destruct (inv_live _ _ _ I Hp) as [e He].
  assert (forall e', eshape e' = eshape e -> referenceCount e' = referenceCount e ->
            Q tt (set_heap <[p := e']> b)) as Hstore.
  { intros e' Hs Hr. pose proof (frame_store _ _ _ e' He Hs) as F.
    apply HQ; [done|by eapply inv_frame| |done].
    intros p' x. simpl. destruct (decide (p' = p)) as [->|Hne].
    - rewrite lookup_insert_eq. intros [= <-]. rewrite Hr. by apply R.
    - rewrite lookup_insert_ne by done. apply R. }
  destruct Hop as [-> | ->]; unfold increment, decrementCounter; wp_steps;
    (eapply wp_deref; [exact He|]; eapply wp_store; [exact He|]; by apply Hstore).
Qed.

Lemma wp_count (op : nat -> ST Buf unit) p b q held (Q : unit -> Buf -> Prop) :
  (op = increment \/ op = decrementCounter) ->
  inv b q -> refs_ok b held -> p ∈ q ->
  (forall b', frame b b' -> inv b' q -> refs_ok b' held -> Q tt b') -> wp (op p) Q b.
Proof. intros. eapply wp_count_tick; eauto. Qed.

Lemma wp_new_SmartPointer p b q held (Q : nat -> Buf -> Prop) :
  inv b q -> refs_ok b held -> p ∈ q ->
  (forall b', frame b b' -> inv b' q -> refs_ok b' ({[+ p +]} ⊎ held) -> Q p b') ->
  wp (new_SmartPointer p) Q b.
Proof.
  intros I R Hp HQ. destruct (inv_live _ _ _ I Hp) as [e He].
  unfold new_SmartPointer, incrementReferenceCount. wp_steps.
  eapply wp_deref; [exact He|]. eapply wp_store; [exact He|]. wp_steps.
  set (e' := mkElem _ _ _ _ _). assert (eshape e' = eshape e) as Hs by done.
  pose proof (frame_store _ _ _ e' He Hs) as F.
  apply HQ; [done|by eapply inv_frame|].
  intros p' x. simpl. destruct (decide (p' = p)) as [->|Hne].
  - rewrite lookup_insert_eq. intros [= <-]. simpl. rewrite (R _ _ He), u32_add_idemp.
    rewrite multiplicity_disj_union, multiplicity_singleton_eq. apply (f_equal u32). lia.
  - rewrite lookup_insert_ne by done. intros Hx. rewrite (R _ _ Hx).
    rewrite multiplicity_disj_union, multiplicity_singleton_ne by done. done.
Qed.

Lemma wp_delete_SmartPointer p b q held (Q : unit -> Buf -> Prop) :
  inv b q -> refs_ok b ({[+ p +]} ⊎ held) -> p ∈ q ->
  (forall b', frame b b' -> inv b' q -> refs_ok b' held -> Q tt b') ->
  wp (delete_SmartPointer p) Q b.
Proof.
  intros I R Hp HQ. destruct (inv_live _ _ _ I Hp) as [e He].
  unfold delete_SmartPointer, decrementReferenceCount. wp_steps.
  eapply wp_deref; [exact He|]. eapply wp_store; [exact He|].
  set (e' := mkElem _ _ _ _ _). assert (eshape e' = eshape e) as Hs by done.
  pose proof (frame_store _ _ _ e' He Hs) as F.
  apply HQ; [done|by eapply inv_frame|].
  intros p' x. simpl. destruct (decide (p' = p)) as [->|Hne].
  - rewrite lookup_insert_eq. intros [= <-]. simpl. rewrite (R _ _ He).
    rewrite multiplicity_disj_union, multiplicity_singleton_eq.
    replace (u32 (Z.of_nat (1 + multiplicity p held)) - 1)
      with (u32 (Z.of_nat (1 + multiplicity p held)) + (-1)) by lia.
    rewrite u32_add_idemp. apply (f_equal u32). lia.
  - rewrite lookup_insert_ne by done. intros Hx. rewrite (R _ _ Hx).
    rewrite multiplicity_disj_union, multiplicity_singleton_ne by done. done.
Qed.

Lemma frame_tick b n : frame b (set_tick n b).
Proof. by split. Qed.

Lemma wp_isValid p b q held (Q : bool -> Buf -> Prop) :
  inv b q -> refs_ok b held -> p ∈ q ->
  (forall b', frame b b' -> inv b' q -> refs_ok b' held -> b' = set_tick (S (tick b)) b ->
     Q (valid_at b p (clock (tick b))) b') ->
  wp (isValid clock p) Q b.
Proof.
  intros I R Hp HQ. destruct (inv_live _ _ _ I Hp) as [e He].
  unfold isValid. wp_steps. unfold getMillisTimestamp. eapply wp_intro; [reflexivity|]. wp_steps.
  eapply wp_deref; [exact He|]. wp_steps.
  pose proof (frame_tick b (S (tick b))) as F.
  replace (negb _) with (valid_at b p (clock (tick b))) by (unfold valid_at; by rewrite He).
  apply HQ; [done|by eapply inv_frame|exact R|done].
Qed.

(** The smart pointer an iterator keeps between two calls. *)
Definition stop_ms (it : Iterator) : gmultiset nat :=
  match stopAndResume it with Some s => {[+ s +]} | None => ∅ end.

Lemma stop_ms_none it (held : gmultiset nat) :
  stopAndResume it = None -> stop_ms it ⊎ held = held.
Proof. intros E. unfold stop_ms. rewrite E. multiset_solver. Qed.

(** The node at index [i] of the queue. *)
Lemma inv_at b q i p : inv b q -> q !! i = Some p -> exists e, heap b !! p = Some e /\
  enext e = q !! S i /\ (edata e = None <-> q !! S i = None).
Proof. intros I. apply (i_linked _ _ I). Qed.

Lemma at_head b q i p : inv b q -> q !! i = Some p -> (p = head b <-> q !! S i = None).
Proof.
  intros I Hp. pose proof (i_head _ _ I) as Hh. rewrite last_lookup in Hh.
  pose proof (lookup_lt_Some _ _ _ Hp) as Hi. split.
  - intros ->. assert (i = pred (length q)) as ->.
    { eapply (NoDup_lookup q); [apply (i_nodup _ _ I)|done|done]. }
    apply lookup_ge_None_2. lia.
  - intros Hn. apply lookup_ge_None in Hn. replace i with (pred (length q)) in Hp by lia. congruence.
Qed.

Lemma wp_isReady it b q i c (Q : bool -> Buf -> Prop) :
  inv b q -> current it = Some c -> q !! i = Some c ->
  Q (bool_decide (is_Some (q !! S i))) b -> wp (isReady it) Q b.
Proof.
  intros I Hc Hi HQ. destruct (inv_at _ _ _ _ I Hi) as (e & He & Hn & Hd).
  unfold isReady, cur. wp_steps. eapply wp_lift; [exact Hc|]. wp_steps.
  eapply wp_deref; [exact He|]. wp_steps.
  replace (negb _) with (bool_decide (is_Some (q !! S i))); [done|].
  rewrite Hn. pose proof (at_head _ _ _ _ I Hi) as Hh.
  destruct (q !! S i) as [n|] eqn:E.
  - rewrite (bool_decide_eq_true_2 (is_Some _)) by eauto.
    rewrite !bool_decide_eq_false_2 by naive_solver. done.
  - rewrite (bool_decide_eq_false_2 (is_Some _)) by (intros [x Hx]; done).
    rewrite (bool_decide_eq_true_2 (None = None)) by done. done.
Qed.

Lemma wp_leaveStream it b q c held (Q : unit -> Buf -> Prop) :
  inv b q -> refs_ok b held -> current it = Some c -> c ∈ q ->
  (forall b', frame b b' -> inv b' q -> refs_ok b' held -> Q tt b') -> wp (leaveStream it) Q b.
Proof.
  intros I R Hc Hin HQ. destruct (inv_live _ _ _ I Hin) as [e He].
  unfold leaveStream, cur. wp_steps. eapply wp_lift; [exact Hc|]. wp_steps.
  eapply wp_deref; [exact He|]. case_match.
  - eapply (wp_count decrementCounter); eauto.
  - wp_steps. by apply HQ.
Qed.

Lemma wp_updateIterator it b q i c n held (Q : Iterator -> Buf -> Prop) :
  inv b q -> refs_ok b held -> current it = Some c -> q !! i = Some c -> q !! S i = Some n ->
  (forall b', frame b b' -> inv b' q -> refs_ok b' held -> Q (with_current it (Some n)) b') ->
  wp (updateIterator it) Q b.
Proof.
  intros I R Hc Hi Hn HQ. destruct (inv_at _ _ _ _ I Hi) as (e & He & Hnx & _).
  unfold updateIterator. wp_steps. eapply wp_lift; [exact Hc|]. wp_steps.
  eapply wp_deref; [exact He|]. rewrite Hnx, Hn. wp_steps.
  eapply (wp_count increment); eauto using list_elem_of_lookup_2. intros b1 F1 I1 R1. wp_steps.
  eapply wp_leaveStream; eauto using list_elem_of_lookup_2. intros b2 F2 I2 R2. wp_steps.
  apply HQ; [by etrans|done|done].
Qed.

Lemma wp_drop_stop it b q held (Q : Iterator -> Buf -> Prop) :
  inv b q -> refs_ok b (stop_ms it ⊎ held) -> (forall s, stopAndResume it = Some s -> s ∈ q) ->
  (forall b', frame b b' -> inv b' q -> refs_ok b' held -> Q (with_stop it None) b') ->
  wp (drop_stop it) Q b.
Proof.
  intros I R Hs HQ. unfold drop_stop, stop_ms in *. destruct (stopAndResume it) as [s|] eqn:Es.
  - wp_steps. eapply wp_delete_SmartPointer; [done..|by eauto|].
    intros b' F I' R'. wp_steps. auto.
  - wp_steps. rewrite left_id_L in R by apply _. replace it with (with_stop it None).
    + by apply HQ.
    + destruct it; simpl in *. by subst.
Qed.

Lemma wp_resume_here it b q c held (Q : Iterator -> Buf -> Prop) :
  inv b q -> refs_ok b (stop_ms it ⊎ held) -> (forall s, stopAndResume it = Some s -> s ∈ q) ->
  current it = Some c -> c ∈ q ->
  (forall b', frame b b' -> inv b' q -> refs_ok b' ({[+ c +]} ⊎ held) ->
     Q (with_stop it (Some c)) b') ->
  wp (resume_here it) Q b.
Proof.
  intros I R Hs Hc Hin HQ. unfold resume_here. wp_steps.
  apply (wp_mono _ (fun _ b' => frame b b' /\ inv b' q /\ refs_ok b' held)).
  - unfold stop_ms in R. destruct (stopAndResume it) as [s|] eqn:Es.
    + eapply wp_delete_SmartPointer; eauto.
    + wp_steps. by rewrite left_id_L in R by apply _.
  - intros [] b1 (F1 & I1 & R1). wp_steps. eapply wp_lift; [exact Hc|]. wp_steps.
    eapply wp_new_SmartPointer; eauto. intros b2 F2 I2 R2. wp_steps.
    apply HQ; [by etrans|done|done].
Qed.

(** The outcome of a search for a valid element from index [i] on. *)
Definition jump_post (b : Buf) (q : list nat) (held : gmultiset nat) (it : Iterator) (i : nat)
    (r : bool * Iterator) (b' : Buf) : Prop :=
  exists j c, (i <= j)%nat /\ q !! j = Some c /\ current (snd r) = Some c /\ frame b b' /\
    inv b' q /\ refs_ok b' (stop_ms (snd r) ⊎ held) /\
    if fst r then stopAndResume (snd r) = stopAndResume it else stopAndResume (snd r) = Some c.

Lemma jump_fail_post it b b0 q i j c held :
  frame b0 b -> inv b q -> refs_ok b (stop_ms it ⊎ held) ->
  (forall s, stopAndResume it = Some s -> s ∈ q) -> current it = Some c -> q !! j = Some c ->
  (i <= j)%nat ->
  wp (it ← resume_here it; leaveStream it;; mret (false, it)) (jump_post b0 q held it i) b.
Proof.
  intros F I R Hs Hc Hj Hij. pose proof (list_elem_of_lookup_2 _ _ _ Hj) as Hin. wp_steps.
  eapply wp_resume_here; eauto. intros b1 F1 I1 R1. wp_steps.
  eapply wp_leaveStream; eauto. intros b2 F2 I2 R2. wp_steps.
  exists j, c. simpl. split_and!; try done. by etrans; [etrans|].
Qed.

Lemma jump_loop_spec fuel it b q i c held :
  inv b q -> refs_ok b (stop_ms it ⊎ held) -> (forall s, stopAndResume it = Some s -> s ∈ q) ->
  current it = Some c -> q !! i = Some c -> (length q - i <= fuel)%nat ->
  wp (jump_loop clock fuel it (head b)) (jump_post b q held it i) b.
Proof.
  revert it b i c. induction fuel as [|fuel IH]; intros it b i c I R Hs Hc Hi Hf.
  { apply lookup_lt_Some in Hi. lia. }
  cbn [jump_loop]. wp_steps. eapply wp_isReady; eauto. case_bool_decide as Hr.
  - destruct Hr as [n Hn]. wp_steps. eapply wp_updateIterator; eauto. intros b1 F1 I1 R1. wp_steps.
    eapply wp_lift; [done|]. wp_steps.
    eapply wp_isValid; eauto using list_elem_of_lookup_2. intros b2 F2 I2 R2 _. case_match.
    + assert (head b = head b2) as ->.
      { by rewrite (frame_head _ _ F2), (frame_head _ _ F1). }
      eapply wp_mono; [eapply (IH (with_current it (Some n)) b2 (S i) n); eauto; lia|].
      intros r b3 (j & c' & Hj & Hq & Hcur & F3 & I3 & R3 & Hres).
      exists j, c'. split_and!; try done; [lia|by etrans; [etrans|]].
    + wp_steps. exists (S i), n. split_and!; try done; [lia|by etrans].
  - eapply jump_fail_post; eauto. reflexivity.
Qed.

Lemma inv_size b q : inv b q -> size (heap b) = length q.
Proof.
  intros I. rewrite <- (size_dom (D := gset nat)).
  rewrite <- (size_list_to_set (C := gset nat) q) by apply (i_nodup _ _ I).
  f_equal. apply set_eq. intros p. rewrite elem_of_dom, elem_of_list_to_set. apply (i_dom _ _ I).
Qed.

Lemma wp_jumpToNextValidElement it b q i c held (Q : bool * Iterator -> Buf -> Prop) :
  inv b q -> refs_ok b (stop_ms it ⊎ held) -> (forall s, stopAndResume it = Some s -> s ∈ q) ->
  current it = Some c -> q !! i = Some c ->
  (forall r b', jump_post b q held it i r b' -> Q r b') ->
  wp (jumpToNextValidElement clock it) Q b.
Proof.
  intros I R Hs Hc Hi HQ. pose proof (list_elem_of_lookup_2 _ _ _ Hi) as Hin.
  apply (wp_mono _ (jump_post b q held it i)); [|done]. clear HQ.
  destruct (inv_live _ _ _ I Hin) as [e He].
  unfold jumpToNextValidElement. wp_steps. eapply wp_lift; [exact Hc|]. wp_steps.
  eapply wp_deref; [exact He|]. wp_steps.
  apply (wp_mono _ (fun _ b' => frame b b' /\ inv b' q /\ refs_ok b' (stop_ms it ⊎ held))).
  { case_match; [eapply (wp_count increment); eauto|wp_steps; by split]. }
  intros [] b1 (F1 & I1 & R1). wp_steps. eapply wp_isReady; eauto. case_bool_decide as Hr.
  - wp_steps. eapply wp_isValid; eauto. intros b2 F2 I2 R2 _. case_match; wp_steps.
    + exists i, c. split_and!; try done. by etrans.
    + assert (head b = head b2) as ->.
      { by rewrite (frame_head _ _ F2), (frame_head _ _ F1). }
      eapply wp_mono; [eapply jump_loop_spec; eauto|].
      { rewrite (inv_size _ _ I). lia. }
      intros r b3 (j & c' & Hj & Hq & Hcur & F3 & I3 & R3 & Hres).
      exists j, c'. split_and!; try done. by etrans; [etrans|].
  - eapply jump_fail_post; eauto.
Qed.

(** An iterator between two calls: never attached, or stopped at a node it keeps
    alive with its resume pointer. *)
Definition iter_ok (it : Iterator) (q : list nat) : Prop :=
  (current it = None /\ stopAndResume it = None) \/
  (exists c, c ∈ q /\ current it = Some c /\ stopAndResume it = Some c).

Lemma wp_attachStream it b q held (Q : Iterator -> Buf -> Prop) :
  inv b q -> refs_ok b held ->
  (forall b', frame b b' -> inv b' q -> refs_ok b' held ->
     Q (mkIter (Some (pivot b)) (stopAndResume it) None) b') ->
  wp (attachStream it) Q b.
Proof.
  intros I R HQ. unfold attachStream, lock_loop. wp_steps.
  eapply (wp_count increment); eauto using i_pivot. intros b1 F1 I1 R1. wp_steps.
  rewrite decide_True by by rewrite (frame_pivot _ _ F1). wp_steps. by apply HQ.
Qed.

(** Where a reader goes on from. *)
Definition choose_post (b : Buf) (q : list nat) (held : gmultiset nat) (it : Iterator)
    (r : bool * Iterator) (b' : Buf) : Prop :=
  exists j c, q !! j = Some c /\ current (snd r) = Some c /\ frame b b' /\ inv b' q /\
    refs_ok b' (stop_ms (snd r) ⊎ held) /\ (forall s, stopAndResume (snd r) = Some s -> s = c) /\
    (fst r = false -> stopAndResume (snd r) = Some c) /\
    (forall c0, stopAndResume it = Some c0 -> valid_at b c0 (clock (tick b)) = true ->
       fst r = true /\ c = c0).

(** A reader that was overtaken starts again at the pivot. *)
Lemma wp_reattach it b0 b q held :
  frame b0 b -> inv b q -> refs_ok b (stop_ms it ⊎ held) ->
  (forall s, stopAndResume it = Some s -> s ∈ q) ->
  (forall c, stopAndResume it = Some c -> valid_at b0 c (clock (tick b0)) = false) ->
  wp (it ← drop_stop it; it ← attachStream it; '(ok, it) ← jumpToNextValidElement clock it;
      if (ok : bool) then mret (true, with_stop it None) else mret (false, it))
     (choose_post b0 q held it) b.
Proof.
  intros F I R Hs Hv. wp_steps. eapply wp_drop_stop; eauto. intros b1 F1 I1 R1. wp_steps.
  eapply wp_attachStream; eauto. intros b2 F2 I2 R2. wp_steps. simpl.
  pose proof (i_pivot _ _ I1) as [i Hi]%list_elem_of_lookup_1.
  eapply wp_jumpToNextValidElement; eauto; [|done|].
  { simpl. unfold stop_ms. simpl. by rewrite left_id_L by apply _. }
  intros [ok it'] b3 (j & c & Hj & Hq & Hc & F3 & I3 & R3 & Hres). simpl in *.
  assert (frame b0 b3) as F03 by (by etrans; [etrans; [etrans|]|]).
  destruct ok; wp_steps; exists j, c; simpl; split_and!; try done.
  all: try (intros c0 Hc0 Hv0; by rewrite (Hv _ Hc0) in Hv0).
  - unfold stop_ms in *. rewrite Hres in R3. done.
  - intros s Hss. congruence.
Qed.

Lemma wp_chooseCurrent it b q held :
  inv b q -> refs_ok b (stop_ms it ⊎ held) -> iter_ok it q ->
  wp (chooseCurrent clock it) (choose_post b q held it) b.
Proof.
  intros I R [[Hc Hs] | (c & Hin & Hc & Hs)]; unfold chooseCurrent; wp_steps; rewrite Hs.
  - rewrite Hc. wp_steps. eapply wp_attachStream; eauto. intros b1 F1 I1 R1. wp_steps.
    pose proof (i_pivot _ _ I) as [i Hi]%list_elem_of_lookup_1.
    exists i, (pivot b). simpl. unfold stop_ms in *. simpl. rewrite Hs in *. by split_and!.
  - wp_steps. unfold cur. eapply wp_lift; [exact Hc|]. wp_steps.
    assert (forall s, stopAndResume it = Some s -> s ∈ q) as Hsq by (intros; simplify_eq; congruence).
    pose proof Hin as [i Hi]%list_elem_of_lookup_1.
    eapply wp_isValid; eauto. intros b1 F1 I1 R1 Eb1. case_match eqn:Hv.
    + wp_steps. eapply (wp_count increment); eauto. intros b2 F2 I2 R2. wp_steps.
      eapply wp_drop_stop; eauto. intros b3 F3 I3 R3. wp_steps.
      exists i, c. simpl. rewrite stop_ms_none by done.
      split_and!; try done; [by etrans; [etrans|]|]. intros c0 Hc0 _. split; congruence.
    + assert (forall c0, stopAndResume it = Some c0 -> valid_at b c0 (clock (tick b)) = false) as Hinv
        by (intros c0 Hc0; congruence).
      wp_steps. destruct (inv_at _ _ _ _ I1 Hi) as (e & He & Hn & Hd).
      eapply wp_deref; [exact He|]. case_decide as Hend.
      * wp_steps. eapply wp_resume_here; eauto. intros b2 F2 I2 R2. wp_steps.
        exists i, c. simpl. split_and!; try done; [by etrans|congruence|].
        intros c0 Hc0 Hv0. by rewrite (Hinv _ Hc0) in Hv0.
      * wp_steps. eapply (wp_count increment); eauto. intros b2 F2 I2 R2. wp_steps.
        destruct (inv_live _ _ _ I2 Hin) as [e2 He2].
        eapply wp_deref; [exact He2|]. case_decide.
        { wp_steps. eapply wp_leaveStream; eauto. intros b3 F3 I3 R3.
          apply wp_reattach; try done. by etrans; [etrans|]. }
        wp_steps. assert (pivot b ∈ q) as Hpq by apply (i_pivot _ _ I).
        destruct (inv_live _ _ _ I2 Hpq) as [pe Hpe].
        eapply wp_deref; [exact Hpe|]. case_match.
        2:{ wp_steps. eapply wp_leaveStream; eauto. intros b3 F3 I3 R3.
          apply wp_reattach; try done. by etrans; [etrans|]. }
        wp_steps. eapply wp_jumpToNextValidElement; eauto.
        intros [ok it'] b3 (j & c' & Hj & Hq & Hc' & F3 & I3 & R3 & Hres). simpl in *.
        assert (frame b b3) as F03 by (by etrans; [etrans|]).
        pose proof (list_elem_of_lookup_2 _ _ _ Hq).
        destruct ok; wp_steps.
        { eapply wp_drop_stop; eauto; [intros; apply Hsq; congruence|].
          intros b4 F4 I4 R4. wp_steps. exists j, c'. simpl.
          rewrite stop_ms_none by done. split_and!; try done; [by etrans|].
          intros c0 Hc0 Hv0. by rewrite (Hinv _ Hc0) in Hv0. }
        exists j, c'. simpl. split_and!; try done; [congruence|].
        intros c0 Hc0 Hv0. by rewrite (Hinv _ Hc0) in Hv0.
Qed.

(** The pointers read are those of the next nodes of the queue. *)
Definition read_post (b : Buf) (q : list nat) (held : gmultiset nat) (it : Iterator) (i limit : nat)
    (r : list nat * Iterator) (b' : Buf) : Prop :=
  let k := length (fst r) in
  k = Nat.min limit (length q - 1 - i) /\ fst r = take k (drop i q) /\
  current (snd r) = q !! (i + k)%nat /\ stopAndResume (snd r) = stopAndResume it /\
  frame b b' /\ inv b' q /\ refs_ok b' (list_to_set_disj (fst r) ⊎ held).

Lemma read_loop_spec limit it b q i c held :
  inv b q -> refs_ok b held -> current it = Some c -> q !! i = Some c ->
  wp (read_loop limit it (head b)) (read_post b q held it i limit) b.
Proof.
  revert it b i c held. induction limit as [|limit IH]; intros it b i c held I R Hc Hi; cbn [read_loop].
  { wp_steps. unfold read_post. cbn [fst snd length]. rewrite Nat.add_0_r, Hc, Hi.
    split_and!; try done. eapply refs_ok_eq; [done|multiset_solver]. }
  pose proof (list_elem_of_lookup_2 _ _ _ Hi) as Hin. pose proof (lookup_lt_Some _ _ _ Hi) as Hlt.
  wp_steps. eapply wp_isReady; eauto. wp_steps. eapply wp_lift; [exact Hc|].
  pose proof (at_head _ _ _ _ I Hi) as Hh.
  case_bool_decide as Hr; simpl.
  - destruct Hr as [n Hn]. rewrite bool_decide_eq_false_2 by naive_solver. simpl.
    pose proof (lookup_lt_Some _ _ _ Hn) as Hlt2.
    wp_steps. eapply wp_new_SmartPointer; eauto. intros b1 F1 I1 R1. wp_steps.
    eapply wp_updateIterator; eauto. intros b2 F2 I2 R2. wp_steps.
    assert (head b = head b2) as ->.
    { by rewrite (frame_head _ _ F2), (frame_head _ _ F1). }
    eapply wp_mono; [by eapply (IH (with_current it (Some n)))|].
    intros [sps it'] b3 (Hk & Hsps & Hcur & Hst & F3 & I3 & R3). simpl in *. wp_steps.
    unfold read_post. cbn [fst snd length]. split_and!; try done.
    + lia.
    + rewrite (drop_S _ _ _ Hi). simpl. by f_equal.
    + rewrite Hcur. f_equal. lia.
    + by etrans; [etrans|].
    + eapply refs_ok_eq; [done|multiset_solver].
  - wp_steps. unfold read_post. cbn [fst snd length]. rewrite Nat.add_0_r, Hc, Hi.
    assert (q !! S i = None) as Hn by (destruct (q !! S i); [exfalso; eauto|done]).
    apply lookup_ge_None in Hn. split_and!; try done; [lia|].
    eapply refs_ok_eq; [done|multiset_solver].
Qed.

(** What one call of [bufferedReader] gives: the pointers to [k] consecutive nodes of
    the queue, and an iterator stopped right after them. *)
Definition reader_post (b : Buf) (q : list nat) (held : gmultiset nat) (it : Iterator) (limit : Z)
    (r : list nat * Z * Iterator) (b' : Buf) : Prop :=
  let '(sps, n, it') := r in
  n = Z.of_nat (length sps) /\ n <= read_limit limit /\
  frame b b' /\ inv b' q /\ refs_ok b' (stop_ms it' ⊎ (list_to_set_disj sps ⊎ held)) /\
  exists i c, sps = take (length sps) (drop i q) /\ q !! (i + length sps)%nat = Some c /\
    current it' = Some c /\ stopAndResume it' = Some c /\
    (forall c0, stopAndResume it = Some c0 -> valid_at b c0 (clock (tick b)) = true ->
       q !! i = Some c0 /\
       n = Z.min (read_limit limit) (Z.of_nat (length q) - 1 - Z.of_nat i)).

Lemma read_limit_nonneg limit : 0 <= read_limit limit.
Proof. unfold read_limit, INT_MAX. case_match; reflect_bool; lia. Qed.

Lemma wp_bufferedReader limit it b q held :
  inv b q -> refs_ok b (stop_ms it ⊎ held) -> iter_ok it q ->
  wp (bufferedReader clock limit it) (reader_post b q held it limit) b.
Proof.
  intros I R Hit. pose proof (read_limit_nonneg limit) as Hlim.
  unfold bufferedReader, lockPivot, lock_loop. wp_steps.
  eapply (wp_count_tick increment); eauto using i_pivot. intros b1 F1 I1 R1 T1. wp_steps.
  rewrite decide_True by by rewrite (frame_pivot _ _ F1). wp_steps.
  eapply wp_mono; [by apply wp_chooseCurrent|].
  intros [ok it1] b2 (i & c & Hi & Hc & F2 & I2 & R2 & Hst & Hno & Hval). simpl in *. wp_steps.
  pose proof (list_elem_of_lookup_2 _ _ _ Hi) as Hin. rewrite T1 in Hval.
  setoid_rewrite (frame_valid_at _ _ _ _ F1) in Hval.
  eapply (wp_count decrementCounter); eauto using i_pivot. intros b3 F3 I3 R3. wp_steps.
  assert (frame b b3) as F03 by (by etrans; [etrans|]).
  destruct ok; simpl; wp_steps.
  2:{ unfold reader_post. simpl. split_and!; try done; [eapply refs_ok_eq; [done|multiset_solver]|].
      exists i, c. rewrite Nat.add_0_r. split_and!; auto.
      intros c0 Hc0 Hv. by destruct (Hval _ Hc0 Hv). }
  eapply wp_mono; [by eapply read_loop_spec|].
  intros [sps it2] b4 (Hk & Hsps & Hcur & Hs2 & F4 & I4 & R4). simpl in *. wp_steps.
  pose proof (lookup_lt_Some _ _ _ Hi) as Hlt.
  destruct (lookup_lt_is_Some_2 q (i + length sps)) as [c2 Hc2]; [lia|].
  pose proof (list_elem_of_lookup_2 _ _ _ Hc2) as Hin2. rewrite Hc2 in Hcur.
  eapply (wp_resume_here it2 b4 q c2 (list_to_set_disj sps ⊎ held)); eauto.
  { eapply refs_ok_eq; [exact R4|]. unfold stop_ms. rewrite Hs2. multiset_solver. }
  { intros s Hs. rewrite Hs2 in Hs. by rewrite (Hst _ Hs). }
  intros b5 F5 I5 R5. wp_steps. eapply wp_leaveStream; eauto. intros b6 F6 I6 R6. wp_steps.
  unfold reader_post. rewrite (inv_size _ _ I3) in Hk.
  split_and!; try done.
  - lia.
  - by etrans; [etrans; [etrans|]|].
  - exists i, c2. split_and!; try done. intros c0 Hc0 Hv. destruct (Hval _ Hc0 Hv) as [_ <-].
    split; [done|lia].
Qed.

(** *** The writer *)

(** The buffer after [enqueue]: the old dummy head holds the data and is linked to a
    fresh dummy. *)
Definition enqueued (data : AbstractDataElement A) (sp : bool) (b : Buf) (e : Element A) : Buf :=
  let n := fresh b in
  let e' := mkElem (Some n) (readerCount e)
              (if sp then u32 (referenceCount e + 1) else referenceCount e) (Some data)
              (u64 (getTimestamp data + validita b)) in
  mkBuf (<[head b := e']> (<[n := new_Element]> (heap b))) (S n) n (tail b) (Some (head b))
    (pivot b) (validita b) (elementiInCodaValidi b) (elementiInCodaValidiCorrenti b)
    (elementiInGarbage b) (u32 (elementiInCodaCorrenti b + 1)) (elementiInCoda b)
    (elementiInEliminati b) (numeroOsservazioni b) (tick b).

Lemma buf_eq (b c : Buf) :
  heap b = heap c -> fresh b = fresh c -> head b = head c -> tail b = tail c -> last b = last c ->
  pivot b = pivot c -> validita b = validita c -> elementiInCodaValidi b = elementiInCodaValidi c ->
  elementiInCodaValidiCorrenti b = elementiInCodaValidiCorrenti c ->
  elementiInGarbage b = elementiInGarbage c ->
  elementiInCodaCorrenti b = elementiInCodaCorrenti c -> elementiInCoda b = elementiInCoda c ->
  elementiInEliminati b = elementiInEliminati c ->
  numeroOsservazioni b = numeroOsservazioni c -> tick b = tick c -> b = c.
Proof. destruct b, c. simpl. intros. by subst. Qed.

Lemma enqueue_run data sp b e :
  heap b !! head b = Some e -> fresh b <> head b ->
  enqueue data sp b = Some (if sp then Some (head b) else None, enqueued data sp b e).
Proof.
  intros He Hne. assert (head b <> fresh b) as Hne' by done.
  unfold enqueue, allocNode, incrementElementCounter, allocate, set_next, setData,
    new_SmartPointer, incrementReferenceCount, deref, store, st_modify, st_get, mbind, ST_bind, mret, ST_ret.
  cbn. rewrite lookup_insert_eq. cbn. rewrite lookup_insert_eq. cbn.
  rewrite !(lookup_insert_ne _ (fresh b) (head b)), He by done. cbn.
  rewrite !(lookup_insert_ne _ (fresh b) (head b)), He by done. cbn.
  destruct sp; cbn.
  - do 4 (rewrite lookup_insert_eq; cbn). f_equal. f_equal. apply buf_eq; cbn; try reflexivity. by rewrite !insert_insert_eq.
  - do 2 (rewrite lookup_insert_eq; cbn). f_equal. f_equal. apply buf_eq; cbn; try reflexivity. by rewrite !insert_insert_eq.
Qed.

Lemma inv_head_live b q : inv b q -> exists e, heap b !! head b = Some e.
Proof.
  intros I. eapply inv_live; [done|]. pose proof (i_head _ _ I) as H.
  rewrite last_lookup in H. by eapply list_elem_of_lookup_2.
Qed.

Lemma inv_fresh_none b q : inv b q -> heap b !! fresh b = None /\ fresh b ∉ q.
Proof.
  intros I. assert (fresh b ∉ q) as Hn by (intros H%(i_fresh _ _ I); lia). split; [|done].
  apply eq_None_not_Some. by intros H%(i_dom _ _ I).
Qed.

Lemma inv_enqueued data sp b q e :
  inv b q -> heap b !! head b = Some e -> inv (enqueued data sp b e) (q ++ [fresh b]).
Proof.
  intros I He. destruct (inv_fresh_none _ _ I) as [Hf Hnq].
  assert (head b <> fresh b) as Hne by congruence.
  pose proof (i_head _ _ I) as Hh. pose proof (i_pivot _ _ I) as Hpv.
  assert (length q <> 0%nat) as Hlen by (destruct q; [done|simpl; lia]).
  split; simpl.
  - intros i p [Hp|[Hge Hp]]%lookup_app_Some.
    + pose proof (lookup_lt_Some _ _ _ Hp) as Hlt. destruct (inv_at _ _ _ _ I Hp) as (x & Hx & Hn & Hd).
      pose proof (at_head _ _ _ _ I Hp) as Hat. destruct (decide (p = head b)) as [->|Hph].
      * eexists. rewrite lookup_insert_eq. split; [done|]. simpl.
        assert (q !! S i = None) as E%lookup_ge_None by naive_solver.
        replace (S i) with (length q) by lia. rewrite lookup_app_r, Nat.sub_diag by lia. naive_solver.
      * exists x. rewrite !lookup_insert_ne by naive_solver. split; [done|].
        destruct (q !! S i) as [n|] eqn:E; [|naive_solver].
        rewrite lookup_app_l by by apply lookup_lt_Some in E. rewrite E. done.
    + apply list_lookup_singleton_Some in Hp as [Hz <-]. exists new_Element.
      rewrite lookup_insert_ne, lookup_insert_eq by done. split; [done|].
      rewrite lookup_ge_None_2 by (rewrite length_app; simpl; lia). done.
  - apply NoDup_app. split; [apply (i_nodup _ _ I)|]. split; [|apply NoDup_singleton].
    intros x Hx Hx2%list_elem_of_singleton. by subst.
  - intros p. rewrite elem_of_app, list_elem_of_singleton, <- (i_dom _ _ I).
    rewrite !lookup_insert_is_Some'. naive_solver.
  - pose proof (i_tail _ _ I) as Ht. by apply lookup_app_l_Some.
  - by rewrite last_snoc.
  - set_solver.
  - intros p [Hp|Hp%list_elem_of_singleton]%elem_of_app; [|lia].
    pose proof (i_fresh _ _ I _ Hp). lia.
  - rewrite (i_count _ _ I), u32_add_idemp. apply (f_equal u32). rewrite length_app. simpl. lia.
Qed.

Lemma refs_enqueued data sp b q e held :
  inv b q -> refs_ok b held -> (forall p, p ∈ held -> p ∈ q) -> heap b !! head b = Some e ->
  refs_ok (enqueued data sp b e) ((if sp then {[+ head b +]} else ∅) ⊎ held).
Proof.
  intros I R Hh He p x. destruct (inv_fresh_none _ _ I) as [Hf Hnq].
  assert (head b <> fresh b) as Hne by congruence. simpl.
  rewrite multiplicity_disj_union. destruct (decide (p = head b)) as [->|Hph].
  - rewrite lookup_insert_eq. intros [= <-]. simpl. rewrite (R _ _ He). destruct sp.
    + rewrite u32_add_idemp, multiplicity_singleton_eq. apply (f_equal u32). lia.
    + by rewrite multiplicity_empty.
  - rewrite lookup_insert_ne by done. replace (multiplicity p _) with 0%nat at 1.
    2:{ destruct sp; [by rewrite multiplicity_singleton_ne|by rewrite multiplicity_empty]. }
    destruct (decide (p = fresh b)) as [->|Hpf].
    + rewrite lookup_insert_eq. intros [= <-]. simpl.
      assert (fresh b ∉ held) as Hm%not_elem_of_multiplicity by naive_solver.
      by rewrite Hm.
    + rewrite lookup_insert_ne by done. apply R.
Qed.

(** *** The garbage collector: freeing nodes *)

(** What freeing nodes leaves alone: the contents of the nodes that remain. *)
Definition content (e : Element A) := (readerCount e, referenceCount e, edata e, timedOut e).
Definition bkeep (b : Buf) := (fresh b, head b, last b, pivot b, validita b, tick b).

Record gc_rel (b b' : Buf) : Prop := {
  gc_heap : forall p e', heap b' !! p = Some e' ->
    exists e, heap b !! p = Some e /\ content e' = content e;
  gc_keep : bkeep b' = bkeep b }.

#[local] Instance gc_rel_preorder : PreOrder gc_rel.
Proof.
  split.
  - intros b. split; eauto.
  - intros x y z [H1 K1] [H2 K2]. split; [|congruence].
    intros p e (e1 & He1 & E1)%H2. apply H1 in He1 as (e0 & He0 & E0). exists e0. split; [done|congruence].
Qed.

Lemma gc_refs b b' held : gc_rel b b' -> refs_ok b held -> refs_ok b' held.
Proof.
  intros [H _] R p e' (e & He & E)%H. rewrite <- (R _ _ He). unfold content in E. by simplify_eq.
Qed.

(** [b'] is [b] without the node [c], its predecessor [prev] linked to [n]. *)
Record unlinked (b b' : Buf) (prev : option nat) (c n : nat) : Prop := {
  u_heap : forall p, heap b' !! p =
    if decide (p = c) then None
    else if decide (prev = Some p)
    then (fun e => mkElem (Some n) (readerCount e) (referenceCount e) (edata e) (timedOut e))
           <$> heap b !! p
    else heap b !! p;
  u_tail : tail b' = match prev with Some _ => tail b | None => n end;
  u_keep : bkeep b' = bkeep b;
  u_count : elementiInCodaCorrenti b' = u32 (elementiInCodaCorrenti b - 1) }.

Lemma unlinked_gc b b' prev c n : unlinked b b' prev c n -> gc_rel b b'.
Proof.
  intros U. split; [|apply (u_keep _ _ _ _ _ U)]. intros p e'. rewrite (u_heap _ _ _ _ _ U).
  case_decide; [done|]. case_decide; [|eauto].
  intros (e & He & ->)%fmap_Some_1. exists e. by rewrite He.
Qed.

Lemma unlinked_linked b b' k c n r :
  inv b (k ++ c :: n :: r) -> unlinked b b' (list.last k) c n -> linked (heap b') (k ++ n :: r).
Proof.
  intros I U i p Hp. pose proof (i_nodup _ _ I) as ND. rewrite (u_heap _ _ _ _ _ U).
  assert (p <> c) as Hpc.
  { intros ->. apply NoDup_app in ND as (_ & Hd & ND2). apply NoDup_cons in ND2 as [Hc _].
    apply list_elem_of_lookup_2, elem_of_app in Hp as [Hp|Hp]; [|done].
    apply (Hd _ Hp). set_solver. }
  rewrite decide_False by done. apply lookup_app_Some in Hp as [Hp|[Hge Hp]].
  - pose proof (lookup_lt_Some _ _ _ Hp) as Hlt.
    assert ((k ++ c :: n :: r) !! i = Some p) as Hold by by apply lookup_app_l_Some.
    destruct (inv_at _ _ _ _ I Hold) as (e & He & Hn & Hd). rewrite He.
    destruct (decide (S i = length k)) as [Hl|Hl].
    + rewrite decide_True by (rewrite last_lookup, <- Hl; done). simpl. eexists. split; [done|].
      rewrite lookup_app_r, Hl, Nat.sub_diag by lia. simpl. split; [done|].
      rewrite Hd, lookup_app_r, Hl, Nat.sub_diag by lia. simpl. naive_solver.
    + rewrite decide_False.
      2:{ rewrite last_lookup. intros E. apply NoDup_app in ND as [ND _].
          pose proof (NoDup_lookup _ _ _ _ ND E Hp). lia. }
      exists e. split; [done|]. rewrite !lookup_app_l in * by lia. done.
  - rewrite decide_False.
    2:{ intros E. apply last_Some_elem_of in E. apply NoDup_app in ND as (_ & Hd & _).
        apply (Hd _ E). right. by eapply list_elem_of_lookup_2. }
    assert (forall j, (length k <= j)%nat -> (k ++ c :: n :: r) !! S j = (k ++ n :: r) !! j) as Hsh.
    { intros j Hj. rewrite !lookup_app_r by lia.
      replace (S j - length k)%nat with (S (j - length k)) by lia. done. }
    assert ((k ++ c :: n :: r) !! S i = Some p) as Hold by (rewrite Hsh, lookup_app_r; done).
    destruct (inv_at _ _ _ _ I Hold) as (e & He & Hn & Hd). exists e. rewrite He.
    rewrite Hsh in Hn, Hd by lia. done.
Qed.

Lemma inv_unlink b b' k c n r :
  inv b (k ++ c :: n :: r) -> c <> pivot b -> unlinked b b' (list.last k) c n ->
  inv b' (k ++ n :: r).
Proof.
  intros I Hpv U. pose proof (i_nodup _ _ I) as ND. pose proof (u_keep _ _ _ _ _ U) as K.
  unfold bkeep in K. simplify_eq.
  assert (NoDup (k ++ n :: r) /\ c ∉ k ++ n :: r) as [ND' Hc].
  { rewrite <- Permutation_middle in ND. apply NoDup_cons in ND. tauto. }
  split.
  - by eapply unlinked_linked.
  - done.
  - intros p. rewrite (u_heap _ _ _ _ _ U). pose proof (i_dom _ _ I p) as Hd.
    case_decide as Hpc; [subst; split; [by intros [? ?]|done]|].
    assert (p ∈ k ++ n :: r <-> p ∈ k ++ c :: n :: r) as -> by set_solver.
    rewrite <- Hd. case_decide; [by rewrite fmap_is_Some|done].
  - rewrite (u_tail _ _ _ _ _ U). pose proof (i_tail _ _ I) as Ht. destruct k as [|x k]; [done|].
    simpl in *. destruct (list.last (x :: k)) eqn:E; [done|]. by apply last_None in E.
  - pose proof (i_head _ _ I) as Hh. rewrite last_app_cons in Hh. rewrite last_app_cons.
    rewrite last_cons_cons in Hh. congruence.
  - pose proof (i_pivot _ _ I) as Hp. replace (pivot b') with (pivot b) by congruence.
    revert Hp. rewrite !elem_of_app, !elem_of_cons. naive_solver.
  - intros p Hp. assert (p ∈ k ++ c :: n :: r) as Hp' by set_solver.
    pose proof (i_fresh _ _ I p Hp'). lia.
  - rewrite (u_count _ _ _ _ _ U), (i_count _ _ I), !length_app. simpl length.
    unfold uwrap. rewrite Zminus_mod_idemp_l. f_equal. lia.
Qed.

(** Cutting the tail. *)
Lemma wp_dequeue b c n r (Q : bool -> Buf -> Prop) :
  inv b (c :: n :: r) -> c <> pivot b ->
  (forall b', unlinked b b' None c n -> Q true b') -> wp dequeue Q b.
Proof.
  intros I Hpv HQ. pose proof (i_tail _ _ I) as Ht. simpl in Ht. injection Ht as Ht.
  destruct (inv_at _ _ 0 c I eq_refl) as (e & He & Hn & _).
  pose proof (at_head _ _ 0 c I eq_refl) as Hh. simpl in *.
  unfold dequeue, deAllocNode, decrementElementCounter. wp_steps. rewrite <- Ht.
  rewrite decide_False by naive_solver. wp_steps. eapply wp_deref; [exact He|]. rewrite Hn. wp_steps.
  unfold deallocate. eapply wp_intro; [cbn; rewrite He; reflexivity|]. wp_steps.
  apply HQ. split; try done. intros p. simpl. case_decide; [subst; apply lookup_delete_eq|].
  by rewrite lookup_delete_ne.
Qed.

(** Unlinking an inner node. *)
Lemma wp_unlink {B} (K : ST Buf B) b k p c n r (Q : B -> Buf -> Prop) :
  inv b (k ++ c :: n :: r) -> list.last k = Some p ->
  (forall b', unlinked b b' (Some p) c n -> wp K Q b') ->
  wp (set_next p (Some n);; deAllocNode c;; K) Q b.
Proof.
  intros I Hl HQ. pose proof (i_nodup _ _ I) as ND. pose proof (last_Some_elem_of _ _ Hl) as Hpk.
  assert (p <> c) as Hpc.
  { intros ->. apply NoDup_app in ND as (_ & Hd & _). apply (Hd _ Hpk). set_solver. }
  destruct (inv_live _ _ p I) as [ep Hep]; [set_solver|].
  destruct (inv_live _ _ c I) as [ec Hec]; [set_solver|].
  unfold set_next, deAllocNode, decrementElementCounter. wp_steps.
  eapply wp_deref; [exact Hep|]. eapply wp_store; [exact Hep|]. wp_steps.
  unfold deallocate. eapply wp_intro.
  { cbn. rewrite lookup_insert_ne, Hec by done. reflexivity. }
  apply HQ. split; try done. intros x. simpl. case_decide as Hx; [subst; apply lookup_delete_eq|].
  rewrite lookup_delete_ne by done. case_decide as Hx2; simplify_eq.
  - by rewrite lookup_insert_eq, Hep.
  - rewrite lookup_insert_ne by naive_solver. done.
Qed.

Lemma refs_zero b held p e :
  refs_ok b held -> Z.of_nat (multiplicity p held) < 2 ^ 32 -> heap b !! p = Some e ->
  (referenceCount e <=? 0) = bool_decide (p ∉ held).
Proof.
  intros R Hm He. rewrite (R _ _ He), uwrap_small by (unfold in_u; lia).
  apply eq_true_iff_eq. rewrite bool_decide_eq_true, Z.leb_le, elem_of_multiplicity. lia.
Qed.

Definition clear_post (b : Buf) (k mid r : list nat) (held : gmultiset nat) (v f : Z)
    (res : Z * Z) (b' : Buf) : Prop :=
  res = (v + Z.of_nat (length mid), f + Z.of_nat (length (filter (.∉ held) mid))) /\
  gc_rel b b' /\ inv b' (k ++ filter (.∈ held) mid ++ r).

Lemma clear_loop_spec mid : forall fuel k r b held v f c,
  inv b (k ++ mid ++ pivot b :: r) -> refs_ok b held ->
  (forall p, Z.of_nat (multiplicity p held) < 2 ^ 32) -> (length mid <= fuel)%nat ->
  hd_error (mid ++ [pivot b]) = Some c ->
  wp (clear_loop fuel (Some c) (pivot b) (head b) (list.last k) v f)
     (clear_post b k mid (pivot b :: r) held v f) b.
Proof.
  induction mid as [|x mid IH]; intros fuel k r b held v f c I R Hm Hf Hc; simpl in Hc;
    injection Hc as <-.
  { destruct fuel; cbn [clear_loop]; rewrite decide_True by auto; wp_steps;
      (split_and!; [simpl; f_equal; lia|done|done]). }
  destruct fuel as [|fuel]; simpl in Hf; [lia|]. cbn [clear_loop]. simpl in I.
  assert (exists n t, mid ++ pivot b :: r = n :: t /\ hd_error (mid ++ [pivot b]) = Some n)
    as (n & t & Hnt & Hhd) by (destruct mid; simpl; eauto). rewrite Hnt in I.
  assert ((k ++ x :: n :: t) !! length k = Some x) as Hx by (by rewrite lookup_app_r, Nat.sub_diag).
  destruct (inv_at _ _ _ _ I Hx) as (e & He & Hnx & _).
  rewrite lookup_app_r in Hnx by lia. replace (S (length k) - length k)%nat with 1%nat in Hnx by lia.
  simpl in Hnx. pose proof (at_head _ _ _ _ I Hx) as Hh.
  rewrite lookup_app_r in Hh by lia. replace (S (length k) - length k)%nat with 1%nat in Hh by lia.
  assert (x <> pivot b) as Hpv.
  { intros ->. pose proof (i_nodup _ _ I) as (_ & _ & ND)%NoDup_app.
    apply NoDup_cons in ND as [ND _]. apply ND. rewrite <- Hnt. set_solver. }
  rewrite decide_False by naive_solver. wp_steps. eapply wp_deref; [exact He|].
  wp_steps. rewrite (refs_zero _ _ _ _ R (Hm x) He). case_bool_decide as Hxh.
  - assert (forall b', unlinked b b' (list.last k) x n ->
      wp (clear_loop fuel (Some n) (pivot b) (head b) (list.last k) (v + 1) (f + 1))
        (clear_post b k (x :: mid) (pivot b :: r) held v f) b') as Hgo.
    { intros b' U. pose proof (unlinked_gc _ _ _ _ _ U) as G. pose proof (gc_keep _ _ G) as K.
      unfold bkeep in K. pose proof (inv_unlink _ _ _ _ _ _ I Hpv U) as I'.
      assert (pivot b = pivot b' /\ head b = head b') as [Ep Eh] by (by simplify_eq).
      rewrite <- Hnt, Ep in I'. rewrite Ep, Eh in *. eapply wp_mono; [apply IH; eauto using gc_refs; lia|].
      intros res b2 (-> & G2 & I2). unfold clear_post.
      rewrite filter_cons_True, filter_cons_False by auto. simpl length.
      split_and!; [f_equal; lia|by etrans|done]. }
    case_decide as Ht.
    + assert (k = []) as ->.
      { pose proof (i_tail _ _ I) as Ht'. destruct k as [|y k]; [done|]. simpl in Ht'.
        injection Ht' as ->. pose proof (i_nodup _ _ I) as ND. simpl in ND.
        apply NoDup_cons in ND as [ND _]. exfalso. apply ND. set_solver. }
      wp_steps. eapply wp_dequeue; [exact I|done|]. intros b' U. wp_steps.
      rewrite (u_tail _ _ _ _ _ U). by apply Hgo.
    + destruct (list.last k) as [p|] eqn:El.
      2:{ apply last_None in El as ->. pose proof (i_tail _ _ I) as Ht'. simpl in Ht'. congruence. }
      rewrite Hnx. eapply wp_unlink; [exact I|done|exact Hgo].
  - rewrite Hnx. assert (k ++ x :: mid ++ pivot b :: r = (k ++ [x]) ++ mid ++ pivot b :: r) as Ek
      by by rewrite <- app_assoc.
    rewrite <- Hnt, Ek in I. rewrite <- (last_snoc x k).
    eapply wp_mono; [apply IH; eauto; lia|].
    intros res b2 (-> & G2 & I2). unfold clear_post.
    rewrite filter_cons_False, filter_cons_True by auto. simpl length.
    split_and!; [f_equal; lia|done|by rewrite <- app_assoc in I2].
Qed.

(** [clearUnusedData] frees exactly the nodes before the pivot that no smart pointer
    refers to. *)
Lemma wp_clearUnusedData b mid r held (Q : unit -> Buf -> Prop) :
  inv b (mid ++ pivot b :: r) -> refs_ok b held ->
  (forall p, Z.of_nat (multiplicity p held) < 2 ^ 32) ->
  (forall b', gc_rel b b' -> inv b' (filter (.∈ held) mid ++ pivot b :: r) ->
     refs_ok b' held -> Q tt b') ->
  wp clearUnusedData Q b.
Proof.
  intros I R Hm HQ. unfold clearUnusedData. wp_steps.
  pose proof (i_tail _ _ I) as Ht.
  eapply wp_mono; [apply (clear_loop_spec mid _ []); eauto|].
  - rewrite (inv_size _ _ I), length_app. lia.
  - destruct mid; simpl in *; congruence.
  - intros res b' (-> & G & I'). wp_steps. apply HQ.
    + by destruct G.
    + by destruct I'.
    + exact (gc_refs _ _ _ G R).
Qed.

(** *** The garbage collector: moving the pivot *)

(** What moving the pivot leaves alone. *)
Record shifted (b b' : Buf) : Prop := {
  sh_heap : forall p, eshape <$> heap b' !! p = eshape <$> heap b !! p;
  sh_rest : brest (set_pivot 0 b') = brest (set_pivot 0 b) }.

#[local] Instance shifted_preorder : PreOrder shifted.
Proof.
  split; [by split|]. intros x y z [H1 R1] [H2 R2].
  split; [intros p; by rewrite H2, H1|congruence].
Qed.

Lemma frame_shifted b b' : frame b b' -> shifted b b'.
Proof. intros [H R]. split; [done|]. unfold brest in *. simpl. congruence. Qed.

Lemma set_pivot_shifted b p : shifted b (set_pivot p b).
Proof. by split. Qed.

Lemma shifted_valid_at b b' p n : shifted b b' -> valid_at b' p n = valid_at b p n.
Proof.
  intros S. unfold valid_at. pose proof (sh_heap _ _ S p) as E.
  destruct (heap b' !! p) as [[]|], (heap b !! p) as [[]|]; try done.
  simpl in E. unfold eshape in E. simpl in *. injection E as -> -> ->. done.
Qed.

(** The iterator of the collector is at the pivot or after it, and strictly after it
    once it has released the pivot. *)
Definition gc_iter_ok (it : Iterator) (b : Buf) (q : list nat) : Prop :=
  exists i j c, q !! i = Some (pivot b) /\ q !! j = Some c /\ current it = Some c /\ (i <= j)%nat /\
    (lastDiv it = Some (pivot b) -> i < j)%nat.

(** The pivot moves from index [i] to index [i'], over nodes that have timed out,
    and stays before the head. *)
Definition mark_post (b : Buf) (q : list nat) (held : gmultiset nat) (i : nat)
    (it' : Iterator) (b' : Buf) : Prop :=
  exists i', (i <= i')%nat /\ (i' = i \/ (i' < length q - 1)%nat) /\ q !! i' = Some (pivot b') /\
    shifted b b' /\ inv b' q /\ refs_ok b' held /\ gc_iter_ok it' b' q /\
    (forall j p, (i <= j < i')%nat -> q !! j = Some p -> exists t, valid_at b p (clock t) = false).

Lemma inv_set_pivot b q p : inv b q -> p ∈ q -> inv (set_pivot p b) q.
Proof. intros [] Hp. by split. Qed.

Lemma wp_markOldData it b q i held :
  inv b q -> refs_ok b held -> gc_iter_ok it b q -> q !! i = Some (pivot b) ->
  wp (markOldData clock it) (fun r b' => mark_post b q held i (snd r) b' /\
     (fst r = true -> q !! S i = Some (pivot b'))) b.
Proof.
  intros I R Hit Hi. pose proof (list_elem_of_lookup_2 _ _ _ Hi) as Hin.
  pose proof (lookup_lt_Some _ _ _ Hi) as Hlt.
  unfold markOldData. wp_steps. eapply wp_isValid; eauto. intros b1 F1 I1 R1 _. wp_steps.
  destruct (inv_at _ _ _ _ I1 Hi) as (e & He & Hn & _). eapply wp_deref; [exact He|]. rewrite Hn.
  assert (forall it2 b2, frame b b2 -> inv b2 q -> refs_ok b2 held -> gc_iter_ok it2 b2 q ->
     mark_post b q held i it2 b2) as Hstay.
  { intros it2 b2 F2 I2 R2 H2. exists i. rewrite (frame_pivot _ _ F2).
    split_and!; auto using frame_shifted. intros. lia. }
  assert (gc_iter_ok it b1 q) as Hit1.
  { unfold gc_iter_ok. by rewrite (frame_pivot _ _ F1). }
  destruct (q !! S i) as [nx|] eqn:Hnx; [|wp_steps; split; [by apply Hstay|done]].
  pose proof (list_elem_of_lookup_2 _ _ _ Hnx) as Hin2.
  case_decide as Hcond; [|wp_steps; split; [by apply Hstay|done]].
  destruct Hcond as (Hv & _ & Hnh). wp_steps.
  apply (wp_mono _ (fun it2 b2 => frame b b2 /\ inv b2 q /\ refs_ok b2 held /\
    lastDiv it2 = Some (pivot b) /\ exists j c, q !! j = Some c /\ current it2 = Some c /\ (i < j)%nat)).
  - case_decide as Hld; wp_steps.
    + eapply (wp_count increment); eauto. intros b2 F2 I2 R2. wp_steps.
      eapply (wp_count decrementCounter); eauto. intros b3 F3 I3 R3. wp_steps.
      split_and!; try done; [by etrans; [etrans|]|]. exists (S i), nx. auto with lia.
    + destruct Hit as (i0 & j0 & c0 & Hi0 & Hj0 & Hc0 & Hle & Hlt0).
      pose proof (NoDup_lookup _ _ _ _ (i_nodup _ _ I) Hi Hi0) as <-.
      split_and!; try done. exists j0, c0. auto.
  - intros it2 b2 (F2 & I2 & R2 & Hld & j & c & Hj & Hc & Hij). wp_steps.
    destruct (inv_live _ _ _ I2 Hin) as [e2 He2]. eapply wp_deref; [exact He2|]. case_match.
    2:{ wp_steps. split; [|done]. apply Hstay; try done. exists i, j, c.
        rewrite (frame_pivot _ _ F2). split_and!; auto with lia. }
    wp_steps. simpl. split; [|done]. exists (S i). pose proof (at_head _ _ _ _ I1 Hnx) as Hh.
    assert (S (S i) < length q)%nat.
    { apply lookup_lt_is_Some. rewrite (frame_head _ _ F1) in Hh. destruct (q !! S (S i)); naive_solver. }
    split_and!; simpl; auto with lia.
    + etrans; [by apply frame_shifted|apply set_pivot_shifted].
    + by apply inv_set_pivot.
    + exists (S i), j, c. simpl. split_and!; auto with lia. intros E. rewrite Hld in E. injection E as E.
      rewrite E in Hi. pose proof (NoDup_lookup _ _ _ _ (i_nodup _ _ I) Hi Hnx). lia.
    + intros j' p Hj' Hp. assert (j' = i) as -> by lia. exists (tick b). congruence.
Qed.

Lemma mark_loop_spec fuel it b q i held :
  inv b q -> refs_ok b held -> gc_iter_ok it b q -> q !! i = Some (pivot b) ->
  (length q - i <= fuel)%nat -> wp (mark_loop clock fuel it) (mark_post b q held i) b.
Proof.
  revert it b i. induction fuel as [|fuel IH]; intros it b i I R Hit Hi Hf.
  { apply lookup_lt_Some in Hi. lia. }
  cbn [mark_loop]. wp_steps. eapply wp_mono; [by apply wp_markOldData|].
  intros [again it2] b2 [H2 Hagain]. simpl in *. destruct again; [|by wp_steps].
  specialize (Hagain eq_refl).
  destruct H2 as (i2 & Hle & Hlt & Hi2 & S2 & I2 & R2 & Hit2 & Hv2).
  pose proof (NoDup_lookup _ _ _ _ (i_nodup _ _ I) Hagain Hi2) as <-.
  eapply wp_mono; [apply (IH it2 b2 (S i)); auto; lia|].
  intros it3 b3 (i3 & Hle3 & Hlt3 & Hi3 & S3 & I3 & R3 & Hit3 & Hv3).
  exists i3. split_and!; try done; [lia..|by etrans|].
  intros j p Hj Hp. destruct (decide (j = i)) as [->|Hne].
  - apply (Hv2 i p); [lia|done].
  - destruct (Hv3 j p) as [t Ht]; [lia|done|]. exists t. by rewrite <- (shifted_valid_at _ _ _ _ S2).
Qed.

(** One round of the collector. *)
Definition clear_queue_post (b : Buf) (q2 : list nat) (held : gmultiset nat)
    (it' : Iterator) (b' : Buf) : Prop :=
  exists b1, gc_rel b b1 /\ shifted b1 b' /\ inv b' q2 /\ refs_ok b' held /\ gc_iter_ok it' b' q2 /\
    exists i i', q2 !! i = Some (pivot b) /\ q2 !! i' = Some (pivot b') /\ (i <= i')%nat /\
      forall j p, (i <= j < i')%nat -> q2 !! j = Some p -> exists t, valid_at b1 p (clock t) = false.

Lemma wp_clearQueue it b mid r held :
  inv b (mid ++ pivot b :: r) -> refs_ok b held -> gc_iter_ok it b (mid ++ pivot b :: r) ->
  (forall p, Z.of_nat (multiplicity p held) < 2 ^ 32) ->
  wp (clearQueue clock it)
    (clear_queue_post b (filter (.∈ held) mid ++ pivot b :: r) held) b.
Proof.
  intros I R Hit Hm. unfold clearQueue. wp_steps. eapply wp_clearUnusedData; eauto.
  intros b1 G I1 R1. wp_steps.
  assert (pivot b1 = pivot b) as Epv by (pose proof (gc_keep _ _ G) as K; unfold bkeep in K; by simplify_eq).
  set (q2 := filter (.∈ held) mid ++ pivot b :: r) in *.
  set (i := length (filter (.∈ held) mid)).
  assert (q2 !! i = Some (pivot b)) as Hi by (unfold q2, i; by rewrite lookup_app_r, Nat.sub_diag).
  assert (gc_iter_ok it b1 q2) as Hit1.
  { destruct Hit as (i0 & j0 & c0 & Hi0 & Hj0 & Hc0 & Hle & Hlt).
    assert (i0 = length mid) as ->.
    { eapply NoDup_lookup; [apply (i_nodup _ _ I)|done|]. by rewrite lookup_app_r, Nat.sub_diag. }
    rewrite lookup_app_r in Hj0 by lia.
    exists i, (i + (j0 - length mid))%nat, c0. rewrite Epv. split_and!; auto with lia.
    - unfold q2, i. rewrite lookup_app_r by lia. rewrite <- Hj0. f_equal. lia.
    - intros H%Hlt. lia. }
  destruct Hit1 as (i0 & j & c & Hi0 & Hj & Hc & Hrest).
  eapply wp_isReady; [exact I1|exact Hc|exact Hj|]. wp_steps. case_match.
  2:{ wp_steps. exists b1. split_and!; try done; [by exists i0, j, c|].
      exists i, i. rewrite Epv. split_and!; auto. intros. lia. }
  eapply wp_mono; [apply (mark_loop_spec _ it b1 q2 i held I1 R1)|].
  - by exists i0, j, c.
  - by rewrite Epv.
  - rewrite (inv_size _ _ I1). lia.
  - intros it3 b3 (i3 & Hle3 & Hlt3 & Hi3 & S3 & I3 & R3 & Hit3 & Hv3).
    exists b1. split_and!; try done. exists i, i3. by split_and!.
Qed.

(** [~IteratorBase]: only the resume pointer is released. *)
Definition delete_Iterator (it : Iterator) : ST Buf unit :=
  match stopAndResume it with Some s => delete_SmartPointer s | None => mret tt end.

(** *** Histories

    A buffer with its collector, its readers, and the smart pointers that were handed
    out by [enqueue] and [bufferedReader] and not deleted yet. *)
Record World := mkWorld {
  wbuf : Buf;
  collector : Iterator;
  readers : list Iterator;
  user : list nat }.

Inductive op :=
  | OEnqueue (data : AbstractDataElement A) (smartPointer : bool)
  | OCollect
  | OAttach
  | ODetach (r : nat)
  | ORead (r : nat) (limit : Z)
  | ORelease (k : nat)
  | OSetValidity (validity : Z).

Definition init (validity : Z) : option World :=
  '(it, b) ← getIteratorGarbage (new_CommonBuffer validity); Some (mkWorld b it [] []).

(** A step; operations on a reader or a pointer that does not exist do nothing. *)
Definition step (o : op) (w : World) : option World :=
  match o with
  | OEnqueue d sp =>
      '(p, b) ← enqueue d sp (wbuf w);
      Some (mkWorld b (collector w) (readers w) (option_list p ++ user w))
  | OCollect =>
      '(it, b) ← clearQueue clock (collector w) (wbuf w);
      Some (mkWorld b it (readers w) (user w))
  | OAttach => Some (mkWorld (wbuf w) (collector w) (new_Iterator :: readers w) (user w))
  | ODetach r =>
      match readers w !! r with
      | None => Some w
      | Some it =>
          '(_, b) ← delete_Iterator it (wbuf w);
          Some (mkWorld b (collector w) (delete r (readers w)) (user w))
      end
  | ORead r limit =>
      match readers w !! r with
      | None => Some w
      | Some it =>
          '(sps, _, it', b) ← bufferedReader clock limit it (wbuf w);
          Some (mkWorld b (collector w) (<[r := it']> (readers w)) (sps ++ user w))
      end
  | ORelease k =>
      match user w !! k with
      | None => Some w
      | Some p =>
          '(_, b) ← delete_SmartPointer p (wbuf w);
          Some (mkWorld b (collector w) (readers w) (delete k (user w)))
      end
  | OSetValidity v =>
      '(_, b) ← setValidity v (wbuf w); Some (mkWorld b (collector w) (readers w) (user w))
  end.

Definition run (ops : list op) (w : World) : option World := foldl (fun w o => w ≫= step o) (Some w) ops.

(** All the smart pointers there are: those handed out and those the readers keep. *)
Definition all_held (w : World) : gmultiset nat :=
  list_to_set_disj (user w ++ omap stopAndResume (readers w)).

(** The nodes of the queue from the tail on, and the data they hold. *)
Fixpoint walk (h : gmap nat (Element A)) (fuel : nat) (p : nat) : list nat :=
  match fuel with
  | O => []
  | S fuel => p :: match h !! p ≫= enext with Some n => walk h fuel n | None => [] end
  end.
Definition queue (b : Buf) : list nat := walk (heap b) (size (heap b)) (tail b).
Definition data_at (b : Buf) (p : nat) : option (AbstractDataElement A) := heap b !! p ≫= edata.
Definition contents (b : Buf) : list (AbstractDataElement A) := omap (data_at b) (queue b).

Lemma walk_drop h q i p :
  linked h q -> q !! i = Some p -> walk h (length q - i) p = drop i q.
Proof.
  intros L. remember (length q - i)%nat as m eqn:Em. revert i p Em.
  induction m as [|m IH]; intros i p Em Hp; [apply lookup_lt_Some in Hp; lia|].
  destruct (L _ _ Hp) as (e & He & Hn & _). cbn [walk]. rewrite He. simpl. rewrite Hn.
  rewrite (drop_S _ _ _ Hp). f_equal. destruct (q !! S i) as [n|] eqn:E.
  - apply IH; [lia|done].
  - symmetry. apply drop_ge. by apply lookup_ge_None.
Qed.

Lemma queue_inv b q : inv b q -> queue b = q.
Proof.
  intros I. unfold queue. rewrite (inv_size _ _ I).
  pose proof (walk_drop _ _ 0 _ (i_linked _ _ I) (i_tail _ _ I)) as H.
  by rewrite Nat.sub_0_r in H.
Qed.

(** The invariant of the histories: [n] bounds the number of pointers to one node. *)
Record world_ok (n : nat) (w : World) (q : list nat) : Prop := {
  w_inv : inv (wbuf w) q;
  w_refs : refs_ok (wbuf w) (all_held w);
  w_gc : gc_iter_ok (collector w) (wbuf w) q;
  w_readers : Forall (fun it => iter_ok it q) (readers w);
  w_user : forall p, p ∈ user w -> p ∈ q /\ p <> head (wbuf w);
  w_bound : forall p, (multiplicity p (all_held w) <= n)%nat }.

Lemma init_ok validity : exists w, init validity = Some w /\ world_ok 0 w [0%nat].
Proof.
  assert (inv (new_CommonBuffer validity : Buf) [0%nat]) as I.
  { split; simpl; try done.
    - intros [|i] p; [|done]. simpl. intros [= <-]. exists new_Element. by rewrite lookup_singleton_eq.
    - apply NoDup_singleton.
    - intros p. rewrite list_elem_of_singleton. rewrite lookup_singleton_is_Some. naive_solver.
    - by apply list_elem_of_singleton.
    - intros p Hp%list_elem_of_singleton. lia. }
  assert (wp getIteratorGarbage (fun it b => frame (new_CommonBuffer validity : Buf) b /\ inv b [0%nat] /\
    refs_ok b ∅ /\ it = mkIter (Some 0%nat) None None) (new_CommonBuffer validity)) as W.
  { unfold getIteratorGarbage. wp_steps.
    eapply (wp_count increment _ _ [0%nat] ∅); [by left|done| |apply (i_pivot _ _ I)|].
    - intros p e. simpl. intros [<- <-]%lookup_singleton_Some. done.
    - intros b F Ib R. wp_steps. by split_and!. }
  apply wp_elim in W as (it & b & E & F & Ib & R & ->).
  exists (mkWorld b (mkIter (Some 0%nat) None None) [] []). split.
  { unfold init. by rewrite E. }
  split; simpl; try done.
  - exists 0%nat, 0%nat, 0%nat. simpl. rewrite (frame_pivot _ _ F). split_and!; try done.
  - by intros p ?%elem_of_nil.
Qed.

Lemma held_in n w q p : world_ok n w q -> p ∈ all_held w -> p ∈ q.
Proof.
  intros W. unfold all_held. rewrite elem_of_list_to_set_disj, elem_of_app, list_elem_of_omap.
  intros [Hu|(it & Hit & Hs)]; [by apply (w_user _ _ _ W)|].
  pose proof (w_readers _ _ _ W) as HF. rewrite Forall_forall in HF.
  destruct (HF _ Hit) as [[_ Hn]|(c & Hc & _ & Hs')]; congruence.
Qed.

Lemma multiplicity_nodup (l : list nat) p :
  NoDup l -> (multiplicity p (list_to_set_disj l : gmultiset nat) <= 1)%nat.
Proof.
  induction 1 as [|x l Hx _ IH]; simpl; [rewrite multiplicity_empty; lia|].
  rewrite multiplicity_disj_union. destruct (decide (p = x)) as [->|Hne].
  - rewrite multiplicity_singleton_eq.
    assert (x ∉ (list_to_set_disj l : gmultiset nat)) as Hm%not_elem_of_multiplicity; [|lia].
    by rewrite elem_of_list_to_set_disj.
  - rewrite multiplicity_singleton_ne by done. lia.
Qed.

(** The pointers that are not the resume pointer of reader [r]. *)
Definition held_but (r : nat) (w : World) : gmultiset nat :=
  list_to_set_disj (user w ++ omap stopAndResume (delete r (readers w))).

Lemma held_reader w r it : readers w !! r = Some it -> all_held w = stop_ms it ⊎ held_but r w.
Proof.
  intros Hr. unfold all_held, held_but, stop_ms.
  rewrite (delete_Permutation _ _ _ Hr) at 1. simpl.
  destruct (stopAndResume it); rewrite !list_to_set_disj_app; simpl;
    change (list_omap Iterator nat stopAndResume) with (omap (M := list) stopAndResume);
    multiset_solver.
Qed.

(** What a step may do to the nodes: those that stay keep their data. *)
Definition data_kept (b b' : Buf) : Prop :=
  forall p e e', heap b !! p = Some e -> heap b' !! p = Some e' -> edata e <> None ->
    edata e' = edata e /\ timedOut e' = timedOut e.

Lemma shape_kept b b' :
  (forall p, eshape <$> heap b' !! p = eshape <$> heap b !! p) -> data_kept b b'.
Proof.
  intros H p e e' He He' _. specialize (H p). rewrite He, He' in H. simpl in H.
  apply (inj Some) in H. unfold eshape in H. by simplify_eq.
Qed.

Lemma gc_kept b b' : gc_rel b b' -> data_kept b b'.
Proof.
  intros [H _] p e e' He (e0 & He0 & E)%H _. unfold content in E. by simplify_eq.
Qed.

(** The result of a step on a good world. *)
Definition step_post (n : nat) (w w' : World) (q q' : list nat) : Prop :=
  world_ok n w' q' /\ data_kept (wbuf w) (wbuf w').

Lemma frame_gc_iter it b b' q : frame b b' -> gc_iter_ok it b q -> gc_iter_ok it b' q.
Proof. intros F. unfold gc_iter_ok. by rewrite (frame_pivot _ _ F). Qed.

Lemma step_enqueue n w q d sp :
  world_ok n w q -> exists w', step (OEnqueue d sp) w = Some w' /\
    step_post (S n) w w' q (q ++ [fresh (wbuf w)]) /\
    data_at (wbuf w') (head (wbuf w)) = Some d /\ head (wbuf w') = fresh (wbuf w) /\
    (forall p, p ∈ q -> p <> head (wbuf w) -> data_at (wbuf w') p = data_at (wbuf w) p).
Proof.
  intros W. pose proof (w_inv _ _ _ W) as I. set (b := wbuf w) in *.
  destruct (inv_head_live _ _ I) as [e He]. destruct (inv_fresh_none _ _ I) as [Hf Hnq].
  assert (fresh b <> head b) as Hne by congruence.
  pose proof (refs_enqueued d sp _ _ _ _ I (w_refs _ _ _ W) (fun p => held_in _ _ _ _ W) He) as R'.
  assert (head b ∈ q) as Hhq by (apply (i_dom _ _ I); eauto).
  simpl. fold b. rewrite (enqueue_run _ _ _ _ He Hne). simpl. eexists. split; [done|].
  assert (forall p, p ∈ q -> p <> head b ->
    heap (enqueued d sp b e) !! p = heap b !! p) as Hother.
  { intros p Hp Hph. simpl. rewrite !lookup_insert_ne by naive_solver. done. }
  split_and!; simpl.
  - split.
    + split; simpl.
      * by apply inv_enqueued.
      * eapply refs_ok_eq; [exact R'|]. unfold all_held. simpl. destruct sp; simpl; multiset_solver.
      * destruct (w_gc _ _ _ W) as (i & j & c & Hi & Hj & Hrest). exists i, j, c. simpl.
        split; [|split]; [by apply lookup_app_l_Some..|done].
      * eapply Forall_impl; [apply (w_readers _ _ _ W)|]. intros it [?|(c & Hc & ?)]; [by left|].
        right. exists c. set_solver.
      * intros p. destruct sp; simpl; rewrite ?elem_of_cons.
        -- intros [->|Hp]; [set_solver|]. destruct (w_user _ _ _ W _ Hp). set_solver.
        -- intros Hp. destruct (w_user _ _ _ W _ Hp). set_solver.
      * intros p. pose proof (w_bound _ _ _ W p) as Hb. unfold all_held in *. simpl.
        destruct sp; simpl; [|lia]. rewrite multiplicity_disj_union.
        pose proof (multiplicity_nodup [head b] p (NoDup_singleton _)) as H1. simpl in H1.
        rewrite multiplicity_disj_union, multiplicity_empty in H1. lia.
    + intros p x x' Hx Hx' Hd. fold b in Hx. destruct (decide (p = head b)) as [->|Hph].
      * exfalso. apply Hd. pose proof (i_head _ _ I) as Hl. rewrite last_lookup in Hl.
        destruct (inv_at _ _ _ _ I Hl) as (x0 & Hx0 & _ & Hn). simplify_eq. apply Hn.
        pose proof (at_head _ _ _ _ I Hl) as [-> _]; done.
      * simpl in Hx'. rewrite <- Hother in Hx; [|by apply (i_dom _ _ I)|done]. simpl in Hx.
        by simplify_eq.
  - unfold data_at. simpl. by rewrite lookup_insert_eq.
  - done.
  - intros p Hp Hph. unfold data_at. by rewrite <- (Hother p Hp Hph).
Qed.

Lemma step_collect n w q :
  world_ok n w q -> Z.of_nat n < 2 ^ 32 ->
  exists mid r w', q = mid ++ pivot (wbuf w) :: r /\ step OCollect w = Some w' /\
    step_post n w w' q (filter (.∈ all_held w) mid ++ pivot (wbuf w) :: r) /\
    user w' = user w /\ readers w' = readers w /\
    clear_queue_post (wbuf w) (filter (.∈ all_held w) mid ++ pivot (wbuf w) :: r) (all_held w)
      (collector w') (wbuf w').
Proof.
  intros W Hn. pose proof (w_inv _ _ _ W) as I. pose proof (i_pivot _ _ I) as Hpv.
  apply list_elem_of_split in Hpv as (mid & r & ->). exists mid, r.
  pose proof (wp_clearQueue (collector w) (wbuf w) mid r (all_held w) I (w_refs _ _ _ W) (w_gc _ _ _ W))
    as Hc.
  apply wp_elim in Hc as (it & b' & E & P).
  2:{ intros p. pose proof (w_bound _ _ _ W p). lia. }
  exists (mkWorld b' it (readers w) (user w)). simpl. rewrite E. split_and!; try done.
  set (q2 := filter _ mid ++ _) in *.
  assert (forall p, p ∈ all_held w -> p ∈ mid ++ pivot (wbuf w) :: r -> p ∈ q2) as Hstay.
  { intros p Hp. unfold q2. rewrite !elem_of_app, list_elem_of_filter. tauto. }
  destruct P as (b1 & G & S & I' & R' & Git & _). split.
  - split; simpl; try done.
    + rewrite Forall_forall. intros it0 Hit0. pose proof (w_readers _ _ _ W) as HF.
      rewrite Forall_forall in HF. destruct (HF _ Hit0) as [?|(c & Hc & Hcur & Hst)]; [by left|].
      right. exists c. split_and!; try done. apply Hstay; [|done].
      unfold all_held. rewrite elem_of_list_to_set_disj, elem_of_app, list_elem_of_omap. eauto.
    + intros p Hp. destruct (w_user _ _ _ W _ Hp) as [Hq Hh]. split.
      * apply Hstay; [|done]. unfold all_held. rewrite elem_of_list_to_set_disj, elem_of_app. auto.
      * pose proof (gc_keep _ _ G) as K. pose proof (sh_rest _ _ S) as K2.
        unfold bkeep, brest in *. simpl in *. congruence.
    + apply (w_bound _ _ _ W).
  - intros p e e' He He' Hd. simpl in *. pose proof (sh_heap _ _ S p) as E1. rewrite He' in E1.
    destruct (heap b1 !! p) as [e1|] eqn:He1; [|done]. simpl in E1. apply (inj Some) in E1.
    destruct (gc_kept _ _ G p e e1 He He1 Hd) as [<- <-].
    unfold eshape in E1. split; congruence.
Qed.

(** Steps that only touch counters. *)
Lemma frame_step n w q b' us rs :
  world_ok n w q -> frame (wbuf w) b' -> inv b' q ->
  Forall (fun it => iter_ok it q) rs -> (forall p, p ∈ us -> p ∈ q /\ p <> head (wbuf w)) ->
  refs_ok b' (list_to_set_disj (us ++ omap stopAndResume rs)) ->
  (forall p, (multiplicity p (list_to_set_disj (us ++ omap stopAndResume rs) : gmultiset nat) <= S n)%nat) ->
  step_post (S n) w (mkWorld b' (collector w) rs us) q q.
Proof.
  intros W F I' Hrs Hus R' Hm. split; [|apply shape_kept, (fr_heap _ _ F)].
  split; simpl; try done.
  - eapply frame_gc_iter; [done|]. apply (w_gc _ _ _ W).
  - intros p Hp. rewrite (frame_head _ _ F). auto.
Qed.

Lemma held_insert w r it it' us :
  readers w !! r = Some it -> stopAndResume it' = Some us ->
  (list_to_set_disj (user w ++ omap stopAndResume (<[r := it']> (readers w))) : gmultiset nat)
  = {[+ us +]} ⊎ held_but r w.
Proof.
  intros Hr Hs. pose proof (held_reader (mkWorld (wbuf w) (collector w) (<[r:=it']> (readers w)) (user w)) r it') as H.
  unfold all_held, held_but, stop_ms in *. simpl in *.
  rewrite Hs in H. rewrite H.
  - do 3 f_equal. rewrite !delete_take_drop, take_insert_ge, drop_insert_lt by lia. done.
  - apply list_lookup_insert_eq. by eapply lookup_lt_Some.
Qed.

Lemma step_read n w q r limit it :
  world_ok n w q -> readers w !! r = Some it ->
  exists w' sps it', step (ORead r limit) w = Some w' /\ step_post (S n) w w' q q /\
    user w' = sps ++ user w /\ readers w' = <[r := it']> (readers w) /\
    reader_post (wbuf w) q (held_but r w) it limit (sps, Z.of_nat (length sps), it') (wbuf w').
Proof.
  intros W Hr. pose proof (w_inv _ _ _ W) as I. pose proof (w_readers _ _ _ W) as HF.
  assert (iter_ok it q) as Hit by apply (Forall_lookup_1 _ _ _ _ HF Hr).
  pose proof (wp_bufferedReader limit it (wbuf w) q (held_but r w) I) as P.
  rewrite <- (held_reader _ _ _ Hr) in P.
  specialize (P (w_refs _ _ _ W) Hit). apply wp_elim in P as ([[sps m] it'] & b' & E & P).
  pose proof P as (-> & _ & F & I' & R' & i & c & Hsps & Hc & Hcur & Hst & _).
  exists (mkWorld b' (collector w) (<[r := it']> (readers w)) (sps ++ user w)), sps, it'.
  simpl. rewrite Hr, E. split; [done|]. split; [|split; [done|split; [done|exact P]]]. clear P.
  assert (NoDup (c :: sps) /\ forall p, p ∈ sps -> p ∈ q /\ p <> head (wbuf w)) as [HND Hin].
  { assert (sps ++ [c] = take (S (length sps)) (drop i q)) as El.
    { rewrite (take_S_r _ _ c), <- Hsps; [done|]. by rewrite lookup_drop. }
    split.
    - rewrite Permutation_cons_append, El.
      eapply sublist_NoDup; [apply (i_nodup _ _ I)|]. etrans; [apply sublist_take|apply sublist_drop].
    - intros p [j Hj]%list_elem_of_lookup. pose proof (lookup_lt_Some _ _ _ Hj) as Hlt.
      rewrite Hsps in Hj. rewrite lookup_take_lt, lookup_drop in Hj by done.
      split; [by eapply list_elem_of_lookup_2|]. rewrite (at_head _ _ _ _ I Hj).
      apply not_eq_None_Some, lookup_lt_is_Some. apply lookup_lt_Some in Hc. lia. }
  pose proof (held_insert _ _ _ _ _ Hr Hst) as Hins.
  assert ((list_to_set_disj ((sps ++ user w) ++ omap stopAndResume (<[r := it']> (readers w))) : gmultiset nat)
    = {[+ c +]} ⊎ (list_to_set_disj sps ⊎ held_but r w)) as Hall.
  { rewrite <- app_assoc, (list_to_set_disj_app sps), Hins. multiset_solver. }
  apply frame_step; try done.
  - apply Forall_insert; [done|]. right. exists c. split_and!; try done. by eapply list_elem_of_lookup_2.
  - intros p [Hp|Hp]%elem_of_app; [auto|apply (w_user _ _ _ W _ Hp)].
  - rewrite Hall. unfold stop_ms in R'. by rewrite Hst in R'.
  - intros p. rewrite Hall. pose proof (w_bound _ _ _ W p) as Hb.
    pose proof (multiplicity_nodup _ p HND) as H1. simpl in H1.
    rewrite (held_reader _ _ _ Hr) in Hb. rewrite !multiplicity_disj_union in *. lia.
Qed.

Lemma step_detach n w q r it :
  world_ok n w q -> readers w !! r = Some it ->
  exists w', step (ODetach r) w = Some w' /\ step_post (S n) w w' q q /\ user w' = user w.
Proof.
  intros W Hr. pose proof (w_inv _ _ _ W) as I. pose proof (w_refs _ _ _ W) as R.
  rewrite (held_reader _ _ _ Hr) in R. pose proof (w_readers _ _ _ W) as HF.
  assert (wp (delete_Iterator it) (fun _ b' => frame (wbuf w) b' /\ inv b' q /\ refs_ok b' (held_but r w))
    (wbuf w)) as P.
  { unfold delete_Iterator, stop_ms in *. destruct (Forall_lookup_1 _ _ _ _ HF Hr) as [[_ Hs]|(c & Hc & _ & Hs)];
      rewrite Hs in *.
    - wp_steps. split_and!; try done. eapply refs_ok_eq; [exact R|multiset_solver].
    - eapply wp_delete_SmartPointer; eauto. }
  apply wp_elim in P as ([] & b' & E & F & I' & R').
  eexists. simpl. rewrite Hr, E. split; [done|]. split; [|done].
  apply frame_step; try done.
  - rewrite delete_take_drop. apply Forall_app. eauto using Forall_take, Forall_drop.
  - apply (w_user _ _ _ W).
  - intros p. pose proof (w_bound _ _ _ W p) as Hb. rewrite (held_reader _ _ _ Hr) in Hb.
    rewrite multiplicity_disj_union in Hb. unfold held_but in Hb. lia.
Qed.

Lemma step_release n w q k p :
  world_ok n w q -> user w !! k = Some p ->
  exists w', step (ORelease k) w = Some w' /\ step_post (S n) w w' q q /\ user w' = delete k (user w).
Proof.
  intros W Hk. pose proof (w_inv _ _ _ W) as I. pose proof (w_refs _ _ _ W) as R.
  set (rest := list_to_set_disj (delete k (user w) ++ omap stopAndResume (readers w)) : gmultiset nat).
  assert (all_held w = {[+ p +]} ⊎ rest) as Hall.
  { unfold all_held, rest. rewrite (delete_Permutation _ _ _ Hk) at 1. done. }
  rewrite Hall in R. destruct (w_user _ _ _ W p) as [Hp _]; [by eapply list_elem_of_lookup_2|].
  assert (wp (delete_SmartPointer p) (fun _ b' => frame (wbuf w) b' /\ inv b' q /\ refs_ok b' rest)
    (wbuf w)) as P by (eapply wp_delete_SmartPointer; eauto).
  apply wp_elim in P as ([] & b' & E & F & I' & R').
  eexists. simpl. rewrite Hk, E. split; [done|]. split; [|done].
  apply frame_step; try done.
  - apply (w_readers _ _ _ W).
  - intros x Hx. apply (w_user _ _ _ W). rewrite (delete_Permutation _ _ _ Hk). by right.
  - intros x. pose proof (w_bound _ _ _ W x) as Hb. rewrite Hall, multiplicity_disj_union in Hb.
    unfold rest in Hb. lia.
Qed.

Lemma world_ok_weaken n m w q : (n <= m)%nat -> world_ok n w q -> world_ok m w q.
Proof. intros Hle []. split; try done. intros p. specialize (w_bound0 p). lia. Qed.

Lemma data_kept_refl b : data_kept b b.
Proof. intros p e e' He He' _. by simplify_eq. Qed.

(** Every operation succeeds on a good world and gives a good world. *)
Lemma step_ok n w q o :
  world_ok n w q -> Z.of_nat n < 2 ^ 32 ->
  exists w' q', step o w = Some w' /\ step_post (S n) w w' q q'.
Proof.
  intros W Hn.
  assert (step_post (S n) w w q q) as Hid by (split; [apply (world_ok_weaken n); [lia|done]|apply data_kept_refl]).
  destruct o as [d sp| | |r|r limit|k|v].
  - destruct (step_enqueue _ _ _ d sp W) as (w' & E & P & _). eauto.
  - destruct (step_collect _ _ _ W Hn) as (mid & r & w' & _ & E & [P D] & _).
    eexists _, _. split; [done|]. split; [|done]. apply (world_ok_weaken n); [lia|done].
  - eexists _, q. split; [done|]. apply frame_step; try done; simpl.
    + apply (w_inv _ _ _ W).
    + constructor; [by left|apply (w_readers _ _ _ W)].
    + apply (w_user _ _ _ W).
    + apply (w_refs _ _ _ W).
    + intros p. etrans; [apply (w_bound _ _ _ W)|lia].
  - destruct (readers w !! r) as [it|] eqn:Hr.
    + destruct (step_detach _ _ _ _ _ W Hr) as (w' & E & P & _). eauto.
    + exists w, q. simpl. by rewrite Hr.
  - destruct (readers w !! r) as [it|] eqn:Hr.
    + destruct (step_read _ _ _ _ limit _ W Hr) as (w' & _ & _ & E & P & _). eauto.
    + exists w, q. simpl. by rewrite Hr.
  - destruct (user w !! k) as [p|] eqn:Hk.
    + destruct (step_release _ _ _ _ _ W Hk) as (w' & E & P & _). eauto.
    + exists w, q. simpl. by rewrite Hk.
  - eexists _, q. split; [done|]. split; [|by apply shape_kept].
    destruct W as [I R G Rd U B]. split; simpl; try done.
    + by destruct I.
    + intros p. etrans; [apply B|lia].
Qed.

Lemma run_snoc ops o w : run (ops ++ [o]) w = run ops w ≫= step o.
Proof. unfold run. by rewrite foldl_app. Qed.

(** Reachable worlds are good. *)
Lemma run_ok validity ops :
  Z.of_nat (length ops) < 2 ^ 32 ->
  exists w0 w q, init validity = Some w0 /\ run ops w0 = Some w /\ world_ok (length ops) w q.
Proof.
  induction ops as [|o ops IH] using rev_ind; intros Hlen.
  - destruct (init_ok validity) as (w & E & W). exists w, w, [0%nat]. done.
  - rewrite length_app in Hlen. simpl in Hlen.
    destruct IH as (w0 & w & q & E0 & E & W); [lia|].
    destruct (step_ok _ _ _ o W) as (w' & q' & E' & W' & _); [lia|].
    exists w0, w', q'. rewrite run_snoc, E. split_and!; try done.
    rewrite length_app, Nat.add_comm. done.
Qed.

(** The world reached by a history. *)
Definition history (validity : Z) (ops : list op) : option World := init validity ≫= run ops.

Lemma history_ok validity ops w :
  history validity ops = Some w -> Z.of_nat (length ops) < 2 ^ 32 ->
  world_ok (length ops) w (queue (wbuf w)).
Proof.
  intros H Hl. destruct (run_ok validity ops Hl) as (w0 & w' & q & E0 & E & W).
  unfold history in H. rewrite E0 in H. simpl in H. rewrite E in H. injection H as ->.
  by rewrite (queue_inv _ _ (w_inv _ _ _ W)).
Qed.

(** *** The queue as a list of data *)

Lemma inv_split b q : inv b q ->
  exists q0, q = q0 ++ [head b] /\ Forall (fun p => is_Some (data_at b p)) q0 /\ data_at b (head b) = None.
Proof.
  intros I. pose proof (i_head _ _ I) as Hl. apply last_Some in Hl as [q0 Hq]. exists q0.
  split; [done|]. split.
  - apply Forall_lookup. intros i p Hp.
    assert (q !! i = Some p) as Hi by (rewrite Hq; by apply lookup_app_l_Some).
    destruct (inv_at _ _ _ _ I Hi) as (e & He & _ & Hd). unfold data_at. rewrite He. simpl.
    apply not_eq_None_Some. rewrite Hd. apply not_eq_None_Some, lookup_lt_is_Some.
    rewrite Hq, length_app. apply lookup_lt_Some in Hp. simpl. lia.
  - assert (q !! length q0 = Some (head b)) as Hi by (rewrite Hq, lookup_app_r, Nat.sub_diag; done).
    destruct (inv_at _ _ _ _ I Hi) as (e & He & _ & Hd). unfold data_at. rewrite He. simpl.
    apply Hd. apply lookup_ge_None_2. rewrite Hq, length_app. simpl. lia.
Qed.

Lemma omap_all {X Y} (f : X -> option Y) l :
  Forall (fun x => is_Some (f x)) l -> Forall2 (fun x y => f x = Some y) l (omap f l).
Proof.
  induction 1 as [|x l [y Hy] _ IH]; [constructor|]. simpl. rewrite Hy. by constructor.
Qed.

(** The data of the queue, node by node; the head is the only node without. *)
Lemma contents_nodes b q : inv b q -> exists q0, q = q0 ++ [head b] /\
  Forall2 (fun p d => data_at b p = Some d) q0 (contents b).
Proof.
  intros I. destruct (inv_split _ _ I) as (q0 & Hq & HF & Hn). exists q0. split; [done|].
  unfold contents. rewrite (queue_inv _ _ I). rewrite Hq, omap_app. simpl. rewrite Hn, app_nil_r.
  by apply omap_all.
Qed.

Lemma omap_data_ext (f g : nat -> option (AbstractDataElement A)) (l : list nat) :
  (forall p, p ∈ l -> f p = g p) -> omap f l = omap g l.
Proof.
  induction l as [|x l IH]; intros H; [done|]. simpl. rewrite (H x) by set_solver.
  assert (omap f l = omap g l) as E by (apply IH; set_solver).
  unfold omap in E. by rewrite E.
Qed.

(** Destroying a good buffer frees every node, each once. *)
Lemma destroy_loop_spec q : forall fuel b p h,
  linked (heap b) (q ++ [h]) -> NoDup (q ++ [h]) -> (forall x, is_Some (heap b !! x) <-> x ∈ q ++ [h]) ->
  list.head (q ++ [h]) = Some p -> (length q < fuel)%nat ->
  wp (destroy_loop fuel p) (fun _ b' => dom (heap b') = {[ h ]} /\ head b' = head b) b.
Proof.
  induction q as [|x q IH]; intros fuel b p h L ND D Hp Hf; destruct fuel as [|fuel]; try lia;
    simpl in Hp; injection Hp as <-; cbn [destroy_loop]; wp_steps.
  - destruct (L 0%nat h eq_refl) as (e & He & Hn & _). eapply wp_deref; [exact He|].
    rewrite Hn. wp_steps. split; [|done]. apply set_eq. intros y.
    rewrite elem_of_dom, D. set_solver.
  - destruct (L 0%nat x eq_refl) as (e & He & Hn & _). eapply wp_deref; [exact He|].
    rewrite Hn. simpl in ND. apply NoDup_cons in ND as [Hx ND].
    destruct (list.head (q ++ [h])) as [n|] eqn:Hh; [|by destruct q].
    assert (((x :: q) ++ [h]) !! 1%nat = Some n) as -> by (destruct q; exact Hh).
    wp_steps. unfold deallocate. eapply wp_intro; [cbn; rewrite He; reflexivity|].
    eapply wp_mono; [apply (IH fuel _ n h); try done|]; [..|simpl in Hf; lia|]; simpl.
    + intros i y Hy. destruct (L (S i) y Hy) as (e' & He' & Hrest). exists e'.
      rewrite lookup_delete_ne; [done|]. intros ->. apply Hx. by eapply list_elem_of_lookup_2.
    + intros y. destruct (decide (y = x)) as [->|Hne].
      * rewrite lookup_delete_eq. split; [by intros [? ?]|done].
      * rewrite lookup_delete_ne by done. rewrite D. simpl. rewrite elem_of_cons. naive_solver.
    + done.
Qed.

Lemma wp_delete_CommonBuffer b q :
  inv b q -> wp delete_CommonBuffer (fun _ b' => heap b' = ∅) b.
Proof.
  intros I. destruct (inv_split _ _ I) as (q0 & Hq & _). unfold delete_CommonBuffer. wp_steps.
  eapply wp_mono; [apply (destroy_loop_spec q0 _ _ _ (head b))|].
  - rewrite <- Hq. apply (i_linked _ _ I).
  - rewrite <- Hq. apply (i_nodup _ _ I).
  - intros x. rewrite <- Hq. apply (i_dom _ _ I).
  - pose proof (i_tail _ _ I) as Ht. rewrite Hq in Ht. by destruct q0.
  - rewrite (inv_size _ _ I), Hq, length_app. simpl. lia.
  - intros [] b' [Hd Hh].
    assert (is_Some (heap b' !! head b)) as [e He] by (rewrite <- elem_of_dom, Hd; set_solver).
    unfold deallocate. eapply wp_intro; [cbn; rewrite He; reflexivity|]. simpl.
    apply (dom_empty_inv_L (D := gset nat)). rewrite dom_delete_L, Hd. set_solver.
Qed.

(** ** Theorems *)

(** [C9] Memory safety of the live-data cache: whatever the clock, every history of
    fewer than 2^32 operations of the writer, the garbage collector and the readers runs
    without touching a freed node; every smart pointer handed out and not deleted
    refers to a live node with data; reference counts are exact; and the element counter is
    the number of data in the queue. *)
Theorem history_never_faults validity ops :
  Z.of_nat (length ops) < 2 ^ 32 ->
  exists w, history validity ops = Some w /\
    (forall p, p ∈ user w -> is_Some (data_at (wbuf w) p)) /\
    (forall p e, heap (wbuf w) !! p = Some e ->
       referenceCount e = Z.of_nat (multiplicity p (all_held w))) /\
    elementiInCodaCorrenti (wbuf w) = u32 (Z.of_nat (length (contents (wbuf w)))).
Proof.
  intros Hl. destruct (run_ok validity ops Hl) as (w0 & w & q & E0 & E & W). exists w.
  split; [unfold history; by rewrite E0|]. pose proof (w_inv _ _ _ W) as I.
  destruct (contents_nodes _ _ I) as (q0 & Hq & HF). split_and!.
  - intros p Hp. destruct (w_user _ _ _ W _ Hp) as [Hpq Hne].
    assert (p ∈ q0) as [i Hi]%list_elem_of_lookup by set_solver.
    destruct (Forall2_lookup_l _ _ _ _ _ HF Hi) as (d & _ & ->). eauto.
  - intros p e He. rewrite (w_refs _ _ _ W _ _ He). apply uwrap_small.
    pose proof (w_bound _ _ _ W p). unfold in_u. lia.
  - rewrite (i_count _ _ I), Hq, length_app. apply (f_equal u32).
    apply Forall2_length in HF. simpl. lia.
Qed.

(** [C24] A smart pointer keeps its data: no operation, in particular no round of the
    garbage collector, changes the data of a node that is referred to before and after it. *)
Theorem held_data_stable validity ops w o w' p :
  history validity ops = Some w -> Z.of_nat (length ops) < 2 ^ 32 -> step o w = Some w' ->
  p ∈ user w -> p ∈ user w' ->
  is_Some (data_at (wbuf w) p) /\ data_at (wbuf w') p = data_at (wbuf w) p.
Proof.
  intros H Hl Hs Hp Hp'. pose proof (history_ok _ _ _ H Hl) as W.
  destruct (step_ok _ _ _ o W Hl) as (w2 & q' & E & W' & D). assert (w2 = w') as -> by congruence.
  destruct (w_user _ _ _ W _ Hp) as [Hq Hne]. destruct (w_user _ _ _ W' _ Hp') as [Hq' _].
  destruct (inv_live _ _ _ (w_inv _ _ _ W) Hq) as [e He].
  destruct (inv_live _ _ _ (w_inv _ _ _ W') Hq') as [e' He'].
  destruct (contents_nodes _ _ (w_inv _ _ _ W)) as (q0 & Hsp & HF). rewrite Hsp in Hq.
  assert (p ∈ q0) as [i Hi]%list_elem_of_lookup by set_solver.
  destruct (Forall2_lookup_l _ _ _ _ _ HF Hi) as (d & _ & Hd). rewrite Hd. split; [eauto|].
  unfold data_at in *. rewrite He in Hd. rewrite He'. simpl in *.
  destruct (D p e e' He He') as [-> _]; congruence.
Qed.

(** The writer appends: after [enqueue d] the queue holds the data it held, followed by
    [d], and the returned pointer refers to [d]. *)
Theorem enqueue_appends validity ops w d sp :
  history validity ops = Some w -> Z.of_nat (length ops) < 2 ^ 32 ->
  exists w', step (OEnqueue d sp) w = Some w' /\
    contents (wbuf w') = contents (wbuf w) ++ [d] /\
    (sp = true -> exists p, user w' = p :: user w /\ data_at (wbuf w') p = Some d).
Proof.
  intros H Hl. pose proof (history_ok _ _ _ H Hl) as W. set (q := queue (wbuf w)) in *.
  destruct (step_enqueue _ _ _ d sp W) as (w' & E & [W' _] & Hd & Hh & Hoth).
  pose proof (w_inv _ _ _ W) as I. exists w'. split; [done|].
  destruct (inv_split _ _ I) as (q0 & Hq & _ & Hn).
  destruct (inv_split _ _ (w_inv _ _ _ W')) as (q1 & Hq1 & _ & Hn1).
  assert (NoDup (q0 ++ [head (wbuf w)])) as ND by (rewrite <- Hq; apply (i_nodup _ _ I)).
  split.
  - unfold contents. rewrite (queue_inv _ _ (w_inv _ _ _ W')), (queue_inv _ _ I).
    rewrite Hq, !omap_app. simpl. rewrite Hd, Hn, app_nil_r, <- Hh, Hn1, app_nil_r. f_equal.
    apply omap_data_ext. intros p Hp. apply Hoth; [rewrite Hq; set_solver|]. intros ->.
    apply NoDup_app in ND as (_ & ND & _). apply (ND _ Hp). set_solver.
  - intros ->. exists (head (wbuf w)). split; [|done]. simpl in E.
    destruct (inv_head_live _ _ I) as [e He]. destruct (inv_fresh_none _ _ I) as [Hf _].
    rewrite (enqueue_run _ _ _ e) in E; [|done|congruence]. simpl in E. by injection E as <-.
Qed.

(** [C32] The collector is exact: it frees the nodes before the pivot that no smart pointer
    refers to, and no others; then it moves the pivot only over data that have timed
    out. *)
Theorem collect_frees_exactly validity ops w w' :
  history validity ops = Some w -> Z.of_nat (length ops) < 2 ^ 32 -> step OCollect w = Some w' ->
  exists old new between rest, queue (wbuf w) = old ++ pivot (wbuf w) :: rest /\
    queue (wbuf w') = filter (.∈ all_held w) old ++ pivot (wbuf w) :: rest /\
    pivot (wbuf w) :: rest = between ++ pivot (wbuf w') :: new /\
    Forall (fun p => exists t, valid_at (wbuf w) p (clock t) = false) between /\
    user w' = user w /\ readers w' = readers w.
Proof.
  intros H Hl Hs. pose proof (history_ok _ _ _ H Hl) as W.
  destruct (step_collect _ _ _ W Hl) as (old & rest & w2 & Hq & E & [W2 _] & Hu & Hr & P).
  assert (w2 = w') as -> by congruence.
  destruct P as (b1 & G & Sh & _ & _ & _ & i & i' & Hi & Hi' & Hle & Hv).
  rewrite (queue_inv _ _ (w_inv _ _ _ W2)). set (kept := filter _ old) in *.
  pose proof (i_nodup _ _ (w_inv _ _ _ W2)) as ND.
  assert (i = length kept) as ->.
  { eapply NoDup_lookup; [done|done|]. by rewrite lookup_app_r, Nat.sub_diag. }
  rewrite lookup_app_r in Hi' by lia. set (k := (i' - length kept)%nat) in *.
  exists old, (drop (S k) (pivot (wbuf w) :: rest)), (take k (pivot (wbuf w) :: rest)), rest.
  split_and!; try done.
  - by rewrite <- (drop_S _ _ _ Hi'), take_drop.
  - apply Forall_lookup. intros j p Hj. assert (j < k)%nat as Hjk.
    { apply lookup_lt_Some in Hj. rewrite length_take in Hj. lia. }
    rewrite lookup_take_lt in Hj by done.
    destruct (Hv (length kept + j)%nat p) as [t Ht]; [unfold k in *; lia| |].
    { rewrite lookup_app_r by lia. rewrite <- Hj. f_equal. lia. }
    exists t. unfold valid_at in *. destruct (heap b1 !! p) as [e1|] eqn:E1.
    + destruct (gc_heap _ _ G _ _ E1) as (e & He & Ec). rewrite He. unfold content in Ec.
      destruct e, e1. simpl in *. by simplify_eq.
    + exfalso. assert (p ∈ kept ++ pivot (wbuf w) :: rest) as Hp.
      { apply elem_of_app. right. by eapply list_elem_of_lookup_2. }
      apply (i_dom _ _ (w_inv _ _ _ W2)) in Hp as [x Hx]. pose proof (sh_heap _ _ Sh p) as Hsh.
      by rewrite E1, Hx in Hsh.
Qed.

(** A reader gets a contiguous slice of the queue: [bufferedReader] with a limit gives
    smart pointers to the data at consecutive positions, at most [limit] of them (a
    negative limit stands for [INT_MAX]), and the reader stops right after them; if the element it had stopped at has not timed out, the slice begins
    there and goes on to the end of the queue or to the limit. *)
Theorem read_gives_slice validity ops w r it limit :
  history validity ops = Some w -> Z.of_nat (length ops) < 2 ^ 32 -> readers w !! r = Some it ->
  exists w' sps it' i, step (ORead r limit) w = Some w' /\
    user w' = sps ++ user w /\ readers w' = <[r := it']> (readers w) /\
    queue (wbuf w') = queue (wbuf w) /\
    omap (data_at (wbuf w')) sps = take (length sps) (drop i (contents (wbuf w))) /\
    length (omap (data_at (wbuf w')) sps) = length sps /\
    Z.of_nat (length sps) <= read_limit limit /\
    stopAndResume it' = queue (wbuf w) !! (i + length sps)%nat /\
    (forall c, stopAndResume it = Some c -> valid_at (wbuf w) c (clock (tick (wbuf w))) = true ->
       queue (wbuf w) !! i = Some c /\
       Z.of_nat (length sps) =
         Z.min (read_limit limit) (Z.of_nat (length (contents (wbuf w))) - Z.of_nat i)).
Proof.
  intros H Hl Hr. pose proof (history_ok _ _ _ H Hl) as W. set (q := queue (wbuf w)) in *.
  destruct (step_read _ _ _ _ limit _ W Hr) as (w' & sps & it' & E & [W' _] & Hu & Hrd & P).
  destruct P as (_ & Hlim & F & I' & _ & i & c & Hsps & Hc & _ & Hst & Hres).
  exists w', sps, it', i. pose proof (w_inv _ _ _ W) as I.
  destruct (contents_nodes _ _ I) as (q0 & Hq & HF). fold q in Hq.
  assert (length (contents (wbuf w)) = length q0) as Hlen by (symmetry; by eapply Forall2_length).
  assert (sps = take (length sps) (drop i q0)) as Hsps0.
  { rewrite Hsps at 1. rewrite Hq. apply lookup_lt_Some in Hc. rewrite Hq, length_app in Hc. simpl in Hc.
    rewrite drop_app_le by lia. rewrite take_app_le; [done|]. rewrite length_drop. lia. }
  assert (Forall2 (fun p d => data_at (wbuf w') p = Some d) sps
    (take (length sps) (drop i (contents (wbuf w))))) as HF'.
  { rewrite Hsps0 at 1. apply Forall2_take, Forall2_drop. eapply Forall2_impl; [exact HF|].
    intros p d Hd. rewrite <- Hd. unfold data_at. pose proof (fr_heap _ _ F p) as E1.
    destruct (heap (wbuf w') !! p), (heap (wbuf w) !! p); try done. simpl in *.
    apply (inj Some) in E1. unfold eshape in E1. congruence. }
  assert (omap (data_at (wbuf w')) sps = take (length sps) (drop i (contents (wbuf w)))) as Hom.
  { clear -HF'. induction HF' as [|p d ps ds Hd _ IH]; [done|]. simpl. rewrite Hd. by f_equal. }
  split_and!; auto.
  - by rewrite (queue_inv _ _ I').
  - rewrite Hom. symmetry. by eapply Forall2_length.
  - congruence.
  - intros c0 Hc0 Hv. destruct (Hres _ Hc0 Hv) as [Hi Hk]. split; [done|].
    rewrite Hk, Hlen, Hq, length_app. simpl. f_equal. lia.
Qed.

(** The destructor of the buffer frees every node exactly once: it never frees a
    node twice or follows a freed one, and no node is left. *)
Theorem destructor_frees_all validity ops w :
  history validity ops = Some w -> Z.of_nat (length ops) < 2 ^ 32 ->
  exists b', delete_CommonBuffer (wbuf w) = Some (tt, b') /\ heap b' = ∅.
Proof.
  intros H Hl. pose proof (w_inv _ _ _ (history_ok _ _ _ H Hl)) as I.
  destruct (wp_elim _ _ _ (wp_delete_CommonBuffer _ _ I)) as ([] & b' & E & Hh). eauto.
Qed.

End Specs.

(** ** Witnesses

    A clock of 10 milliseconds per reading, data with validity 5, one reader. *)
Definition demo_clock (n : nat) : Z := 10 * Z.of_nat n.
Definition demo_ops : list (op (A := Z)) :=
  [OEnqueue (mkData 1 100) true; OAttach; OEnqueue (mkData 40 200) false;
   OEnqueue (mkData 90 300) false; ORead 0 2; ORelease 0; OCollect].
Definition the_world (o : option (World (A := Z))) : World :=
  default (mkWorld (new_CommonBuffer 0) new_Iterator [] []) o.
Definition demo : World := the_world (history demo_clock 5 demo_ops).

Lemma history_never_faults_witness :
  exists w, history demo_clock 5 demo_ops = Some w /\
    elementiInCodaCorrenti (wbuf w) = u32 (Z.of_nat (length (contents (wbuf w)))).
Proof.
  destruct (history_never_faults demo_clock 5 demo_ops) as (w & E & _ & _ & Hc).
  - vm_compute. reflexivity.
  - exists w. split; [exact E|exact Hc].
Defined.

Lemma held_data_stable_witness :
  data_at (wbuf (the_world (step demo_clock OCollect demo))) 0 = data_at (wbuf demo) 0.
Proof.
  apply (held_data_stable demo_clock 5 demo_ops demo OCollect).
  - vm_compute. reflexivity.
  - vm_compute. reflexivity.
  - vm_compute. reflexivity.
  - vm_compute. repeat constructor.
  - vm_compute. repeat constructor.
Defined.

Lemma enqueue_appends_witness :
  exists w', step demo_clock (OEnqueue (mkData 95 400) true) demo = Some w' /\
    contents (wbuf w') = contents (wbuf demo) ++ [mkData 95 400].
Proof.
  destruct (enqueue_appends demo_clock 5 demo_ops demo (mkData 95 400) true) as (w' & E & Hc & _).
  - vm_compute. reflexivity.
  - vm_compute. reflexivity.
  - exists w'. split; [exact E|exact Hc].
Defined.

Lemma collect_frees_exactly_witness :
  exists old rest, queue (wbuf demo) = old ++ pivot (wbuf demo) :: rest /\
    queue (wbuf (the_world (step demo_clock OCollect demo)))
    = filter (.∈ all_held demo) old ++ pivot (wbuf demo) :: rest.
Proof.
  destruct (collect_frees_exactly demo_clock 5 demo_ops demo
    (the_world (step demo_clock OCollect demo))) as (old & new & btw & rest & H1 & H2 & _).
  - vm_compute. reflexivity.
  - vm_compute. reflexivity.
  - vm_compute. reflexivity.
  - exists old, rest. split; [exact H1|exact H2].
Defined.

Lemma read_gives_slice_witness :
  exists w' sps, step demo_clock (ORead 0 1) demo = Some w' /\ user w' = sps ++ user demo.
Proof.
  destruct (read_gives_slice demo_clock 5 demo_ops demo 0 (nth 0 (readers demo) new_Iterator) 1)
    as (w' & sps & it' & i & E & Hu & _).
  - vm_compute. reflexivity.
  - vm_compute. reflexivity.
  - vm_compute. reflexivity.
  - exists w', sps. split; [exact E|exact Hu].
Defined.

Lemma destructor_frees_all_witness :
  exists b', delete_CommonBuffer (wbuf demo) = Some (tt, b') /\ heap b' = ∅.
Proof.
  apply (destructor_frees_all demo_clock 5 demo_ops demo).
  - vm_compute. reflexivity.
  - vm_compute. reflexivity.
Defined.
