(* ===== verification/BufBuilder.v ===== *)
(** * The growing byte buffer of the BSON builders: [BufBuilder]

    Models [_BufBuilder] of [chaos/common/bson/util/builder.h] with the allocator on the
    heap.  The buffer is a block of bytes or null; bytes that were never written have an
    arbitrary value [junk].  Lengths are [int]s, and an overflow of them is a [Fault], as is
    a store outside of the block.  Allocations succeed. *)

From S2P Require Import Prelude.

Local Open Scope Z_scope.

Definition BufferMaxSize : Z := 64 * 1024 * 1024.
Definition BSONObjMaxUserSize : Z := 16 * 1024 * 1024.
Definition BSONObjMaxInternalSize : Z := BSONObjMaxUserSize + 16 * 1024.

(** An [int] result; signed overflow is undefined. *)
Definition int_of (z : Z) : outcome Z :=
  if decide (in_s 32 z) then Ret z else Fault.

Module Buf.

(** [class _BufBuilder] *)
Record BufBuilder := mkBB { data : option (list Z); l : Z; size : Z }.

(** [int a = 64; while (a < newLen) a = a * 2;] *)
Fixpoint grow_size (fuel : nat) (a newLen : Z) : outcome Z :=
  if a <? newLen then
    match fuel with
    | O => Fault
    | S fuel => a2 ← int_of (a * 2); grow_size fuel a2 newLen
    end
  else Ret a.

Section Builder.
Context (junk : Z).

Definition new_BufBuilder (initsize : Z) : BufBuilder :=
  mkBB (if 0 <? initsize then Some (replicate (Z.to_nat initsize) junk) else None) 0 initsize.

(** [realloc]: the old bytes up to the new size, then new bytes. *)
Definition Realloc (p : option (list Z)) (sz : Z) : list Z :=
  let old := take (Z.to_nat sz) (default [] p) in
  old ++ replicate (Z.to_nat sz - length old) junk.

Definition grow_reallocate (newLen : Z) (b : BufBuilder) : outcome BufBuilder :=
  a ← grow_size 32 64 newLen;
  check 13548 (negb (BufferMaxSize <? a));;
  mret (mkBB (Some (Realloc (data b) a)) (l b) a).

(** [grow]: gives the offset of the room made. *)
Definition grow (n : Z) (b : BufBuilder) : outcome (Z * BufBuilder) :=
  let oldlen := l b in
  newLen ← int_of (l b + n);
  b ← (if size b <? newLen then grow_reallocate newLen b else mret b);
  mret (oldlen, mkBB (data b) newLen (size b)).

Definition skip (n : Z) (b : BufBuilder) : outcome BufBuilder :=
  '(_, b) ← grow n b; mret b.

(** A store of bytes at an offset of the block. *)
Definition store_at (off : Z) (bs : list Z) (b : BufBuilder) : outcome BufBuilder :=
  d ← access (data b);
  if off <? 0 then Fault
  else d ← access (buf_write d (Z.to_nat off) bs); mret (mkBB (Some d) (l b) (size b)).

(** The stores through the pointer [grow] gives: [appendNum] of the various types and
    [appendBuf]; [n] is the argument of [grow]. *)
Definition append_raw (n : Z) (bs : list Z) (b : BufBuilder) : outcome BufBuilder :=
  '(off, b) ← grow n b; store_at off bs b.

Definition appendUChar (j : Z) : BufBuilder -> outcome BufBuilder := append_raw 1 (le_bytes 1 j).
Definition appendChar (j : Z) : BufBuilder -> outcome BufBuilder := append_raw 1 (le_bytes 1 j).
Definition appendNum_char (j : Z) : BufBuilder -> outcome BufBuilder := append_raw 1 (le_bytes 1 j).
Definition appendNum_short (j : Z) : BufBuilder -> outcome BufBuilder := append_raw 2 (le_bytes 2 j).
Definition appendNum_int (j : Z) : BufBuilder -> outcome BufBuilder := append_raw 4 (le_bytes 4 j).
Definition appendNum_unsigned (j : Z) : BufBuilder -> outcome BufBuilder := append_raw 4 (le_bytes 4 j).
Definition appendNum_bool (j : bool) : BufBuilder -> outcome BufBuilder :=
  append_raw 1 [if j then 1 else 0].
(** A [double] is its 64-bit representation. *)
Definition appendNum_double (j : Z) : BufBuilder -> outcome BufBuilder := append_raw 8 (le_bytes 8 j).
Definition appendNum_ll (j : Z) : BufBuilder -> outcome BufBuilder := append_raw 8 (le_bytes 8 j).
Definition appendNum_ull (j : Z) : BufBuilder -> outcome BufBuilder := append_raw 8 (le_bytes 8 j).

Definition appendBuf (src : list Z) : BufBuilder -> outcome BufBuilder :=
  append_raw (s32 (Z.of_nat (length src))) src.

Definition appendStr (str : list Z) (includeEndingNull : bool) (b : BufBuilder) : outcome BufBuilder :=
  append_raw (s32 (Z.of_nat (length str) + (if includeEndingNull then 1 else 0))) (str ++ (if includeEndingNull then [0] else [])) b.

Definition len (b : BufBuilder) : Z := l b.
Definition setlen (newLen : Z) (b : BufBuilder) : BufBuilder := mkBB (data b) newLen (size b).
Definition getSize (b : BufBuilder) : Z := size b.
Definition decouple (b : BufBuilder) : BufBuilder := mkBB None (l b) (size b).
Definition kill (b : BufBuilder) : BufBuilder := mkBB None (l b) (size b).
Definition reset (b : BufBuilder) : BufBuilder := mkBB (data b) 0 (size b).
Definition reset_max (maxSize : Z) (b : BufBuilder) : BufBuilder :=
  if (negb (maxSize =? 0) && (maxSize <? size b))%bool
  then mkBB (Some (replicate (Z.to_nat maxSize) junk)) 0 maxSize
  else mkBB (data b) 0 (size b).

(** ** What the buffer holds *)

(** The bytes appended so far. *)
Definition content (b : BufBuilder) : list Z := take (Z.to_nat (l b)) (default [] (data b)).

(** The invariant: a block of [size] bytes, of which [l] are in use. *)
Record wf (b : BufBuilder) : Prop := {
  wf_l : 0 <= l b <= size b;
  wf_data : Z.of_nat (length (default [] (data b))) = size b;
  wf_some : 0 < size b -> is_Some (data b);
  wf_size : size b < 2 ^ 30 }.

Lemma content_length b : wf b -> Z.of_nat (length (content b)) = l b.
Proof. intros [? ? _ _]. unfold content. rewrite length_take. lia. Qed.

(** The growth loop gives the least power of two from 64 on that is enough. *)
Lemma grow_size_spec fuel a newLen :
  0 < a <= 2 ^ 30 -> newLen <= 2 ^ 30 -> (exists k, 2 ^ 30 = a * 2 ^ Z.of_nat k /\ (k <= fuel)%nat) ->
  exists a', grow_size fuel a newLen = Ret a' /\ newLen <= a' <= 2 ^ 30 /\ a <= a' /\
    (a' = a \/ a' < 2 * newLen) /\ exists j, a' = a * 2 ^ Z.of_nat j.
Proof.
  revert a. induction fuel as [|fuel IH]; intros a Ha Hn (k & Hk & Hkf); simpl;
    destruct (a <? newLen) eqn:E; reflect_bool.
  - assert (k = 0%nat) as -> by lia. simpl in Hk. lia.
  - exists a. split_and!; auto; try lia. exists 0%nat. simpl. lia.
  - assert (k <> 0%nat) by (intros ->; simpl in Hk; lia).
    destruct k as [|k]; [lia|]. rewrite Nat2Z.inj_succ, Z.pow_succ_r in Hk by lia.
    assert (1 <= 2 ^ Z.of_nat k) by (apply (Z.pow_le_mono_r 2 0); lia).
    assert (a * 2 <= 2 ^ 30) by nia.
    unfold int_of. rewrite decide_True by (unfold in_s; lia). simpl.
    destruct (IH (a * 2)) as (a' & -> & Hb1 & Hb2 & Hb3 & j & Hj); [lia|lia|exists k; split; [nia|lia]|].
    exists a'. split_and!; auto; try lia. exists (S j).
    rewrite Nat2Z.inj_succ, Z.pow_succ_r by lia. nia.
  - exists a. split_and!; auto; try lia. exists 0%nat. simpl. lia.
Qed.

Lemma pow2_le_of_lt (j : nat) : 64 * 2 ^ Z.of_nat j < 2 ^ 27 -> 64 * 2 ^ Z.of_nat j <= 2 ^ 26.
Proof.
  intros H. destruct (decide (j <= 20)%nat) as [Hj|Hj].
  - assert (2 ^ Z.of_nat j <= 2 ^ 20) by (apply Z.pow_le_mono_r; lia). lia.
  - assert (2 ^ 21 <= 2 ^ Z.of_nat j) by (apply Z.pow_le_mono_r; lia). lia.
Qed.

Lemma Realloc_spec p sz :
  Z.of_nat (length (default [] p)) <= sz ->
  Z.of_nat (length (Realloc p sz)) = sz /\ take (length (default [] p)) (Realloc p sz) = default [] p.
Proof.
  intros H. unfold Realloc. rewrite (take_ge (default [] p)) by lia. split.
  - rewrite length_app, length_replicate. lia.
  - by rewrite take_app_length.
Qed.

(** Making room: within 64 MB the contents are kept; beyond it the builder throws. *)
Lemma grow_spec n b :
  wf b -> 0 <= n -> l b + n <= BufferMaxSize ->
  exists b', grow n b = Ret (l b, b') /\ wf b' /\ l b' = l b + n /\
    take (Z.to_nat (l b)) (default [] (data b')) = content b.
Proof.
  intros W Hn Hmax. destruct W as [Wl Wd Ws Wz]. unfold BufferMaxSize in *. unfold grow.
  unfold int_of. rewrite decide_True by (unfold in_s; lia). simpl.
  destruct (size b <? l b + n) eqn:E; reflect_bool.
  - unfold grow_reallocate.
    destruct (grow_size_spec 32 64 (l b + n)) as (a & -> & Ha & Ha2 & Ha3 & j & Hj);
      [lia|lia|exists 24%nat; split; [reflexivity|lia]|].
    assert (a <= 2 ^ 26) as Ha26.
    { destruct Ha3 as [->|Ha3]; [lia|]. rewrite Hj. apply pow2_le_of_lt. lia. }
    simpl. assert (BufferMaxSize <? a = false) as -> by (apply Z.ltb_ge; unfold BufferMaxSize; lia).
    simpl. eexists. split; [done|]. simpl.
    destruct (Realloc_spec (data b) a) as [Hr1 Hr2]; [lia|].
    split_and!; [|done|].
    + split; simpl; [lia|done|by eauto|lia].
    + unfold content. rewrite <- Hr2, take_take. f_equal. lia.
  - simpl. eexists. split; [done|]. simpl. split_and!; [|done|done].
    split; simpl; [lia|done|done|lia].
Qed.

Lemma grow_too_big n b :
  wf b -> BufferMaxSize < l b + n -> size b < l b + n -> l b + n <= 2 ^ 30 -> grow n b = Throw 13548.
Proof.
  intros [Wl Wd Ws Wz] Hbig Hsz Hmax. unfold BufferMaxSize in *. unfold grow, int_of.
  rewrite decide_True by (unfold in_s; lia). simpl.
  assert (size b <? l b + n = true) as -> by (apply Z.ltb_lt; lia).
  unfold grow_reallocate.
  destruct (grow_size_spec 32 64 (l b + n)) as (a & -> & Ha & _); [lia|lia|exists 24%nat; split; [reflexivity|lia]|].
  simpl. assert (BufferMaxSize <? a = true) as -> by (apply Z.ltb_lt; unfold BufferMaxSize; lia). done.
Qed.

Lemma grow_some n b b' off : grow n b = Ret (off, b') -> is_Some (data b) -> is_Some (data b').
Proof.
  unfold grow, grow_reallocate. intros H Hs.
  apply outcome_bind_inv in H as (nl & _ & H). apply outcome_bind_inv in H as (b1 & Hb1 & H).
  injection H as _ <-. simpl. destruct (size b <? nl).
  - apply outcome_bind_inv in Hb1 as (a & _ & Hb1). apply outcome_bind_inv in Hb1 as (u & _ & Hb1).
    injection Hb1 as <-. simpl. eauto.
  - by injection Hb1 as <-.
Qed.

(** Appending bytes appends them to the contents. *)
Lemma append_raw_spec bs b :
  wf b -> l b + Z.of_nat (length bs) <= BufferMaxSize -> bs <> [] \/ is_Some (data b) ->
  exists b', append_raw (Z.of_nat (length bs)) bs b = Ret b' /\ wf b' /\ is_Some (data b') /\
    l b' = l b + Z.of_nat (length bs) /\ content b' = content b ++ bs.
Proof.
  intros W Hmax Hne. destruct (grow_spec (Z.of_nat (length bs)) b W) as (b1 & Hg & W1 & Hl1 & Hc1); [lia|done|].
  unfold append_raw. rewrite Hg. simpl. unfold store_at.
  pose proof (wf_l _ W) as Hl. pose proof (wf_l _ W1) as Hl1'. pose proof (wf_data _ W1) as Hd1.
  assert (is_Some (data b1)) as [d Hd].
  { destruct Hne as [Hne|Hs]; [|by eapply grow_some].
    apply (wf_some _ W1). destruct bs; simpl in *; [done|lia]. }
  rewrite Hd in *. simpl in *.
  assert (l b <? 0 = false) as -> by (apply Z.ltb_ge; lia).
  destruct (buf_write_ok d (Z.to_nat (l b)) bs) as [d' Hw]; [lia|]. rewrite Hw. simpl.
  eexists. split; [done|]. pose proof (buf_write_length _ _ _ _ Hw) as Hlen. simpl. split_and!; [|by eauto|done|].
  - split; simpl; [done|lia|by eauto|apply (wf_size _ W1)].
  - apply buf_write_Some in Hw as [Hb ->]. unfold content at 1. simpl. rewrite Hc1, app_assoc.
    rewrite take_app_le.
    + apply take_ge. rewrite length_app. pose proof (content_length _ W). lia.
    + rewrite length_app. pose proof (content_length _ W). lia.
Qed.

Lemma new_BufBuilder_wf initsize :
  0 <= initsize < 2 ^ 30 -> wf (new_BufBuilder initsize) /\ content (new_BufBuilder initsize) = [].
Proof.
  intros H. unfold new_BufBuilder. split; [|done]. split; simpl; [lia| | |lia].
  - destruct (0 <? initsize) eqn:E; reflect_bool; simpl; [rewrite length_replicate|]; lia.
  - intros Hp. assert (0 <? initsize = true) as -> by (apply Z.ltb_lt; lia). eauto.
Qed.

(** *** Composing appends *)

(** A builder that holds a block. *)
Definition ready (b : BufBuilder) : Prop := wf b /\ is_Some (data b).

(** [f] appends the bytes [bs], when they fit. *)
Definition appends (f : BufBuilder -> outcome BufBuilder) (bs : list Z) : Prop :=
  forall b, ready b -> l b + Z.of_nat (length bs) <= BufferMaxSize ->
    exists b', f b = Ret b' /\ ready b' /\ l b' = l b + Z.of_nat (length bs) /\ content b' = content b ++ bs.

Lemma appends_raw n bs : n = Z.of_nat (length bs) -> appends (append_raw n bs) bs.
Proof.
  intros -> b [W S] Hm. destruct (append_raw_spec bs b W Hm) as (b' & E & W' & S' & Hl & Hc); [by right|].
  exists b'. by split_and!.
Qed.

Lemma appends_seq f g bs cs :
  appends f bs -> appends g cs -> appends (fun b => b ← f b; g b) (bs ++ cs).
Proof.
  intros Hf Hg b R Hm. rewrite length_app in Hm.
  destruct (Hf b R) as (b1 & E1 & R1 & L1 & C1); [lia|].
  destruct (Hg b1 R1) as (b2 & E2 & R2 & L2 & C2); [lia|].
  exists b2. rewrite E1. simpl_out. split_and!; [done|done|rewrite length_app; lia|by rewrite C2, C1, app_assoc].
Qed.

Lemma appends_ext f bs cs : appends f bs -> bs = cs -> appends f cs.
Proof. by intros H <-. Qed.

Lemma appends_num n k z : n = Z.of_nat k -> appends (append_raw n (le_bytes k z)) (le_bytes k z).
Proof. intros ->. apply appends_raw. by rewrite le_bytes_length. Qed.

Lemma appends_buf bs : Z.of_nat (length bs) < 2 ^ 31 -> appends (appendBuf bs) bs.
Proof. intros H. apply appends_raw. apply swrap_small; [lia|unfold in_s; lia]. Qed.

Lemma appends_str s : Z.of_nat (length s) < 2 ^ 31 - 1 -> appends (appendStr s true) (s ++ [0]).
Proof.
  intros H. apply appends_raw. rewrite length_app. cbn [length].
  rewrite swrap_small by (lia || (unfold in_s; lia)). lia.
Qed.

(** A store into the bytes in use. *)
Lemma store_at_spec off bs b :
  ready b -> 0 <= off -> off + Z.of_nat (length bs) <= l b ->
  exists d, store_at off bs b = Ret (mkBB (Some d) (l b) (size b)) /\ ready (mkBB (Some d) (l b) (size b)) /\
    content (mkBB (Some d) (l b) (size b)) =
      take (Z.to_nat off) (content b) ++ bs ++ drop (Z.to_nat off + length bs) (content b).
Proof.
  intros [[Wl Wd Ws Wz] [d Hd]] Ho Hl. unfold store_at. rewrite Hd in *. simpl_out. simpl in *.
  rewrite (proj2 (Z.ltb_ge _ _)) by lia.
  destruct (buf_write_ok d (Z.to_nat off) bs) as [d' Hw]; [lia|]. rewrite Hw. simpl. exists d'.
  pose proof (buf_write_length _ _ _ _ Hw) as HL. split; [done|]. split.
  - split; [|by eauto]. split; simpl; [lia|lia|by eauto|lia].
  - apply buf_write_Some in Hw as [_ ->]. unfold content. rewrite Hd. simpl.
    rewrite take_app_ge by (rewrite length_take; lia). rewrite length_take_le by lia.
    rewrite take_app_ge by lia. rewrite take_take, Nat.min_l by lia.
    rewrite skipn_firstn_comm. do 3 f_equal. lia.
Qed.

(** The memory of a builder starts with its contents. *)
Lemma content_prefix b d : wf b -> data b = Some d -> exists r, d = content b ++ r.
Proof.
  intros _ Hd. exists (drop (Z.to_nat (l b)) d). unfold content. rewrite Hd. simpl. by rewrite take_drop.
Qed.

(** Beyond 2^30 the doubling overflows before the limit is tested. *)
Lemma grow_size_overflow k : forall fuel a newLen,
  a * 2 ^ Z.of_nat k = 2 ^ 30 -> 0 < a -> 2 ^ 30 < newLen -> (k < fuel)%nat ->
  grow_size fuel a newLen = Fault.
Proof.
  induction k as [|k IH]; intros fuel a newLen Ha Hpos Hn Hf; destruct fuel as [|fuel]; try lia; simpl;
    [|rewrite Nat2Z.inj_succ, Z.pow_succ_r in Ha by lia].
  - assert (a <? newLen = true) as -> by (apply Z.ltb_lt; lia).
    unfold int_of. rewrite decide_False by (unfold in_s; lia). done.
  - assert (1 <= 2 ^ Z.of_nat k) by (apply (Z.pow_le_mono_r 2 0); lia).
    assert (a <? newLen = true) as -> by (apply Z.ltb_lt; nia).
    unfold int_of. rewrite decide_True by (unfold in_s; nia). simpl. apply IH; nia || lia.
Qed.

(** Appending a non-empty block to a well-formed builder: up to 64 MB the block is added
    to the contents and the builder stays well-formed; up to 2^30 bytes, when the
    buffer has to grow, the builder throws 13548; beyond 2^30 the computation of the
    new size overflows an [int] before the limit is tested. *)
Theorem appendBuf_spec bs b :
  wf b -> bs <> [] -> Z.of_nat (length bs) < 2 ^ 30 ->
  let total := l b + Z.of_nat (length bs) in
  (total <= BufferMaxSize ->
     exists b', appendBuf bs b = Ret b' /\ wf b' /\ content b' = content b ++ bs) /\
  (BufferMaxSize < total <= 2 ^ 30 -> size b < total -> appendBuf bs b = Throw 13548) /\
  (2 ^ 30 < total -> appendBuf bs b = Fault).
Proof.
  intros W Hne Hlen total. pose proof (wf_l _ W). pose proof (wf_size _ W).
  unfold appendBuf. rewrite swrap_small by (unfold in_s; lia). split_and!.
  - intros Ht. destruct (append_raw_spec bs b W Ht) as (b' & ? & ? & _ & _ & ?); eauto.
  - intros [Ht1 Ht2] Hsz. unfold append_raw. by rewrite grow_too_big.
  - intros Ht. unfold append_raw, grow, int_of. rewrite decide_True by (unfold in_s; unfold total in *; lia).
    simpl. assert (size b <? l b + Z.of_nat (length bs) = true) as -> by (apply Z.ltb_lt; unfold total in *; lia).
    unfold grow_reallocate. rewrite (grow_size_overflow 24); [done|reflexivity|lia|done|lia].
Qed.

End Builder.

Lemma appendBuf_spec_witness :
  exists b', appendBuf 0 [1; 2; 3] (new_BufBuilder 0 2) = Ret b' /\ content b' = [1; 2; 3].
Proof.
  destruct (new_BufBuilder_wf 0 2) as [W Hc]; [lia|].
  destruct (appendBuf_spec 0 [1; 2; 3] (new_BufBuilder 0 2) W) as [H _]; [discriminate|reflexivity|].
  destruct H as (b' & E & _ & C); [vm_compute; discriminate|].
  exists b'. split; [exact E|]. rewrite C, Hc. reflexivity.
Defined.

End Buf.
