(* ===== verification/Bson.v ===== *)
(** * Reading BSON: elements, objects and their iteration

    Models the reading half of the BSON library the framework builds into
    [chaos/common/bson]: the type codes ([bsontypes.h]), [BSONElement]
    ([bsonelement.h], [bson-inl.h]), [BSONObj] ([bsonobj.h], [bson-inl.h]) and
    [BSONObjIterator] ([bsonobjiterator.h]).  A [char] pointer is the list of the bytes
    from it to the end of the memory block; a load past the end is a [Fault], as is a
    loop that does not end.  The sizes an element caches are functions of its bytes and
    are recomputed.  Exceptions carry the number of the assertion ([verify]: 0). *)

From S2P Require Import Prelude BufBuilder.

Local Open Scope Z_scope.

(** ** [bsontypes.h] *)

Definition MinKey : Z := -1.
Definition EOO : Z := 0.
Definition NumberDouble : Z := 1.
Definition String : Z := 2.
Definition Object : Z := 3.
Definition Array : Z := 4.
Definition BinData : Z := 5.
Definition Undefined : Z := 6.
Definition jstOID : Z := 7.
Definition Bool : Z := 8.
Definition Date : Z := 9.
Definition jstNULL : Z := 10.
Definition RegEx : Z := 11.
Definition DBRef : Z := 12.
Definition Code : Z := 13.
Definition Symbol : Z := 14.
Definition CodeWScope : Z := 15.
Definition NumberInt : Z := 16.
Definition Timestamp : Z := 17.
Definition NumberLong : Z := 18.
Definition MaxKey : Z := 127.

Definition one_of (t : Z) (ts : list Z) : bool := bool_decide (t ∈ ts).

Definition canonicalizeBSONType (type : Z) : Z :=
  if one_of type [MinKey; MaxKey] then type
  else if one_of type [EOO; Undefined] then 0
  else if type =? jstNULL then 5
  else if one_of type [NumberDouble; NumberInt; NumberLong] then 10
  else if one_of type [String; Symbol] then 15
  else if type =? Object then 20
  else if type =? Array then 25
  else if type =? BinData then 30
  else if type =? jstOID then 35
  else if type =? Bool then 40
  else if one_of type [Date; Timestamp] then 45
  else if type =? RegEx then 50
  else if type =? DBRef then 55
  else if type =? Code then 60
  else if type =? CodeWScope then 65
  else -1.

(** ** Loads through a pointer *)

Definition load_byte (p : list Z) : outcome Z := access (p !! 0%nat).
Definition load_le (n : nat) (p : list Z) : outcome Z := access (le_val <$> buf_read p 0 n).
Definition load_int (p : list Z) : outcome Z := v ← load_le 4 p; mret (s32 v).

(** [strlen]: it faults when no terminator follows. *)
Fixpoint strlen (p : list Z) : outcome Z :=
  match p with
  | [] => Fault
  | b :: p => if b =? 0 then Ret 0 else n ← strlen p; Ret (n + 1)
  end.

(** The bytes of the C string at [p]. *)
Definition c_str (p : list Z) : outcome (list Z) := n ← strlen p; mret (take (Z.to_nat n) p).

(** Pointer arithmetic; a pointer before the block is invalid. *)
Definition advance (n : Z) (p : list Z) : outcome (list Z) :=
  if n <? 0 then Fault else Ret (drop (Z.to_nat n) p).

(** ** [BSONElement] *)

Section Element.

(** A [BSONElement] is the pointer to its first byte. *)
Definition BSONElement := list Z.

Definition eoo_element : BSONElement := [0].

Definition type (e : BSONElement) : outcome Z := b ← load_byte e; mret (s8 b).
Definition eoo (e : BSONElement) : outcome bool := t ← type e; mret (t =? EOO).
Definition canonicalType (e : BSONElement) : outcome Z := t ← type e; mret (canonicalizeBSONType t).

Definition fieldName (e : BSONElement) : outcome (list Z) :=
  b ← eoo e; if (b : bool) then mret [0] else mret (drop 1 e).

(** With the terminator; 0 for the end of the object. *)
Definition fieldNameSize (e : BSONElement) : outcome Z :=
  b ← eoo e;
  if (b : bool) then mret 0 else n ← fieldName e; k ← strlen n; mret (s32 k + 1).

Definition value (e : BSONElement) : outcome (list Z) :=
  n ← fieldNameSize e; advance (n + 1) e.

Definition valuestrsize (e : BSONElement) : outcome Z := v ← value e; load_int v.
(** A [uint32_t] as [size_t]. *)
Definition objsize_elem (e : BSONElement) : outcome Z := v ← value e; load_le 4 v.

(** The size of a value of a type, the [switch] of [size()]. *)
Definition value_size (e : BSONElement) (t : Z) : outcome Z :=
  if one_of t [EOO; Undefined; jstNULL; MaxKey; MinKey] then Ret 0
  else if t =? Bool then Ret 1
  else if t =? NumberInt then Ret 4
  else if one_of t [Timestamp; Date; NumberDouble; NumberLong] then Ret 8
  else if t =? jstOID then Ret 12
  else if one_of t [Symbol; Code; String] then n ← valuestrsize e; int_of (n + 4)
  else if t =? DBRef then n ← valuestrsize e; int_of (n + 4 + 12)
  else if one_of t [CodeWScope; Object; Array] then n ← objsize_elem e; mret (s32 n)
  else if t =? BinData then n ← valuestrsize e; int_of (n + 4 + 1)
  else if t =? RegEx then
    p ← value e;
    len1 ← strlen p;
    p2 ← advance (len1 + 1) p;
    len2 ← strlen p2;
    mret (s32 (len1 + 1 + len2 + 1))
  else Throw 10320.

Definition size (e : BSONElement) : outcome Z :=
  b ← eoo e;
  if (b : bool) then mret 1
  else
    t ← type e;
    x ← value_size e t;
    n ← fieldNameSize e;
    int_of (x + n + 1).

Definition valuesize (e : BSONElement) : outcome Z :=
  s ← size e; n ← fieldNameSize e; int_of (s - n - 1).

Definition isBoolean (e : BSONElement) : outcome bool := t ← type e; mret (t =? Bool).
Definition boolean (e : BSONElement) : outcome bool :=
  v ← value e; b ← load_byte v; mret (negb (b =? 0)).
Definition booleanSafe (e : BSONElement) : outcome bool :=
  b ← isBoolean e; if (b : bool) then boolean e else mret false.
Definition date (e : BSONElement) : outcome Z := v ← value e; load_le 8 v.
(** The bits of the [double]. *)
Definition _numberDouble (e : BSONElement) : outcome Z := v ← value e; load_le 8 v.
Definition _numberInt (e : BSONElement) : outcome Z := v ← value e; load_int v.
Definition _numberLong (e : BSONElement) : outcome Z := v ← value e; n ← load_le 8 v; mret (s64 n).
Definition isNull (e : BSONElement) : outcome bool := t ← type e; mret (t =? jstNULL).
Definition isNumber (e : BSONElement) : outcome bool :=
  t ← type e; mret (one_of t [NumberLong; NumberDouble; NumberInt]).
Definition isSimpleType (e : BSONElement) : outcome bool :=
  t ← type e;
  mret (one_of t [NumberLong; NumberDouble; NumberInt; String; Bool; Date; jstOID]).
Definition mayEncapsulate (e : BSONElement) : outcome bool :=
  t ← type e; mret (one_of t [Object; Array; CodeWScope]).
Definition isABSONObj (e : BSONElement) : outcome bool :=
  t ← type e; mret (one_of t [Object; Array]).

(** The integer part of an IEEE double given by its bits; none for infinities and NaNs. *)
Definition double_trunc (bits : Z) : option Z :=
  let sign := Z.shiftr bits 63 in
  let ex := Z.land (Z.shiftr bits 52) 2047 in
  let frac := Z.land bits (2 ^ 52 - 1) in
  if ex =? 2047 then None
  else
    let mant := if ex =? 0 then frac else frac + 2 ^ 52 in
    let sh := (if ex =? 0 then 1 else ex) - 1075 in
    let mag := if 0 <=? sh then mant * 2 ^ sh else mant / 2 ^ (- sh) in
    Some (if sign =? 0 then mag else - mag).

(** The conversion of a double to a [w]-bit integer, undefined out of range. *)
Definition double_to_int (w bits : Z) : outcome Z :=
  match double_trunc bits with
  | Some z => if decide (in_s w z) then Ret z else Fault
  | None => Fault
  end.

Definition numberInt (e : BSONElement) : outcome Z :=
  t ← type e;
  if t =? NumberDouble then d ← _numberDouble e; double_to_int 32 d
  else if t =? NumberInt then _numberInt e
  else if t =? NumberLong then n ← _numberLong e; mret (s32 n)
  else mret 0.

Definition numberLong (e : BSONElement) : outcome Z :=
  t ← type e;
  if t =? NumberDouble then d ← _numberDouble e; double_to_int 64 d
  else if t =? NumberInt then _numberInt e
  else if t =? NumberLong then _numberLong e
  else mret 0.

(** [!= 0] on a double: neither of the two zeros. *)
Definition trueValue (e : BSONElement) : outcome bool :=
  t ← type e;
  if t =? NumberLong then n ← _numberLong e; mret (negb (n =? 0))
  else if t =? NumberDouble then d ← _numberDouble e; mret (negb (one_of d [0; 2 ^ 63]))
  else if t =? NumberInt then n ← _numberInt e; mret (negb (n =? 0))
  else if t =? Bool then boolean e
  else mret (negb (one_of t [EOO; jstNULL; Undefined])).

Definition valuestr (e : BSONElement) : outcome (list Z) := v ← value e; advance 4 v.

(** [std::string(valuestr(), n)]: a negative length is a [std::length_error]; here
    the exception has number 1. *)
Definition std_string (p : list Z) (n : Z) : outcome (list Z) :=
  if n <? 0 then Throw 1 else access (buf_read p 0 (Z.to_nat n)).

Definition str (e : BSONElement) : outcome (list Z) :=
  t ← type e;
  if t =? String then
    p ← valuestr e; n ← valuestrsize e; k ← int_of (n - 1); std_string p k
  else mret [].
Definition valuestrsafe (e : BSONElement) : outcome (list Z) :=
  t ← type e; if t =? String then valuestr e else mret [0].

Definition codeWScopeCode (e : BSONElement) : outcome (list Z) :=
  t ← type e; check 16177 (t =? CodeWScope);; v ← value e; advance 8 v.
Definition codeWScopeCodeLen (e : BSONElement) : outcome Z :=
  t ← type e; check 16178 (t =? CodeWScope);; v ← value e; p ← advance 4 v; load_int p.
Definition codeWScopeScopeData (e : BSONElement) : outcome (list Z) :=
  p ← codeWScopeCode e; n ← codeWScopeCodeLen e; advance n p.

(** The length and the bytes; a null pointer when the element is not binary. *)
Definition binData (e : BSONElement) : outcome (option (Z * list Z)) :=
  t ← type e;
  if t =? BinData then n ← valuestrsize e; v ← value e; p ← advance 5 v; mret (Some (n, p))
  else mret None.
Definition binDataType (e : BSONElement) : outcome Z :=
  t ← type e; check 0 (t =? BinData);; v ← value e; p ← advance 4 v; load_byte p.
Definition ByteArrayDeprecated : Z := 2.
Definition binDataClean (e : BSONElement) : outcome (option (Z * list Z)) :=
  s ← binDataType e;
  if negb (s =? ByteArrayDeprecated) then binData e
  else n ← valuestrsize e; k ← int_of (n - 4); v ← value e; p ← advance 9 v; mret (Some (k, p)).

Definition regex (e : BSONElement) : outcome (list Z) :=
  t ← type e; check 0 (t =? RegEx);; value e.
Definition regexFlags (e : BSONElement) : outcome (list Z) :=
  p ← regex e; n ← strlen p; advance (n + 1) p.

(** [t * 1000] in 64 bits. *)
Definition timestampTime (e : BSONElement) : outcome Z :=
  v ← value e; p ← advance 4 v; t ← load_le 4 p; mret (u64 (t * 1000)).
Definition timestampInc (e : BSONElement) : outcome Z := v ← value e; load_le 4 v.
Definition timestampValue (e : BSONElement) : outcome Z := v ← value e; load_le 8 v.
Definition dbrefNS (e : BSONElement) : outcome (list Z) :=
  t ← type e; check 10063 (t =? DBRef);; v ← value e; advance 4 v.
Definition dbrefOID (e : BSONElement) : outcome (list Z) :=
  t ← type e; check 10064 (t =? DBRef);;
  v ← value e; n ← load_int v; p ← advance (4 + n) v; access (buf_read p 0 12).
Definition oid_of (e : BSONElement) : outcome (list Z) := v ← value e; access (buf_read v 0 12).

(** The checked accessors. *)
Definition chk (t : Z) (e : BSONElement) : outcome BSONElement :=
  t' ← type e; check 13111 (t =? t');; mret e.
Definition String_ (e : BSONElement) : outcome (list Z) := e ← chk String e; str e.
Definition Date_ (e : BSONElement) : outcome Z := e ← chk Date e; date e.
Definition Double (e : BSONElement) : outcome Z := e ← chk NumberDouble e; _numberDouble e.
Definition Long (e : BSONElement) : outcome Z := e ← chk NumberLong e; _numberLong e.
Definition Int (e : BSONElement) : outcome Z := e ← chk NumberInt e; _numberInt e.
Definition Bool_ (e : BSONElement) : outcome bool := e ← chk Bool e; boolean e.
Definition OID_ (e : BSONElement) : outcome (list Z) := e ← chk jstOID e; oid_of e.

End Element.

(** ** [BSONObj] and [BSONObjIterator] *)

Section Object.

Definition BSONObj := list Z.

Definition objsize (o : BSONObj) : outcome Z := load_int o.

Definition isValid (o : BSONObj) : outcome bool :=
  x ← objsize o; mret ((0 <? x) && (x <=? BSONObjMaxInternalSize))%bool.

(** The constructor from a pointer: the size must be valid ([_assertInvalid]). *)
Definition mk_BSONObj (p : list Z) : outcome BSONObj :=
  v ← isValid p; check 10334 v;; mret p.

Definition empty_BSONObj : BSONObj := [5; 0; 0; 0; 0].
Definition isEmpty (o : BSONObj) : outcome bool := n ← objsize o; mret (n <=? 5).
Definition firstElement (o : BSONObj) : outcome BSONElement := advance 4 o.

(** The iterator: the object, the position and the position of the last byte. *)
Record BSONObjIterator := mkIt { it_obj : BSONObj; _pos : Z; _theend : Z }.

Definition iterator (o : BSONObj) : outcome BSONObjIterator :=
  sz ← objsize o;
  if sz =? 0 then mret (mkIt [] 0 0) else mret (mkIt o 4 (sz - 1)).

Definition more (i : BSONObjIterator) : bool := _pos i <? _theend i.
Definition moreWithEOO (i : BSONObjIterator) : bool := _pos i <=? _theend i.

Definition next (i : BSONObjIterator) : outcome (BSONElement * BSONObjIterator) :=
  check 0 (_pos i <=? _theend i);;
  e ← advance (_pos i) (it_obj i);
  n ← size e;
  mret (e, mkIt (it_obj i) (_pos i + n) (_theend i)).

(** The loops over the elements of an object.  Without a repeated position there are at
    most as many rounds as bytes. *)
Fixpoint getField_loop (fuel : nat) (name : list Z) (i : BSONObjIterator) : outcome BSONElement :=
  if more i then
    match fuel with
    | O => Fault
    | S fuel =>
        '(e, i) ← next i;
        p ← fieldName e;
        n ← c_str p;
        if decide (name = n) then mret e else getField_loop fuel name i
    end
  else mret eoo_element.

Definition getField (name : list Z) (o : BSONObj) : outcome BSONElement :=
  i ← iterator o; getField_loop (length o) name i.

Fixpoint nFields_loop (fuel : nat) (n : Z) (i : BSONObjIterator) : outcome Z :=
  if moreWithEOO i then
    match fuel with
    | O => Fault
    | S fuel =>
        '(e, i) ← next i;
        b ← eoo e;
        if (b : bool) then mret n else nFields_loop fuel (n + 1) i
    end
  else mret n.

Definition nFields (o : BSONObj) : outcome Z :=
  i ← iterator o; nFields_loop (length o) 0 i.

Definition hasField (name : list Z) (o : BSONObj) : outcome bool :=
  e ← getField name o; b ← eoo e; mret (negb b).
Definition hasElement (name : list Z) (o : BSONObj) : outcome bool := hasField name o.

Definition embeddedObject (e : BSONElement) : outcome BSONObj :=
  b ← isABSONObj e; check 0 b;; v ← value e; mk_BSONObj v.
Definition codeWScopeObject (e : BSONElement) : outcome BSONObj :=
  t ← type e; check 0 (t =? CodeWScope);;
  v ← value e; p ← advance 4 v; n ← load_int p; q ← advance (4 + 4 + n) v; mk_BSONObj q.

Definition getObjectField (name : list Z) (o : BSONObj) : outcome BSONObj :=
  e ← getField name o;
  t ← type e;
  if one_of t [Object; Array] then embeddedObject e else mret empty_BSONObj.
Definition getBoolField (name : list Z) (o : BSONObj) : outcome bool :=
  e ← getField name o; t ← type e; if t =? Bool then boolean e else mret false.
Definition getStringField (name : list Z) (o : BSONObj) : outcome (list Z) :=
  e ← getField name o; t ← type e; if t =? String then valuestr e else mret [0].
Definition getObjectID (o : BSONObj) : outcome (option BSONElement) :=
  e ← getField [95; 105; 100] o; b ← eoo e; if (b : bool) then mret None else mret (Some e).

(** [copy]: the bytes of the object alone. *)
Definition copy (o : BSONObj) : outcome BSONObj :=
  n ← objsize o;
  if n <? 0 then Fault else b ← access (buf_read o 0 (Z.to_nat n)); mk_BSONObj b.

Definition binaryEqual (r o : BSONObj) : outcome bool :=
  os ← objsize o; rs ← objsize r;
  if os =? rs then
    if os =? 0 then mret true
    else if os <? 0 then Fault
    else a ← access (buf_read o 0 (Z.to_nat os)); b ← access (buf_read r 0 (Z.to_nat os));
         mret (bool_decide (a = b))
  else mret false.

End Object.

(** ** Documents and their encoding

    The abstract view: a document is a list of named values.  [enc_doc] is the BSON
    format of the comment in [bsonobj.h]. *)

Inductive val :=
  | VDouble (bits : Z)
  | VString (s : list Z)
  | VObject (d : doc)
  | VArray (d : doc)
  | VBinData (subtype : Z) (b : list Z)
  | VUndefined
  | VOID (b : list Z)
  | VBool (b : bool)
  | VDate (ms : Z)
  | VNull
  | VRegEx (pattern flags : list Z)
  | VDBRef (ns oid : list Z)
  | VCode (s : list Z)
  | VSymbol (s : list Z)
  | VCodeWScope (code : list Z) (scope : doc)
  | VInt (n : Z)
  | VTimestamp (t : Z)
  | VLong (n : Z)
  | VMinKey
  | VMaxKey
with doc :=
  | DNil
  | DCons (name : list Z) (v : val) (d : doc).

Scheme val_doc_ind := Induction for val Sort Prop
  with doc_val_ind := Induction for doc Sort Prop.
Combined Scheme val_doc_mutind from val_doc_ind, doc_val_ind.

Definition type_of (v : val) : Z :=
  match v with
  | VDouble _ => NumberDouble | VString _ => String | VObject _ => Object | VArray _ => Array
  | VBinData _ _ => BinData | VUndefined => Undefined | VOID _ => jstOID | VBool _ => Bool
  | VDate _ => Date | VNull => jstNULL | VRegEx _ _ => RegEx | VDBRef _ _ => DBRef
  | VCode _ => Code | VSymbol _ => Symbol | VCodeWScope _ _ => CodeWScope | VInt _ => NumberInt
  | VTimestamp _ => Timestamp | VLong _ => NumberLong | VMinKey => MinKey | VMaxKey => MaxKey
  end.

Definition enc_int (n : Z) : list Z := le_bytes 4 n.
#[global] Arguments enc_int : simpl never.
Definition enc_cstr (s : list Z) : list Z := s ++ [0].
Definition enc_str (s : list Z) : list Z := enc_int (Z.of_nat (length s) + 1) ++ s ++ [0].

Fixpoint enc_val (v : val) : list Z :=
  match v with
  | VDouble b => le_bytes 8 b
  | VString s | VCode s | VSymbol s => enc_str s
  | VObject d | VArray d =>
      enc_int (Z.of_nat (length (enc_elems d)) + 5) ++ enc_elems d ++ [0]
  | VBinData t b => enc_int (Z.of_nat (length b)) ++ t :: b
  | VUndefined | VNull | VMinKey | VMaxKey => []
  | VOID b => b
  | VBool b => [if b then 1 else 0]
  | VDate n | VTimestamp n | VLong n => le_bytes 8 n
  | VRegEx p f => enc_cstr p ++ enc_cstr f
  | VDBRef ns oid => enc_str ns ++ oid
  | VCodeWScope c d =>
      let scope := enc_int (Z.of_nat (length (enc_elems d)) + 5) ++ enc_elems d ++ [0] in
      enc_int (4 + Z.of_nat (length (enc_str c)) + Z.of_nat (length scope)) ++ enc_str c ++ scope
  | VInt n => le_bytes 4 n
  end
with enc_elems (d : doc) : list Z :=
  match d with
  | DNil => []
  | DCons n v d => (u8 (type_of v) :: enc_cstr n ++ enc_val v) ++ enc_elems d
  end.

Definition enc_elem (n : list Z) (v : val) : list Z := u8 (type_of v) :: enc_cstr n ++ enc_val v.
#[global] Arguments enc_elem : simpl never.
Definition enc_doc (d : doc) : list Z :=
  enc_int (Z.of_nat (length (enc_elems d)) + 5) ++ enc_elems d ++ [0].

(** Names and the strings of regular expressions hold no zero byte; values fit their
    width. *)
Definition cstr_ok (s : list Z) : Prop := bytes s /\ 0 ∉ s.

Fixpoint val_ok (v : val) : Prop :=
  match v with
  | VDouble b => in_u 64 b
  | VDate n | VTimestamp n => in_u 64 n
  | VString s | VCode s | VSymbol s => bytes s
  | VObject d | VArray d => doc_ok d
  | VBinData t b => is_byte t /\ bytes b
  | VOID b => length b = 12%nat /\ bytes b
  | VRegEx p f => cstr_ok p /\ cstr_ok f
  | VDBRef ns oid => bytes ns /\ length oid = 12%nat /\ bytes oid
  | VCodeWScope c d => bytes c /\ doc_ok d
  | VInt n => in_s 32 n
  | VLong n => in_s 64 n
  | _ => True
  end
with doc_ok (d : doc) : Prop :=
  match d with
  | DNil => True
  | DCons n v d => cstr_ok n /\ val_ok v /\ doc_ok d
  end.

Fixpoint doc_app (d d' : doc) : doc :=
  match d with DNil => d' | DCons n v d => DCons n v (doc_app d d') end.

Fixpoint doc_list (d : doc) : list (list Z * val) :=
  match d with DNil => [] | DCons n v d => (n, v) :: doc_list d end.

Fixpoint doc_find (name : list Z) (d : doc) : option val :=
  match d with
  | DNil => None
  | DCons n v d => if decide (name = n) then Some v else doc_find name d
  end.

Lemma enc_elems_app d d' : enc_elems (doc_app d d') = enc_elems d ++ enc_elems d'.
Proof. induction d as [|n v d IH]; simpl; [done|]. by rewrite IH, <- !app_assoc. Qed.

Lemma doc_app_nil d : doc_app d DNil = d.
Proof. induction d as [|n v d IH]; simpl; [done|]. by rewrite IH. Qed.

Lemma doc_app_assoc d1 d2 d3 : doc_app (doc_app d1 d2) d3 = doc_app d1 (doc_app d2 d3).
Proof. induction d1 as [|n v d IH]; simpl; [done|]. by rewrite IH. Qed.

Lemma doc_ok_app d d' : doc_ok d -> doc_ok d' -> doc_ok (doc_app d d').
Proof. induction d as [|n v d IH]; simpl; [done|]. naive_solver. Qed.

Lemma doc_find_app name d d' :
  doc_find name (doc_app d d') = match doc_find name d with Some v => Some v | None => doc_find name d' end.
Proof. induction d as [|n v d IH]; simpl; [done|]. by case_decide. Qed.

Lemma length_enc_int n : length (enc_int n) = 4%nat.
Proof. apply le_bytes_length. Qed.

(** ** Loads from encodings *)

Lemma load_le_enc n z r : load_le n (le_bytes n z ++ r) = Ret (z mod 256 ^ Z.of_nat n).
Proof.
  unfold load_le, buf_read. rewrite decide_True by (rewrite length_app, le_bytes_length; lia).
  simpl. rewrite drop_0, take_app_le by by rewrite le_bytes_length.
  rewrite take_ge by by rewrite le_bytes_length. by rewrite le_val_bytes_mod.
Qed.

Lemma load_int_enc z r : in_s 32 z -> load_int (enc_int z ++ r) = Ret z.
Proof.
  intros H. unfold load_int, enc_int. rewrite load_le_enc. simpl.
  change (256 ^ Z.of_nat 4) with (2 ^ 32). f_equal.
  change (z mod 2 ^ 32) with (uwrap 32 z). rewrite swrap_uwrap by lia. apply swrap_small; [lia|done].
Qed.

Lemma strlen_enc s r : cstr_ok s -> strlen (enc_cstr s ++ r) = Ret (Z.of_nat (length s)).
Proof.
  intros [Hb Hn]. unfold enc_cstr. induction s as [|b s IH]; simpl; [done|].
  inversion Hb; subst. rewrite not_elem_of_cons in Hn. destruct Hn as [Hn0 Hn].
  assert (b =? 0 = false) as -> by (apply Z.eqb_neq; done).
  rewrite IH by done. simpl. f_equal. lia.
Qed.

Lemma c_str_enc s r : cstr_ok s -> c_str (enc_cstr s ++ r) = Ret s.
Proof.
  intros H. unfold c_str. rewrite strlen_enc by done. simpl. unfold mret, outcome_ret. f_equal.
  rewrite Nat2Z.id. unfold enc_cstr. rewrite <- app_assoc. apply take_app_length.
Qed.

Lemma advance_app n p q : n = Z.of_nat (length p) -> advance n (p ++ q) = Ret q.
Proof.
  intros ->. unfold advance. assert (Z.of_nat (length p) <? 0 = false) as -> by (apply Z.ltb_ge; lia).
  by rewrite Nat2Z.id, drop_app_length.
Qed.

(** ** Elements of an encoded document *)

Lemma s8_type v : s8 (u8 (type_of v)) = type_of v.
Proof. destruct v; reflexivity. Qed.

Lemma type_of_not_eoo v : (type_of v =? EOO) = false.
Proof. destruct v; reflexivity. Qed.

Lemma enc_str_length s : Z.of_nat (length (enc_str s)) = Z.of_nat (length s) + 5.
Proof. unfold enc_str. rewrite !length_app, length_enc_int. simpl. lia. Qed.

Lemma enc_elem_length n v :
  Z.of_nat (length (enc_elem n v)) = Z.of_nat (length n) + 2 + Z.of_nat (length (enc_val v)).
Proof. unfold enc_elem, enc_cstr. simpl. rewrite !length_app. simpl. lia. Qed.

Section Enc.
Context (n : list Z) (v : val) (r : list Z).
Context (Hn : cstr_ok n).
Context (Hlen : Z.of_nat (length (enc_elem n v)) < 2 ^ 31).
Local Notation e := (enc_elem n v ++ r).

Lemma type_enc : type e = Ret (type_of v).
Proof. unfold type, enc_elem. simpl. by rewrite s8_type. Qed.

Lemma eoo_enc : eoo e = Ret false.
Proof. unfold eoo. rewrite type_enc. simpl_out. by rewrite type_of_not_eoo. Qed.

Lemma fieldName_enc : fieldName e = Ret (enc_cstr n ++ enc_val v ++ r).
Proof.
  unfold fieldName. rewrite eoo_enc. simpl. rewrite drop_0. unfold mret, outcome_ret.
  f_equal. by rewrite app_assoc.
Qed.

Lemma fieldNameSize_enc : fieldNameSize e = Ret (Z.of_nat (length n) + 1).
Proof.
  unfold fieldNameSize. rewrite eoo_enc, fieldName_enc. simpl. rewrite strlen_enc by done. simpl.
  pose proof (enc_elem_length n v). rewrite swrap_small by (unfold in_s; lia). done.
Qed.

Lemma value_enc : value e = Ret (enc_val v ++ r).
Proof.
  unfold value. rewrite fieldNameSize_enc. simpl_out.
  assert (enc_elem n v ++ r = (u8 (type_of v) :: enc_cstr n) ++ enc_val v ++ r) as ->
    by (unfold enc_elem; simpl; by rewrite <- app_assoc).
  rewrite (advance_app _ (u8 (type_of v) :: enc_cstr n)); [done|].
  unfold enc_cstr. simpl. rewrite length_app. simpl. lia.
Qed.

Lemma valuestrsize_enc k rest :
  enc_val v = enc_int k ++ rest -> in_s 32 k -> valuestrsize e = Ret k.
Proof.
  intros Hk Hin. unfold valuestrsize. rewrite value_enc. simpl. rewrite Hk, <- app_assoc.
  by apply load_int_enc.
Qed.

Lemma objsize_elem_enc k rest :
  enc_val v = enc_int k ++ rest -> 0 <= k < 2 ^ 31 -> objsize_elem e = Ret k.
Proof.
  intros Hk Hin. unfold objsize_elem. rewrite value_enc. simpl. rewrite Hk, <- app_assoc.
  unfold enc_int. rewrite load_le_enc. f_equal. apply Z.mod_small. change (256 ^ Z.of_nat 4) with (2 ^ 32). lia.
Qed.

End Enc.

Lemma enc_val_cws c d : enc_val (VCodeWScope c d) =
  enc_int (4 + Z.of_nat (length (enc_str c)) + Z.of_nat (length (enc_doc d))) ++ enc_str c ++ enc_doc d.
Proof. reflexivity. Qed.

Lemma enc_doc_length d : Z.of_nat (length (enc_doc d)) = Z.of_nat (length (enc_elems d)) + 5.
Proof. unfold enc_doc. rewrite !length_app, length_enc_int. simpl. lia. Qed.

(** The size an element computes for its value is the length of the encoding. *)
Lemma value_size_enc n v r :
  cstr_ok n -> val_ok v -> Z.of_nat (length (enc_elem n v)) < 2 ^ 31 ->
  value_size (enc_elem n v ++ r) (type_of v) = Ret (Z.of_nat (length (enc_val v))).
Proof.
  intros Hn Hv Hlen. pose proof (enc_elem_length n v) as HL. set (e := enc_elem n v ++ r).
  assert (in_s 32 (Z.of_nat (length (enc_val v)))) as Hs by (unfold in_s; lia).
  assert (forall k rest (g : Z -> Z), enc_val v = enc_int k ++ rest -> 0 <= k <= g k ->
    g k = Z.of_nat (length (enc_val v)) ->
    (k ← valuestrsize e; int_of (g k)) = Ret (Z.of_nat (length (enc_val v)))) as Hint.
  { intros k rest g Hk Hk0 Hl. unfold in_s in Hs.
    unfold e. rewrite (valuestrsize_enc n v r Hn Hlen k rest Hk) by (unfold in_s; lia).
    simpl_out. unfold int_of. rewrite decide_True; [by rewrite Hl|unfold in_s; lia]. }
  assert (forall s, enc_val v = enc_str s ->
    (k ← valuestrsize e; int_of (k + 4)) = Ret (Z.of_nat (length (enc_val v)))) as Hstr.
  { intros s Hs'. pose proof (enc_str_length s) as Hl. rewrite <- Hs' in Hl.
    apply (Hint (Z.of_nat (length s) + 1) (s ++ [0]) (fun k => k + 4)); [exact Hs'|lia..]. }
  assert (forall k rest, enc_val v = enc_int k ++ rest -> k = Z.of_nat (length (enc_val v)) ->
    (k' ← objsize_elem e; mret (s32 k')) = Ret (Z.of_nat (length (enc_val v)))) as Hobj.
  { intros k rest Hk Hl. unfold e. rewrite (objsize_elem_enc n v r Hn Hlen k rest Hk) by (unfold in_s in *; lia).
    simpl_out. rewrite swrap_small by (lia || (unfold in_s in *; lia)). by rewrite Hl. }
  destruct v as [b|s|d|d|t b| |b|b|ms| |p f|ns oid|s|s|c d|z|t|z| |]; unfold value_size; cbn [type_of];
    try (cbn -[le_bytes]; rewrite ?le_bytes_length; reflexivity).
  - by apply (Hstr s).
  - eapply Hobj; [reflexivity|]. by rewrite <- enc_doc_length.
  - eapply Hobj; [reflexivity|]. by rewrite <- enc_doc_length.
  - eapply (Hint _ _ (fun k => k + 4 + 1)); [reflexivity|lia|].
    cbn [enc_val]. rewrite length_app, length_enc_int. simpl. lia.
  - destruct Hv as [Hb _]. cbn. by rewrite Hb.
  - destruct Hv as [Hp Hf]. cbn -[value strlen enc_val]. unfold e. rewrite (value_enc _ _ r Hn Hlen).
    cbn [enc_val]. rewrite <- app_assoc. simpl_out. rewrite strlen_enc by done. simpl_out.
    rewrite advance_app by (unfold enc_cstr; rewrite length_app; simpl; lia). simpl_out.
    rewrite strlen_enc by done. simpl_out. cbn [enc_val] in Hs. unfold enc_cstr in *.
    rewrite !length_app in *. simpl in Hs. rewrite swrap_small; [f_equal; simpl; lia|lia|].
    unfold in_s in *. lia.
  - destruct Hv as (Hb & Hl & _). eapply (Hint (Z.of_nat (length ns) + 1) ((ns ++ [0]) ++ oid) (fun k => k + 4 + 12)).
    + cbn [enc_val]. unfold enc_str. by rewrite <- app_assoc.
    + lia.
    + cbn [enc_val]. rewrite length_app. pose proof (enc_str_length ns). lia.
  - by apply (Hstr s).
  - by apply (Hstr s).
  - rewrite enc_val_cws in *. eapply Hobj; [reflexivity|].
    rewrite (length_app (enc_int _)), length_enc_int, length_app. lia.
Qed.

Lemma size_enc n v r :
  cstr_ok n -> val_ok v -> Z.of_nat (length (enc_elem n v)) < 2 ^ 31 ->
  size (enc_elem n v ++ r) = Ret (Z.of_nat (length (enc_elem n v))).
Proof.
  intros Hn Hv Hlen. unfold size. rewrite eoo_enc, type_enc by done. simpl_out.
  rewrite value_size_enc, fieldNameSize_enc by done. simpl_out.
  pose proof (enc_elem_length n v). unfold int_of. rewrite decide_True by (unfold in_s; lia). f_equal. lia.
Qed.

(** ** Iterating over an encoded document *)

Lemma enc_elems_cons n v d : enc_elems (DCons n v d) = enc_elem n v ++ enc_elems d.
Proof. reflexivity. Qed.

Lemma next_enc pre n v rest theend :
  cstr_ok n -> val_ok v -> Z.of_nat (length (enc_elem n v)) < 2 ^ 31 ->
  Z.of_nat (length pre) <= theend ->
  next (mkIt (pre ++ enc_elem n v ++ rest) (Z.of_nat (length pre)) theend) =
  Ret (enc_elem n v ++ rest,
       mkIt (pre ++ enc_elem n v ++ rest) (Z.of_nat (length (pre ++ enc_elem n v))) theend).
Proof.
  intros Hn Hv Hl Hle. unfold next. cbn [_pos _theend it_obj].
  assert (Z.of_nat (length pre) <=? theend = true) as -> by (by apply Z.leb_le).
  unfold check. simpl_out. rewrite advance_app by done. simpl_out.
  rewrite size_enc by done. simpl_out. rewrite length_app. f_equal. f_equal. f_equal. lia.
Qed.

Lemma field_name_enc n v r :
  cstr_ok n -> (p ← fieldName (enc_elem n v ++ r); c_str p) = Ret n.
Proof. intros Hn. rewrite fieldName_enc. simpl_out. by apply c_str_enc. Qed.

Lemma getField_loop_enc name d : forall pre rest fuel theend,
  doc_ok d -> Z.of_nat (length (enc_elems d)) < 2 ^ 31 ->
  theend = Z.of_nat (length (pre ++ enc_elems d)) -> (length (doc_list d) <= fuel)%nat ->
  match doc_find name d with
  | Some v => exists r, getField_loop fuel name
      (mkIt (pre ++ enc_elems d ++ rest) (Z.of_nat (length pre)) theend) = Ret (enc_elem name v ++ r)
  | None => getField_loop fuel name
      (mkIt (pre ++ enc_elems d ++ rest) (Z.of_nat (length pre)) theend) = Ret eoo_element
  end.
Proof.
  induction d as [|n v d IH]; intros pre rest fuel theend Hok Hlen Hend Hf.
  - simpl in *. rewrite app_nil_r in Hend. unfold getField_loop.
    destruct fuel; unfold more; cbn [_pos _theend]; rewrite (proj2 (Z.ltb_ge _ _)) by lia; done.
  - destruct fuel as [|fuel]; [simpl in Hf; lia|]. simpl in Hf. destruct Hok as (Hn & Hv & Hd).
    cbn [doc_find]. rewrite enc_elems_cons in *. rewrite length_app in Hlen.
    pose proof (enc_elem_length n v) as HL. cbn [getField_loop].
    unfold more. cbn [_pos _theend]. rewrite (proj2 (Z.ltb_lt _ _)) by (rewrite Hend, !length_app; lia).
    rewrite <- app_assoc. rewrite next_enc; [|done|done|lia|rewrite Hend, !length_app; lia]. simpl_out.
    pose proof (field_name_enc n v (enc_elems d ++ rest) Hn) as HF.
    rewrite fieldName_enc in *. simpl_out. cbn [mbind outcome_bind] in HF.
    rewrite HF. simpl_out. case_decide; [subst; by eexists|].
    rewrite !app_assoc, <- (app_assoc _ _ rest).
    apply IH; [done|lia|rewrite Hend, <- app_assoc; done|lia].
Qed.

Lemma doc_list_length d : (length (doc_list d) <= length (enc_elems d))%nat.
Proof.
  induction d as [|n v d IH]; simpl; [lia|]. rewrite length_app. lia.
Qed.

Lemma objsize_enc d r :
  Z.of_nat (length (enc_doc d)) < 2 ^ 31 ->
  objsize (enc_doc d ++ r) = Ret (Z.of_nat (length (enc_doc d))).
Proof.
  intros Hl. rewrite enc_doc_length in *. unfold objsize, enc_doc. rewrite <- app_assoc.
  apply load_int_enc. unfold in_s. lia.
Qed.

Lemma doc_find_ok name d v :
  doc_find name d = Some v -> doc_ok d ->
  cstr_ok name /\ val_ok v /\ Z.of_nat (length (enc_elem name v)) <= Z.of_nat (length (enc_elems d)).
Proof.
  induction d as [|n x d IH]; [done|]. cbn [doc_find doc_ok]. intros H (Hn & Hx & Hd).
  rewrite enc_elems_cons, length_app. case_decide; simplify_eq; [split_and!; [done|done|lia]|].
  destruct (IH H Hd) as (? & ? & ?). split_and!; [done|done|lia].
Qed.

Lemma iterator_enc d r :
  Z.of_nat (length (enc_doc d)) < 2 ^ 31 ->
  iterator (enc_doc d ++ r) = Ret (mkIt (enc_doc d ++ r) 4 (Z.of_nat (length (enc_doc d)) - 1)).
Proof.
  intros Hl. pose proof (enc_doc_length d) as HL. unfold iterator.
  rewrite objsize_enc by done. simpl_out. by rewrite (proj2 (Z.eqb_neq _ _)) by lia.
Qed.

Lemma getField_spec_aux name d r :
  doc_ok d -> Z.of_nat (length (enc_doc d)) < 2 ^ 31 ->
  match doc_find name d with
  | Some v => exists r', getField name (enc_doc d ++ r) = Ret (enc_elem name v ++ r')
  | None => getField name (enc_doc d ++ r) = Ret eoo_element
  end.
Proof.
  intros Hok Hl. pose proof (enc_doc_length d) as HL. unfold getField.
  rewrite iterator_enc by done. simpl_out.
  pose proof (getField_loop_enc name d (enc_int (Z.of_nat (length (enc_elems d)) + 5)) ([0] ++ r)
    (length (enc_doc d ++ r)) (Z.of_nat (length (enc_doc d)) - 1) Hok) as H.
  rewrite length_enc_int in H. unfold enc_doc at 2 5. rewrite <- !app_assoc.
  apply H; [lia| |].
  - rewrite length_app, length_enc_int. lia.
  - pose proof (doc_list_length d). rewrite length_app. lia.
Qed.

(** ** The accessors on encoded elements *)

Section Access.
Context (n : list Z) (r : list Z).
Context (Hn : cstr_ok n).
Local Notation fits v := (Z.of_nat (length (enc_elem n v)) < 2 ^ 31).
Local Notation el v := (enc_elem n v ++ r).

Lemma chk_enc t v : chk t (el v) = if t =? type_of v then Ret (el v) else Throw 13111.
Proof. unfold chk. rewrite type_enc. simpl_out. unfold check. by destruct (t =? type_of v). Qed.

Lemma load_8 z r' : load_le 8 (le_bytes 8 z ++ r') = Ret (u64 z).
Proof. rewrite load_le_enc. by change (256 ^ Z.of_nat 8) with (2 ^ 64). Qed.

Lemma _numberInt_enc z : val_ok (VInt z) -> fits (VInt z) -> _numberInt (el (VInt z)) = Ret z.
Proof. intros Hv Hf. unfold _numberInt. rewrite value_enc by done. simpl_out. by apply load_int_enc. Qed.

Lemma _numberLong_enc z : val_ok (VLong z) -> fits (VLong z) -> _numberLong (el (VLong z)) = Ret z.
Proof.
  intros Hv Hf. unfold _numberLong. rewrite value_enc by done. cbn [enc_val]. simpl_out.
  rewrite load_8. simpl_out. rewrite swrap_uwrap, swrap_small by (done || lia). done.
Qed.

Lemma _numberDouble_enc z : val_ok (VDouble z) -> fits (VDouble z) -> _numberDouble (el (VDouble z)) = Ret z.
Proof.
  intros Hv Hf. unfold _numberDouble. rewrite value_enc by done. cbn [enc_val]. simpl_out.
  rewrite load_8. by rewrite uwrap_small.
Qed.

Lemma boolean_enc b : fits (VBool b) -> boolean (el (VBool b)) = Ret b.
Proof. intros Hf. unfold boolean. rewrite value_enc by done. by destruct b. Qed.

Lemma str_enc s : fits (VString s) -> str (el (VString s)) = Ret s.
Proof.
  intros Hf. pose proof (enc_elem_length n (VString s)) as HL. cbn [enc_val] in HL.
  rewrite enc_str_length in HL. unfold str. rewrite type_enc. simpl_out. simpl (type_of _ =? String).
  cbn iota. unfold valuestr. rewrite value_enc by done. cbn [enc_val]. simpl_out.
  unfold enc_str. rewrite <- !app_assoc. rewrite advance_app by by rewrite length_enc_int. simpl_out.
  assert (valuestrsize (el (VString s)) = Ret (Z.of_nat (length s) + 1)) as E.
  { eapply valuestrsize_enc; [done|done|reflexivity|unfold in_s; lia]. }
  rewrite E. simpl_out. unfold int_of. rewrite decide_True by (unfold in_s; lia). simpl_out.
  unfold std_string. rewrite (proj2 (Z.ltb_ge _ _)) by lia.
  replace (Z.to_nat (Z.of_nat (length s) + 1 - 1)) with (length s) by lia.
  unfold buf_read. rewrite decide_True by (rewrite !length_app; lia).
  rewrite drop_0, take_app_length. done.
Qed.

Lemma binData_enc t b :
  fits (VBinData t b) -> binData (el (VBinData t b)) = Ret (Some (Z.of_nat (length b), b ++ r)).
Proof.
  intros Hf. pose proof (enc_elem_length n (VBinData t b)) as HL. cbn [enc_val] in HL.
  rewrite length_app, length_enc_int in HL. cbn [length] in HL.
  unfold binData. rewrite type_enc. simpl_out. simpl (type_of _ =? BinData). cbn iota.
  assert (valuestrsize (el (VBinData t b)) = Ret (Z.of_nat (length b))) as E.
  { eapply valuestrsize_enc; [done|done|reflexivity|unfold in_s; lia]. }
  rewrite E. simpl_out. rewrite value_enc by done. cbn [enc_val]. simpl_out.
  rewrite <- app_assoc. replace (enc_int (Z.of_nat (length b)) ++ (t :: b) ++ r)
    with ((enc_int (Z.of_nat (length b)) ++ [t]) ++ b ++ r) by by rewrite <- app_assoc.
  rewrite advance_app by (rewrite length_app, length_enc_int; done). done.
Qed.

Lemma mk_BSONObj_enc d r' :
  Z.of_nat (length (enc_doc d)) <= BSONObjMaxInternalSize -> mk_BSONObj (enc_doc d ++ r') = Ret (enc_doc d ++ r').
Proof.
  intros Hl. unfold mk_BSONObj, isValid. pose proof (enc_doc_length d).
  rewrite objsize_enc by (unfold BSONObjMaxInternalSize, BSONObjMaxUserSize in *; lia). simpl_out.
  rewrite (proj2 (Z.ltb_lt _ _)), (proj2 (Z.leb_le _ _)) by lia. done.
Qed.

Lemma embeddedObject_enc v d :
  v = VObject d \/ v = VArray d -> fits v -> Z.of_nat (length (enc_doc d)) <= BSONObjMaxInternalSize ->
  embeddedObject (el v) = Ret (enc_doc d ++ r).
Proof.
  intros Hv Hf Hl. unfold embeddedObject, isABSONObj. rewrite type_enc. simpl_out.
  assert (one_of (type_of v) [Object; Array] = true) as -> by (by destruct Hv as [->| ->]).
  unfold check. simpl_out. rewrite value_enc by done. simpl_out.
  assert (enc_val v = enc_doc d) as -> by (by destruct Hv as [->| ->]). by apply mk_BSONObj_enc.
Qed.

Lemma numberInt_enc v : val_ok v -> fits v ->
  numberInt (el v) = match v with
    | VInt z => Ret z | VLong z => Ret (s32 z) | VDouble b => double_to_int 32 b | _ => Ret 0 end.
Proof.
  intros Hv Hf. unfold numberInt. rewrite type_enc. simpl_out.
  destruct v; cbn -[_numberInt _numberLong _numberDouble double_to_int]; try done.
  - by rewrite _numberDouble_enc.
  - by rewrite _numberInt_enc.
  - by rewrite _numberLong_enc.
Qed.

Lemma numberLong_enc v : val_ok v -> fits v ->
  numberLong (el v) = match v with
    | VInt z => Ret z | VLong z => Ret z | VDouble b => double_to_int 64 b | _ => Ret 0 end.
Proof.
  intros Hv Hf. unfold numberLong. rewrite type_enc. simpl_out.
  destruct v; cbn -[_numberInt _numberLong _numberDouble double_to_int]; try done.
  - by rewrite _numberDouble_enc.
  - by rewrite _numberInt_enc.
  - by rewrite _numberLong_enc.
Qed.

End Access.

(** The number of fields. *)
Lemma nFields_loop_enc d : forall pre rest fuel k theend,
  doc_ok d -> Z.of_nat (length (enc_elems d)) < 2 ^ 31 ->
  theend = Z.of_nat (length (pre ++ enc_elems d)) -> (length (doc_list d) < fuel)%nat ->
  nFields_loop fuel k (mkIt (pre ++ enc_elems d ++ 0 :: rest) (Z.of_nat (length pre)) theend)
  = Ret (k + Z.of_nat (length (doc_list d))).
Proof.
  induction d as [|n v d IH]; intros pre rest fuel k theend Hok Hlen Hend Hf;
    (destruct fuel as [|fuel]; [simpl in Hf; lia|]); cbn [nFields_loop]; unfold moreWithEOO;
    cbn [_pos _theend].
  - simpl in *. rewrite app_nil_r in Hend. rewrite Hend, Z.leb_refl.
    unfold next. cbn [_pos _theend it_obj]. rewrite Z.leb_refl. unfold check. simpl_out.
    rewrite advance_app by done. simpl_out. rewrite Z.add_0_r. reflexivity.
  - destruct Hok as (Hn & Hv & Hd). rewrite enc_elems_cons in *. rewrite length_app in Hlen.
    rewrite (proj2 (Z.leb_le _ _)) by (rewrite Hend, !length_app; lia).
    rewrite <- app_assoc. rewrite next_enc; [|done|done|lia|rewrite Hend, !length_app; lia]. simpl_out.
    rewrite eoo_enc. simpl_out. simpl in Hf. rewrite !app_assoc, <- (app_assoc _ _ (0 :: rest)).
    rewrite IH; [|done|lia|rewrite Hend, <- app_assoc; done|lia]. f_equal. simpl. lia.
Qed.

Lemma nFields_enc d r :
  doc_ok d -> Z.of_nat (length (enc_doc d)) < 2 ^ 31 ->
  nFields (enc_doc d ++ r) = Ret (Z.of_nat (length (doc_list d))).
Proof.
  intros Hok Hl. pose proof (enc_doc_length d) as HL. unfold nFields. rewrite iterator_enc by done. simpl_out.
  pose proof (nFields_loop_enc d (enc_int (Z.of_nat (length (enc_elems d)) + 5)) r
    (length (enc_doc d ++ r)) 0 (Z.of_nat (length (enc_doc d)) - 1) Hok) as H.
  rewrite length_enc_int in H. unfold enc_doc at 2. rewrite <- !app_assoc. apply H; [lia| |].
  - rewrite length_app, length_enc_int. lia.
  - pose proof (doc_list_length d). rewrite length_app. lia.
Qed.

(** [C26] Looking a field up in an encoded document finds the first element with that name,
    or the end-of-object element when there is none, whatever follows the document
    in memory; the element found has the size, the type and the field name of the
    value that was encoded. *)
Theorem getField_spec name d r :
  doc_ok d -> Z.of_nat (length (enc_doc d)) < 2 ^ 31 ->
  match doc_find name d with
  | Some v => exists r' e, getField name (enc_doc d ++ r) = Ret e /\ e = enc_elem name v ++ r' /\
      type e = Ret (type_of v) /\ size e = Ret (Z.of_nat (length (enc_elem name v))) /\
      (p ← fieldName e; c_str p) = Ret name
  | None => getField name (enc_doc d ++ r) = Ret eoo_element
  end.
Proof.
  intros Hok Hl. pose proof (getField_spec_aux name d r Hok Hl) as H.
  destruct (doc_find name d) as [v|] eqn:E; [|done]. destruct H as [r' H].
  destruct (doc_find_ok _ _ _ E Hok) as (Hn & Hv & Hle). pose proof (enc_doc_length d).
  exists r', (enc_elem name v ++ r'). split_and!; try done.
  - apply type_enc.
  - apply size_enc; [done|done|lia].
  - by apply field_name_enc.
Qed.

Lemma getField_spec_witness :
  exists e, getField [97] (enc_doc (DCons [98] VNull (DCons [97] (VInt 7) DNil))) = Ret e /\
    type e = Ret NumberInt.
Proof.
  pose proof (getField_spec [97] (DCons [98] VNull (DCons [97] (VInt 7) DNil)) []) as H.
  simpl doc_find in H. cbv iota in H. destruct H as (r' & e & E & _ & T & _).
  - cbn. unfold cstr_ok, in_s. repeat split; try (by repeat constructor); try lia;
      rewrite list_elem_of_singleton; lia.
  - reflexivity.
  - exists e. split; [exact E|exact T].
Defined.
