(* ===== verification/BsonBuilder.v ===== *)
(** * Building BSON: [BSONObjBuilder] and [BSONArrayBuilder]

    Models [chaos/common/bson/bsonobjbuilder.h] with the out-of-class members of
    [bson-inl.h].  A builder writes through a [BufBuilder], its own or that of the object it
    is nested in.  Overloads of [append] are told apart by a suffix.  The stream operators
    ([<<]) and the size tracker are left out. *)

From S2P Require Import Prelude BufBuilder Bson.

Local Open Scope Z_scope.

(** ** Doubles with integer values

    The bits of the [double] an integer of fewer than 54 bits converts to. *)
Definition double_of_Z (z : Z) : Z :=
  if z =? 0 then 0
  else
    let m := Z.abs z in
    let k := Z.log2 m in
    (if z <? 0 then 2 ^ 63 else 0) + (k + 1023) * 2 ^ 52 + (m * 2 ^ (52 - k) - 2 ^ 52).

Lemma double_of_Z_range z : Z.abs z < 2 ^ 53 -> in_u 64 (double_of_Z z).
Proof.
  intros H. unfold double_of_Z. destruct (z =? 0) eqn:E; reflect_bool; [unfold in_u; lia|]. cbv zeta.
  pose proof (Z.log2_spec (Z.abs z) ltac:(lia)) as [L1 L2]. pose proof (Z.log2_nonneg (Z.abs z)).
  set (k := Z.log2 (Z.abs z)) in *.
  assert (k <= 52) by (assert (k < 53); [apply (Z.pow_lt_mono_r_iff 2); lia|lia]).
  assert (2 ^ 52 = 2 ^ k * 2 ^ (52 - k)) as E52 by (rewrite <- Z.pow_add_r by lia; f_equal; lia).
  rewrite Z.pow_succ_r in L2 by lia. assert (0 < 2 ^ (52 - k)) by (apply Z.pow_pos_nonneg; lia).
  assert (2 ^ 52 <= Z.abs z * 2 ^ (52 - k) < 2 * 2 ^ 52) as Hm by nia.
  unfold in_u.
  change (2 ^ 64) with (2 * 2 ^ 63). change (2 ^ 63) with (2048 * 2 ^ 52) in *.
  destruct (z <? 0); nia.
Qed.

(** The conversion is exact, and truncation is its inverse. *)
Lemma double_trunc_of_Z z : Z.abs z < 2 ^ 53 -> double_trunc (double_of_Z z) = Some z.
Proof.
  intros H. unfold double_of_Z. destruct (z =? 0) eqn:E; reflect_bool; [by subst|]. cbv zeta.
  pose proof (Z.log2_spec (Z.abs z) ltac:(lia)) as [L1 L2]. pose proof (Z.log2_nonneg (Z.abs z)).
  set (k := Z.log2 (Z.abs z)) in *.
  assert (k <= 52) by (assert (k < 53); [apply (Z.pow_lt_mono_r_iff 2); lia|lia]).
  assert (2 ^ 52 = 2 ^ k * 2 ^ (52 - k)) as E52 by (rewrite <- Z.pow_add_r by lia; f_equal; lia).
  rewrite Z.pow_succ_r in L2 by lia. assert (0 < 2 ^ (52 - k)) by (apply Z.pow_pos_nonneg; lia).
  assert (2 ^ 52 <= Z.abs z * 2 ^ (52 - k) < 2 * 2 ^ 52) as Hm by nia.
  set (f := Z.abs z * 2 ^ (52 - k) - 2 ^ 52). set (s := if z <? 0 then 1 else 0).
  replace ((if z <? 0 then 2 ^ 63 else 0) + (k + 1023) * 2 ^ 52 + f)
    with (s * 2 ^ 63 + (k + 1023) * 2 ^ 52 + f) by (unfold s; destruct (z <? 0); lia).
  set (bits := s * 2 ^ 63 + (k + 1023) * 2 ^ 52 + f).
  assert (0 <= f < 2 ^ 52) as Hf by (unfold f; lia).
  assert (0 <= s <= 1) as Hs by (unfold s; destruct (z <? 0); lia).
  assert (bits / 2 ^ 63 = s) as B1.
  { symmetry. apply (Z.div_unique _ _ _ ((k + 1023) * 2 ^ 52 + f)); [left|unfold bits; ring].
    change (2 ^ 63) with (2048 * 2 ^ 52). nia. }
  assert ((bits / 2 ^ 52) mod 2048 = k + 1023) as B2.
  { assert (bits / 2 ^ 52 = s * 2048 + (k + 1023)) as ->.
    { symmetry. apply (Z.div_unique _ _ _ f); [left; lia|]. unfold bits.
      change (2 ^ 63) with (2048 * 2 ^ 52). lia. }
    rewrite Z.add_comm, Z.mod_add by lia. apply Z.mod_small. lia. }
  assert (bits mod 2 ^ 52 = f) as B3.
  { unfold bits. change (2 ^ 63) with (2048 * 2 ^ 52).
    replace (s * (2048 * 2 ^ 52) + (k + 1023) * 2 ^ 52 + f) with (f + (s * 2048 + (k + 1023)) * 2 ^ 52) by lia.
    rewrite Z.mod_add by lia. by apply Z.mod_small. }
  unfold double_trunc. rewrite !Z.shiftr_div_pow2 by lia.
  change 2047 with (Z.ones 11). change (2 ^ 52 - 1) with (Z.ones 52). rewrite !Z.land_ones by lia.
  change (2 ^ 11) with 2048. rewrite B1, B2, B3. change (Z.ones 11) with 2047.
  rewrite (proj2 (Z.eqb_neq (k + 1023) 2047)), (proj2 (Z.eqb_neq (k + 1023) 0)) by lia.
  assert ((if 0 <=? k + 1023 - 1075 then (f + 2 ^ 52) * 2 ^ (k + 1023 - 1075)
           else (f + 2 ^ 52) / 2 ^ (- (k + 1023 - 1075))) = Z.abs z) as ->.
  { replace (f + 2 ^ 52) with (Z.abs z * 2 ^ (52 - k)) by (unfold f; lia).
    destruct (0 <=? k + 1023 - 1075) eqn:E0; reflect_bool.
    - assert (k = 52) as -> by lia. simpl. lia.
    - replace (- (k + 1023 - 1075)) with (52 - k) by lia. apply Z.div_mul. lia. }
  unfold s. destruct (z <? 0) eqn:E1; reflect_bool; simpl; f_equal; lia.
Qed.

(** ** Decimal numerals: [numStr] *)

Fixpoint digits (fuel : nat) (n : Z) : list Z :=
  match fuel with
  | O => []
  | S fuel => (if n <? 10 then [] else digits fuel (n / 10)) ++ [48 + n mod 10]
  end.

Definition numStr (i : Z) : list Z := if i <? 0 then 45 :: digits 11 (- i) else digits 11 i.

Lemma digits_ok fuel n : cstr_ok (digits fuel n).
Proof.
  revert n. induction fuel as [|fuel IH]; intros n; simpl.
  - split; [constructor|set_solver].
  - assert (cstr_ok [48 + n mod 10]) as [H1 H2].
    { pose proof (Z.mod_pos_bound n 10). split.
      - repeat constructor; unfold is_byte; lia.
      - rewrite list_elem_of_singleton. lia. }
    destruct (n <? 10); [by split|]. destruct (IH (n / 10)) as [H3 H4]. split.
    + by apply bytes_app.
    + rewrite elem_of_app. tauto.
Qed.

Lemma numStr_ok i : cstr_ok (numStr i).
Proof.
  unfold numStr. destruct (i <? 0); [|apply digits_ok]. destruct (digits_ok 11 (- i)) as [H1 H2]. split.
  - constructor; [unfold is_byte; lia|done].
  - rewrite not_elem_of_cons. split; [lia|done].
Qed.

Section Builders.
Context (junk : Z).

(** ** [BSONObjBuilder] *)

Record BSONObjBuilder := mkOB {
  _b : Buf.BufBuilder;
  _offset : Z;
  _doneCalled : bool;
  owned : bool }.

Definition with_b (B : BSONObjBuilder) (b : Buf.BufBuilder) : BSONObjBuilder :=
  mkOB b (_offset B) (_doneCalled B) (owned B).

(** Run an operation of the buffer. *)
Definition on_b (f : Buf.BufBuilder -> outcome Buf.BufBuilder) (B : BSONObjBuilder) :
    outcome BSONObjBuilder := b ← f (_b B); mret (with_b B b).

Definition new_BSONObjBuilder (initsize : Z) : outcome BSONObjBuilder :=
  b ← Buf.appendNum_unsigned junk 0 (Buf.new_BufBuilder junk (initsize + 4));
  b ← Buf.skip junk 4 b;
  mret (mkOB b 4 false true).

(** The constructor on an existing buffer, for nested objects. *)
Definition sub_BSONObjBuilder (baseBuilder : Buf.BufBuilder) : outcome BSONObjBuilder :=
  b ← Buf.skip junk 4 baseBuilder;
  mret (mkOB b (Buf.len baseBuilder) false false).

(** The first two writes of every element. *)
Definition header (t : Z) (name : list Z) (b : Buf.BufBuilder) : outcome Buf.BufBuilder :=
  b ← Buf.appendNum_char junk t b; Buf.appendStr junk name true b.

Definition append_elem (e : BSONElement) (B : BSONObjBuilder) : outcome BSONObjBuilder :=
  x ← eoo e; check 0 (negb x);;
  n ← size e;
  if n <? 0 then Fault else raw ← access (buf_read e 0 (Z.to_nat n)); on_b (Buf.appendBuf junk raw) B.

Definition appendAs (e : BSONElement) (name : list Z) (B : BSONObjBuilder) : outcome BSONObjBuilder :=
  x ← eoo e; check 0 (negb x);;
  t ← type e;
  v ← value e;
  n ← valuesize e;
  if n <? 0 then Fault
  else raw ← access (buf_read v 0 (Z.to_nat n));
       on_b (fun b => b ← header t name b; Buf.appendBuf junk raw b) B.

(** The bytes of an object argument. *)
Definition obj_bytes (o : BSONObj) : outcome (list Z) :=
  n ← objsize o; if n <? 0 then Fault else access (buf_read o 0 (Z.to_nat n)).

Definition append_obj (name : list Z) (subObj : BSONObj) (B : BSONObjBuilder) : outcome BSONObjBuilder :=
  raw ← obj_bytes subObj; on_b (fun b => b ← header Object name b; Buf.appendBuf junk raw b) B.

Definition appendObject (name : list Z) (objdata : list Z) (sz : Z) (B : BSONObjBuilder) :
    outcome BSONObjBuilder :=
  sz ← (if sz =? 0 then load_int objdata else mret sz);
  check 0 ((4 <? sz) && (sz <? 100000000));;
  raw ← access (buf_read objdata 0 (Z.to_nat sz));
  on_b (fun b => b ← header Object name b; Buf.appendBuf junk raw b) B.

Definition subobjStart (name : list Z) (B : BSONObjBuilder) : outcome BSONObjBuilder :=
  on_b (header Object name) B.
Definition subarrayStart (name : list Z) (B : BSONObjBuilder) : outcome BSONObjBuilder :=
  on_b (header Array name) B.

Definition appendArray (name : list Z) (subObj : BSONObj) (B : BSONObjBuilder) : outcome BSONObjBuilder :=
  raw ← obj_bytes subObj; on_b (fun b => b ← header Array name b; Buf.appendBuf junk raw b) B.

Definition appendBool (name : list Z) (v : Z) : BSONObjBuilder -> outcome BSONObjBuilder :=
  on_b (fun b => b ← header Bool name b; Buf.appendNum_char junk (if v =? 0 then 0 else 1) b).
Definition append_bool (name : list Z) (v : bool) : BSONObjBuilder -> outcome BSONObjBuilder :=
  on_b (fun b => b ← header Bool name b; Buf.appendNum_char junk (if v then 1 else 0) b).
Definition append_int (name : list Z) (n : Z) : BSONObjBuilder -> outcome BSONObjBuilder :=
  on_b (fun b => b ← header NumberInt name b; Buf.appendNum_int junk n b).
Definition append_unsigned (name : list Z) (n : Z) : BSONObjBuilder -> outcome BSONObjBuilder :=
  append_int name (s32 n).
Definition append_ll (name : list Z) (n : Z) : BSONObjBuilder -> outcome BSONObjBuilder :=
  on_b (fun b => b ← header NumberLong name b; Buf.appendNum_ll junk n b).
Definition append_double (name : list Z) (bits : Z) : BSONObjBuilder -> outcome BSONObjBuilder :=
  on_b (fun b => b ← header NumberDouble name b; Buf.appendNum_double junk bits b).

(** [max(int)/2] is 1073741823. *)
Definition appendIntOrLL (name : list Z) (n : Z) : BSONObjBuilder -> outcome BSONObjBuilder :=
  if ((- 1073741823 <? n) && (n <? 1073741823))%bool then append_int name n else append_ll name n.
Definition appendNumber_int := append_int.
Definition appendNumber_double := append_double.
Definition appendNumber_size_t (name : list Z) (n : Z) : BSONObjBuilder -> outcome BSONObjBuilder :=
  if n <? 2 ^ 30 then append_int name n else append_ll name (s64 n).
Definition appendNumber_ll (name : list Z) (n : Z) : BSONObjBuilder -> outcome BSONObjBuilder :=
  if ((- 2 ^ 30 <? n) && (n <? 2 ^ 30))%bool then append_int name n
  else if ((- 2 ^ 40 <? n) && (n <? 2 ^ 40))%bool then append_double name (double_of_Z n)
  else append_ll name n.

Definition append_OID (name oid : list Z) : BSONObjBuilder -> outcome BSONObjBuilder :=
  on_b (fun b => b ← header jstOID name b; Buf.appendBuf junk oid b).
(** [appendOID]: an absent identifier is cleared, or the given fresh one. *)
Definition appendOID (name : list Z) (oid : option (list Z)) (generateIfBlank : bool) (fresh : list Z) :
    BSONObjBuilder -> outcome BSONObjBuilder :=
  append_OID name (match oid with
                   | Some o => o
                   | None => if generateIfBlank then fresh else replicate 12 0 end).
Definition appendTimeT (name : list Z) (dt : Z) : BSONObjBuilder -> outcome BSONObjBuilder :=
  on_b (fun b => b ← header Date name b; Buf.appendNum_ull junk (u64 (u64 dt * 1000)) b).
Definition appendDate (name : list Z) (dt : Z) : BSONObjBuilder -> outcome BSONObjBuilder :=
  on_b (fun b => b ← header Date name b; Buf.appendNum_ull junk dt b).
Definition appendRegex (name regex options : list Z) : BSONObjBuilder -> outcome BSONObjBuilder :=
  on_b (fun b => b ← header RegEx name b; b ← Buf.appendStr junk regex true b;
                 Buf.appendStr junk options true b).

(** [(int) s.size() + 1] *)
Definition strsize (s : list Z) : outcome Z := int_of (s32 (Z.of_nat (length s)) + 1).
Definition str_elem (t : Z) (name s : list Z) : BSONObjBuilder -> outcome BSONObjBuilder :=
  on_b (fun b => b ← header t name b; n ← strsize s; b ← Buf.appendNum_int junk n b;
                 Buf.appendStr junk s true b).
Definition appendCode (name code : list Z) := str_elem Code name code.
Definition appendSymbol (name symbol : list Z) := str_elem Symbol name symbol.
Definition append_StringData (name s : list Z) := str_elem String name s.
(** A buffer of [sz] bytes that ends in a null. *)
Definition append_cstr (name : list Z) (p : list Z) (sz : Z) : BSONObjBuilder -> outcome BSONObjBuilder :=
  on_b (fun b => b ← header String name b; b ← Buf.appendNum_int junk sz b;
                 if sz <? 0 then Fault else raw ← access (buf_read p 0 (Z.to_nat sz)); Buf.appendBuf junk raw b).
(** [append(name, const std::string&)] passes [str.c_str()] and [(int) str.size() + 1]. *)
Definition append_string (name s : list Z) (B : BSONObjBuilder) : outcome BSONObjBuilder :=
  n ← strsize s; append_cstr name (s ++ [0]) n B.

Definition type_only (t : Z) (name : list Z) : BSONObjBuilder -> outcome BSONObjBuilder :=
  on_b (header t name).
Definition appendNull (name : list Z) := type_only jstNULL name.
Definition appendMinKey (name : list Z) := type_only MinKey name.
Definition appendMaxKey (name : list Z) := type_only MaxKey name.
Definition appendUndefined (name : list Z) := type_only Undefined name.
Definition appendTimestamp (name : list Z) (v : Z) : BSONObjBuilder -> outcome BSONObjBuilder :=
  on_b (fun b => b ← header Timestamp name b; Buf.appendNum_ull junk v b).
Definition appendTimestamp_now (name : list Z) := appendTimestamp name 0.
Definition appendDBRef (name ns oid : list Z) : BSONObjBuilder -> outcome BSONObjBuilder :=
  on_b (fun b => b ← header DBRef name b; n ← strsize ns; b ← Buf.appendNum_int junk n b;
                 b ← Buf.appendStr junk ns true b; Buf.appendBuf junk oid b).
Definition appendBinData (name : list Z) (len t : Z) (p : list Z) : BSONObjBuilder -> outcome BSONObjBuilder :=
  on_b (fun b => b ← header BinData name b; b ← Buf.appendNum_int junk len b;
                 b ← Buf.appendNum_char junk t b;
                 if len <? 0 then Fault
                 else raw ← access (buf_read p 0 (Z.to_nat len)); Buf.appendBuf junk raw b).
Definition appendBinDataArrayDeprecated (name p : list Z) (len : Z) : BSONObjBuilder -> outcome BSONObjBuilder :=
  on_b (fun b => b ← header BinData name b; n ← int_of (len + 4); b ← Buf.appendNum_int junk n b;
                 b ← Buf.appendNum_char junk 2 b; b ← Buf.appendNum_int junk len b;
                 if len <? 0 then Fault
                 else raw ← access (buf_read p 0 (Z.to_nat len)); Buf.appendBuf junk raw b).
Definition appendCodeWScope (name code : list Z) (scope : BSONObj) (B : BSONObjBuilder) :
    outcome BSONObjBuilder :=
  k ← objsize scope; raw ← obj_bytes scope;
  on_b (fun b => b ← header CodeWScope name b;
                 b ← Buf.appendNum_int junk (s32 (4 + 4 + Z.of_nat (length code) + 1 + k)) b;
                 n ← strsize code; b ← Buf.appendNum_int junk n b;
                 b ← Buf.appendStr junk code true b; Buf.appendBuf junk raw b) B.
(** ["$where"] *)
Definition appendWhere (code : list Z) (scope : BSONObj) := appendCodeWScope [36; 119; 104; 101; 114; 101] code scope.

Definition appendElements (x : BSONObj) (B : BSONObjBuilder) : outcome BSONObjBuilder :=
  m ← isEmpty x;
  if (m : bool) then mret B
  else n ← objsize x;
       raw ← access (buf_read x 4 (Z.to_nat (n - 5)));
       on_b (Buf.appendBuf junk raw) B.

(** The memory from the start of the object on. *)
Definition obj_mem (B : BSONObjBuilder) : outcome (list Z) :=
  d ← access (Buf.data (_b B)); advance (_offset B) d.

(** [_done]: the end marker and the size. *)
Definition _done (B : BSONObjBuilder) : outcome BSONObjBuilder :=
  if _doneCalled B then mret B
  else
    b ← Buf.appendNum_char junk EOO (_b B);
    b ← Buf.store_at (_offset B) (le_bytes 4 (Buf.len b - _offset B)) b;
    mret (mkOB b (_offset B) true (owned B)).

Definition done (B : BSONObjBuilder) : outcome (BSONObj * BSONObjBuilder) :=
  B ← _done B; m ← obj_mem B; o ← mk_BSONObj m; mret (o, B).
Definition doneFast (B : BSONObjBuilder) : outcome BSONObjBuilder := _done B.

(** [obj]: the buffer goes to the object, the builder has none any more. *)
Definition obj (B : BSONObjBuilder) : outcome (BSONObj * BSONObjBuilder) :=
  check 10335 (owned B);;
  B ← doneFast B;
  m ← obj_mem B;
  o ← mk_BSONObj m;
  mret (o, with_b B (Buf.decouple (_b B))).

Definition asTempObj (B : BSONObjBuilder) : outcome (BSONObj * BSONObjBuilder) :=
  B ← _done B;
  m ← obj_mem B;
  temp ← mk_BSONObj m;
  mret (temp, mkOB (Buf.setlen (Buf.len (_b B) - 1) (_b B)) (_offset B) false (owned B)).

Definition abandon (B : BSONObjBuilder) : BSONObjBuilder := mkOB (_b B) (_offset B) true (owned B).

(** The destructor finishes a nested object that was not finished. *)
Definition delete_BSONObjBuilder (B : BSONObjBuilder) : outcome BSONObjBuilder :=
  if (negb (_doneCalled B) && bool_decide (is_Some (Buf.data (_b B))) && negb (owned B))%bool
  then _done B else mret B.

(** Iterating over what was appended so far. *)
Definition builder_iterator (B : BSONObjBuilder) : outcome BSONObjIterator :=
  m ← obj_mem B; mret (mkIt m 4 (Buf.len (_b B) - _offset B - 1)).
Definition builder_hasField (name : list Z) (B : BSONObjBuilder) : outcome bool :=
  i ← builder_iterator B; e ← getField_loop (length (it_obj i)) name i; x ← eoo e; mret (negb x).

Fixpoint field_names (fuel : nat) (i : BSONObjIterator) : outcome (list (list Z)) :=
  if more i then
    match fuel with
    | O => Fault
    | S fuel => '(e, i) ← next i; p ← fieldName e; n ← c_str p; ns ← field_names fuel i; mret (n :: ns)
    end
  else mret [].
Fixpoint append_missing (fuel : nat) (have : list (list Z)) (i : BSONObjIterator) (B : BSONObjBuilder) :
    outcome BSONObjBuilder :=
  if more i then
    match fuel with
    | O => Fault
    | S fuel =>
        '(e, i) ← next i; p ← fieldName e; n ← c_str p;
        if decide (n ∈ have) then append_missing fuel have i B
        else B ← append_elem e B; append_missing fuel have i B
    end
  else mret B.
Definition appendElementsUnique (x : BSONObj) (B : BSONObjBuilder) : outcome BSONObjBuilder :=
  i ← builder_iterator B;
  have ← field_names (length (it_obj i)) i;
  i ← iterator x;
  append_missing (length x) have i B.

(** [wrap] *)
Definition wrap (e : BSONElement) : outcome BSONObj :=
  n ← size e; k ← int_of (n + 6); B ← new_BSONObjBuilder k; B ← append_elem e B;
  '(o, _) ← obj B; mret o.
Definition wrap_as (e : BSONElement) (newName : list Z) : outcome BSONObj :=
  n ← size e; k ← int_of (n + 6); B ← new_BSONObjBuilder (s32 (k + Z.of_nat (length newName)));
  B ← appendAs e newName B; '(o, _) ← obj B; mret o.

(** ** [BSONArrayBuilder] *)

Record BSONArrayBuilder := mkAB { _i : Z; ab : BSONObjBuilder }.

Definition new_BSONArrayBuilder : outcome BSONArrayBuilder :=
  B ← new_BSONObjBuilder 512; mret (mkAB 0 B).

(** [_b.append(num(), x)] with [num()] counting. *)
Definition array_append (f : list Z -> BSONObjBuilder -> outcome BSONObjBuilder) (A : BSONArrayBuilder) :
    outcome BSONArrayBuilder :=
  B ← f (numStr (_i A)) (ab A); i ← int_of (_i A + 1); mret (mkAB i B).

Definition arr_appendNull : BSONArrayBuilder -> outcome BSONArrayBuilder := array_append appendNull.
Definition arr_append_elem (e : BSONElement) : BSONArrayBuilder -> outcome BSONArrayBuilder :=
  array_append (appendAs e).
Definition arr_done (A : BSONArrayBuilder) : outcome (BSONObj * BSONArrayBuilder) :=
  '(o, B) ← done (ab A); mret (o, mkAB (_i A) B).

Fixpoint fill_loop (k : nat) (A : BSONArrayBuilder) : outcome BSONArrayBuilder :=
  match k with O => mret A | S k => A ← arr_appendNull A; fill_loop k A end.
Definition fill (upTo : Z) (A : BSONArrayBuilder) : outcome BSONArrayBuilder :=
  check 15891 (upTo <=? 1500000);; fill_loop (Z.to_nat (upTo - _i A)) A.

(** [append(name, std::vector<T>)] and the other containers: an array of the values. *)
Fixpoint append_vals {T} (app : list Z -> T -> BSONObjBuilder -> outcome BSONObjBuilder) (i : Z)
    (vals : list T) (B : BSONObjBuilder) : outcome BSONObjBuilder :=
  match vals with
  | [] => mret B
  | x :: vals => B ← app (numStr i) x B; append_vals app (i + 1) vals B
  end.
Definition append_vector {T} (app : list Z -> T -> BSONObjBuilder -> outcome BSONObjBuilder)
    (name : list Z) (vals : list T) (B : BSONObjBuilder) : outcome BSONObjBuilder :=
  A ← new_BSONObjBuilder 512;
  A ← append_vals app 0 vals A;
  '(o, _) ← done A;
  appendArray name o B.

(** ** What the builders build *)

(** The operation that appends a given value. *)
Definition put (name : list Z) (v : val) : BSONObjBuilder -> outcome BSONObjBuilder :=
  match v with
  | VDouble bits => append_double name bits
  | VString s => append_string name s
  | VObject d => append_obj name (enc_doc d)
  | VArray d => appendArray name (enc_doc d)
  | VBinData t b => appendBinData name (Z.of_nat (length b)) t b
  | VUndefined => appendUndefined name
  | VOID b => append_OID name b
  | VBool b => append_bool name b
  | VDate ms => appendDate name ms
  | VNull => appendNull name
  | VRegEx p f => appendRegex name p f
  | VDBRef ns oid => appendDBRef name ns oid
  | VCode s => appendCode name s
  | VSymbol s => appendSymbol name s
  | VCodeWScope c d => appendCodeWScope name c (enc_doc d)
  | VInt n => append_int name n
  | VTimestamp t => appendTimestamp name t
  | VLong n => append_ll name n
  | VMinKey => appendMinKey name
  | VMaxKey => appendMaxKey name
  end.

(** [B] is in the middle of building [d], after [hdr] (which ends in the room for the
    size). *)
Record builds (hdr : list Z) (d : doc) (B : BSONObjBuilder) : Prop := {
  bu_ready : Buf.ready (_b B);
  bu_content : Buf.content (_b B) = hdr ++ enc_elems d;
  bu_offset : Z.of_nat (length hdr) = _offset B + 4;
  bu_offset0 : 0 <= _offset B;
  bu_done : _doneCalled B = false }.

Lemma builds_len hdr d B :
  builds hdr d B -> Buf.l (_b B) = Z.of_nat (length hdr) + Z.of_nat (length (enc_elems d)).
Proof.
  intros [[W _] C _ _ _]. rewrite <- (Buf.content_length _ W), C, length_app. lia.
Qed.

Lemma appends_fun f g bs : (forall b, f b = g b) -> Buf.appends g bs -> Buf.appends f bs.
Proof. intros E H b R Hm. rewrite E. by apply H. Qed.

Lemma on_b_builds hdr d B f d' :
  builds hdr d B -> Buf.appends f (enc_elems d') ->
  Z.of_nat (length hdr) + Z.of_nat (length (enc_elems d)) + Z.of_nat (length (enc_elems d')) <= BufferMaxSize ->
  exists b', on_b f B = Ret (with_b B b') /\ builds hdr (doc_app d d') (with_b B b').
Proof.
  intros Hb Hf Hm. pose proof (builds_len _ _ _ Hb) as Hl. destruct Hb as [R C O O0 D].
  destruct (Hf (_b B) R) as (b' & E & R' & L' & C'); [lia|].
  exists b'. unfold on_b. rewrite E. split; [done|]. split; simpl; try done.
  by rewrite C', C, enc_elems_app, app_assoc.
Qed.

Lemma appends_header t name :
  Z.of_nat (length name) < 2 ^ 31 - 1 -> Buf.appends (header t name) (u8 t :: enc_cstr name).
Proof.
  intros H. apply (Buf.appends_seq (Buf.appendNum_char junk t) (Buf.appendStr junk name true) [u8 t] (enc_cstr name)).
  - by apply Buf.appends_raw.
  - by apply Buf.appends_str.
Qed.

Lemma obj_bytes_enc d r :
  Z.of_nat (length (enc_doc d)) < 2 ^ 31 -> obj_bytes (enc_doc d ++ r) = Ret (enc_doc d).
Proof.
  intros H. unfold obj_bytes. rewrite objsize_enc by done. simpl_out.
  rewrite (proj2 (Z.ltb_ge _ _)) by lia. rewrite Nat2Z.id. unfold buf_read.
  rewrite decide_True by (rewrite length_app; lia). by rewrite drop_0, take_app_length.
Qed.

Lemma strsize_ok s : Z.of_nat (length s) < 2 ^ 31 - 1 -> strsize s = Ret (Z.of_nat (length s) + 1).
Proof.
  intros H. unfold strsize. rewrite swrap_small by (lia || (unfold in_s; lia)).
  unfold int_of. rewrite decide_True by (unfold in_s; lia). done.
Qed.

Lemma appends_elem t name f bs :
  Z.of_nat (length name) < 2 ^ 31 - 1 -> Buf.appends f bs ->
  Buf.appends (fun b => b ← header t name b; f b) (u8 t :: enc_cstr name ++ bs).
Proof. intros Hn Hf. apply (Buf.appends_seq _ _ (u8 t :: enc_cstr name) bs); [by apply appends_header|done]. Qed.

Lemma appends_str_elem s :
  Z.of_nat (length s) < 2 ^ 31 - 1 ->
  Buf.appends (fun b => n ← strsize s; b ← Buf.appendNum_int junk n b; Buf.appendStr junk s true b) (enc_str s).
Proof.
  intros H. eapply appends_fun; [intros b; rewrite strsize_ok by done; reflexivity|].
  apply Buf.appends_seq; [by apply Buf.appends_num|by apply Buf.appends_str].
Qed.

Lemma buf_read_all bs : buf_read bs 0 (length bs) = Some bs.
Proof. unfold buf_read. rewrite decide_True by lia. by rewrite drop_0, firstn_all. Qed.

(** Each operation appends the encoding of its element. *)
Definition appends_op (op : BSONObjBuilder -> outcome BSONObjBuilder) (bs : list Z) : Prop :=
  exists f, Buf.appends f bs /\ forall B, op B = on_b f B.

Lemma appends_op_on_b f bs : Buf.appends f bs -> appends_op (on_b f) bs.
Proof. intros H. by exists f. Qed.

(** The values whose encoding has several parts. *)
Lemma put_string_appends name s :
  Z.of_nat (length name) < 2 ^ 31 - 1 -> Z.of_nat (length s) + 5 < 2 ^ 31 ->
  appends_op (put name (VString s)) (u8 String :: enc_cstr name ++ enc_str s).
Proof.
  intros Hn Hl.
  exists (fun b => b ← header String name b;
     (b ← Buf.appendNum_int junk (Z.of_nat (length s) + 1) b; Buf.appendBuf junk (s ++ [0]) b)). split.
  - apply appends_elem; [done|].
    apply (Buf.appends_seq (Buf.appendNum_int junk (Z.of_nat (length s) + 1)) (Buf.appendBuf junk (s ++ [0]))); [by apply Buf.appends_num|].
    apply Buf.appends_buf. rewrite length_app. simpl. lia.
  - intros B. cbn [put]. unfold append_string. rewrite strsize_ok by lia. simpl_out. unfold append_cstr.
    rewrite (proj2 (Z.ltb_ge _ _)) by lia.
    replace (Z.to_nat (Z.of_nat (length s) + 1)) with (length (s ++ [0])) by (rewrite length_app; simpl; lia).
    by rewrite buf_read_all.
Qed.

Lemma put_code_w_scope_appends name c d :
  Z.of_nat (length name) < 2 ^ 31 - 1 ->
  4 + Z.of_nat (length (enc_str c)) + Z.of_nat (length (enc_doc d)) < 2 ^ 31 ->
  appends_op (put name (VCodeWScope c d)) (u8 CodeWScope :: enc_cstr name ++ enc_val (VCodeWScope c d)).
Proof.
  intros Hn Hl. rewrite enc_val_cws. pose proof (enc_str_length c). pose proof (enc_doc_length d).
  exists (fun b => b ← header CodeWScope name b;
     (b ← Buf.appendNum_int junk (4 + Z.of_nat (length (enc_str c)) + Z.of_nat (length (enc_doc d))) b;
      b ← (n ← strsize c; b ← Buf.appendNum_int junk n b; Buf.appendStr junk c true b);
      Buf.appendBuf junk (enc_doc d) b)). split.
  - apply appends_elem; [done|]. apply Buf.appends_seq; [by apply Buf.appends_num|].
    apply Buf.appends_seq; [apply appends_str_elem; lia|apply Buf.appends_buf; lia].
  - intros B. cbn [put]. unfold appendCodeWScope.
    pose proof (objsize_enc d [] ltac:(lia)) as E1. pose proof (obj_bytes_enc d [] ltac:(lia)) as E2.
    rewrite app_nil_r in E1, E2. rewrite E1, E2. simpl_out. unfold on_b. f_equal.
    destruct (header CodeWScope name (_b B)) as [b| |]; simpl_out; try done.
    replace (s32 _) with (4 + Z.of_nat (length (enc_str c)) + Z.of_nat (length (enc_doc d))).
    2:{ rewrite swrap_small by (lia || (unfold in_s; lia)). lia. }
    destruct (Buf.appendNum_int _ _ b) as [b2| |]; simpl_out; try done.
    rewrite strsize_ok by lia. simpl_out. by destruct (Buf.appendNum_int _ _ b2).
Qed.

Lemma put_appends name v :
  val_ok v -> Z.of_nat (length (enc_elem name v)) < 2 ^ 31 -> appends_op (put name v) (enc_elem name v).
Proof.
  intros Hv Hl. rewrite enc_elem_length in Hl. unfold enc_elem.
  assert (Z.of_nat (length name) < 2 ^ 31 - 1) as Hn by lia.
  assert (forall t s, enc_val v = enc_str s -> appends_op (str_elem t name s) (u8 t :: enc_cstr name ++ enc_str s)) as Hstr.
  { intros t s Hs. rewrite Hs, enc_str_length in Hl. apply appends_op_on_b, appends_elem; [done|].
    apply appends_str_elem. lia. }
  assert (forall t d, enc_val v = enc_doc d ->
    appends_op (fun B => raw ← obj_bytes (enc_doc d); on_b (fun b => b ← header t name b; Buf.appendBuf junk raw b) B)
      (u8 t :: enc_cstr name ++ enc_doc d)) as Hobj.
  { intros t d Hd. rewrite Hd in Hl.
    exists (fun b => b ← header t name b; Buf.appendBuf junk (enc_doc d) b). split.
    - apply appends_elem; [done|]. apply Buf.appends_buf. lia.
    - intros B. rewrite <- (app_nil_r (enc_doc d)) at 1. by rewrite obj_bytes_enc by lia. }
  destruct v as [b|s|d|d|t b| |b|b|ms| |p f|ns oid|s|s|c d|z|t|z| |]; cbn [put type_of];
    try (apply appends_op_on_b, appends_elem; [done|by apply Buf.appends_num]);
    try (apply appends_op_on_b; eapply Buf.appends_ext; [by apply appends_header|by rewrite app_nil_r]).
  - cbn [enc_val] in Hl. rewrite enc_str_length in Hl. apply put_string_appends; lia.
  - by apply Hobj.
  - by apply Hobj.
  - apply appends_op_on_b, appends_elem; [done|].
    cbn [enc_val] in Hl. rewrite length_app, length_enc_int in Hl. cbn [length] in Hl. destruct Hv as [Ht Hb].
    apply (Buf.appends_seq (Buf.appendNum_int junk (Z.of_nat (length b)))); [by apply Buf.appends_num|].
    change (t :: b) with ([t] ++ b). apply Buf.appends_seq.
    + eapply Buf.appends_ext; [by apply Buf.appends_num|]. simpl. f_equal. by apply Z.mod_small.
    + eapply appends_fun; [|apply Buf.appends_buf; lia].
      intros b'. rewrite (proj2 (Z.ltb_ge _ _)) by lia. by rewrite Nat2Z.id, buf_read_all.
  - destruct Hv as [Hb _]. apply appends_op_on_b, appends_elem; [done|]. apply Buf.appends_buf. lia.
  - apply appends_op_on_b, appends_elem; [done|]. eapply Buf.appends_ext; [by apply Buf.appends_num|]. by destruct b.
  - cbn [enc_val] in Hl. unfold enc_cstr in Hl. rewrite !length_app in Hl. cbn [length] in Hl.
    apply appends_op_on_b, appends_elem; [done|].
    apply Buf.appends_seq; apply Buf.appends_str; lia.
  - destruct Hv as (Hb & Ho & _). cbn [enc_val] in Hl. rewrite length_app, Ho in Hl. pose proof (enc_str_length ns).
    apply appends_op_on_b, appends_elem; [done|].
    eapply appends_fun; [intros b; rewrite strsize_ok by lia; reflexivity|]. cbn [enc_val].
    unfold enc_str. rewrite <- app_assoc.
    apply (Buf.appends_seq (Buf.appendNum_int junk (Z.of_nat (length ns) + 1))); [by apply Buf.appends_num|].
    apply Buf.appends_seq; [apply Buf.appends_str; lia|apply Buf.appends_buf; lia].
  - by apply Hstr.
  - by apply Hstr.
  - rewrite enc_val_cws, length_app, length_enc_int, length_app in Hl.
    apply put_code_w_scope_appends; lia.
Qed.

Lemma builds_op hdr d B op d' :
  builds hdr d B -> appends_op op (enc_elems d') ->
  Z.of_nat (length hdr) + Z.of_nat (length (enc_elems d)) + Z.of_nat (length (enc_elems d')) <= BufferMaxSize ->
  exists b', op B = Ret (with_b B b') /\ builds hdr (doc_app d d') (with_b B b').
Proof.
  intros Hb (f & Hf & E) Hm. rewrite E. by apply on_b_builds.
Qed.

(** Appending a value extends the document. *)
Lemma put_builds hdr d B name v :
  builds hdr d B -> val_ok v ->
  Z.of_nat (length hdr) + Z.of_nat (length (enc_elems d)) + Z.of_nat (length (enc_elem name v)) <= BufferMaxSize ->
  exists b', put name v B = Ret (with_b B b') /\ builds hdr (doc_app d (DCons name v DNil)) (with_b B b').
Proof.
  intros Hb Hv Hm. apply builds_op; [done| |].
  - rewrite enc_elems_cons. simpl enc_elems. rewrite app_nil_r. apply put_appends; [done|].
    unfold BufferMaxSize in Hm. lia.
  - rewrite enc_elems_cons. simpl enc_elems. by rewrite app_nil_r.
Qed.

(** The fresh builder. *)
Lemma new_BSONObjBuilder_builds initsize :
  0 <= initsize < 2 ^ 29 -> exists B hdr, new_BSONObjBuilder initsize = Ret B /\ builds hdr DNil B /\
    length hdr = 8%nat /\ owned B = true.
Proof.
  intros Hi. unfold new_BSONObjBuilder.
  destruct (Buf.new_BufBuilder_wf junk (initsize + 4)) as [W0 C0]; [lia|].
  assert (Buf.ready (Buf.new_BufBuilder junk (initsize + 4))) as R0.
  { split; [done|]. apply (Buf.wf_some _ W0). simpl. lia. }
  destruct (Buf.appends_num junk 4 4 0 eq_refl _ R0) as (b1 & E1 & [W1 S1] & L1 & C1); [unfold BufferMaxSize; simpl; lia|].
  unfold Buf.appendNum_unsigned. rewrite E1. simpl_out.
  rewrite le_bytes_length in L1. change (Buf.l (Buf.new_BufBuilder junk (initsize + 4))) with 0 in L1.
  destruct (Buf.grow_spec junk 4 b1 W1) as (b2 & E2 & W2 & L2 & C2); [lia|unfold BufferMaxSize; lia|].
  unfold Buf.skip. rewrite E2. simpl_out. exists (mkOB b2 4 false true), (Buf.content b2).
  pose proof (Buf.content_length _ W2). split; [done|]. split_and!; [|lia|done].
  split; simpl; try done.
  - split; [done|]. by eapply Buf.grow_some.
  - by rewrite app_nil_r.
  - lia.
Qed.

(** Finishing: the memory at the offset holds the encoded document. *)
Lemma _done_builds hdr d B :
  builds hdr d B ->
  Z.of_nat (length hdr) + Z.of_nat (length (enc_elems d)) + 1 <= BufferMaxSize ->
  exists b' r m, _done B = Ret (mkOB b' (_offset B) true (owned B)) /\ Buf.ready b' /\
    Buf.data b' = Some m /\ drop (Z.to_nat (_offset B)) m = enc_doc d ++ r /\
    Buf.l b' = Buf.l (_b B) + 1 /\
    Buf.content b' = take (Z.to_nat (_offset B)) hdr ++ enc_doc d.
Proof.
  intros Hb Hm. pose proof (builds_len _ _ _ Hb) as Hl. destruct Hb as [R C O O0 D].
  unfold _done. rewrite D.
  destruct (Buf.appends_num junk 1 1 EOO eq_refl (_b B) R) as (b1 & E1 & R1 & L1 & C1); [simpl; lia|].
  unfold Buf.appendNum_char. rewrite E1. simpl_out. rewrite le_bytes_length in L1.
  destruct (Buf.store_at_spec (_offset B) (le_bytes 4 (Buf.len b1 - _offset B)) b1 R1 O0) as (m & E2 & R2 & C2).
  { rewrite le_bytes_length. unfold BufferMaxSize in *. lia. }
  rewrite E2. simpl_out. set (b2 := Buf.mkBB (Some m) (Buf.l b1) (Buf.size b1)) in *.
  rewrite le_bytes_length in C2.
  assert (take (Z.to_nat (_offset B)) (Buf.content b1) = take (Z.to_nat (_offset B)) hdr) as T1.
  { rewrite C1, C, <- app_assoc, take_app_le by lia. done. }
  assert (drop (Z.to_nat (_offset B) + 4) (Buf.content b1) = enc_elems d ++ [0]) as T2.
  { rewrite C1, C, <- app_assoc. rewrite drop_app_ge by lia.
    replace (Z.to_nat (_offset B) + 4 - length hdr)%nat with 0%nat by lia. done. }
  rewrite T1, T2 in C2.
  assert (Buf.len b1 - _offset B = Z.of_nat (length (enc_elems d)) + 5) as Hsz by (unfold Buf.len; lia).
  rewrite Hsz in C2. destruct (Buf.content_prefix b2 m (proj1 R2) eq_refl) as [r Hr].
  exists b2, r, m. split_and!; try done.
  - rewrite Hr, C2, <- app_assoc. rewrite drop_app_ge by (rewrite length_take; lia).
    rewrite length_take, Nat.min_l by lia. rewrite Nat.sub_diag. simpl drop. unfold enc_doc. by rewrite <- !app_assoc.
Qed.

Lemma obj_mem_done b off dc ow m : Buf.data b = Some m -> 0 <= off ->
  obj_mem (mkOB b off dc ow) = Ret (drop (Z.to_nat off) m).
Proof.
  intros H Ho. unfold obj_mem. simpl. rewrite H. simpl_out. unfold access, advance.
  simpl_out. by rewrite (proj2 (Z.ltb_ge _ _)) by lia.
Qed.

(** A peek leaves the builder as it was. *)
Lemma asTempObj_builds hdr d B :
  builds hdr d B -> Z.of_nat (length hdr) <= 2 ^ 24 ->
  Z.of_nat (length (enc_doc d)) <= BSONObjMaxInternalSize ->
  exists B' hdr' r, asTempObj B = Ret (enc_doc d ++ r, B') /\ builds hdr' d B' /\
    length hdr' = length hdr /\ _offset B' = _offset B /\ owned B' = owned B.
Proof.
  intros Hb Hh Hd. pose proof (bu_offset0 _ _ _ Hb) as O0. pose proof (bu_offset _ _ _ Hb) as O.
  pose proof (enc_doc_length d) as HL. unfold BSONObjMaxInternalSize, BSONObjMaxUserSize in Hd.
  pose proof (builds_len _ _ _ Hb) as Hl.
  destruct (_done_builds _ _ _ Hb) as (b' & r & m & E & R & Em & Hm & L & C);
    [unfold BufferMaxSize; lia|].
  set (hdr' := take (Z.to_nat (_offset B)) hdr ++ enc_int (Z.of_nat (length (enc_elems d)) + 5)).
  assert (length hdr' = length hdr) as Hh'.
  { unfold hdr'. rewrite length_app, length_take, length_enc_int. lia. }
  assert (Buf.content b' = hdr' ++ enc_elems d ++ [0]) as C' by (unfold hdr'; by rewrite C, <- app_assoc).
  clear C. rename C' into C.
  unfold asTempObj. rewrite E. simpl_out. rewrite (obj_mem_done _ _ _ _ m) by done. simpl_out.
  rewrite Hm, mk_BSONObj_enc by done. simpl_out.
  eexists _, hdr', r. split; [done|]. destruct R as [[Wl Wd Ws Wz] S]. split_and!; try done.
  split; simpl; try done.
  - split; [|done]. split; simpl; unfold Buf.len; [lia|done|done|done].
  - unfold Buf.content, Buf.setlen, Buf.len in *. simpl. rewrite L in *.
    replace (Z.to_nat (Buf.l (_b B) + 1 - 1)) with (length hdr' + length (enc_elems d))%nat by lia.
    assert (take (length hdr' + length (enc_elems d)) (take (Z.to_nat (Buf.l (_b B) + 1)) (default [] (Buf.data b')))
      = hdr' ++ enc_elems d) as <-.
    { rewrite C, app_assoc, <- length_app. apply take_app_length. }
    rewrite take_take. f_equal. lia.
  - lia.
Qed.

(** [done] gives the object and leaves the builder finished: another [done] gives it again. *)
Lemma done_builds hdr d B :
  builds hdr d B -> Z.of_nat (length hdr) <= 2 ^ 24 -> Z.of_nat (length (enc_doc d)) <= BSONObjMaxInternalSize ->
  exists B' r, done B = Ret (enc_doc d ++ r, B') /\ done B' = Ret (enc_doc d ++ r, B') /\
    Buf.content (_b B') = take (Z.to_nat (_offset B)) hdr ++ enc_doc d.
Proof.
  intros Hb Hh Hd. pose proof (bu_offset0 _ _ _ Hb) as O0. pose proof (enc_doc_length d) as HL.
  unfold BSONObjMaxInternalSize, BSONObjMaxUserSize in Hd.
  destruct (_done_builds _ _ _ Hb) as (b' & r & m & E & _ & Em & Hm & _ & C); [unfold BufferMaxSize; lia|].
  eexists _, r. unfold done. rewrite E. simpl_out. rewrite (obj_mem_done _ _ _ _ m) by done. simpl_out.
  rewrite Hm, mk_BSONObj_enc by done. simpl_out. split; [done|]. split; [|exact C].
  unfold _done. cbn [_doneCalled]. simpl_out. rewrite (obj_mem_done _ _ _ _ m) by done. simpl_out.
  by rewrite Hm, mk_BSONObj_enc by done.
Qed.

(** *** Copying *)

Lemma isEmpty_enc d r : Z.of_nat (length (enc_doc d)) < 2 ^ 31 ->
  isEmpty (enc_doc d ++ r) = Ret (match d with DNil => true | _ => false end).
Proof.
  intros H. unfold isEmpty. rewrite objsize_enc by done. simpl_out. rewrite enc_doc_length.
  destruct d as [|n v d]; [done|].
  rewrite enc_elems_cons, length_app. pose proof (enc_elem_length n v).
  rewrite (proj2 (Z.leb_gt _ _)) by lia. done.
Qed.

Lemma appendElements_builds hdr d B d' r :
  builds hdr d B ->
  Z.of_nat (length hdr) + Z.of_nat (length (enc_elems d)) + Z.of_nat (length (enc_elems d')) <= BufferMaxSize ->
  exists b', appendElements (enc_doc d' ++ r) B = Ret (with_b B b') /\ builds hdr (doc_app d d') (with_b B b').
Proof.
  intros Hb Hm. pose proof (enc_doc_length d') as HL. unfold BufferMaxSize in Hm.
  unfold appendElements. rewrite isEmpty_enc by lia. simpl_out. destruct d' as [|n' v' d0] eqn:Ed'.
  - exists (_b B). rewrite doc_app_nil. split; [by destruct B|]. by destruct B.
  - rewrite <- Ed' in *. rewrite objsize_enc by lia. simpl_out.
    assert (buf_read (enc_doc d' ++ r) 4 (Z.to_nat (Z.of_nat (length (enc_doc d')) - 5)) = Some (enc_elems d')) as ->.
    { rewrite HL. unfold buf_read. rewrite decide_True by (rewrite length_app; lia). f_equal.
      unfold enc_doc. rewrite <- !app_assoc.
      change 4%nat with (length (enc_int (Z.of_nat (length (enc_elems d')) + 5))) at 1.
      rewrite drop_app_length. rewrite take_app_le by lia. apply take_ge. lia. }
    simpl_out. apply on_b_builds; [done| |unfold BufferMaxSize; lia]. apply Buf.appends_buf. lia.
Qed.

Lemma append_elem_builds hdr d B n v r :
  builds hdr d B -> cstr_ok n -> val_ok v ->
  Z.of_nat (length hdr) + Z.of_nat (length (enc_elems d)) + Z.of_nat (length (enc_elem n v)) <= BufferMaxSize ->
  exists b', append_elem (enc_elem n v ++ r) B = Ret (with_b B b') /\
    builds hdr (doc_app d (DCons n v DNil)) (with_b B b').
Proof.
  intros Hb Hn Hv Hm. unfold append_elem. rewrite eoo_enc. unfold check. simpl_out.
  rewrite size_enc by (done || (unfold BufferMaxSize in Hm; lia)). simpl_out.
  rewrite (proj2 (Z.ltb_ge _ _)) by lia. rewrite Nat2Z.id.
  assert (buf_read (enc_elem n v ++ r) 0 (length (enc_elem n v)) = Some (enc_elem n v)) as ->.
  { unfold buf_read. rewrite decide_True by (rewrite length_app; lia). by rewrite drop_0, take_app_length. }
  simpl_out. apply on_b_builds; [done| |].
  - rewrite enc_elems_cons. simpl enc_elems. rewrite app_nil_r. apply Buf.appends_buf. unfold BufferMaxSize in Hm. lia.
  - rewrite enc_elems_cons. simpl enc_elems. by rewrite app_nil_r.
Qed.

(** *** Whole documents *)

Fixpoint put_doc (d : doc) (B : BSONObjBuilder) : outcome BSONObjBuilder :=
  match d with DNil => mret B | DCons n v d => B ← put n v B; put_doc d B end.

Lemma put_doc_builds hdr d' : forall d B,
  builds hdr d B -> doc_ok d' ->
  Z.of_nat (length hdr) + Z.of_nat (length (enc_elems d)) + Z.of_nat (length (enc_elems d')) <= BufferMaxSize ->
  exists b', put_doc d' B = Ret (with_b B b') /\ builds hdr (doc_app d d') (with_b B b').
Proof.
  induction d' as [|n v d' IH]; intros d B Hb Hok Hm.
  - exists (_b B). rewrite doc_app_nil. by destruct B.
  - destruct Hok as (Hn & Hv & Hd). rewrite enc_elems_cons, length_app in Hm. simpl put_doc.
    destruct (put_builds _ _ _ n v Hb Hv) as (b1 & E1 & H1); [lia|]. rewrite E1. simpl_out.
    destruct (IH (doc_app d (DCons n v DNil)) (with_b B b1) H1 Hd) as (b2 & E2 & H2).
    { rewrite enc_elems_app, enc_elems_cons, !length_app. cbn [enc_elems length]. lia. }
    exists b2. rewrite E2. rewrite doc_app_assoc in H2. split; [done|exact H2].
Qed.

(** Nested objects: started with [subobjStart], written by a builder on the same
    buffer, finished with [_done]. *)
Lemma subobj_builds hdr d B name d' :
  builds hdr d B -> doc_ok d' ->
  Z.of_nat (length hdr) + Z.of_nat (length (enc_elems d)) + Z.of_nat (length (enc_elem name (VObject d'))) <= BufferMaxSize ->
  exists B1 S S1 S2, subobjStart name B = Ret B1 /\ sub_BSONObjBuilder (_b B1) = Ret S /\
    put_doc d' S = Ret S1 /\ _done S1 = Ret S2 /\
    builds hdr (doc_app d (DCons name (VObject d') DNil)) (with_b B1 (_b S2)).
Proof.
  intros Hb Hok Hm. pose proof (builds_len _ _ _ Hb) as Hl. pose proof (enc_elem_length name (VObject d')) as HL.
  pose proof (enc_doc_length d') as HLd. change (enc_val (VObject d')) with (enc_doc d') in HL.
  destruct Hb as [R C O O0 D].
  destruct (appends_header Object name) with (b := _b B) as (b1 & E1 & R1 & L1 & C1).
  { unfold BufferMaxSize in Hm. lia. } { done. }
  { unfold enc_cstr. simpl. rewrite length_app. simpl. lia. }
  set (h := u8 Object :: enc_cstr name) in *.
  assert (Z.of_nat (length h) = Z.of_nat (length name) + 2) as Hh.
  { unfold h, enc_cstr. simpl. rewrite length_app. simpl. lia. }
  exists (with_b B b1). unfold subobjStart, on_b. rewrite E1.
  destruct (Buf.grow_spec junk 4 b1 (proj1 R1)) as (b2 & E2 & W2 & L2 & C2); [lia|lia|].
  exists (mkOB b2 (Buf.len b1) false false). unfold sub_BSONObjBuilder, Buf.skip. simpl _b. rewrite E2.
  set (sub := mkOB b2 (Buf.len b1) false false).
  assert (builds (Buf.content b2) DNil sub) as Hsub.
  { pose proof (Buf.content_length _ W2). split; simpl; try done.
    - split; [done|]. eapply Buf.grow_some; [exact E2|apply (proj2 R1)].
    - by rewrite app_nil_r.
    - unfold Buf.len. lia.
    - unfold Buf.len. lia. }
  pose proof (Buf.content_length _ W2) as Hc2.
  destruct (put_doc_builds _ d' DNil sub Hsub Hok) as (b3 & E3 & H3); [simpl; lia|].
  destruct (_done_builds _ _ _ H3) as (b4 & r & m & E4 & R4 & Em & Hmem & L4 & C4); [simpl doc_app; lia|].
  exists (with_b sub b3), (mkOB b4 (Buf.len b1) true false). split_and!; try done.
  split; simpl; try done. rewrite C4. simpl _offset. simpl doc_app. unfold Buf.len.
  assert (take (Z.to_nat (Buf.l b1)) (Buf.content b2) = Buf.content b1) as ->.
  { rewrite <- C2. unfold Buf.content. rewrite take_take. f_equal. lia. }
  rewrite C1, C, enc_elems_app, enc_elems_cons. simpl enc_elems. rewrite app_nil_r.
  unfold enc_elem, h. simpl. by rewrite <- !app_assoc.
Qed.

(** The array builder: the values get the names 0, 1, ... *)
Fixpoint arr_doc (i : Z) (vs : list val) : doc :=
  match vs with [] => DNil | v :: vs => DCons (numStr i) v (arr_doc (i + 1) vs) end.

Lemma arr_doc_snoc i vs v :
  arr_doc i (vs ++ [v]) = doc_app (arr_doc i vs) (DCons (numStr (i + Z.of_nat (length vs))) v DNil).
Proof.
  revert i. induction vs as [|x vs IH]; intros i; simpl; [by rewrite Z.add_0_r|].
  rewrite IH. do 4 f_equal. lia.
Qed.

Lemma arr_doc_ok i vs : Forall val_ok vs -> doc_ok (arr_doc i vs).
Proof.
  intros H. revert i. induction H as [|v vs Hv _ IH]; intros i; simpl; [done|].
  split_and!; [apply numStr_ok|done|done].
Qed.

Record arr_builds (hdr : list Z) (vs : list val) (A : BSONArrayBuilder) : Prop := {
  ar_builds : builds hdr (arr_doc 0 vs) (ab A);
  ar_i : _i A = Z.of_nat (length vs) }.

Lemma array_append_builds hdr vs A op v :
  arr_builds hdr vs A -> appends_op (op (numStr (_i A))) (enc_elem (numStr (_i A)) v) ->
  Z.of_nat (length hdr) + Z.of_nat (length (enc_elems (arr_doc 0 vs)))
    + Z.of_nat (length (enc_elem (numStr (_i A)) v)) <= BufferMaxSize ->
  Z.of_nat (length vs) < 2 ^ 31 - 1 ->
  exists A', array_append op A = Ret A' /\ arr_builds hdr (vs ++ [v]) A'.
Proof.
  intros [Hb Hi] Hop Hm Hl. unfold array_append.
  destruct (builds_op _ _ _ (op (numStr (_i A))) (DCons (numStr (_i A)) v DNil) Hb) as (b' & E & H').
  { rewrite enc_elems_cons. simpl enc_elems. rewrite app_nil_r. apply Hop. }
  { rewrite enc_elems_cons. simpl enc_elems. by rewrite app_nil_r. }
  rewrite E. simpl_out. unfold int_of. rewrite decide_True by (unfold in_s; lia). simpl_out.
  eexists. split; [done|]. split; simpl.
  - by rewrite arr_doc_snoc, Z.add_0_l, <- Hi.
  - rewrite Hi, length_app. simpl. lia.
Qed.

(** ** Theorems *)

(** [C12] Building and reading are inverse: for every document whose encoding is at most the
    maximal object size, appending its fields one by one to a fresh builder succeeds, and
    [done] finishes it: after the four bytes reserved in front of every object the buffer holds
    exactly the encoding of the document, which is what
    the object points to (followed by the unused memory of the buffer), a second [done]
    gives the same object, it counts the right number of fields, and every field is found
    again with its value. *)
Theorem build_then_read d :
  doc_ok d -> Z.of_nat (length (enc_doc d)) <= BSONObjMaxInternalSize ->
  exists B0 B B' r, new_BSONObjBuilder 512 = Ret B0 /\ put_doc d B0 = Ret B /\
    done B = Ret (enc_doc d ++ r, B') /\ drop 4 (Buf.content (_b B')) = enc_doc d /\ done B' = Ret (enc_doc d ++ r, B') /\
    nFields (enc_doc d ++ r) = Ret (Z.of_nat (length (doc_list d))) /\
    forall name, match doc_find name d with
      | Some v => exists r', getField name (enc_doc d ++ r) = Ret (enc_elem name v ++ r')
      | None => getField name (enc_doc d ++ r) = Ret eoo_element
      end.
Proof.
  intros Hok Hl. pose proof (enc_doc_length d) as HL.
  destruct (new_BSONObjBuilder_builds 512) as (B0 & hdr & E0 & H0 & Hh & _); [lia|].
  assert (Z.of_nat (length (enc_doc d)) < 2 ^ 31) as Hl31.
  { unfold BSONObjMaxInternalSize, BSONObjMaxUserSize in Hl. lia. }
  destruct (put_doc_builds hdr d DNil B0 H0 Hok) as (b1 & E1 & H1).
  { unfold BSONObjMaxInternalSize, BSONObjMaxUserSize, BufferMaxSize in *. simpl. lia. }
  destruct (done_builds _ _ _ H1) as (B' & r & E2 & E3 & C); [lia|done|].
  exists B0, (with_b B0 b1), B', r. split_and!; try done.
  - rewrite C. pose proof (bu_offset _ _ _ H1) as Ho. simpl _offset in *. rewrite drop_app_ge by (rewrite length_take; lia).
    rewrite length_take, Hh. by replace (4 - _)%nat with 0%nat by lia.
  - by apply nFields_enc.
  - intros name. by apply getField_spec_aux.
Qed.

(** [appendNumber] of a [long long] loses nothing: whichever of the three numeric types
    it chooses, [numberLong] of the element gives the number back. *)
Theorem appendNumber_roundtrip hdr d B name n :
  builds hdr d B -> cstr_ok name -> in_s 64 n ->
  Z.of_nat (length hdr) + Z.of_nat (length (enc_elems d)) + Z.of_nat (length name) + 10 <= BufferMaxSize ->
  exists B' v, appendNumber_ll name n B = Ret B' /\ builds hdr (doc_app d (DCons name v DNil)) B' /\
    val_ok v /\ forall r, numberLong (enc_elem name v ++ r) = Ret n.
Proof.
  intros Hb Hname Hn Hm.
  assert (forall v, appendNumber_ll name n = put name v -> val_ok v -> (length (enc_val v) <= 8)%nat ->
    (forall r, numberLong (enc_elem name v ++ r) = Ret n) ->
    exists B' v', appendNumber_ll name n B = Ret B' /\ builds hdr (doc_app d (DCons name v' DNil)) B' /\
      val_ok v' /\ forall r, numberLong (enc_elem name v' ++ r) = Ret n) as Hgo.
  { intros v E Hv Hlen Hr. destruct (put_builds _ _ _ name v Hb Hv) as (b' & E' & H').
    { rewrite enc_elem_length. lia. }
    exists (with_b B b'), v. rewrite E. by split_and!. }
  assert (forall v, val_ok v -> (length (enc_val v) <= 8)%nat -> Z.of_nat (length (enc_elem name v)) < 2 ^ 31) as Hfit.
  { intros v _ Hlen. rewrite enc_elem_length. unfold BufferMaxSize in Hm. lia. }
  unfold appendNumber_ll in *.
  destruct ((- 2 ^ 30 <? n) && (n <? 2 ^ 30))%bool eqn:E1;
    [|destruct ((- 2 ^ 40 <? n) && (n <? 2 ^ 40))%bool eqn:E2]; reflect_bool.
  - assert (in_s 32 n) as H32 by (unfold in_s; lia).
    apply (Hgo (VInt n)); [done|done|simpl; lia|]. intros r. rewrite numberLong_enc; [done|done|done|].
    apply Hfit; [done|simpl; lia].
  - assert (Z.abs n < 2 ^ 53) as Ha by lia. pose proof (double_of_Z_range n Ha) as Hr.
    apply (Hgo (VDouble (double_of_Z n))); [done|done|simpl; lia|]. intros r.
    rewrite numberLong_enc; [|done|done|apply Hfit; [done|simpl; lia]].
    unfold double_to_int. rewrite double_trunc_of_Z by done. by rewrite decide_True.
  - apply (Hgo (VLong n)); [done|done|simpl; lia|]. intros r. rewrite numberLong_enc; [done|done|done|].
    apply Hfit; [done|simpl; lia].
Qed.

End Builders.

Lemma build_then_read_witness :
  exists B0 B B' o r, new_BSONObjBuilder 0 512 = Ret B0 /\ put_doc 0 (DCons [97] (VInt 7) DNil) B0 = Ret B /\ done 0 B = Ret (o, B') /\
    nFields o = Ret 1 /\ getField [97] o = Ret (enc_elem [97] (VInt 7) ++ r).
Proof.
  destruct (build_then_read 0 (DCons [97] (VInt 7) DNil)) as (B0 & B & B' & r & E0 & E1 & E2 & _ & _ & Hn & H).
  - cbn. unfold cstr_ok, in_s. repeat split; try (by repeat constructor); try lia;
      rewrite list_elem_of_singleton; lia.
  - vm_compute. discriminate.
  - specialize (H [97]). cbn [doc_find] in H. rewrite decide_True in H by reflexivity. destruct H as [r' H].
    exists B0, B, B', (enc_doc (DCons [97] (VInt 7) DNil) ++ r), r'.
    split; [exact E0|]. split; [exact E1|]. split; [exact E2|]. split; [exact Hn|exact H].
Defined.

Lemma appendNumber_roundtrip_witness :
  exists B B' v, appendNumber_ll 0 [97] 5000000000 B = Ret B' /\
    numberLong (enc_elem [97] v) = Ret 5000000000.
Proof.
  destruct (new_BSONObjBuilder_builds 0 512) as (B & hdr & E & H & Hh & _); [lia|].
  destruct (appendNumber_roundtrip 0 hdr DNil B [97] 5000000000 H) as (B' & v & E' & _ & _ & Hr).
  - unfold cstr_ok. split; [by repeat constructor|]. rewrite list_elem_of_singleton. lia.
  - unfold in_s. lia.
  - rewrite Hh. vm_compute. discriminate.
  - exists B, B', v. split; [exact E'|]. specialize (Hr []). rewrite app_nil_r in Hr. exact Hr.
Defined.
