(* ===== verification/CDataWrapper.v ===== *)
(** * The data container of the framework: [CDataWrapper]

    Models [chaos/common/data/CDataWrapper.cpp]: the container every message, data set and
    configuration is made of, on top of the BSON builders.  A wrapper is its two builders;
    every getter peeks at the object with [asTempObj].  Keys and C strings are lists of
    non-zero bytes.  JSON, [md5] and the vector view of arrays are left out. *)

From S2P Require Import Prelude BufBuilder Bson BsonBuilder.

Local Open Scope Z_scope.

Section Wrapper.
Context (junk : Z).

Record CDataWrapper := mkW { bsonArrayBuilder : BSONArrayBuilder; bsonBuilder : BSONObjBuilder }.

Definition new_CDataWrapper : outcome CDataWrapper :=
  A ← new_BSONArrayBuilder junk; B ← new_BSONObjBuilder junk 512; mret (mkW A B).

(** Run an operation of the object builder or of the array builder. *)
Definition on_obj (f : BSONObjBuilder -> outcome BSONObjBuilder) (W : CDataWrapper) : outcome CDataWrapper :=
  B ← f (bsonBuilder W); mret (mkW (bsonArrayBuilder W) B).
Definition on_arr (f : BSONArrayBuilder -> outcome BSONArrayBuilder) (W : CDataWrapper) : outcome CDataWrapper :=
  A ← f (bsonArrayBuilder W); mret (mkW A (bsonBuilder W)).
(** Peek at the object and read from it. *)
Definition peek {X} (f : BSONObj -> outcome X) (W : CDataWrapper) : outcome (X * CDataWrapper) :=
  '(o, B) ← asTempObj junk (bsonBuilder W); x ← f o; mret (x, mkW (bsonArrayBuilder W) B).

Definition setSerializedData (bsonData : list Z) (W : CDataWrapper) : outcome CDataWrapper :=
  o ← mk_BSONObj bsonData; on_obj (appendElements junk o) W.
Definition CDataWrapper_from (serializationBuffer : list Z) : outcome CDataWrapper :=
  W ← new_CDataWrapper; setSerializedData serializationBuffer W.
Definition clone (W : CDataWrapper) : outcome (CDataWrapper * CDataWrapper) :=
  peek CDataWrapper_from W.

Definition addCSDataValue (key : list Z) (csData W : CDataWrapper) : outcome (CDataWrapper * CDataWrapper) :=
  if Buf.len (_b (bsonBuilder csData)) =? 0 then mret (csData, W)
  else '(o, csData) ← peek mret csData; W ← on_obj (append_obj junk key o) W; mret (csData, W).
Definition addStringValue (key strValue : list Z) := on_obj (append_string junk key strValue).
Definition addInt32Value (key : list Z) (i32Value : Z) := on_obj (append_int junk key i32Value).
Definition addInt32Value_u (key : list Z) (ui32Value : Z) := on_obj (append_int junk key (s32 ui32Value)).
Definition addDoubleValue (key : list Z) (bits : Z) := on_obj (append_double junk key bits).
Definition addInt64Value (key : list Z) (i64Value : Z) := on_obj (append_ll junk key i64Value).
Definition addInt64Value_u (key : list Z) (i64Value : Z) := on_obj (append_ll junk key (s64 i64Value)).
Definition addBinaryValue (key : list Z) (buff : list Z) (bufLen : Z) :=
  on_obj (appendBinData junk key bufLen 0 buff).
Definition addBoolValue (key : list Z) (boolValue : bool) := on_obj (append_bool junk key boolValue).

Definition appendStringToArray (s : list Z) := on_arr (array_append (fun num => append_string junk num s)).
Definition appendInt32ToArray (n : Z) := on_arr (array_append (fun num => append_int junk num n)).
Definition appendInt64ToArray (n : Z) := on_arr (array_append (fun num => append_ll junk num n)).
Definition appendDoubleToArray (bits : Z) := on_arr (array_append (fun num => append_double junk num bits)).
Definition appendCDataWrapperToArray (src : CDataWrapper) (finalize : bool) (W : CDataWrapper) :
    outcome (CDataWrapper * CDataWrapper) :=
  '(o, B) ← (if finalize then done junk (bsonBuilder src) else asTempObj junk (bsonBuilder src));
  W ← on_arr (array_append (fun num => append_obj junk num o)) W;
  mret (mkW (bsonArrayBuilder src) B, W).
Definition finalizeArrayForKey (key : list Z) (W : CDataWrapper) : outcome CDataWrapper :=
  '(o, A) ← arr_done junk (bsonArrayBuilder W);
  B ← appendArray junk key o (bsonBuilder W);
  A ← new_BSONArrayBuilder junk;
  mret (mkW A B).

Definition getStringValue (key : list Z) := peek (fun o => e ← getField key o; String_ e).
Definition getInt32Value (key : list Z) := peek (fun o => e ← getField key o; numberInt e).
Definition getUInt32Value (key : list Z) := peek (fun o => e ← getField key o; n ← numberInt e; mret (u32 n)).
Definition getInt64Value (key : list Z) := peek (fun o => e ← getField key o; numberLong e).
Definition getUInt64Value (key : list Z) := peek (fun o => e ← getField key o; n ← numberLong e; mret (u64 n)).
Definition getDoubleValue (key : list Z) := peek (fun o => e ← getField key o; Double e).
Definition getBoolValue (key : list Z) := peek (fun o => e ← getField key o; Bool_ e).
(** The [bufLen] bytes the returned pointer refers to. *)
Definition getBinaryValue (key : list Z) :=
  peek (fun o => e ← getField key o; x ← binData e;
    match x with
    | Some (bufLen, p) => bs ← std_string p bufLen; mret (Some bs)
    | None => mret None
    end).
Definition hasKey (key : list Z) := peek (hasElement key).
Definition getCSDataValue (key : list Z) (W : CDataWrapper) : outcome (CDataWrapper * CDataWrapper) :=
  result ← new_CDataWrapper;
  peek (fun o => sub ← getObjectField key o; setSerializedData sub result) W.

(** [getBSONData]: a copy of the bytes of the object, or null. *)
Definition getBSONData (W : CDataWrapper) : outcome (option (list Z) * CDataWrapper) :=
  if Buf.len (_b (bsonBuilder W)) =? 0 then mret (None, W)
  else peek (fun o => bs ← obj_bytes o; mret (Some bs)) W.

Definition appendAllElement (src W : CDataWrapper) : outcome (CDataWrapper * CDataWrapper) :=
  '(o, src) ← peek mret src; W ← on_obj (appendElements junk o) W; mret (src, W).
Definition reset (W : CDataWrapper) : outcome CDataWrapper :=
  B ← new_BSONObjBuilder junk 512; mret (mkW (bsonArrayBuilder W) B).

(** ** The abstract container *)

(** The wrapper holds the document [d] and the values [vs] of the array being filled. *)
Record holds (d : doc) (vs : list val) (W : CDataWrapper) : Prop := {
  h_obj : exists hdr, builds hdr d (bsonBuilder W) /\ length hdr = 8%nat;
  h_arr : exists hdr, arr_builds hdr vs (bsonArrayBuilder W) /\ length hdr = 8%nat }.

(** Documents the wrapper can serialise. *)
Definition fits (d : doc) : Prop :=
  doc_ok d /\ Z.of_nat (length (enc_doc d)) <= BSONObjMaxInternalSize.

Lemma fits_31 d : fits d -> Z.of_nat (length (enc_doc d)) < 2 ^ 31.
Proof. intros [_ H]. unfold BSONObjMaxInternalSize, BSONObjMaxUserSize in H. lia. Qed.

Lemma new_CDataWrapper_holds : exists W, new_CDataWrapper = Ret W /\ holds DNil [] W.
Proof.
  unfold new_CDataWrapper, new_BSONArrayBuilder.
  destruct (new_BSONObjBuilder_builds junk 512) as (B & hdr & E & H & Hh & _); [lia|].
  rewrite E. simpl_out. eexists. split; [done|]. split; simpl.
  - eauto.
  - exists hdr. split; [|done]. by split.
Qed.

(** Adding a value. *)
Lemma add_holds d vs W key v :
  holds d vs W -> fits (doc_app d (DCons key v DNil)) -> val_ok v ->
  exists W', on_obj (put junk key v) W = Ret W' /\ holds (doc_app d (DCons key v DNil)) vs W'.
Proof.
  intros [(hdr & Hb & Hh) Ha] [_ Hf] Hv. pose proof (enc_doc_length (doc_app d (DCons key v DNil))) as HL.
  rewrite enc_elems_app, enc_elems_cons, !length_app in HL. cbn [enc_elems length] in HL.
  unfold BSONObjMaxInternalSize, BSONObjMaxUserSize in Hf.
  destruct (put_builds junk _ _ _ key v Hb Hv) as (b' & E & H'); [unfold BufferMaxSize; lia|].
  unfold on_obj. rewrite E. simpl_out. eexists. split; [done|]. split; [|done]. simpl. eauto.
Qed.

(** Peeking reads the encoded document and changes nothing. *)
Lemma peek_holds {X} (f : BSONObj -> outcome X) d vs W :
  holds d vs W -> fits d -> exists r W', holds d vs W' /\
    peek f W = (x ← f (enc_doc d ++ r); mret (x, W')).
Proof.
  intros [(hdr & Hb & Hh) Ha] [Hok Hf].
  destruct (asTempObj_builds junk _ _ _ Hb) as (B' & hdr' & r & E & H' & Hh' & _); [lia|done|].
  exists r, (mkW (bsonArrayBuilder W) B'). split.
  - split; [|done]. simpl. exists hdr'. split; [done|lia].
  - unfold peek. rewrite E. done.
Qed.

(** A getter as a function of the field. *)
Lemma get_holds {X} (f : BSONElement -> outcome X) (g : option val -> outcome X) d vs W key :
  holds d vs W -> fits d ->
  (forall v r, doc_find key d = Some v -> cstr_ok key -> val_ok v ->
     Z.of_nat (length (enc_elem key v)) < 2 ^ 31 -> f (enc_elem key v ++ r) = g (Some v)) ->
  f eoo_element = g None ->
  exists W', holds d vs W' /\
    peek (fun o => e ← getField key o; f e) W = (x ← g (doc_find key d); mret (x, W')).
Proof.
  intros H Hf Hsome Hnone. destruct (peek_holds (fun o => e ← getField key o; f e) _ _ _ H Hf) as (r & W' & H' & E).
  exists W'. split; [done|]. rewrite E. pose proof (fits_31 _ Hf) as H31.
  pose proof (getField_spec_aux key d r (proj1 Hf) H31) as Hg.
  destruct (doc_find key d) as [v|] eqn:Ef.
  - destruct Hg as [r' ->]. simpl_out. destruct (doc_find_ok _ _ _ Ef (proj1 Hf)) as (Hk & Hv & Hle).
    pose proof (enc_doc_length d). rewrite Hsome; [done|done|done|done|lia].
  - rewrite Hg. simpl_out. by rewrite Hnone.
Qed.

(** ** Histories of calls on one wrapper *)

Inductive wop :=
  | AddString (key s : list Z)
  | AddInt32 (key : list Z) (n : Z)
  | AddInt64 (key : list Z) (n : Z)
  | AddDouble (key : list Z) (bits : Z)
  | AddBool (key : list Z) (b : bool)
  | AddBinary (key bs : list Z)
  | GetString (key : list Z)
  | GetInt32 (key : list Z)
  | GetInt64 (key : list Z)
  | GetDouble (key : list Z)
  | GetBool (key : list Z)
  | GetBinary (key : list Z)
  | HasKey (key : list Z)
  | GetBSON
  | Reset.

Inductive wres := RUnit | RBytes (bs : list Z) | RInt (n : Z) | RBool (b : bool) | RBin (bs : option (list Z)).

Definition unit_res (c : outcome CDataWrapper) : outcome (wres * CDataWrapper) := W ← c; mret (RUnit, W).
Definition res {X} (f : X -> wres) (c : outcome (X * CDataWrapper)) : outcome (wres * CDataWrapper) :=
  '(x, W) ← c; mret (f x, W).

Definition exec (o : wop) (W : CDataWrapper) : outcome (wres * CDataWrapper) :=
  match o with
  | AddString k s => unit_res (addStringValue k s W)
  | AddInt32 k n => unit_res (addInt32Value k n W)
  | AddInt64 k n => unit_res (addInt64Value k n W)
  | AddDouble k b => unit_res (addDoubleValue k b W)
  | AddBool k b => unit_res (addBoolValue k b W)
  | AddBinary k bs => unit_res (addBinaryValue k bs (Z.of_nat (length bs)) W)
  | GetString k => res RBytes (getStringValue k W)
  | GetInt32 k => res RInt (getInt32Value k W)
  | GetInt64 k => res RInt (getInt64Value k W)
  | GetDouble k => res RInt (getDoubleValue k W)
  | GetBool k => res RBool (getBoolValue k W)
  | GetBinary k => res RBin (getBinaryValue k W)
  | HasKey k => res RBool (hasKey k W)
  | GetBSON => res RBin (getBSONData W)
  | Reset => unit_res (reset W)
  end.

(** What the calls mean on the document. *)
Definition field_spec {X} (f : val -> option X) (o : option val) : outcome X :=
  match o ≫= f with Some x => Ret x | None => Throw 13111 end.

Definition as_string (v : val) : option (list Z) := match v with VString s => Some s | _ => None end.
Definition as_double (v : val) : option Z := match v with VDouble b => Some b | _ => None end.
Definition as_bool (v : val) : option bool := match v with VBool b => Some b | _ => None end.
Definition as_binary (o : option val) : option (list Z) :=
  match o with Some (VBinData _ b) => Some b | _ => None end.
Definition as_int (w : Z) (o : option val) : outcome Z :=
  match o with
  | Some (VInt n) => Ret n
  | Some (VLong n) => Ret (swrap w n)
  | Some (VDouble b) => double_to_int w b
  | _ => Ret 0
  end.

Definition add_of (o : wop) : option (list Z * val) :=
  match o with
  | AddString k s => Some (k, VString s)
  | AddInt32 k n => Some (k, VInt n)
  | AddInt64 k n => Some (k, VLong n)
  | AddDouble k b => Some (k, VDouble b)
  | AddBool k b => Some (k, VBool b)
  | AddBinary k bs => Some (k, VBinData 0 bs)
  | _ => None
  end.

(** The document after a call. *)
Definition next_doc (o : wop) (d : doc) : doc :=
  match add_of o with
  | Some (k, v) => doc_app d (DCons k v DNil)
  | None => match o with Reset => DNil | _ => d end
  end.

(** The result of a call. *)
Definition result (o : wop) (d : doc) : outcome wres :=
  match o with
  | GetString k => s ← field_spec as_string (doc_find k d); mret (RBytes s)
  | GetInt32 k => n ← as_int 32 (doc_find k d); mret (RInt n)
  | GetInt64 k => n ← as_int 64 (doc_find k d); mret (RInt n)
  | GetDouble k => b ← field_spec as_double (doc_find k d); mret (RInt b)
  | GetBool k => b ← field_spec as_bool (doc_find k d); mret (RBool b)
  | GetBinary k => mret (RBin (as_binary (doc_find k d)))
  | HasKey k => mret (RBool (bool_decide (is_Some (doc_find k d))))
  | GetBSON => mret (RBin (Some (enc_doc d)))
  | _ => mret RUnit
  end.

(** The arguments of a call are values of their C types. *)
Definition op_ok (o : wop) : Prop :=
  match add_of o with Some (k, v) => cstr_ok k /\ val_ok v | None => True end.

Lemma add_exec o k v W : add_of o = Some (k, v) -> exec o W = unit_res (on_obj (put junk k v) W).
Proof. destruct o; simpl; intros H; by simplify_eq. Qed.

Lemma res_peek {X} (f : X -> wres) (g : BSONObj -> outcome X) (h : outcome X) W W' :
  peek g W = (x ← h; mret (x, W')) -> res f (peek g W) = (x ← (x ← h; mret (f x)); mret (x, W')).
Proof. intros ->. by destruct h. Qed.

Lemma chk_spec {X} (t : Z) (acc : BSONElement -> outcome X) (f : val -> option X) key v r :
  (forall v, is_Some (f v) <-> type_of v = t) ->
  (forall x, f v = Some x -> acc (enc_elem key v ++ r) = Ret x) ->
  (e ← chk t (enc_elem key v ++ r); acc e) = field_spec f (Some v).
Proof.
  intros Ht Hacc. rewrite chk_enc. unfold field_spec. simpl_opt. destruct (f v) as [x|] eqn:E.
  - assert (type_of v = t) as <- by (apply Ht; eauto). rewrite Z.eqb_refl. simpl_out. auto.
  - assert (t <> type_of v) as Hne.
    { intros Et. destruct (proj2 (Ht v) (eq_sym Et)) as [x Hx]. congruence. }
    by rewrite (proj2 (Z.eqb_neq _ _)).
Qed.

Lemma chk_eoo {X} t (acc : BSONElement -> outcome X) :
  t <> 0 -> (e ← chk t eoo_element; acc e) = Throw 13111.
Proof. intros H. unfold chk. simpl. by rewrite (proj2 (Z.eqb_neq _ _)). Qed.

Lemma as_string_type v : is_Some (as_string v) <-> type_of v = String.
Proof. destruct v; simpl; split; intros H; try done; try (by destruct H); eauto. Qed.
Lemma as_double_type v : is_Some (as_double v) <-> type_of v = NumberDouble.
Proof. destruct v; simpl; split; intros H; try done; try (by destruct H); eauto. Qed.
Lemma as_bool_type v : is_Some (as_bool v) <-> type_of v = Bool.
Proof. destruct v; simpl; split; intros H; try done; try (by destruct H); eauto. Qed.

Lemma binary_elem key v r :
  cstr_ok key -> Z.of_nat (length (enc_elem key v)) < 2 ^ 31 ->
  (x ← binData (enc_elem key v ++ r);
   match x with
   | Some (bufLen, p) => bs ← std_string p bufLen; mret (Some bs)
   | None => mret None
   end) = Ret (as_binary (Some v)).
Proof.
  intros Hk Hl. destruct v; try (unfold binData; rewrite type_enc; reflexivity).
  rewrite binData_enc by done. simpl_out. unfold std_string.
  rewrite (proj2 (Z.ltb_ge _ _)) by lia. rewrite Nat2Z.id. unfold buf_read.
  rewrite decide_True by (rewrite length_app; lia). by rewrite drop_0, take_app_length.
Qed.

(** Every getter is a function of the document. *)
Lemma getter_refines o d vs W :
  holds d vs W -> fits d -> add_of o = None -> o <> Reset ->
  exists W', holds d vs W' /\ exec o W = (x ← result o d; mret (x, W')).
Proof.
  intros H Hf Ha Hr.
  destruct o; try done; cbn [exec result]; clear Ha Hr.
  - destruct (get_holds String_ (field_spec as_string) d vs W key H Hf) as (W' & H' & E).
    + intros v r _ Hk Hv Hl. apply chk_spec; [apply as_string_type|].
      intros x Hx. destruct v; simplify_eq/=. by apply str_enc.
    + by apply chk_eoo.
    + exists W'. split; [done|]. by apply res_peek.
  - destruct (get_holds numberInt (as_int 32) d vs W key H Hf) as (W' & H' & E).
    + intros v r _ Hk Hv Hl. rewrite numberInt_enc by done. by destruct v.
    + done.
    + exists W'. split; [done|]. by apply res_peek.
  - destruct (get_holds numberLong (as_int 64) d vs W key H Hf) as (W' & H' & E).
    + intros v r _ Hk Hv Hl. rewrite numberLong_enc by done. destruct v; try done. simpl.
      by rewrite swrap_small.
    + done.
    + exists W'. split; [done|]. by apply res_peek.
  - destruct (get_holds Double (field_spec as_double) d vs W key H Hf) as (W' & H' & E).
    + intros v r _ Hk Hv Hl. apply chk_spec; [apply as_double_type|].
      intros x Hx. destruct v; simplify_eq/=. by apply _numberDouble_enc.
    + by apply chk_eoo.
    + exists W'. split; [done|]. by apply res_peek.
  - destruct (get_holds Bool_ (field_spec as_bool) d vs W key H Hf) as (W' & H' & E).
    + intros v r _ Hk Hv Hl. apply chk_spec; [apply as_bool_type|].
      intros x Hx. destruct v; simplify_eq/=. by apply boolean_enc.
    + by apply chk_eoo.
    + exists W'. split; [done|]. by apply res_peek.
  - destruct (get_holds (fun e => x ← binData e;
      match x with Some (bufLen, p) => bs ← std_string p bufLen; mret (Some bs) | None => mret None end)
      (fun o => Ret (as_binary o)) d vs W key H Hf) as (W' & H' & E).
    + intros v r _ Hk Hv Hl. by apply binary_elem.
    + done.
    + exists W'. split; [done|]. by rewrite (res_peek _ _ _ _ _ E).
  - destruct (get_holds (fun e => b ← eoo e; mret (negb b))
      (fun o => Ret (bool_decide (is_Some o))) d vs W key H Hf) as (W' & H' & E).
    + intros v r _ Hk Hv Hl. by rewrite eoo_enc.
    + done.
    + exists W'. split; [done|]. by rewrite (res_peek _ _ _ _ _ E).
  - unfold getBSONData. destruct (h_obj _ _ _ H) as (hdr & Hb & Hh).
    assert (Buf.len (_b (bsonBuilder W)) =? 0 = false) as ->.
    { apply Z.eqb_neq. unfold Buf.len. rewrite (builds_len _ _ _ Hb). lia. }
    destruct (peek_holds (fun o => bs ← obj_bytes o; mret (Some bs)) _ _ _ H Hf) as (r & W' & H' & E).
    exists W'. split; [done|]. rewrite (res_peek _ _ _ _ _ E).
    rewrite obj_bytes_enc by by apply fits_31. done.
Qed.

(** One call on a wrapper. *)
Lemma exec_refines o d vs W :
  holds d vs W -> fits d -> op_ok o -> fits (next_doc o d) ->
  match result o d with
  | Ret x => exists W', exec o W = Ret (x, W') /\ holds (next_doc o d) vs W'
  | Throw c => exec o W = Throw c
  | Fault => exec o W = Fault
  end.
Proof.
  intros H Hf Hok Hf'. destruct (add_of o) as [[k v]|] eqn:Ea.
  - assert (result o d = Ret RUnit) as -> by (destruct o; done).
    unfold next_doc, op_ok in *. rewrite Ea in *. rewrite (add_exec _ _ _ _ Ea).
    destruct (add_holds _ _ _ k v H Hf' (proj2 Hok)) as (W' & E & H').
    exists W'. by rewrite E.
  - assert (o = Reset \/ o <> Reset) as [->|Hr] by (destruct o; auto).
    + cbn [result exec]. unfold reset, unit_res. destruct (new_BSONObjBuilder_builds junk 512) as (B & hdr & E & Hb & Hh & _); [lia|].
      rewrite E. eexists. split; [done|]. split; simpl; [by eauto|apply (h_arr _ _ _ H)].
    + destruct (getter_refines o d vs W H Hf Ea Hr) as (W' & H' & E). rewrite E.
      destruct (result o d); try done. exists W'. split; [done|].
      unfold next_doc. rewrite Ea. by destruct o.
Qed.

(** Runs of calls: the wrapper and the document. *)
Fixpoint exec_run (ops : list wop) (W : CDataWrapper) : outcome (list wres * CDataWrapper) :=
  match ops with
  | [] => mret ([], W)
  | o :: ops => '(x, W) ← exec o W; '(xs, W) ← exec_run ops W; mret (x :: xs, W)
  end.
Fixpoint spec_run (ops : list wop) (d : doc) : outcome (list wres * doc) :=
  match ops with
  | [] => mret ([], d)
  | o :: ops => x ← result o d; '(xs, d) ← spec_run ops (next_doc o d); mret (x :: xs, d)
  end.
(** The documents along a run stay within the maximal size. *)
Fixpoint run_fits (ops : list wop) (d : doc) : Prop :=
  match ops with [] => True | o :: ops => op_ok o /\ fits (next_doc o d) /\ run_fits ops (next_doc o d) end.

Lemma exec_run_refines ops : forall d vs W,
  holds d vs W -> fits d -> run_fits ops d ->
  match spec_run ops d with
  | Ret (xs, d') => exists W', exec_run ops W = Ret (xs, W') /\ holds d' vs W'
  | Throw c => exec_run ops W = Throw c
  | Fault => exec_run ops W = Fault
  end.
Proof.
  induction ops as [|o ops IH]; intros d vs W H Hf Hr.
  - simpl. eauto.
  - destruct Hr as (Hok & Hf' & Hr). cbn [spec_run exec_run].
    pose proof (exec_refines o d vs W H Hf Hok Hf') as Hx.
    destruct (result o d) as [x|c|]; simpl_out; [|by rewrite Hx..].
    destruct Hx as (W1 & E & H1). rewrite E. simpl_out. specialize (IH _ _ _ H1 Hf' Hr).
    destruct (spec_run ops (next_doc o d)) as [[xs d']|c|]; simpl_out; [|by rewrite IH..].
    destruct IH as (W' & E' & H'). rewrite E'. simpl_out. eauto.
Qed.

(** Nesting: a wrapper inside a wrapper. *)
Lemma append_doc_holds d vs W key sub r op :
  holds d vs W -> fits (doc_app d (DCons key (op sub) DNil)) -> (op = VObject \/ op = VArray) ->
  doc_ok sub -> exists W',
  on_obj (if decide (type_of (op DNil) = Object) then append_obj junk key (enc_doc sub ++ r)
          else appendArray junk key (enc_doc sub ++ r)) W = Ret W' /\
  holds (doc_app d (DCons key (op sub) DNil)) vs W'.
Proof.
  intros H Hf Hop Hs. pose proof (fits_31 _ Hf) as H31.
  assert (val_ok (op sub)) as Hv by (by destruct Hop as [->| ->]).
  destruct (add_holds d vs W key (op sub) H Hf Hv) as (W' & E & H'). exists W'. split; [|done]. rewrite <- E.
  rewrite enc_doc_length, enc_elems_app, enc_elems_cons, !length_app, Nat2Z.inj_add in H31.
  pose proof (enc_elem_length key (op sub)) as HL.
  assert (Z.of_nat (length (enc_doc sub)) < 2 ^ 31) as Hl.
  { replace (enc_val (op sub)) with (enc_doc sub) in HL by (by destruct Hop as [->| ->]). lia. }
  pose proof (obj_bytes_enc sub r Hl) as E1. pose proof (obj_bytes_enc sub [] Hl) as E2.
  rewrite app_nil_r in E2.
  destruct Hop as [->| ->]; cbn [put type_of];
    [rewrite decide_True by done|rewrite decide_False by done]; unfold on_obj, append_obj, appendArray;
    rewrite E1, E2; done.
Qed.

(** ** Theorems *)

(** [C1] A wrapper behaves as the document it stands for: any sequence of adds, reads, key
    tests, serialisations and resets on a fresh wrapper gives exactly the results, and
    throws exactly the exceptions, of the same sequence on a list of named values, as
    long as the document stays within the maximal object size. *)
Theorem wrapper_refines_document ops :
  run_fits ops DNil ->
  exists W, new_CDataWrapper = Ret W /\
    match spec_run ops DNil with
    | Ret (xs, d) => exists W', exec_run ops W = Ret (xs, W') /\ holds d [] W'
    | Throw c => exec_run ops W = Throw c
    | Fault => exec_run ops W = Fault
    end.
Proof.
  intros Hr. destruct new_CDataWrapper_holds as (W & E & H). exists W. split; [done|].
  apply exec_run_refines; [done| |done]. split; [done|]. vm_compute. discriminate.
Qed.

(** Rebuilding from the serialised bytes. *)
Lemma from_holds d r : fits d -> exists W, CDataWrapper_from (enc_doc d ++ r) = Ret W /\ holds d [] W.
Proof.
  intros [Hok Hl]. destruct new_CDataWrapper_holds as (W0 & E0 & [(hdr & Hb & Hh) Ha]).
  pose proof (enc_doc_length d) as HL. unfold CDataWrapper_from, setSerializedData. rewrite E0. simpl_out.
  rewrite mk_BSONObj_enc by done. simpl_out. unfold BSONObjMaxInternalSize, BSONObjMaxUserSize in Hl.
  destruct (appendElements_builds junk hdr DNil _ d r Hb) as (b' & E & H'); [simpl; unfold BufferMaxSize; lia|].
  unfold on_obj. rewrite E. simpl_out. eexists. split; [done|]. split; [|done]. simpl. eauto.
Qed.

(** [C25] Serialising and rebuilding is the identity: the bytes of a wrapper, sent anywhere
    and followed by anything in memory, give a wrapper with the same document; so
    does [clone]; and the original keeps its document. *)
Theorem wrapper_serialization_roundtrip d vs W :
  holds d vs W -> fits d ->
  (exists W', getBSONData W = Ret (Some (enc_doc d), W') /\ holds d vs W') /\
  (exists W1 W2, clone W = Ret (W1, W2) /\ holds d [] W1 /\ holds d vs W2) /\
  (forall r, exists W3, CDataWrapper_from (enc_doc d ++ r) = Ret W3 /\ holds d [] W3).
Proof.
  intros H Hf. split_and!.
  - pose proof (exec_refines GetBSON d vs W H Hf I Hf) as (W' & E & H'). exists W'. split; [|done].
    cbn [exec] in E. unfold res in E. destruct (getBSONData W) as [[x Wx]|c|]; simpl in E; try done.
    by injection E as -> ->.
  - destruct (peek_holds CDataWrapper_from _ _ _ H Hf) as (r & W2 & H2 & E).
    destruct (from_holds d r Hf) as (W1 & E1 & H1). exists W1, W2. split_and!; try done.
    unfold clone. by rewrite E, E1.
  - intros r. by apply from_holds.
Qed.

(** A wrapper stored in another comes back: after [addCSDataValue key sub] on a wrapper
    without that key, [getCSDataValue key] gives a wrapper with the document of [sub];
    neither [sub] nor the rest of the outer wrapper changes. *)
Theorem nested_wrapper_roundtrip d vs W sub vs' csData key :
  holds d vs W -> holds sub vs' csData -> fits sub -> cstr_ok key -> doc_find key d = None ->
  fits (doc_app d (DCons key (VObject sub) DNil)) ->
  exists cs' W' W1 W2, addCSDataValue key csData W = Ret (cs', W') /\
    holds sub vs' cs' /\ holds (doc_app d (DCons key (VObject sub) DNil)) vs W' /\
    getCSDataValue key W' = Ret (W1, W2) /\ holds sub [] W1 /\
    holds (doc_app d (DCons key (VObject sub) DNil)) vs W2.
Proof.
  intros H Hcs Hfs Hk Hnone Hf. unfold addCSDataValue.
  destruct (h_obj _ _ _ Hcs) as (hdr & Hb & Hh).
  assert (Buf.len (_b (bsonBuilder csData)) =? 0 = false) as ->.
  { apply Z.eqb_neq. unfold Buf.len. rewrite (builds_len _ _ _ Hb). lia. }
  destruct (peek_holds mret _ _ _ Hcs Hfs) as (r & cs' & Hcs' & E). rewrite E. simpl_out.
  destruct (append_doc_holds d vs W key sub r VObject H Hf (or_introl eq_refl) (proj1 Hfs)) as (W' & E' & H').
  rewrite decide_True in E' by done. rewrite E'. simpl_out. exists cs', W'.
  assert (exists W1 W2, getCSDataValue key W' = Ret (W1, W2) /\ holds sub [] W1 /\
    holds (doc_app d (DCons key (VObject sub) DNil)) vs W2) as (W1 & W2 & ? & ? & ?);
    [|exists W1, W2; by split_and!].
  unfold getCSDataValue. destruct new_CDataWrapper_holds as (W0 & E0 & H0). rewrite E0. simpl_out.
  set (d2 := doc_app d (DCons key (VObject sub) DNil)) in *.
  destruct (peek_holds (fun o => s ← getObjectField key o; setSerializedData s W0) _ _ _ H' Hf)
    as (r2 & W2 & H2 & E2). rewrite E2.
  pose proof (getField_spec_aux key d2 r2 (proj1 Hf) (fits_31 _ Hf)) as Hg.
  assert (doc_find key d2 = Some (VObject sub)) as Ef.
  { unfold d2. rewrite doc_find_app, Hnone. simpl. by rewrite decide_True. }
  rewrite Ef in Hg. destruct Hg as [r3 Hg]. unfold getObjectField. rewrite Hg. simpl_out.
  rewrite type_enc. simpl_out.
  destruct (doc_find_ok _ _ _ Ef (proj1 Hf)) as (_ & _ & Hle). pose proof (enc_doc_length d2). pose proof (fits_31 _ Hf).
  rewrite (embeddedObject_enc key r3 Hk (VObject sub) sub); [|by left|lia|apply (proj2 Hfs)].
  destruct (from_holds sub r3 Hfs) as (W1 & E1 & HW1). unfold CDataWrapper_from in E1. rewrite E0 in E1.
  cbn [mbind outcome_bind] in E1. exists W1, W2.
  change (one_of (type_of (VObject sub)) [Object; Array]) with true. cbn iota. simpl_out. rewrite E1. done.
Qed.

(** Array elements. *)
Lemma arr_holds d vs W op v :
  holds d vs W ->
  appends_op (op (numStr (Z.of_nat (length vs)))) (enc_elem (numStr (Z.of_nat (length vs))) v) ->
  Z.of_nat (length (enc_elems (arr_doc 0 (vs ++ [v])))) <= BSONObjMaxInternalSize ->
  Z.of_nat (length vs) < 2 ^ 31 - 1 ->
  exists W', on_arr (array_append op) W = Ret W' /\ holds d (vs ++ [v]) W'.
Proof.
  intros [Ho (hdr & Ha & Hh)] Hop Hm Hl. rewrite arr_doc_snoc, enc_elems_app, length_app in Hm.
  rewrite enc_elems_cons, length_app in Hm. rewrite Z.add_0_l in Hm.
  unfold BSONObjMaxInternalSize, BSONObjMaxUserSize in Hm.
  destruct (array_append_builds hdr vs _ op v Ha) as (A' & E & HA').
  { by rewrite (ar_i _ _ _ Ha). }
  { rewrite (ar_i _ _ _ Ha). unfold BufferMaxSize. lia. }
  { done. }
  unfold on_arr. rewrite E. simpl_out. eexists. split; [done|]. split; simpl; [done|]. eauto.
Qed.

(** Finalising an array stores the values appended so far, numbered from 0, under the
    key, and starts an empty array. *)
Lemma finalizeArrayForKey_spec d vs W key :
  holds d vs W -> Forall val_ok vs -> cstr_ok key ->
  fits (doc_app d (DCons key (VArray (arr_doc 0 vs)) DNil)) ->
  exists W', finalizeArrayForKey key W = Ret W' /\
    holds (doc_app d (DCons key (VArray (arr_doc 0 vs)) DNil)) [] W'.
Proof.
  intros H Hvs Hk Hf. pose proof (fits_31 _ Hf) as H31. pose proof (arr_doc_ok 0 vs Hvs) as Hok.
  set (a := arr_doc 0 vs) in *.
  assert (Z.of_nat (length (enc_doc a)) <= BSONObjMaxInternalSize) as Hla.
  { destruct Hf as [_ Hf]. rewrite enc_doc_length, enc_elems_app, enc_elems_cons, !length_app in Hf.
    pose proof (enc_elem_length key (VArray a)) as HL. change (enc_val (VArray a)) with (enc_doc a) in HL. lia. }
  destruct (h_arr _ _ _ H) as (hdr & [Hb Hi] & Hh). fold a in Hb.
  unfold finalizeArrayForKey, arr_done, done.
  pose proof (enc_doc_length a) as HLa. pose proof (bu_offset0 _ _ _ Hb).
  destruct (_done_builds junk _ _ _ Hb) as (b' & r & m & E & R & Em & Hm & _).
  { unfold BSONObjMaxInternalSize, BSONObjMaxUserSize, BufferMaxSize in *. lia. }
  rewrite E. simpl_out. rewrite (obj_mem_done _ _ _ _ m) by done. simpl_out.
  rewrite Hm, mk_BSONObj_enc by done. simpl_out.
  destruct (append_doc_holds d vs W key a r VArray H Hf (or_intror eq_refl) Hok) as (W' & E' & H').
  rewrite decide_False in E' by done. unfold on_obj in E'.
  destruct (appendArray junk key (enc_doc a ++ r) (bsonBuilder W)) as [B'|c|]; try done. simpl_out.
  injection E' as <-. destruct new_CDataWrapper_holds as (W0 & E0 & HW0). unfold new_CDataWrapper in E0.
  destruct (new_BSONArrayBuilder junk) as [A0|c|]; try done. simpl_out.
  cbn [mbind outcome_bind] in E0. destruct (new_BSONObjBuilder junk 512) as [B0|c|]; try done.
  injection E0 as <-. eexists. split; [done|]. split; [apply (h_obj _ _ _ H')|apply (h_arr _ _ _ HW0)].
Qed.

(** The array operations, by the value they append. *)
Definition arr_op (v : val) : option (CDataWrapper -> outcome CDataWrapper) :=
  match v with
  | VString s => Some (appendStringToArray s)
  | VInt n => Some (appendInt32ToArray n)
  | VLong n => Some (appendInt64ToArray n)
  | VDouble b => Some (appendDoubleToArray b)
  | _ => None
  end.
Fixpoint arr_run (vs : list val) (W : CDataWrapper) : outcome CDataWrapper :=
  match vs with
  | [] => mret W
  | v :: vs => match arr_op v with Some f => W ← f W; arr_run vs W | None => Fault end
  end.

Lemma arr_op_put v f : arr_op v = Some f -> f = on_arr (array_append (fun num => put junk num v)).
Proof. destruct v; simpl; intros H; by simplify_eq. Qed.

Lemma digits_length fuel n : (length (digits fuel n) <= fuel)%nat.
Proof.
  revert n. induction fuel as [|fuel IH]; intros n; simpl; [lia|]. rewrite length_app. simpl.
  destruct (n <? 10); simpl; [lia|]. specialize (IH (n / 10)). lia.
Qed.

Lemma numStr_length i : (length (numStr i) <= 12)%nat.
Proof.
  unfold numStr. pose proof (digits_length 11 (- i)). pose proof (digits_length 11 i).
  destruct (i <? 0); cbn [length]; lia.
Qed.

Lemma arr_elems_length i vs : (length vs <= length (enc_elems (arr_doc i vs)))%nat.
Proof.
  revert i. induction vs as [|v vs IH]; intros i; simpl; [lia|]. rewrite length_app. specialize (IH (i + 1)). lia.
Qed.

Lemma arr_run_holds d vs2 : forall vs W,
  holds d vs W -> Forall (fun v => val_ok v /\ is_Some (arr_op v)) vs2 ->
  Z.of_nat (length (enc_elems (arr_doc 0 (vs ++ vs2)))) <= BSONObjMaxInternalSize ->
  exists W', arr_run vs2 W = Ret W' /\ holds d (vs ++ vs2) W'.
Proof.
  induction vs2 as [|v vs2 IH]; intros vs W H HF Hm.
  - exists W. by rewrite app_nil_r.
  - inversion HF as [|? ? [Hv [f Hf]] HF2]; subst. cbn [arr_run]. rewrite Hf.
    replace (vs ++ v :: vs2) with ((vs ++ [v]) ++ vs2) in * by by rewrite <- app_assoc.
    assert (forall l1 l2, Z.of_nat (length (enc_elems (arr_doc 0 l1))) <=
      Z.of_nat (length (enc_elems (arr_doc 0 (l1 ++ l2))))) as Hmono.
    { intros l1 l2. induction l2 as [|x l2 IH2] using rev_ind; [by rewrite app_nil_r|].
      rewrite app_assoc, arr_doc_snoc, enc_elems_app, length_app. lia. }
    pose proof (Hmono (vs ++ [v]) vs2) as Hm1. unfold BSONObjMaxInternalSize, BSONObjMaxUserSize in Hm.
    destruct (arr_holds d vs W (fun num => put junk num v) v H) as (W1 & E1 & H1).
    + apply put_appends; [done|]. rewrite enc_elem_length.
      rewrite arr_doc_snoc, enc_elems_app, enc_elems_cons, !length_app, Z.add_0_l in Hm1.
      rewrite !Nat2Z.inj_add, enc_elem_length in Hm1. lia.
    + unfold BSONObjMaxInternalSize, BSONObjMaxUserSize. lia.
    + pose proof (arr_elems_length 0 (vs ++ [v])) as Hle. rewrite length_app in Hle. simpl in Hle. lia.
    + rewrite (arr_op_put _ _ Hf), E1. simpl_out. apply IH; [done|done|].
      unfold BSONObjMaxInternalSize, BSONObjMaxUserSize. lia.
Qed.

(** Arrays: appending values to the array of a wrapper and finalising it under a key
    stores the array of exactly these values, in order and numbered from 0, and leaves
    an empty array for the next one. *)
Theorem array_append_finalize d W vs key :
  holds d [] W -> cstr_ok key -> Forall (fun v => val_ok v /\ is_Some (arr_op v)) vs ->
  fits (doc_app d (DCons key (VArray (arr_doc 0 vs)) DNil)) ->
  exists W', (W ← arr_run vs W; finalizeArrayForKey key W) = Ret W' /\
    holds (doc_app d (DCons key (VArray (arr_doc 0 vs)) DNil)) [] W'.
Proof.
  intros H Hk HF Hf. destruct (arr_run_holds d vs [] W H HF) as (W1 & E1 & H1).
  { destruct Hf as [_ Hf]. rewrite enc_doc_length, enc_elems_app, enc_elems_cons, !length_app in Hf.
    pose proof (enc_elem_length key (VArray (arr_doc 0 vs))) as HL.
    change (enc_val (VArray (arr_doc 0 vs))) with (enc_doc (arr_doc 0 vs)) in HL.
    rewrite enc_doc_length in HL. simpl. lia. }
  rewrite E1. simpl_out. apply (finalizeArrayForKey_spec d vs); try done.
  eapply Forall_impl; [exact HF|]. naive_solver.
Qed.

End Wrapper.

(** ** Witnesses *)

Definition demo_ops : list wop :=
  [AddString [97] [120; 121]; AddInt32 [98] (-5); AddInt64 [99] (2 ^ 40); HasKey [98];
   GetInt32 [98]; GetString [97]; GetInt64 [99]; GetBinary [97]].

Lemma cstr_one b : 0 < b < 256 -> cstr_ok [b].
Proof. intros H. split; [repeat constructor; unfold is_byte; lia|]. rewrite list_elem_of_singleton. lia. Qed.

(** Side conditions on closed documents. *)
Ltac atom_tac :=
  first [done | apply cstr_one; lia | unfold in_s, in_u; lia
        | repeat first [apply Forall_nil_2 | apply Forall_cons_2; [unfold is_byte; lia|]]; done
        | vm_compute; discriminate | eexists; reflexivity].
Ltac side := cbn; repeat split; atom_tac.

Lemma wrapper_refines_document_witness :
  exists W W', new_CDataWrapper 0 = Ret W /\
    exec_run 0 demo_ops W =
      Ret ([RUnit; RUnit; RUnit; RBool true; RInt (-5); RBytes [120; 121]; RInt (2 ^ 40); RBin None], W').
Proof.
  destruct (wrapper_refines_document 0 demo_ops) as (W & E & H).
  - side.
  - vm_compute (spec_run _ _) in H. destruct H as (W' & E' & _). exists W, W'. split; [exact E|exact E'].
Defined.

Definition demo_doc : doc := DCons [97] (VInt 7) DNil.

Lemma demo_holds : exists W, holds demo_doc [] W.
Proof.
  destruct (new_CDataWrapper_holds 0) as (W & _ & H).
  destruct (add_holds 0 DNil [] W [97] (VInt 7) H) as (W' & _ & H'); [side|side|]. by exists W'.
Qed.

Lemma wrapper_serialization_roundtrip_witness :
  exists W W', holds demo_doc [] W /\ getBSONData 0 W = Ret (Some [12; 0; 0; 0; 16; 97; 0; 7; 0; 0; 0; 0], W').
Proof.
  destruct demo_holds as (W & H).
  destruct (wrapper_serialization_roundtrip 0 demo_doc [] W H) as ((W' & E & _) & _); [side|].
  exists W, W'. split; [exact H|exact E].
Defined.

Lemma nested_wrapper_roundtrip_witness :
  exists W cs cs' W' W1 W2, addCSDataValue 0 [98] cs W = Ret (cs', W') /\
    getCSDataValue 0 [98] W' = Ret (W1, W2) /\ holds demo_doc [] W1.
Proof.
  destruct demo_holds as (W & H).
  destruct (nested_wrapper_roundtrip 0 demo_doc [] W demo_doc [] W [98]) as (cs' & W' & W1 & W2 & HH);
    [exact H|exact H|side|side|reflexivity|side|].
  exists W, W, cs', W', W1, W2. tauto.
Defined.

Lemma array_append_finalize_witness :
  exists W W', holds demo_doc [] W /\
    (W ← arr_run 0 [VInt 1; VString [120]] W; finalizeArrayForKey 0 [98] W) = Ret W' /\
    holds (DCons [97] (VInt 7) (DCons [98]
      (VArray (DCons [48] (VInt 1) (DCons [49] (VString [120]) DNil))) DNil)) [] W'.
Proof.
  destruct demo_holds as (W & H).
  destruct (array_append_finalize 0 demo_doc W [VInt 1; VString [120]] [98] H) as (W' & E & H');
    [side| |change (arr_doc 0 [VInt 1; VString [120]]) with
      (DCons [48] (VInt 1) (DCons [49] (VString [120]) DNil)); side|exists W, W'; split; [exact H|split; [exact E|exact H']]].
  repeat (apply Forall_cons_2; [side|]). apply Forall_nil_2.
Defined.
