(* ===== verification/BsonValidate.v ===== *)
(** * The BSON validator

    Models [chaos/common/bson/bson_validate.cpp]: the check a byte block received from
    the network passes before it is used as an object.  The validator is an explicit
    state machine with a stack of frames; [step] is one round of its loop, [run] the
    loop with a bound on the number of rounds.  [makeError] is the result [Invalid]; its
    message renders the [_id] element found so far, and [error_id] says which element
    that is.  The rendering itself, [BSONElement::toString], is left out, and with it what
    it reads. *)

From S2P Require Import Prelude BufBuilder Bson.

Local Open Scope Z_scope.

(** A result, the status [InvalidBSON], signed overflow, or a memory access outside of
    the block (a use of an empty stack included). *)
Inductive vres (A : Type) : Type :=
  | Good (a : A)
  | Invalid
  | Overflow
  | Oob.
Arguments Good {A}.
Arguments Invalid {A}.
Arguments Overflow {A}.
Arguments Oob {A}.

#[export] Instance vres_ret : MRet vres := fun A a => Good a.
#[export] Instance vres_bind : MBind vres := fun A B k c =>
  match c with Good a => k a | Invalid => Invalid | Overflow => Overflow | Oob => Oob end.

Definition mem {A} (o : option A) : vres A := match o with Some a => Good a | None => Oob end.
Definition require (b : bool) : vres unit := if b then Good tt else Invalid.
Definition int32 (z : Z) : vres Z := if decide (in_s 32 z) then Good z else Overflow.

(** ** [Buffer] *)

Record Buffer := mkBuf { _buffer : list Z; _position : Z; _maxLength : Z }.

Definition at_pos (b : Buffer) (p : Z) : Buffer := mkBuf (_buffer b) p (_maxLength b).

(** [readNumber] of [n] bytes: the unsigned value, or nothing for [false]. *)
Definition readNumber (n : nat) (b : Buffer) : vres (option Z * Buffer) :=
  if _maxLength b <? u64 (_position b + Z.of_nat n) then mret (None, b)
  else bs ← mem (buf_read (_buffer b) (Z.to_nat (_position b)) n);
       mret (Some (le_val bs), at_pos b (u64 (_position b + Z.of_nat n))).

Definition readNumber_int (b : Buffer) : vres (option Z * Buffer) :=
  '(x, b) ← readNumber 4 b; mret (option_map s32 x, b).
Definition readNumber_char (b : Buffer) : vres (option Z * Buffer) :=
  '(x, b) ← readNumber 1 b; mret (option_map s8 x, b).

(** A number that must be there. *)
Definition expect (c : vres (option Z * Buffer)) : vres (Z * Buffer) :=
  '(x, b) ← c; match x with Some z => mret (z, b) | None => Invalid end.

(** [memchr(p, 0, n)]: bytes are looked at one by one. *)
Fixpoint memchr (p : list Z) (n : Z) : vres (option Z) :=
  if n <=? 0 then mret None
  else match p with
       | [] => Oob
       | c :: p => if c =? 0 then mret (Some 0) else i ← memchr p (n - 1); mret (option_map Z.succ i)
       end.

Definition readCString (b : Buffer) : vres Buffer :=
  x ← memchr (drop (Z.to_nat (_position b)) (_buffer b)) (u64 (_maxLength b - _position b));
  match x with
  | None => Invalid
  | Some len => mret (at_pos b (u64 (_position b + len + 1)))
  end.

Definition skip (sz : Z) (b : Buffer) : bool * Buffer :=
  let p := u64 (_position b + u64 sz) in (p <? _maxLength b, at_pos b p).
(** [if (!buffer->skip(sz)) return makeError(...)] *)
Definition skip_or_fail (sz : Z) (b : Buffer) : vres Buffer :=
  let '(x, b) := skip sz b in require x;; mret b.

Definition readUTF8String (b : Buffer) : vres Buffer :=
  '(sz, b) ← expect (readNumber_int b);
  k ← int32 (sz - 1);
  b ← skip_or_fail k b;
  '(c, b) ← expect (readNumber_char b);
  require (c =? 0);;
  mret b.

(** ** Frames and states *)

Inductive State := BeginObj | WithinObj | EndObj | BeginCodeWScope | EndCodeWScope | Done.
#[export] Instance State_eq_dec : EqDecision State.
Proof. solve_decision. Defined.

Record ValidationObjectFrame := mkFrame { expectedSize : Z; _startPosition : Z }.
Definition startPosition (f : ValidationObjectFrame) : Z := Z.land (_startPosition f) (2 ^ 31 - 1).
Definition isCodeWithScope (f : ValidationObjectFrame) : bool := Z.testbit (_startPosition f) 31.
Definition setStartPosition (pos : Z) (f : ValidationObjectFrame) : ValidationObjectFrame :=
  mkFrame (expectedSize f)
    (Z.lor (Z.land (_startPosition f) (- 2 ^ 31)) (Z.land pos (2 ^ 31 - 1))).
Definition setIsCodeWithScope (c : bool) (f : ValidationObjectFrame) : ValidationObjectFrame :=
  mkFrame (expectedSize f)
    (if c then Z.lor (_startPosition f) (- 2 ^ 31) else Z.land (_startPosition f) (2 ^ 31 - 1)).

(** [push_back(ValidationObjectFrame())], both setters and the read of the size. *)
Definition new_frame (c : bool) (b : Buffer) : vres (ValidationObjectFrame * Buffer) :=
  let f := setIsCodeWithScope c (setStartPosition (s32 (_position b)) (mkFrame 0 0)) in
  '(sz, b) ← expect (readNumber_int b);
  mret (mkFrame sz (_startPosition f), b).

Definition validateElementInfo (b : Buffer) (nextState : State) : vres (State * Buffer) :=
  '(type, b) ← expect (readNumber_char b);
  if type =? EOO then mret (EndObj, b) else
  b ← readCString b;
  if one_of type [MinKey; MaxKey; jstNULL; Undefined] then mret (nextState, b)
  else if type =? jstOID then b ← skip_or_fail 12 b; mret (nextState, b)
  else if type =? NumberInt then b ← skip_or_fail 4 b; mret (nextState, b)
  else if type =? Bool then b ← skip_or_fail 1 b; mret (nextState, b)
  else if one_of type [NumberDouble; NumberLong; Timestamp; Date]
       then b ← skip_or_fail 8 b; mret (nextState, b)
  else if type =? DBRef then b ← readUTF8String b; mret (nextState, (skip 12 b).2)
  else if type =? RegEx then b ← readCString b; b ← readCString b; mret (nextState, b)
  else if one_of type [Code; Symbol; String] then b ← readUTF8String b; mret (nextState, b)
  else if type =? BinData then
    '(sz, b) ← expect (readNumber_int b); k ← int32 (1 + sz);
    b ← skip_or_fail k b; mret (nextState, b)
  else if type =? CodeWScope then mret (BeginCodeWScope, b)
  else if one_of type [Object; Array] then mret (BeginObj, b)
  else Invalid.

(** ** The loop

    [idElem] is the position of the [_id] element once it has been validated;
    the last frame of the deque, which [curr] points to, is the head of [frames]. *)
Record vstate := mkV {
  buffer : Buffer;
  frames : list ValidationObjectFrame;
  state : State;
  idElemStartPos : Z;
  idElem : option Z }.

(** [strcmp(p, s) == 0] for a constant [s]. *)
Fixpoint strcmp_eq (p s : list Z) : vres bool :=
  c ← mem (p !! 0%nat);
  match s with
  | [] => mret (c =? 0)
  | x :: s => if c =? x then strcmp_eq (drop 1 p) s else mret false
  end.

Definition id_eoo (st : vstate) : vres bool :=
  match idElem st with
  | None => mret true
  | Some p => c ← mem (_buffer (buffer st) !! Z.to_nat p); mret (s8 c =? EOO)
  end.

Definition atTopLevel (st : vstate) : bool := (length (frames st) =? 1)%nat.

(** The [_id] element is known to be valid at the start of the next one. *)
Definition note_id (st : vstate) : vstate :=
  if (atTopLevel st && negb (idElemStartPos st =? 0))%bool
  then mkV (buffer st) (frames st) WithinObj 0 (Some (idElemStartPos st))
  else mkV (buffer st) (frames st) WithinObj (idElemStartPos st) (idElem st).

Definition within (st : vstate) : vres vstate :=
  let st := note_id st in
  let elemStartPos := _position (buffer st) in
  '(next, b) ← validateElementInfo (buffer st) WithinObj;
  is_id ← (if decide (next = EndObj) then mret false
           else x ← id_eoo st;
                if (x && atTopLevel st)%bool
                then strcmp_eq (drop (Z.to_nat (elemStartPos + 1)) (_buffer b)) [95; 105; 100]
                else mret false);
  mret (mkV b (frames st) next (if (is_id : bool) then elemStartPos else idElemStartPos st) (idElem st)).

(** The length check at the end of an object. *)
Definition close (st : vstate) : vres (list ValidationObjectFrame) :=
  match frames st with
  | [] => Oob
  | f :: fs =>
      let actualLength := s32 (u64 (_position (buffer st) - startPosition f)) in
      require (actualLength =? expectedSize f);; mret fs
  end.

Definition with_frames (st : vstate) (fs : list ValidationObjectFrame) (s : State) : vstate :=
  mkV (buffer st) fs s (idElemStartPos st) (idElem st).

Definition step (st : vstate) : vres vstate :=
  match state st with
  | BeginObj =>
      '(f, b) ← new_frame false (buffer st);
      within (mkV b (f :: frames st) WithinObj (idElemStartPos st) (idElem st))
  | WithinObj => within st
  | EndObj =>
      fs ← close st;
      mret (with_frames st fs
        (match fs with
         | [] => Done
         | f :: _ => if isCodeWithScope f then EndCodeWScope else WithinObj
         end))
  | BeginCodeWScope =>
      '(f, b) ← new_frame true (buffer st);
      b ← readUTF8String b;
      mret (mkV b (f :: frames st) BeginObj (idElemStartPos st) (idElem st))
  | EndCodeWScope =>
      fs ← close st;
      match fs with [] => Invalid | _ => mret (with_frames st fs WithinObj) end
  | Done => mret st
  end.

(** [Good true]: the status is OK; [Good false]: not finished after [fuel] rounds. *)
Fixpoint run (fuel : nat) (st : vstate) : vres bool :=
  if decide (state st = Done) then mret true
  else match fuel with
       | O => mret false
       | S fuel => st ← step st; run fuel st
       end.

Definition init_state (originalBuffer : list Z) (maxLength : Z) : vstate :=
  mkV (mkBuf originalBuffer 0 maxLength) [] BeginObj 0 None.

Definition validateBSON (fuel : nat) (originalBuffer : list Z) (maxLength : Z) : vres bool :=
  if maxLength <? 5 then Invalid else run fuel (init_state originalBuffer maxLength).

(** The [idElem] that [makeError] renders when a round fails in [st], and when the whole
    validation does; [None] is the message with an unknown [_id]. *)
Definition makeError_id (st : vstate) : option Z :=
  match state st with WithinObj => idElem (note_id st) | _ => idElem st end.

Fixpoint error_id (fuel : nat) (st : vstate) : option Z :=
  if decide (state st = Done) then None
  else match fuel with
       | O => None
       | S fuel =>
           match step st with
           | Good st' => error_id fuel st'
           | Invalid => makeError_id st
           | _ => None
           end
       end.

(** [BSONObj::valid] *)
Definition valid (fuel : nat) (o : BSONObj) : vres bool :=
  match objsize o with
  | Ret n => validateBSON fuel o (u64 n)
  | _ => Oob
  end.

(** ** Memory safety *)

(** [c] does not leave the block, and a normal result satisfies [Q]. *)
Definition safe {A} (c : vres A) (Q : A -> Prop) : Prop :=
  match c with Good a => Q a | Oob => False | _ => True end.

Lemma safe_bind {A B} (c : vres A) (k : A -> vres B) Q :
  safe c (fun a => safe (k a) Q) -> safe (c ≫= k) Q.
Proof. by destruct c. Qed.

Lemma safe_mono {A} (c : vres A) (P Q : A -> Prop) : safe c P -> (forall a, P a -> Q a) -> safe c Q.
Proof. destruct c; simpl; auto. Qed.

Lemma safe_require b Q : (b = true -> Q tt) -> safe (require b) Q.
Proof. destruct b; simpl; auto. Qed.

Lemma safe_int32 z Q : (in_s 32 z -> Q z) -> safe (int32 z) Q.
Proof. unfold int32. case_decide; simpl; auto. Qed.

Lemma u64_small z : 0 <= z < 2 ^ 63 -> u64 z = z.
Proof. intros H. apply uwrap_small. unfold in_u. lia. Qed.

Lemma strcmp_eq_good s p : 0 ∉ s -> (exists i, p !! i = Some 0) -> exists b, strcmp_eq p s = Good b.
Proof.
  revert p. induction s as [|x s IH]; intros p Hs [i Hi]; simpl.
  - destruct p as [|c p]; [by rewrite lookup_nil in Hi|]. by eexists.
  - destruct p as [|c p]; [by rewrite lookup_nil in Hi|]. simpl.
    rewrite not_elem_of_cons in Hs. destruct (c =? x) eqn:E; [|by eexists]. reflect_bool. subst.
    rewrite drop_0. apply IH; [tauto|]. destruct i as [|i]; simpl in Hi; [|by exists i].
    simplify_eq. tauto.
Qed.

(** Positions of the [_id] element are positions of the block. *)
Definition id_ok (buf : list Z) (st : vstate) : Prop :=
  0 <= idElemStartPos st < Z.of_nat (length buf) /\
  forall q, idElem st = Some q -> 0 <= q < Z.of_nat (length buf).

Lemma id_eoo_good buf st : _buffer (buffer st) = buf -> id_ok buf st -> exists b, id_eoo st = Good b.
Proof.
  intros Hb [_ Hid]. unfold id_eoo. destruct (idElem st) as [q|] eqn:E; [|by eexists]. rewrite Hb.
  destruct (lookup_lt_is_Some_2 buf (Z.to_nat q)) as [c ->]; [specialize (Hid q eq_refl); lia|by eexists].
Qed.

Lemma note_id_spec buf st : id_ok buf st ->
  id_ok buf (note_id st) /\ buffer (note_id st) = buffer st /\ frames (note_id st) = frames st.
Proof.
  intros [H1 H2]. unfold note_id. destruct (_ && _)%bool; (split; [split; simpl|done]); try done; [lia|].
  by intros q [= <-].
Qed.

(** The whole of [within], given what [validateElementInfo] does. *)
Lemma within_good buf st next b :
  id_ok buf st -> _buffer (buffer st) = buf -> _buffer b = buf ->
  validateElementInfo (buffer st) WithinObj = Good (next, b) ->
  0 <= _position (buffer st) < Z.of_nat (length buf) ->
  (next <> EndObj -> exists i, 0 <= i /\ buf !! Z.to_nat (_position (buffer st) + 1 + i) = Some 0) ->
  exists st', within st = Good st' /\ buffer st' = b /\ frames st' = frames st /\ state st' = next /\
    id_ok buf st'.
Proof.
  intros Hid Hb Hb' He Hp Hname. unfold within.
  destruct (note_id_spec buf st Hid) as (Hid1 & Hb1 & Hf1). set (st1 := note_id st) in *.
  rewrite Hb1, He. cbn [mbind vres_bind].
  assert (exists x : bool, (if decide (next = EndObj) then mret false
     else x ← id_eoo st1; if (x && atTopLevel st1)%bool
       then strcmp_eq (drop (Z.to_nat (_position (buffer st) + 1)) (_buffer b)) [95; 105; 100]
       else mret false) = Good x) as [x ->].
  { case_decide as Hn; [by eexists|].
    destruct (id_eoo_good buf st1) as [y ->]; [by rewrite Hb1|done|]. cbn [mbind vres_bind].
    destruct (y && _)%bool; [|by eexists]. apply strcmp_eq_good; [set_solver by lia|].
    destruct (Hname Hn) as (i & Hi & Hz). exists (Z.to_nat i). rewrite Hb', lookup_drop, <- Hz. f_equal. lia. }
  destruct Hid1 as [Hid1 Hid2]. eexists. split; [done|]. simpl. split_and!; try done.
  split; simpl; [|done]. destruct x; [lia|done].
Qed.

Section Safety.
Context (buf : list Z) (maxLength : Z).
Context (Hmax : 0 <= maxLength <= Z.of_nat (length buf)) (Hbound : maxLength < 2 ^ 62).

Local Notation B p := (mkBuf buf p maxLength).

Lemma readNumber_safe n p :
  0 <= p <= maxLength + 12 -> Z.of_nat n <= 8 ->
  safe (readNumber n (B p)) (fun '(x, b) =>
    if x then b = B (p + Z.of_nat n) /\ p + Z.of_nat n <= maxLength else b = B p).
Proof.
  intros Hp Hn. unfold readNumber. simpl. rewrite u64_small by lia.
  destruct (maxLength <? p + Z.of_nat n) eqn:E; simpl; [done|]. reflect_bool.
  unfold buf_read. rewrite decide_True by lia. simpl. split; [done|lia].
Qed.

Lemma expect_int_safe p :
  0 <= p <= maxLength + 12 ->
  safe (expect (readNumber_int (B p))) (fun '(_, b) => b = B (p + 4) /\ p + 4 <= maxLength).
Proof.
  intros Hp. unfold expect, readNumber_int. do 2 apply safe_bind.
  eapply safe_mono; [apply readNumber_safe; lia|]. intros [[x|] b]; simpl; auto.
Qed.

Lemma expect_char_safe p :
  0 <= p <= maxLength + 12 ->
  safe (expect (readNumber_char (B p))) (fun '(_, b) => b = B (p + 1) /\ p + 1 <= maxLength).
Proof.
  intros Hp. unfold expect, readNumber_char. do 2 apply safe_bind.
  eapply safe_mono; [apply readNumber_safe; lia|]. intros [[x|] b]; simpl; auto.
Qed.

Lemma memchr_safe p n :
  n <= Z.of_nat (length p) ->
  safe (memchr p n) (fun x => forall i, x = Some i -> 0 <= i < n /\ p !! Z.to_nat i = Some 0).
Proof.
  revert n. induction p as [|c p IH]; intros n Hn; simpl in *.
  - destruct (n <=? 0) eqn:E; simpl; [done|]. reflect_bool. lia.
  - destruct (n <=? 0) eqn:E; simpl; [done|]. reflect_bool. destruct (c =? 0) eqn:E0; reflect_bool.
    + simpl. intros i [= <-]. split; [lia|]. simpl. by subst.
    + apply safe_bind. eapply safe_mono; [apply IH; lia|]. intros [j|] Hj; simpl; [|done].
      intros i [= <-]. destruct (Hj j eq_refl) as [H1 H2]. split; [lia|].
      replace (Z.to_nat (Z.succ j)) with (S (Z.to_nat j)) by lia. done.
Qed.

Lemma readCString_safe p :
  0 <= p <= maxLength ->
  safe (readCString (B p)) (fun b => exists i, 0 <= i /\ b = B (p + i + 1) /\ p + i < maxLength /\
    buf !! Z.to_nat (p + i) = Some 0).
Proof.
  intros Hp. unfold readCString. simpl. rewrite (u64_small (maxLength - p)) by lia. apply safe_bind.
  eapply safe_mono; [apply memchr_safe; rewrite length_drop; lia|].
  intros [i|] Hi; simpl; [|done]. destruct (Hi i eq_refl) as [H1 H2]. exists i.
  rewrite u64_small by lia. rewrite lookup_drop in H2. split_and!; try done; try lia.
  rewrite <- H2. f_equal. lia.
Qed.

Lemma skip_or_fail_safe k p :
  safe (skip_or_fail k (B p)) (fun b => exists q, b = B q /\ 0 <= q < maxLength).
Proof.
  unfold skip_or_fail. simpl. apply safe_bind, safe_require. intros E. reflect_bool. simpl.
  eexists. split; [done|]. split; [|done]. apply uwrap_range. lia.
Qed.

Lemma readUTF8String_safe p :
  0 <= p <= maxLength -> safe (readUTF8String (B p)) (fun b => exists q, b = B q /\ 0 <= q <= maxLength).
Proof.
  intros Hp. unfold readUTF8String. apply safe_bind.
  eapply safe_mono; [apply expect_int_safe; lia|]. intros [sz b] [-> Hq].
  apply safe_bind, safe_int32. intros _. apply safe_bind.
  eapply safe_mono; [apply skip_or_fail_safe|]. intros b (q & -> & Hq2). apply safe_bind.
  eapply safe_mono; [apply expect_char_safe; lia|]. intros [c b] [-> Hq3].
  apply safe_bind, safe_require. intros _. simpl. eexists. split; [done|lia].
Qed.

(** A position the machine can be in, and a terminated name behind the type byte. *)
Definition pos_ok (b : Buffer) : Prop := exists q, b = B q /\ 0 <= q <= maxLength + 12.
Definition name_at (p : Z) : Prop :=
  exists i, 0 <= i /\ p + 1 + i < maxLength /\ buf !! Z.to_nat (p + 1 + i) = Some 0.

Ltac use_safe L :=
  first [apply safe_bind; eapply safe_mono; [apply L; lia|] | apply safe_bind; eapply safe_mono; [apply L|]].

Lemma validateElementInfo_safe p s :
  0 <= p <= maxLength + 12 ->
  safe (validateElementInfo (B p) s) (fun '(next, b) => pos_ok b /\ p < maxLength /\
    (next <> EndObj -> name_at p)).
Proof.
  intros Hp. unfold validateElementInfo. use_safe expect_char_safe. intros [t b] [-> Hq].
  destruct (t =? EOO) eqn:E0.
  { simpl. split_and!; [exists (p + 1); split; [done|lia]|lia|done]. }
  use_safe readCString_safe. intros b (i & Hi & -> & Hle & Hz).
  assert (name_at p) as Hname by (exists i; split_and!; [lia|lia|done]).
  assert (forall q, 0 <= q <= maxLength + 12 -> pos_ok (B q)) as Hok by (intros q ?; exists q; done).
  repeat match goal with
  | |- safe (if _ then _ else _) _ => case_match
  | |- safe (mret _) _ => simpl
  | |- safe Invalid _ => exact I
  | |- safe (skip_or_fail _ _ ≫= _) _ =>
      use_safe skip_or_fail_safe; intros ? (? & -> & ?)
  | |- safe (readUTF8String _ ≫= _) _ => use_safe readUTF8String_safe; intros ? (? & -> & ?)
  | |- safe (readCString _ ≫= _) _ => use_safe readCString_safe; intros ? (? & ? & -> & ? & ?)
  | |- safe (expect (readNumber_int _) ≫= _) _ => use_safe expect_int_safe; intros [? ?] [-> ?]
  | |- safe (int32 _ ≫= _) _ => apply safe_bind, safe_int32; intros ?
  end; (split_and!; [|lia|done]); try (apply Hok; lia).
  unfold at_pos. simpl. apply Hok. rewrite (u64_small 12) by lia. rewrite u64_small; lia.
Qed.

(** States in which the stack is used. *)
Definition one_of_states (s : State) : bool :=
  match s with WithinObj | EndObj | EndCodeWScope => true | _ => false end.

Record sinv (st : vstate) : Prop := {
  si_pos : pos_ok (buffer st);
  si_frames : one_of_states (state st) = true -> frames st <> [];
  si_id : id_ok buf st }.

Lemma within_safe st : sinv st -> frames st <> [] -> safe (within st) sinv.
Proof.
  intros [(p & Hb & Hp) _ Hid] Hfs.
  pose proof (validateElementInfo_safe p WithinObj Hp) as Hs. rewrite <- Hb in Hs.
  destruct (validateElementInfo (buffer st) WithinObj) as [[next b]| | |] eqn:E; simpl in Hs; try done.
  - destruct Hs as ((q & -> & Hq) & Hlt & Hname).
    destruct (within_good buf st next (B q)) as (st' & -> & Hb' & Hf' & Hst' & Hid'); try done.
    + by rewrite Hb.
    + rewrite Hb. simpl. lia.
    + intros Hn. destruct (Hname Hn) as (i & H1 & H2 & H3). exists i. by rewrite Hb.
    + simpl. split; [by exists q|by rewrite Hf'|done].
  - unfold within. destruct (note_id_spec buf st Hid) as (_ & -> & _). by rewrite E.
  - unfold within. destruct (note_id_spec buf st Hid) as (_ & -> & _). by rewrite E.
Qed.

Lemma new_frame_safe c p :
  0 <= p <= maxLength + 12 -> safe (new_frame c (B p)) (fun '(_, b) => b = B (p + 4) /\ p + 4 <= maxLength).
Proof.
  intros Hp. unfold new_frame. apply safe_bind. eapply safe_mono; [by apply expect_int_safe|].
  by intros [sz b] H.
Qed.

Lemma close_safe st Q :
  frames st <> [] -> (forall f fs, frames st = f :: fs -> Q fs) -> safe (close st) Q.
Proof.
  intros Hfs HQ. unfold close. destruct (frames st) as [|f fs]; [done|].
  apply safe_bind, safe_require. intros _. simpl. by eapply HQ.
Qed.

Lemma step_safe st : sinv st -> safe (step st) sinv.
Proof.
  intros H. pose proof H as [(p & Hb & Hp) Hf Hid]. unfold step.
  destruct (state st) eqn:Es; simpl in Hf.
  - rewrite Hb. apply safe_bind. eapply safe_mono; [by apply new_frame_safe|]. intros [f b] [-> Hq].
    apply within_safe; [|done]. split; try done. by exists (p + 4); split; [|lia].
  - by apply within_safe, Hf.
  - apply safe_bind, close_safe; [by apply Hf|]. intros f fs Hfr. split; try done.
    + exists p. done.
    + simpl. by destruct fs.
  - rewrite Hb. apply safe_bind. eapply safe_mono; [by apply new_frame_safe|]. intros [f b] [-> Hq].
    apply safe_bind. eapply safe_mono; [apply readUTF8String_safe; lia|]. intros b (q & -> & Hq2).
    split; try done. by exists q; split; [|lia].
  - apply safe_bind, close_safe; [by apply Hf|]. intros f [|f' fs] Hfr; [done|]. split; try done.
    exists p. done.
  - exact H.
Qed.

Lemma run_safe fuel st : sinv st -> safe (run fuel st) (fun _ => True).
Proof.
  revert st. induction fuel as [|fuel IH]; intros st H; simpl; case_decide; try done.
  apply safe_bind. eapply safe_mono; [by apply step_safe|]. intros st' H'. by apply IH.
Qed.

(** *** The [_id] element of an error message *)

(** The four bytes behind the type byte at [p] are the name [_id], inside of the block. *)
Definition id_at (p : Z) : Prop :=
  0 < p /\ p + 5 <= maxLength /\ buf_read buf (Z.to_nat (p + 1)) 4 = Some [95; 105; 100; 0].

Definition id_named (st : vstate) : Prop :=
  (idElemStartPos st <> 0 -> id_at (idElemStartPos st)) /\ forall q, idElem st = Some q -> id_at q.

Lemma strcmp_eq_prefix s p : strcmp_eq p s = Good true -> exists r, p = s ++ 0 :: r.
Proof.
  revert p. induction s as [|x s IH]; intros [|c p]; simpl; try done.
  - intros [= E]. reflect_bool. subst. by exists p.
  - destruct (c =? x) eqn:E; [|done]. reflect_bool. subst. rewrite drop_0. intros H.
    destruct (IH _ H) as [r ->]. by exists r.
Qed.

Lemma id_at_intro p :
  0 < p -> name_at p -> strcmp_eq (drop (Z.to_nat (p + 1)) buf) [95; 105; 100] = Good true -> id_at p.
Proof.
  intros Hp (i & Hi & Hlt & Hz) Hs. destruct (strcmp_eq_prefix _ _ Hs) as [r Hr]. simpl in Hr.
  replace (Z.to_nat (p + 1 + i)) with (Z.to_nat (p + 1) + Z.to_nat i)%nat in Hz by lia.
  rewrite <- lookup_drop, Hr in Hz.
  assert (3 <= Z.to_nat i)%nat as H3 by (destruct (Z.to_nat i) as [|[|[|]]]; simpl in Hz; simplify_eq; lia).
  split_and!; [lia|lia|]. unfold buf_read. rewrite Hr, decide_True; [done|]. lia.
Qed.

Lemma note_id_named st : id_named st -> id_named (note_id st).
Proof.
  intros [H1 H2]. unfold note_id. destruct (_ && _)%bool eqn:E; [|done].
  split; simpl; [done|]. intros q [= <-]. apply H1. destruct (atTopLevel st); [|done]. by reflect_bool.
Qed.

Lemma within_named st st' p :
  buffer st = B p -> 0 <= p <= maxLength + 12 -> id_named st -> within st = Good st' -> id_named st'.
Proof.
  intros Hb Hp Hid. unfold within. pose proof (note_id_named st Hid) as [H1 H2].
  assert (buffer (note_id st) = B p) as Hb1 by (unfold note_id; by destruct (_ && _)%bool).
  pose proof (validateElementInfo_safe p WithinObj ltac:(lia)) as Hs. rewrite Hb1.
  destruct (validateElementInfo (B p) WithinObj) as [[next b]| | |]; simpl in Hs; cbn -[strcmp_eq]; try done.
  destruct Hs as ((q & -> & _) & _ & Hname). case_decide as Hn; [simpl; by intros [= <-]|].
  destruct (id_eoo (note_id st)) as [x| | |]; cbn -[strcmp_eq]; try done.
  destruct (x && _)%bool; [|simpl; by intros [= <-]].
  destruct (strcmp_eq (drop (Z.to_nat (p + 1)) buf) [95; 105; 100]) as [[]| | |] eqn:E;
    simpl; try done; intros [= <-]; [|done].
  split; simpl; [|done]. intros Hne. apply id_at_intro; [lia|by apply Hname|done].
Qed.

Lemma step_named st st' : sinv st -> id_named st -> step st = Good st' -> id_named st'.
Proof.
  intros [(p & Hb & Hp) _ _] Hid. unfold step. destruct (state st).
  - pose proof (new_frame_safe false p Hp) as Hs. rewrite Hb.
    destruct (new_frame false (B p)) as [[f b]| | |]; simpl in Hs |- *; try done. destruct Hs as [-> Hq].
    eapply within_named; [done|lia|exact Hid].
  - by eapply within_named.
  - destruct (close st); simpl; try done. by intros [= <-].
  - destruct (new_frame _ _) as [[f b]| | |]; simpl; try done.
    destruct (readUTF8String b); simpl; try done. by intros [= <-].
  - destruct (close st) as [[|]| | |]; simpl; try done. by intros [= <-].
  - simpl. by intros [= <-].
Qed.

Lemma error_id_named fuel st p : sinv st -> id_named st -> error_id fuel st = Some p -> id_at p.
Proof.
  revert st. induction fuel as [|fuel IH]; intros st Hs Hid; simpl; case_decide; try done.
  pose proof (step_safe st Hs) as Hs'. destruct (step st) as [st'| | |] eqn:E; simpl in Hs'; try done.
  - apply IH; [done|]. by apply (step_named st).
  - unfold makeError_id. destruct (state st); try apply Hid. by apply note_id_named.
Qed.

Lemma init_sinv : 0 < maxLength -> sinv (init_state buf maxLength).
Proof. intros H. split; simpl; [by exists 0; split; [|lia]|done|]. split; simpl; [lia|done]. Qed.

End Safety.

(** [C31] Memory safety of the validator, up to the text of its error messages: on any
    bytes, however malformed, and after any number of rounds, the reader and the state
    machine never read outside of the [maxLength] bytes and never use an empty stack of
    frames.  When an error message names an [_id] element, that element starts inside of
    the block and its name, with the terminator, lies inside of it.  Its value need not:
    see [rendered_id_leaves_block]. *)
Theorem validate_never_out_of_bounds buf maxLength fuel :
  0 <= maxLength <= Z.of_nat (length buf) -> maxLength < 2 ^ 62 ->
  validateBSON fuel buf maxLength <> Oob /\
  (forall p, validateBSON fuel buf maxLength = Invalid -> 5 <= maxLength ->
     error_id fuel (init_state buf maxLength) = Some p ->
     0 < p /\ p + 5 <= maxLength /\ buf_read buf (Z.to_nat (p + 1)) 4 = Some [95; 105; 100; 0]).
Proof.
  intros H1 H2. split.
  - unfold validateBSON. destruct (maxLength <? 5) eqn:E; [done|]. reflect_bool.
    pose proof (run_safe buf maxLength H1 H2 fuel _ (init_sinv buf maxLength H1 ltac:(lia))) as Hs.
    intros E'. by rewrite E' in Hs.
  - intros p _ H5. apply (error_id_named buf maxLength H1 H2); [by apply init_sinv; lia|done].
Qed.

(** An [_id] of type [DBRef] whose object id would follow the end of the block: it counts
    as validated, the next read fails, and the message renders it, with a read of the
    object id outside of the fourteen bytes. *)
Definition dbref_id_input : list Z := [14; 0; 0; 0; 12; 95; 105; 100; 0; 1; 0; 0; 0; 0].

Theorem rendered_id_leaves_block fuel :
  (2 <= fuel)%nat ->
  validateBSON fuel dbref_id_input 14 = Invalid /\
  error_id fuel (init_state dbref_id_input 14) = Some 4 /\
  dbrefOID (drop 4 dbref_id_input) = Fault.
Proof. destruct fuel as [|[|fuel]]; [lia..|]. intros _. split_and!; reflexivity. Qed.

(** ** Well-formed input is accepted *)

(** The bytes [l] are in memory at [p]. *)
Definition here (buf : list Z) (p : Z) (l : list Z) : Prop :=
  0 <= p /\ exists r, drop (Z.to_nat p) buf = l ++ r.

Lemma here_app buf p l1 l2 :
  here buf p (l1 ++ l2) -> here buf p l1 /\ here buf (p + Z.of_nat (length l1)) l2.
Proof.
  intros [Hp [r Hr]]. split; split; try lia.
  - exists (l2 ++ r). by rewrite Hr, <- app_assoc.
  - exists r. replace (Z.to_nat (p + Z.of_nat (length l1))) with (Z.to_nat p + length l1)%nat by lia.
    by rewrite <- drop_drop, Hr, <- app_assoc, drop_app_length.
Qed.

Lemma here_read buf p l : here buf p l -> (0 < length l)%nat -> buf_read buf (Z.to_nat p) (length l) = Some l.
Proof.
  intros [Hp [r Hr]] Hl. unfold buf_read. rewrite decide_True.
  - by rewrite Hr, take_app_length.
  - apply (f_equal length) in Hr. rewrite length_drop, length_app in Hr. lia.
Qed.

Section Accept.
Context (buf : list Z) (maxLength : Z) (Hmax : maxLength < 2 ^ 31).
Local Notation B p := (mkBuf buf p maxLength).

Lemma readNumber_here n z p :
  here buf p (le_bytes n z) -> (0 < n)%nat -> p + Z.of_nat n <= maxLength ->
  readNumber n (B p) = Good (Some (z mod 256 ^ Z.of_nat n), B (p + Z.of_nat n)).
Proof.
  intros H Hn Hle. pose proof (proj1 H). unfold readNumber. simpl. rewrite u64_small by lia.
  assert (maxLength <? p + Z.of_nat n = false) as -> by (apply Z.ltb_ge; lia).
  apply here_read in H; rewrite le_bytes_length in *; [|done]. rewrite H. simpl.
  by rewrite le_val_bytes_mod.
Qed.

Lemma read_int_here k p :
  here buf p (enc_int k) -> in_s 32 k -> p + 4 <= maxLength ->
  expect (readNumber_int (B p)) = Good (k, B (p + 4)).
Proof.
  intros H Hk Hle. unfold readNumber_int, enc_int in *. rewrite (readNumber_here 4 k) by (done || lia).
  unfold expect. cbn [mbind vres_bind mret vres_ret option_map].
  change (k mod 256 ^ Z.of_nat 4) with (uwrap 32 k).
  rewrite swrap_uwrap by lia. by rewrite swrap_small by (done || lia).
Qed.

Lemma read_char_here c p :
  here buf p [u8 c] -> p + 1 <= maxLength -> expect (readNumber_char (B p)) = Good (s8 (u8 c), B (p + 1)).
Proof.
  intros H Hle. assert (u8 c mod 256 ^ Z.of_nat 1 = u8 c) as E by exact (uwrap_idemp 8 c ltac:(lia)).
  unfold readNumber_char. rewrite (readNumber_here 1 (u8 c)); [by rewrite E| |lia|lia].
  cbn [le_bytes]. change (u8 c mod 256) with (u8 c mod 256 ^ Z.of_nat 1). by rewrite E.
Qed.

Lemma memchr_here s r n :
  0 ∉ s -> Z.of_nat (length s) < n -> memchr (s ++ 0 :: r) n = Good (Some (Z.of_nat (length s))).
Proof.
  revert n. induction s as [|c s IH]; intros n Hs Hn; simpl in *.
  - by assert (n <=? 0 = false) as -> by (apply Z.leb_gt; lia).
  - assert (n <=? 0 = false) as -> by (apply Z.leb_gt; lia).
    rewrite not_elem_of_cons in Hs. destruct Hs as [Hc Hs].
    assert (c =? 0 = false) as -> by (apply Z.eqb_neq; lia).
    rewrite IH by (done || lia). simpl. do 2 f_equal. lia.
Qed.

Lemma readCString_here s p :
  here buf p (enc_cstr s) -> cstr_ok s -> p + Z.of_nat (length s) + 1 <= maxLength ->
  readCString (B p) = Good (B (p + Z.of_nat (length s) + 1)).
Proof.
  intros [Hp [r Hr]] [_ Hs] Hle. unfold readCString, enc_cstr in *. simpl. rewrite Hr, <- app_assoc. simpl.
  rewrite (u64_small (maxLength - p)) by lia. rewrite memchr_here by (done || lia). simpl.
  by rewrite u64_small by lia.
Qed.

Lemma skip_here k p :
  0 <= p -> 0 <= k -> p + k < maxLength -> skip_or_fail k (B p) = Good (B (p + k)).
Proof.
  intros Hp Hk Hle. unfold skip_or_fail, skip. simpl. rewrite (u64_small k), u64_small by lia.
  by assert (p + k <? maxLength = true) as -> by (apply Z.ltb_lt; lia).
Qed.

Lemma readUTF8String_here s p :
  here buf p (enc_str s) -> p + Z.of_nat (length (enc_str s)) <= maxLength ->
  readUTF8String (B p) = Good (B (p + Z.of_nat (length (enc_str s)))).
Proof.
  intros H Hle. rewrite enc_str_length in *. unfold enc_str in H. pose proof (proj1 H).
  apply here_app in H as [H1 [H2 H3]%here_app]. rewrite length_enc_int in *.
  unfold readUTF8String. rewrite (read_int_here (Z.of_nat (length s) + 1)) by (unfold in_s; done || lia).
  cbn [mbind vres_bind]. unfold int32. rewrite decide_True by (unfold in_s; lia). cbn [mbind vres_bind].
  rewrite skip_here by lia. cbn [mbind vres_bind].
  rewrite (read_char_here 0).
  - simpl. do 2 f_equal. lia.
  - by replace (p + 4 + (Z.of_nat (length s) + 1 - 1)) with (p + Z.of_nat 4 + Z.of_nat (length s)) by lia.
  - lia.
Qed.

Ltac eval_one_of :=
  repeat match goal with
  | |- context [one_of ?t ?l] =>
      let b := eval vm_compute in (one_of t l) in change (one_of t l) with b; cbv iota
  end.

(** The state after the header of an element, and the bytes consumed until then. *)
Definition enter (v : val) : State :=
  match v with
  | VObject _ | VArray _ => BeginObj
  | VCodeWScope _ _ => BeginCodeWScope
  | _ => WithinObj
  end.
Definition consumed (n : list Z) (v : val) : Z :=
  Z.of_nat (length n) + 2 +
  match enter v with WithinObj => Z.of_nat (length (enc_val v)) | _ => 0 end.

Lemma validateElementInfo_here n v p :
  here buf p (enc_elem n v) -> cstr_ok n -> val_ok v ->
  p + Z.of_nat (length (enc_elem n v)) < maxLength ->
  validateElementInfo (B p) WithinObj = Good (enter v, B (p + consumed n v)).
Proof.
  intros H Hn Hv. rewrite enc_elem_length. intros Hle. unfold enc_elem in H.
  pose proof (proj1 H) as Hp. change (u8 (type_of v) :: enc_cstr n ++ enc_val v) with
    ([u8 (type_of v)] ++ enc_cstr n ++ enc_val v) in H.
  apply here_app in H as [H1 [H2 H3]%here_app].
  replace (p + Z.of_nat (length [u8 (type_of v)]) + Z.of_nat (length (enc_cstr n)))
    with (p + 1 + Z.of_nat (length n) + 1) in H3 by (unfold enc_cstr; rewrite length_app; simpl; lia).
  unfold validateElementInfo. rewrite (read_char_here (type_of v)) by (done || lia). rewrite s8_type.
  cbn [mbind vres_bind]. rewrite type_of_not_eoo.
  rewrite (readCString_here n) by (done || lia). cbn [mbind vres_bind]. unfold consumed.
  set (q := p + 1 + Z.of_nat (length n) + 1) in *.
  destruct v; cbn [type_of enter val_ok enc_val] in *;
    cbn -[one_of skip_or_fail readUTF8String readCString expect readNumber_int enc_int enc_str Z.of_nat
          mbind vres_bind mret vres_ret].
  all: eval_one_of; rewrite ?length_app, ?le_bytes_length in *.
  all: try (rewrite skip_here by (simpl in *; lia); simpl; do 3 f_equal; lia).
  all: try (match goal with H : here _ _ (enc_str ?s) |- _ =>
    rewrite (readUTF8String_here s) by (done || lia) end; simpl; do 3 f_equal; lia).
  all: try (simpl; do 3 f_equal; lia).
  - apply here_app in H3 as [H3 H4]. rewrite length_enc_int in *. cbn [length] in *.
    rewrite (read_int_here (Z.of_nat (length b))) by (unfold in_s; done || lia). cbn [mbind vres_bind].
    unfold int32. rewrite decide_True by (unfold in_s; lia). cbn [mbind vres_bind].
    rewrite skip_here by lia. simpl. do 3 f_equal. lia.
  - apply here_app in H3 as [H3 H4]. unfold enc_cstr in *. rewrite !length_app in *. cbn [length] in *.
    destruct Hv as [Hv1 Hv2].
    rewrite (readCString_here pattern) by (done || lia). cbn [mbind vres_bind].
    rewrite (readCString_here flags); [|by rewrite Nat2Z.inj_add, Z.add_assoc in H4|done|lia].
    simpl. do 3 f_equal. lia.
  - apply here_app in H3 as [H3 H4]. destruct Hv as (_ & Ho & _). rewrite Ho in *.
    rewrite (readUTF8String_here ns) by (done || lia). cbn [mbind vres_bind]. unfold at_pos.
    cbn [_position _buffer _maxLength]. rewrite (u64_small 12), u64_small by lia.
    cbn [mret vres_ret]. do 3 f_equal. lia.
Qed.

(** One round of the loop. *)
Definition vstep (st st' : vstate) : Prop := state st <> Done /\ step st = Good st'.

Lemma run_nsteps n st st' k : nsteps vstep n st st' -> run (n + k) st = run k st'.
Proof.
  induction 1 as [st|n st st1 st' [Hd Hs] _ IH]; [done|]. simpl. rewrite decide_False, Hs by done.
  cbn [mbind vres_bind]. apply IH.
Qed.

(** A state of the machine on this block. *)
Definition at_state (st : vstate) (p : Z) (fs : list ValidationObjectFrame) (s : State) : Prop :=
  buffer st = B p /\ frames st = fs /\ state st = s /\ id_ok buf st.

Lemma here_length p l : here buf p l -> l <> [] -> p + Z.of_nat (length l) <= Z.of_nat (length buf).
Proof.
  intros [Hp [r Hr]] Hl. apply (f_equal length) in Hr. rewrite length_drop, length_app in Hr.
  destruct l; [done|]. simpl in *. lia.
Qed.

Lemma within_here n v p st fs s :
  at_state st p fs s -> here buf p (enc_elem n v) -> cstr_ok n -> val_ok v ->
  p + Z.of_nat (length (enc_elem n v)) < maxLength ->
  exists st', within st = Good st' /\ at_state st' (p + consumed n v) fs (enter v).
Proof.
  intros (Hb & Hf & Hs & Hid) H Hn Hv Hle. pose proof (proj1 H) as Hp.
  pose proof (here_length _ _ H ltac:(discriminate)) as HL. pose proof (enc_elem_length n v) as HL2.
  destruct (within_good buf st (enter v) (B (p + consumed n v))) as (st' & -> & Hb' & Hf' & Hs' & Hid'); try done.
  - by rewrite Hb.
  - rewrite Hb. by apply validateElementInfo_here.
  - rewrite Hb. simpl. lia.
  - intros _. exists (Z.of_nat (length n)). split; [lia|]. rewrite Hb. simpl.
    unfold enc_elem, enc_cstr in H. destruct H as [_ [r Hr]].
    assert (drop (Z.to_nat p) buf !! S (length n) = Some 0) as Hz.
    { rewrite Hr. simpl. rewrite <- !app_assoc. cbn [app]. by apply list_lookup_middle. }
    rewrite lookup_drop in Hz. rewrite <- Hz. f_equal. lia.
  - eexists. split; [done|]. split_and!; try done. by rewrite Hf'.
Qed.

Lemma within_eoo p st fs s :
  at_state st p fs s -> here buf p [0] -> p + 1 <= maxLength ->
  exists st', within st = Good st' /\ at_state st' (p + 1) fs EndObj.
Proof.
  intros (Hb & Hf & Hs & Hid) H Hle. pose proof (proj1 H) as Hp.
  pose proof (here_length _ _ H ltac:(discriminate)) as HL. simpl in HL.
  destruct (within_good buf st EndObj (B (p + 1))) as (st' & -> & Hb' & Hf' & Hs' & Hid'); try done.
  - by rewrite Hb.
  - rewrite Hb. unfold validateElementInfo. by rewrite (read_char_here 0).
  - rewrite Hb. simpl. lia.
  - eexists. split; [done|]. split_and!; try done. by rewrite Hf'.
Qed.

(** *** Frames *)

Definition frame_at (c : bool) (p sz : Z) : ValidationObjectFrame :=
  mkFrame sz (_startPosition (setIsCodeWithScope c (setStartPosition (s32 p) (mkFrame 0 0)))).

Lemma frame_start c p sz : 0 <= p < 2 ^ 31 ->
  startPosition (frame_at c p sz) = p /\ isCodeWithScope (frame_at c p sz) = c.
Proof.
  intros Hp. unfold startPosition, isCodeWithScope, frame_at. simpl _startPosition.
  rewrite swrap_small by (unfold in_s; lia). rewrite Z.land_0_l, Z.lor_0_l.
  assert (Z.land p (Z.ones 31) = p) as Hl by (rewrite Z.land_ones by lia; apply Z.mod_small; lia).
  assert (Z.testbit p 31 = false) as Hbit by (apply (Z.bits_above_log2); [lia|];
    destruct (decide (p = 0)) as [->|]; [done|apply Z.log2_lt_pow2; lia]).
  change (2 ^ 31 - 1) with (Z.ones 31). rewrite Hl. destruct c; [|by rewrite !Hl].
  rewrite Z.land_lor_distr_l, Hl, Z.lor_spec, Hbit. split; [apply Z.lor_0_r|done].
Qed.

Lemma new_frame_here c k p :
  here buf p (enc_int k) -> in_s 32 k -> p + 4 <= maxLength ->
  new_frame c (B p) = Good (frame_at c p k, B (p + 4)).
Proof. intros H Hk Hle. unfold new_frame. by rewrite (read_int_here k). Qed.

Lemma close_here st c p sz fs q s :
  at_state st q (frame_at c p sz :: fs) s -> 0 <= p <= q -> q < 2 ^ 31 ->
  close st = if q - p =? sz then Good fs else Invalid.
Proof.
  intros (Hb & Hf & _) Hp Hq. unfold close. rewrite Hf, Hb. simpl _position.
  rewrite (proj1 (frame_start c p sz ltac:(lia))). rewrite u64_small by lia.
  rewrite swrap_small by (unfold in_s; lia). simpl expectedSize. by destruct (q - p =? sz).
Qed.

(** The state after a closed object. *)
Definition back (fs : list ValidationObjectFrame) : State :=
  match fs with [] => Done | f :: _ => if isCodeWithScope f then EndCodeWScope else WithinObj end.

(** *** Runs over elements and values *)

Definition elems_run (d : doc) : Prop := forall p st f fs,
  at_state st p (f :: fs) WithinObj -> isCodeWithScope f = false -> here buf p (enc_elems d) ->
  doc_ok d -> p + Z.of_nat (length (enc_elems d)) < maxLength ->
  exists n st', (n <= 2 * length (enc_elems d))%nat /\ nsteps vstep n st st' /\
    at_state st' (p + Z.of_nat (length (enc_elems d))) (f :: fs) WithinObj.

Definition value_run (v : val) : Prop := forall p st f fs,
  enter v <> WithinObj ->
  at_state st p (f :: fs) (enter v) -> isCodeWithScope f = false -> here buf p (enc_val v) ->
  val_ok v -> p + Z.of_nat (length (enc_val v)) < maxLength ->
  exists n st', (n <= 2 * length (enc_val v))%nat /\ nsteps vstep n st st' /\
    at_state st' (p + Z.of_nat (length (enc_val v))) (f :: fs) WithinObj.

Lemma vstep_same n st st1 st' :
  nsteps vstep (S n) st1 st' -> step st = step st1 -> state st <> Done -> nsteps vstep (S n) st st'.
Proof.
  intros H E Hd. inversion H as [|? ? st2 ? [_ H1] H2]; subst. eapply nsteps_l; [|exact H2].
  split; [done|]. by rewrite E.
Qed.

(** An object, up to its last byte; the size field may be anything. *)
Lemma object_run d k p st fs :
  elems_run d -> at_state st p fs BeginObj -> here buf p (enc_int k ++ enc_elems d ++ [0]) -> in_s 32 k ->
  doc_ok d -> p + Z.of_nat (length (enc_doc d)) <= maxLength ->
  exists n st', (n <= 2 * length (enc_elems d) + 1)%nat /\ nsteps vstep n st st' /\
    at_state st' (p + Z.of_nat (length (enc_doc d))) (frame_at false p k :: fs) EndObj.
Proof.
  intros IH (Hb & Hf & Hs & Hid) H Hk Hd Hle. rewrite enc_doc_length in *. pose proof (proj1 H) as Hp.
  apply here_app in H as [H1 [H2 H3]%here_app]. rewrite length_enc_int in H2, H3.
  set (st1 := mkV (B (p + 4)) (frame_at false p k :: fs) WithinObj (idElemStartPos st) (idElem st)).
  assert (at_state st1 (p + 4) (frame_at false p k :: fs) WithinObj) as A1 by done.
  destruct (IH (p + 4) st1 (frame_at false p k) fs) as (n & st2 & Hn & Hsteps & A2); try done.
  { apply frame_start. lia. }
  { lia. }
  destruct (within_eoo _ _ _ _ A2) as (st3 & E3 & A3); [exact H3|lia|].
  exists (S n), st3. split_and!; [lia| |].
  - apply (vstep_same _ _ st1); [|unfold step; rewrite Hs; simpl state; cbv iota|by rewrite Hs].
    + eapply nsteps_r; [exact Hsteps|]. destruct A2 as (_ & _ & Hs2 & _). split; [by rewrite Hs2|].
      unfold step. by rewrite Hs2.
    + by rewrite Hb, Hf, (new_frame_here false k) by (done || lia).
  - destruct A3 as (? & ? & ? & ?). split_and!; try done. replace (p + _) with
      (p + 4 + Z.of_nat (length (enc_elems d)) + 1) by lia. done.
Qed.

Lemma close_run st p q sz fs c :
  at_state st q (frame_at c p sz :: fs) EndObj -> 0 <= p <= q -> q < 2 ^ 31 -> q - p = sz ->
  exists st', vstep st st' /\ at_state st' q fs (back fs).
Proof.
  intros A Hp Hq Hsz. pose proof A as (Hb & Hf & Hs & Hid). exists (with_frames st fs (back fs)). split.
  - split; [by rewrite Hs|]. unfold step. rewrite Hs, (close_here _ _ _ _ _ _ _ A) by lia.
    by rewrite (proj2 (Z.eqb_eq _ _) Hsz).
  - by split_and!.
Qed.

Lemma full_object_run d p st fs :
  elems_run d -> at_state st p fs BeginObj -> here buf p (enc_doc d) ->
  doc_ok d -> p + Z.of_nat (length (enc_doc d)) <= maxLength ->
  exists n st', (n <= 2 * length (enc_elems d) + 2)%nat /\ nsteps vstep n st st' /\
    at_state st' (p + Z.of_nat (length (enc_doc d))) fs (back fs).
Proof.
  intros IH A H Hd Hle. pose proof (proj1 H) as Hp. pose proof (enc_doc_length d) as HL.
  destruct (object_run d (Z.of_nat (length (enc_elems d)) + 5) p st fs) as (n & st1 & Hn & Hsteps & A1);
    try done; [unfold in_s; lia|].
  destruct (close_run _ _ _ _ _ _ A1) as (st2 & Hst & A2); [lia..|].
  exists (S n), st2. split_and!; [lia|by eapply nsteps_r|done].
Qed.

Lemma cws_run c d : elems_run d -> value_run (VCodeWScope c d).
Proof.
  intros IH p st f fs _ (Hb & Hf & Hs & Hid) Hc H [Hbc Hd] Hle.
  rewrite enc_val_cws in *. set (sz := 4 + _ + _) in *. pose proof (proj1 H) as Hp.
  assert (Z.of_nat (length (enc_int sz ++ enc_str c ++ enc_doc d)) = sz) as HL
    by (rewrite !length_app, length_enc_int; unfold sz; lia).
  rewrite HL in *. apply here_app in H as [H1 [H2 H3]%here_app]. rewrite length_enc_int in H2, H3.
  set (st1 := mkV (B (p + 4 + Z.of_nat (length (enc_str c)))) (frame_at true p sz :: f :: fs) BeginObj
                (idElemStartPos st) (idElem st)).
  assert (vstep st st1) as V1.
  { split; [by rewrite Hs|]. unfold step. rewrite Hs. cbn [enter]. rewrite Hb, Hf.
    rewrite (new_frame_here true sz) by (unfold in_s; done || lia). cbn [mbind vres_bind].
    by rewrite (readUTF8String_here c) by (done || (unfold sz in *; lia)). }
  destruct (full_object_run d (p + 4 + Z.of_nat (length (enc_str c))) st1 (frame_at true p sz :: f :: fs))
    as (n & st2 & Hn & Hsteps & A2); try done; [unfold sz in *; lia|].
  unfold back in A2. rewrite (proj2 (frame_start true p sz ltac:(unfold sz in *; lia))) in A2.
  pose proof A2 as (Hb2 & Hf2 & Hs2 & Hid2).
  assert (vstep st2 (with_frames st2 (f :: fs) WithinObj)) as V2.
  { split; [by rewrite Hs2|]. unfold step. rewrite Hs2, (close_here _ _ _ _ _ _ _ A2) by (unfold sz in *; lia).
    by rewrite (proj2 (Z.eqb_eq _ _)) by (unfold sz in *; lia). }
  exists (S (S n)), (with_frames st2 (f :: fs) WithinObj). split_and!.
  - pose proof (enc_doc_length d). unfold sz in *. lia.
  - eapply nsteps_r; [|exact V2]. by eapply nsteps_l.
  - split_and!; try done. simpl. rewrite Hb2. f_equal. unfold sz. lia.
Qed.

Lemma object_value_run v d : enc_val v = enc_doc d -> enter v = BeginObj -> (val_ok v -> doc_ok d) ->
  elems_run d -> value_run v.
Proof.
  intros E Ev Hok IH p st f fs _ A Hc H Hv Hle. rewrite E, Ev in *.
  destruct (full_object_run d p st (f :: fs)) as (n & st' & Hn & Hsteps & A'); try done; [by apply Hok|lia|].
  unfold back in A'. rewrite Hc in A'. exists n, st'. split_and!; try done.
  pose proof (enc_doc_length d). lia.
Qed.

(** The value of an element, entered or already skipped. *)
Lemma elem_run n v p st f fs :
  value_run v -> at_state st p (f :: fs) WithinObj -> isCodeWithScope f = false ->
  here buf p (enc_elem n v) -> cstr_ok n -> val_ok v -> p + Z.of_nat (length (enc_elem n v)) < maxLength ->
  exists k st', (k <= 2 * length (enc_elem n v))%nat /\ nsteps vstep k st st' /\
    at_state st' (p + Z.of_nat (length (enc_elem n v))) (f :: fs) WithinObj.
Proof.
  intros IH A Hc H Hn Hv Hle. destruct (within_here n v p st _ _ A H Hn Hv Hle) as (st1 & E1 & A1).
  destruct A as (_ & _ & Hs & _). assert (vstep st st1) as V1 by (split; [by rewrite Hs|]; unfold step; by rewrite Hs).
  pose proof (enc_elem_length n v) as HL. destruct (decide (enter v = WithinObj)) as [Ew|Ew].
  - exists 1%nat, st1. split_and!; [lia|by apply nsteps_once|]. unfold consumed in A1. rewrite Ew in A1.
    by rewrite <- HL in A1.
  - assert (consumed n v = Z.of_nat (length n) + 2) as Ec
      by (unfold consumed; destruct (enter v); try done; lia).
    rewrite Ec in A1. assert (here buf (p + (Z.of_nat (length n) + 2)) (enc_val v)) as H2.
    { unfold enc_elem in H. rewrite app_comm_cons in H. apply here_app in H as [_ H].
      simpl length in H. unfold enc_cstr in H. rewrite length_app in H. simpl length in H.
      replace (p + (Z.of_nat (length n) + 2)) with (p + Z.of_nat (S (length n + 1))) by lia. done. }
    destruct (IH (p + (Z.of_nat (length n) + 2)) st1 f fs) as (k & st2 & Hk & Hsteps & A2); try done; [lia|].
    exists (S k), st2. split_and!; [lia|by eapply nsteps_l|].
    replace (p + Z.of_nat (length (enc_elem n v))) with
      (p + (Z.of_nat (length n) + 2) + Z.of_nat (length (enc_val v))) by lia. done.
Qed.

Lemma all_runs : (forall v, value_run v) /\ (forall d, elems_run d).
Proof.
  apply val_doc_mutind; try (intros; intros ? ? ? ? Hne; exfalso; apply Hne; reflexivity).
  - intros d IH. by apply (object_value_run _ d).
  - intros d IH. by apply (object_value_run _ d).
  - intros c d IH. by apply cws_run.
  - intros p st f fs A _ _ _ _. exists 0%nat, st. split_and!; [simpl; lia|by constructor|].
    simpl. by rewrite Z.add_0_r.
  - intros n v IHv d IHd p st f fs A Hc H (Hn & Hv & Hd) Hle. rewrite enc_elems_cons in *.
    rewrite length_app in *. apply here_app in H as [H1 H2].
    destruct (elem_run n v p st f fs) as (k1 & st1 & Hk1 & Hs1 & A1); try done; [lia|].
    destruct (IHd (p + Z.of_nat (length (enc_elem n v))) st1 f fs) as (k2 & st2 & Hk2 & Hs2 & A2); try done; [lia|].
    exists (k1 + k2)%nat, st2. split_and!; [lia|by eapply nsteps_trans|].
    by replace (p + Z.of_nat (length (enc_elem n v) + length (enc_elems d))) with
      (p + Z.of_nat (length (enc_elem n v)) + Z.of_nat (length (enc_elems d))) by lia.
Qed.

End Accept.

(** [C10] The validator decides well-formed input, within two rounds per byte: the bytes of
    any document with any size field, in a block of any further bytes, are accepted if
    the size field is the length and rejected otherwise. *)
Theorem validate_decides_documents d k r maxLength fuel :
  doc_ok d -> in_s 32 k ->
  Z.of_nat (length (enc_doc d)) <= maxLength < 2 ^ 31 ->
  (2 * length (enc_doc d) <= fuel)%nat ->
  validateBSON fuel (enc_int k ++ enc_elems d ++ [0] ++ r) maxLength =
    if k =? Z.of_nat (length (enc_doc d)) then Good true else Invalid.
Proof.
  intros Hd Hk [Hle Hmax] Hfuel. unfold validateBSON. pose proof (enc_doc_length d) as HL.
  assert (maxLength <? 5 = false) as -> by (apply Z.ltb_ge; lia).
  set (buf := enc_int k ++ enc_elems d ++ [0] ++ r).
  assert (here buf 0 (enc_int k ++ enc_elems d ++ [0])) as H.
  { split; [done|]. exists r. unfold buf. change (Z.to_nat 0) with 0%nat. by rewrite drop_0, <- !app_assoc. }
  pose proof (here_length _ _ _ H ltac:(discriminate)) as HB.
  rewrite !length_app, length_enc_int in HB. simpl in HB.
  assert (at_state buf maxLength (init_state buf maxLength) 0 [] BeginObj) as A.
  { split; [done|]. split; [done|]. split; [done|]. split; simpl; [lia|done]. }
  destruct (object_run buf maxLength Hmax d k 0 _ [] (proj2 (all_runs buf maxLength Hmax) d) A H Hk Hd)
    as (n & st & Hn & Hs & A1); [lia|].
  assert (exists j, fuel = (n + S j)%nat) as [j ->] by (exists (fuel - n - 1)%nat; lia).
  rewrite (run_nsteps _ _ _ _ Hs). pose proof A1 as (_ & _ & Hst & _).
  cbn [run]. rewrite decide_False by by rewrite Hst. unfold step. rewrite Hst.
  rewrite (close_here _ _ _ _ _ _ _ _ _ A1) by lia. rewrite Z.add_0_l, Z.sub_0_r, Z.eqb_sym.
  destruct (k =? _); [|done]. cbn [mbind vres_bind]. by destruct j.
Qed.

(** ** Malformed input *)

(** A string element whose size field is -7: reading it ends where the element starts. *)
Definition looping_input : list Z := [12; 0; 0; 0; 2; 97; 0; 249; 255; 255; 255; 0].

Lemma run_loop fuel st : state st <> Done -> step st = Good st -> run fuel st = Good false.
Proof.
  intros Hd Hs. induction fuel as [|fuel IH]; simpl; rewrite decide_False by done; [done|].
  rewrite Hs. exact IH.
Qed.

(** A negative string size moves the validator backwards: on this block of twelve bytes,
    which passes the size check of the object constructor, [BSONObj::valid] does not
    return, whatever the number of rounds. *)
Theorem valid_loops_forever :
  mk_BSONObj looping_input = Ret looping_input /\ forall fuel, valid fuel looping_input = Good false.
Proof.
  split; [reflexivity|]. intros [|fuel]; [reflexivity|].
  change (valid (S fuel) looping_input) with
    (st ← step (init_state looping_input 12); run fuel st).
  vm_compute (step _). cbn [mbind vres_bind]. apply run_loop; [discriminate|vm_compute; reflexivity].
Qed.

(** ** Witnesses *)

Lemma validate_never_out_of_bounds_witness :
  validateBSON 50 [16; 0; 0; 0; 2; 97; 0; 249; 255; 255; 127; 0; 0; 0; 0; 0] 16 <> Oob /\
  buf_read dbref_id_input 5 4 = Some [95; 105; 100; 0].
Proof.
  split.
  - apply (validate_never_out_of_bounds _ 16 50); simpl; lia.
  - refine (proj2 (proj2 (proj2 (validate_never_out_of_bounds dbref_id_input 14 2 _ _) 4 _ _ _)));
      [simpl; lia|lia|reflexivity|lia|reflexivity].
Defined.

Lemma validate_decides_documents_witness :
  validateBSON 40 ([20; 0; 0; 0] ++ enc_elems (DCons [97] (VObject (DCons [98] (VInt 5) DNil)) DNil) ++ [0] ++ [7]) 21
    = Good true.
Proof.
  change [20; 0; 0; 0] with (enc_int 20).
  apply (validate_decides_documents (DCons [97] (VObject (DCons [98] (VInt 5) DNil)) DNil) 20 [7] 21 40).
  - assert (forall b, 0 < b < 256 -> cstr_ok [b]) as Hc.
    { intros b Hb. split; [repeat constructor; unfold is_byte; lia|]. rewrite list_elem_of_singleton. lia. }
    simpl. repeat split; try (apply Hc; lia); unfold in_s; lia.
  - unfold in_s. lia.
  - vm_compute. split; [discriminate|reflexivity].
  - vm_compute. lia.
Defined.
