(* ===== verification/Container.v ===== *)
(** * The data container as its users see it

    Messages, requests and answers are [CDataWrapper]s.  This file states what the code
    that handles them needs as the class [Container], with laws that describe every call
    on the document the container holds, and shows that the model of [CDataWrapper] is an
    instance.  It also has the exceptions of the framework, [CException], and the monad of
    code that throws and catches them. *)

From S2P Require Import Prelude BufBuilder Bson BsonBuilder CDataWrapper.

Local Open Scope Z_scope.

(** ** The interface *)

Class Container (W : Type) := {
  c_new : outcome W;
  c_hasKey : list Z -> W -> outcome (bool * W);
  c_getStringValue : list Z -> W -> outcome (list Z * W);
  c_getInt32Value : list Z -> W -> outcome (Z * W);
  c_getInt64Value : list Z -> W -> outcome (Z * W);
  c_getUInt32Value : list Z -> W -> outcome (Z * W);
  c_getUInt64Value : list Z -> W -> outcome (Z * W);
  c_getBoolValue : list Z -> W -> outcome (bool * W);
  c_getCSDataValue : list Z -> W -> outcome (W * W);
  c_addStringValue : list Z -> list Z -> W -> outcome W;
  c_addInt32Value : list Z -> Z -> W -> outcome W;
  c_addInt64Value : list Z -> Z -> W -> outcome W;
  c_addCSDataValue : list Z -> W -> W -> outcome (W * W);
  c_holds : doc -> W -> Prop }.

(** The document [d] with one more value. *)
Definition doc_snoc (d : doc) (key : list Z) (v : val) : doc := doc_app d (DCons key v DNil).

(** A call that reads: its result is [spec] of the document, which stays. *)
Definition reads {W X} `{Container W} (op : W -> outcome (X * W)) (spec : doc -> outcome X) : Prop :=
  forall d w, c_holds d w -> fits d -> exists w', c_holds d w' /\ op w = (x ← spec d; mret (x, w')).

(** A call that adds the value [v] under [key]. *)
Definition adds {W} `{Container W} (op : W -> outcome W) (key : list Z) (v : val) : Prop :=
  forall d w, c_holds d w -> val_ok v -> fits (doc_snoc d key v) ->
  exists w', op w = Ret w' /\ c_holds (doc_snoc d key v) w'.

(** The document under a key, empty when there is none. *)
Definition sub_doc (o : option val) : doc := match o with Some (VObject d | VArray d) => d | _ => DNil end.

Definition present (o : option val) : bool := bool_decide (is_Some o).
Definition has_field (key : list Z) (d : doc) : bool := present (doc_find key d).

Class ContainerLaws (W : Type) `{Container W} := {
  new_law : exists w, c_new = Ret w /\ c_holds DNil w;
  hasKey_law key : reads (c_hasKey key) (fun d => Ret (has_field key d));
  getStringValue_law key : reads (c_getStringValue key) (fun d => field_spec as_string (doc_find key d));
  getInt32Value_law key : reads (c_getInt32Value key) (fun d => as_int 32 (doc_find key d));
  getInt64Value_law key : reads (c_getInt64Value key) (fun d => as_int 64 (doc_find key d));
  getUInt32Value_law key : reads (c_getUInt32Value key) (fun d => n ← as_int 32 (doc_find key d); mret (u32 n));
  getUInt64Value_law key : reads (c_getUInt64Value key) (fun d => n ← as_int 64 (doc_find key d); mret (u64 n));
  getBoolValue_law key : reads (c_getBoolValue key) (fun d => field_spec as_bool (doc_find key d));
  getCSDataValue_law key d w : c_holds d w -> fits d ->
    exists w1 w2, c_getCSDataValue key w = Ret (w1, w2) /\ c_holds (sub_doc (doc_find key d)) w1 /\ c_holds d w2;
  addStringValue_law key s : adds (c_addStringValue key s) key (VString s);
  addInt32Value_law key n : adds (c_addInt32Value key n) key (VInt n);
  addInt64Value_law key n : adds (c_addInt64Value key n) key (VLong n);
  addCSDataValue_law key sub d cs w : c_holds sub cs -> fits sub -> c_holds d w -> fits (doc_snoc d key (VObject sub)) ->
    exists cs' w', c_addCSDataValue key cs w = Ret (cs', w') /\ c_holds sub cs' /\ c_holds (doc_snoc d key (VObject sub)) w' }.

(** ** [CDataWrapper] is a container *)

Section Wrapper.
Context (junk : Z).

#[export] Instance wrapper_container : Container CDataWrapper := {|
  c_new := new_CDataWrapper junk;
  c_hasKey := hasKey junk;
  c_getStringValue := getStringValue junk;
  c_getInt32Value := getInt32Value junk;
  c_getInt64Value := getInt64Value junk;
  c_getUInt32Value := getUInt32Value junk;
  c_getUInt64Value := getUInt64Value junk;
  c_getBoolValue := getBoolValue junk;
  c_getCSDataValue := getCSDataValue junk;
  c_addStringValue := addStringValue junk;
  c_addInt32Value := addInt32Value junk;
  c_addInt64Value := addInt64Value junk;
  c_addCSDataValue := addCSDataValue junk;
  c_holds d w := holds d [] w |}.

(** A getter that is a function of the field. *)
Lemma getter_reads {X} (f : BSONElement -> outcome X) (g : option val -> outcome X) key :
  (forall v r, cstr_ok key -> val_ok v -> Z.of_nat (length (enc_elem key v)) < 2 ^ 31 ->
     f (enc_elem key v ++ r) = g (Some v)) ->
  f eoo_element = g None ->
  reads (peek junk (fun o => e ← getField key o; f e)) (fun d => g (doc_find key d)).
Proof.
  intros Hsome Hnone d w Hw Hf.
  destruct (get_holds junk f g d [] w key Hw Hf) as (w' & Hw' & E); [by intros; apply Hsome|done|].
  exists w'. by split.
Qed.

Lemma string_reads key : reads (getStringValue junk key) (fun d => field_spec as_string (doc_find key d)).
Proof.
  apply getter_reads; [|by apply chk_eoo]. intros v r Hk Hv Hl. apply chk_spec; [apply as_string_type|].
  intros x Hx. destruct v; simplify_eq/=. by apply str_enc.
Qed.

Lemma bool_reads key : reads (getBoolValue junk key) (fun d => field_spec as_bool (doc_find key d)).
Proof.
  apply getter_reads; [|by apply chk_eoo]. intros v r Hk Hv Hl. apply chk_spec; [apply as_bool_type|].
  intros x Hx. destruct v; simplify_eq/=. by apply boolean_enc.
Qed.

Lemma numberInt_as_int key v r :
  cstr_ok key -> val_ok v -> Z.of_nat (length (enc_elem key v)) < 2 ^ 31 ->
  numberInt (enc_elem key v ++ r) = as_int 32 (Some v).
Proof. intros Hk Hv Hl. rewrite numberInt_enc by done. by destruct v. Qed.

Lemma numberLong_as_int key v r :
  cstr_ok key -> val_ok v -> Z.of_nat (length (enc_elem key v)) < 2 ^ 31 ->
  numberLong (enc_elem key v ++ r) = as_int 64 (Some v).
Proof. intros Hk Hv Hl. rewrite numberLong_enc by done. destruct v; try done. simpl. by rewrite swrap_small. Qed.

Lemma hasKey_reads key : reads (hasKey junk key) (fun d => Ret (has_field key d)).
Proof.
  apply (getter_reads (fun e => b ← eoo e; mret (negb b)) (fun o => Ret (present o)) key); [|done].
  intros v r Hk Hv Hl. by rewrite eoo_enc.
Qed.

(** A document inside a document that fits, fits. *)
Lemma fits_sub d key v sub :
  fits d -> doc_find key d = Some v -> v = VObject sub \/ v = VArray sub -> fits sub.
Proof.
  intros [Hok Hl] Ef Hv. destruct (doc_find_ok _ _ _ Ef Hok) as (_ & Hvo & Hle). split; [by destruct Hv as [->| ->]|].
  pose proof (enc_doc_length d) as HL. pose proof (enc_elem_length key v) as HE.
  assert (length (enc_val v) = length (enc_doc sub)) as Hs by (by destruct Hv as [->| ->]). lia.
Qed.

Lemma getCSDataValue_spec key d w :
  holds d [] w -> fits d ->
  exists w1 w2, getCSDataValue junk key w = Ret (w1, w2) /\
    holds (sub_doc (doc_find key d)) [] w1 /\ holds d [] w2.
Proof.
  intros Hw Hf. unfold getCSDataValue. destruct (new_CDataWrapper_holds junk) as (w0 & E0 & H0).
  rewrite E0. simpl_out.
  destruct (peek_holds junk (fun o => s ← getObjectField key o; setSerializedData junk s w0) _ _ _ Hw Hf)
    as (r & w2 & H2 & E2). rewrite E2.
  assert (fits DNil) as Hnil by (split; [done|by vm_compute]).
  assert (exists sub r', getObjectField key (enc_doc d ++ r) = Ret (enc_doc sub ++ r') /\ fits sub /\
    sub = sub_doc (doc_find key d)) as (sub & r' & Eo & Hsub & ->).
  { pose proof (getField_spec_aux key d r (proj1 Hf) (fits_31 _ Hf)) as Hg. unfold getObjectField.
    destruct (doc_find key d) as [v|] eqn:Ef.
    2:{ rewrite Hg. exists DNil, []. by split_and!. }
    destruct Hg as [r' Hg]. rewrite Hg. simpl_out. rewrite type_enc. simpl_out.
    destruct (doc_find_ok _ _ _ Ef (proj1 Hf)) as (Hk & Hv & Hle). pose proof (enc_doc_length d). pose proof (fits_31 _ Hf).
    destruct (decide (type_of v = Object \/ type_of v = Array)) as [Ht|Ht].
    - assert (exists sub, v = VObject sub \/ v = VArray sub) as [sub Hs].
      { destruct v; simpl in Ht; try (by destruct Ht as [Ht|Ht]); eauto. }
      assert (one_of (type_of v) [Object; Array] = true) as -> by (by destruct Hs as [->| ->]).
      exists sub, r'. pose proof (fits_sub _ _ _ _ Hf Ef Hs) as Hfs.
      rewrite (embeddedObject_enc key r' Hk v sub Hs); [|lia|apply Hfs]. split_and!; [done|done|]. by destruct Hs as [->| ->].
    - assert (one_of (type_of v) [Object; Array] = false) as ->.
      { destruct v; try done; simpl in Ht; naive_solver. }
      exists DNil, []. split_and!; [done|done|]. destruct v; try done; simpl in Ht; naive_solver. }
  rewrite Eo. simpl_out. destruct (from_holds junk (sub_doc (doc_find key d)) r' Hsub) as (w1 & E1 & H1).
  unfold CDataWrapper_from in E1. rewrite E0 in E1. cbn [mbind outcome_bind] in E1. rewrite E1.
  exists w1, w2. by split_and!.
Qed.

Lemma addCSDataValue_spec key sub d cs w :
  holds sub [] cs -> fits sub -> holds d [] w -> fits (doc_snoc d key (VObject sub)) ->
  exists cs' w', addCSDataValue junk key cs w = Ret (cs', w') /\ holds sub [] cs' /\
    holds (doc_snoc d key (VObject sub)) [] w'.
Proof.
  intros Hcs Hfs Hw Hf. unfold addCSDataValue. destruct (h_obj _ _ _ Hcs) as (hdr & Hb & Hh).
  assert (Buf.len (_b (bsonBuilder cs)) =? 0 = false) as ->.
  { apply Z.eqb_neq. unfold Buf.len. rewrite (builds_len _ _ _ Hb). lia. }
  destruct (peek_holds junk mret _ _ _ Hcs Hfs) as (r & cs' & Hcs' & E). rewrite E. simpl_out.
  destruct (append_doc_holds junk d [] w key sub r VObject Hw Hf (or_introl eq_refl) (proj1 Hfs)) as (w' & E' & H').
  rewrite decide_True in E' by done. rewrite E'. exists cs', w'. by split_and!.
Qed.

Lemma put_adds (op : CDataWrapper -> outcome CDataWrapper) key v :
  (forall w, op w = on_obj (put junk key v) w) -> adds op key v.
Proof.
  intros Hop d w Hw Hv Hf. destruct (add_holds junk d [] w key v Hw Hf Hv) as (w' & E & H').
  exists w'. by rewrite Hop.
Qed.

#[export] Instance wrapper_laws : ContainerLaws CDataWrapper.
Proof.
  split.
  - apply new_CDataWrapper_holds.
  - apply hasKey_reads.
  - apply string_reads.
  - intros key. apply (getter_reads numberInt (as_int 32)); [|done]. intros; by apply numberInt_as_int.
  - intros key. apply (getter_reads numberLong (as_int 64)); [|done]. intros; by apply numberLong_as_int.
  - intros key. apply (getter_reads (fun e => n ← numberInt e; mret (u32 n))
      (fun o => n ← as_int 32 o; mret (u32 n))); [|done]. intros. by rewrite numberInt_as_int.
  - intros key. apply (getter_reads (fun e => n ← numberLong e; mret (u64 n))
      (fun o => n ← as_int 64 o; mret (u64 n))); [|done]. intros. by rewrite numberLong_as_int.
  - apply bool_reads.
  - apply getCSDataValue_spec.
  - intros key s. by apply put_adds.
  - intros key n. by apply put_adds.
  - intros key n. by apply put_adds.
  - apply addCSDataValue_spec.
Qed.

End Wrapper.

(** ** Documents are containers

    A second instance: the document itself, for reasoning about the code that uses
    containers.  A value that would make the document invalid or too large is an error
    there; [fits] is decidable, so the instance computes. *)

#[export] Instance in_u_dec w z : Decision (in_u w z).
Proof. unfold in_u. apply _. Defined.
#[export] Instance in_s_dec w z : Decision (in_s w z).
Proof. unfold in_s. apply _. Defined.
#[export] Instance bytes_dec l : Decision (bytes l).
Proof. unfold bytes. apply _. Defined.
#[export] Instance cstr_ok_dec s : Decision (cstr_ok s).
Proof. unfold cstr_ok. apply _. Defined.

Fixpoint val_ok_dec (v : val) : Decision (val_ok v)
with doc_ok_dec (d : doc) : Decision (doc_ok d).
Proof.
  - destruct v as [b|s|d|d|t b| |b|b|ms| |p f|ns oid|s|s|c d|z|t|z| |]; simpl;
      try apply doc_ok_dec; try apply and_dec; try apply doc_ok_dec; apply _.
  - destruct d as [|n v d]; simpl; [apply _|].
    apply and_dec; [apply _|]. apply and_dec; [apply val_ok_dec|apply doc_ok_dec].
Defined.
#[export] Existing Instance val_ok_dec.
#[export] Existing Instance doc_ok_dec.
#[export] Instance fits_decision d : Decision (fits d).
Proof. unfold fits. apply _. Defined.

(** The document, if it is one. *)
Definition fitting (d : doc) : outcome doc := if decide (fits d) then Ret d else Fault.

Definition doc_container : Container doc := {|
  c_new := Ret DNil;
  c_hasKey key d := Ret (has_field key d, d);
  c_getStringValue key d := x ← field_spec as_string (doc_find key d); mret (x, d);
  c_getInt32Value key d := x ← as_int 32 (doc_find key d); mret (x, d);
  c_getInt64Value key d := x ← as_int 64 (doc_find key d); mret (x, d);
  c_getUInt32Value key d := x ← (n ← as_int 32 (doc_find key d); mret (u32 n)); mret (x, d);
  c_getUInt64Value key d := x ← (n ← as_int 64 (doc_find key d); mret (u64 n)); mret (x, d);
  c_getBoolValue key d := x ← field_spec as_bool (doc_find key d); mret (x, d);
  c_getCSDataValue key d := Ret (sub_doc (doc_find key d), d);
  c_addStringValue key s d := fitting (doc_snoc d key (VString s));
  c_addInt32Value key n d := fitting (doc_snoc d key (VInt n));
  c_addInt64Value key n d := fitting (doc_snoc d key (VLong n));
  c_addCSDataValue key cs d := d ← fitting (doc_snoc d key (VObject cs)); mret (cs, d);
  c_holds d w := d = w |}.

Lemma fits_snoc_val d key v : fits (doc_snoc d key v) -> val_ok v.
Proof.
  intros [Hok _]. unfold doc_snoc in Hok. induction d as [|n x d IH]; simpl in Hok; [tauto|]. apply IH. tauto.
Qed.

Lemma fits_before d key v : fits (doc_snoc d key v) -> fits d.
Proof.
  intros [Hok Hl]. split.
  - unfold doc_snoc in Hok. clear Hl. induction d as [|n x d IH]; simpl in *; [done|]. destruct Hok as (? & ? & ?). auto.
  - rewrite enc_doc_length in *. unfold doc_snoc in Hl. rewrite enc_elems_app, length_app in Hl. lia.
Qed.

Lemma add_law {W} `{Container W} (op : W -> outcome W) key v d w :
  adds op key v -> c_holds d w -> fits (doc_snoc d key v) -> exists w', op w = Ret w' /\ c_holds (doc_snoc d key v) w'.
Proof. intros Ha Hw Hf. by apply Ha; [|eapply fits_snoc_val|]. Qed.

Lemma fits_nil : fits DNil.
Proof. split; [done|by vm_compute]. Qed.

(** *** How the calls on a container relate to those on its document *)

Section Simulation.
Context {W : Type} `{C : !Container W, L : !ContainerLaws W}.

(** A call that reads, on both sides. *)
Definition read_sim {X} (opW : W -> outcome (X * W)) (opD : doc -> outcome (X * doc)) : Prop :=
  forall d w, c_holds d w -> fits d ->
  match opD d with
  | Ret (x, d') => d' = d /\ exists w', opW w = Ret (x, w') /\ c_holds d w'
  | Throw c => exists c', opW w = Throw c'
  | Fault => True
  end.

Definition add_sim (opW : W -> outcome W) (opD : doc -> outcome doc) : Prop :=
  forall d w, c_holds d w -> fits d ->
  match opD d with
  | Ret d' => fits d' /\ exists w', opW w = Ret w' /\ c_holds d' w'
  | Throw c => False
  | Fault => True
  end.

Lemma reads_sim {X} (op : W -> outcome (X * W)) (spec : doc -> outcome X) :
  reads op spec -> read_sim op (fun d => x ← spec d; mret (x, d)).
Proof.
  intros Hr d w Hw Hf. destruct (Hr d w Hw Hf) as (w' & Hw' & E). rewrite E.
  destruct (spec d); simpl_out; eauto.
Qed.

Lemma adds_sim (op : W -> outcome W) key v :
  adds op key v -> add_sim op (fun d => fitting (doc_snoc d key v)).
Proof.
  intros Ha d w Hw Hf. unfold fitting. case_decide as Hd; [|done]. split; [done|].
  by apply Ha; [|eapply fits_snoc_val|].
Qed.

Lemma hasKey_sim key : read_sim (c_hasKey key) (@c_hasKey _ doc_container key).
Proof. apply (reads_sim _ _ (hasKey_law key)). Qed.
Lemma getStringValue_sim key : read_sim (c_getStringValue key) (@c_getStringValue _ doc_container key).
Proof. apply (reads_sim _ _ (getStringValue_law key)). Qed.
Lemma getInt32Value_sim key : read_sim (c_getInt32Value key) (@c_getInt32Value _ doc_container key).
Proof. apply (reads_sim _ _ (getInt32Value_law key)). Qed.
Lemma getInt64Value_sim key : read_sim (c_getInt64Value key) (@c_getInt64Value _ doc_container key).
Proof. apply (reads_sim _ _ (getInt64Value_law key)). Qed.
Lemma getUInt32Value_sim key : read_sim (c_getUInt32Value key) (@c_getUInt32Value _ doc_container key).
Proof. apply (reads_sim _ _ (getUInt32Value_law key)). Qed.
Lemma getUInt64Value_sim key : read_sim (c_getUInt64Value key) (@c_getUInt64Value _ doc_container key).
Proof. apply (reads_sim _ _ (getUInt64Value_law key)). Qed.
Lemma getBoolValue_sim key : read_sim (c_getBoolValue key) (@c_getBoolValue _ doc_container key).
Proof. apply (reads_sim _ _ (getBoolValue_law key)). Qed.
Lemma addStringValue_sim key s : add_sim (c_addStringValue key s) (@c_addStringValue _ doc_container key s).
Proof. apply (adds_sim _ _ _ (addStringValue_law key s)). Qed.
Lemma addInt32Value_sim key n : add_sim (c_addInt32Value key n) (@c_addInt32Value _ doc_container key n).
Proof. apply (adds_sim _ _ _ (addInt32Value_law key n)). Qed.
Lemma addInt64Value_sim key n : add_sim (c_addInt64Value key n) (@c_addInt64Value _ doc_container key n).
Proof. apply (adds_sim _ _ _ (addInt64Value_law key n)). Qed.

End Simulation.

Create HintDb container.
#[export] Hint Resolve hasKey_sim getStringValue_sim getInt32Value_sim getInt64Value_sim getUInt32Value_sim
  getUInt64Value_sim getBoolValue_sim addStringValue_sim addInt32Value_sim addInt64Value_sim : container.

(** ** Exceptions of the framework

    [CException] carries a code and two texts; every other exception is [Foreign].  A
    state change made before an exception stays.  [Crash] is undefined behaviour or the
    end of the process. *)

Record CException := mkExc { errorCode : Z; errorMessage : list Z; errorDomain : list Z }.

Inductive thrown := Chaos (e : CException) | Foreign.

Inductive ended (A : Type) : Type := Val (a : A) | Raise (e : thrown) | Crash.
Arguments Val {A}.
Arguments Raise {A}.
Arguments Crash {A}.

Definition DX (S A : Type) : Type := S -> ended A * S.

#[export] Instance DX_ret S : MRet (DX S) := fun A a s => (Val a, s).
#[export] Instance DX_bind S : MBind (DX S) := fun A B k c s =>
  match c s with
  | (Val a, s') => k a s'
  | (Raise e, s') => (Raise e, s')
  | (Crash, s') => (Crash, s')
  end.

Definition dx_get {S} : DX S S := fun s => (Val s, s).
Definition dx_gets {S A} (f : S -> A) : DX S A := fun s => (Val (f s), s).
Definition dx_modify {S} (f : S -> S) : DX S unit := fun s => (Val tt, f s).
Definition dx_throw {S A} (e : thrown) : DX S A := fun s => (Raise e, s).
Definition dx_crash {S A} : DX S A := fun s => (Crash, s).
(** A pointer that must be valid. *)
Definition dx_access {S A} (o : option A) : DX S A := match o with Some a => mret a | None => dx_crash end.
(** The exceptions of the BSON library are not [CException]s. *)
Definition dx_lift {S A} (o : outcome A) : DX S A :=
  match o with Ret a => mret a | Throw _ => dx_throw Foreign | Fault => dx_crash end.

(** [try] with the two handlers, for a [CException] and for the rest. *)
Definition attempt {S A} (c : DX S A) : DX S (A + thrown) := fun s =>
  match c s with
  | (Val a, s') => (Val (inl a), s')
  | (Raise e, s') => (Val (inr e), s')
  | (Crash, s') => (Crash, s')
  end.

(** A function declared [throw(CException)]: another exception ends the process. *)
Definition only_chaos {S A} (c : DX S A) : DX S A := fun s =>
  match c s with (Raise Foreign, s') => (Crash, s') | r => r end.

Lemma dx_bind_val {S A B} (c : DX S A) (k : A -> DX S B) s a s' :
  c s = (Val a, s') -> (c ≫= k) s = k a s'.
Proof. unfold mbind, DX_bind. by intros ->. Qed.

Lemma dx_bind_raise {S A B} (c : DX S A) (k : A -> DX S B) s e s' :
  c s = (Raise e, s') -> (c ≫= k) s = (Raise e, s').
Proof. unfold mbind, DX_bind. by intros ->. Qed.

Lemma dx_bind_assoc {S A B C} (c : DX S A) (k : A -> DX S B) (h : B -> DX S C) s :
  ((c ≫= k) ≫= h) s = (c ≫= (fun a => k a ≫= h)) s.
Proof. unfold mbind, DX_bind. by destruct (c s) as [[a|e|] s']. Qed.

Lemma attempt_val {S A} (c : DX S A) s a s' : c s = (Val a, s') -> attempt c s = (Val (inl a), s').
Proof. unfold attempt. by intros ->. Qed.

Lemma attempt_raise {S A} (c : DX S A) s e s' : c s = (Raise e, s') -> attempt c s = (Val (inr e), s').
Proof. unfold attempt. by intros ->. Qed.

(** Run the first command of the goal by computation, or with an equation. *)
Ltac dx_step := erewrite dx_bind_val; [|reflexivity]; cbn beta.
Ltac dx_use H := erewrite dx_bind_val; [|apply H]; cbn beta.
