(* ===== verification/ProcessingQueue.v ===== *)
(** * Processing queues

    Models [chaos/common/pqueue]: [CObjectProcessingQueue] and
    [CObjectProcessingPriorityQueue], a mutex, two condition variables and a group of
    worker threads that hand the queued elements to [processBufferElement].  The two
    classes have the same structure; what differs is the class [Discipline], of which each
    is an instance.

    A state holds the queue, the position of every worker in [executeOnThread] and the
    position of every caller that has not returned.  A step is one critical section, one
    notification or one call into user code, and steps of different threads interleave
    freely.  Waiting releases the mutex, so a woken thread tests its condition again.  The
    reads of [in_deinit] outside of the mutex see the current value.

    The theorems: no element is lost or handled twice, the plain queue is first in first
    out and bounded, a wake-up is never lost, [deinit] ends the workers when it need not
    wait for an empty queue, and never returns when it has to. *)

From S2P Require Import Prelude.

(** ** What becomes of an element *)

(** How [processBufferElement] ends: normally, with [elementHasBeenDetached], or with an
    exception. *)
Inductive result := Done (elementHasBeenDetached : bool) | Threw.

(** [Deleted]: the element has been deleted.  [Released]: it has another owner.  [Kept]:
    [elementWillBeDiscarded] returned false.  [Dropped]: [clear] forgot it.  [Skipped]: it
    was a null pointer. *)
Inductive fate := Deleted | Released | Kept | Dropped | Skipped.

(** The differences between the two queues. *)
Class Discipline (E : Type) := {
  (** [front] or [top], and [pop] *)
  take_next : list E -> option (E * list E);
  (** [push] refuses when the queue is this full *)
  full : list E -> bool;
  (** the pointer [waitAndPop] returns is null *)
  is_null : E -> bool;
  (** [push] calls [notify_all], not [notify_one] *)
  push_notifies_all : bool;
  (** [elementWillBeProcessed] returned false *)
  refused : E -> fate;
  (** after [processBufferElement]: done with the element, or it goes on to the end of the
      loop, where it is deleted or not *)
  processed : E -> result -> fate + bool;
  (** [elementWillBeDiscarded] returning false ends the thread *)
  kept_ends_thread : bool;
  cleared : E -> fate }.

(** What the queues need of [std::queue] and [std::priority_queue]. *)
Class DisciplineLaws (E : Type) `{Discipline E} := {
  take_perm : forall l e l', take_next l = Some (e, l') -> l ≡ₚ e :: l';
  take_some : forall l, l <> [] -> is_Some (take_next l) }.

(** ** The state *)

Section Queue.
Context {E : Type} `{Discipline E}.

(** Where a worker is: at the test of the loop, before the critical section of
    [waitAndPop], blocked on [liveThreadConditionLock], with an element before
    [elementWillBeProcessed], before [processBufferElement], and before
    [elementWillBeDiscarded] with whether the element is to be deleted. *)
Inductive worker :=
| AtTest
| Popping
| WaitLive
| Got (dataRow : E)
| Entered (dataRow : E)
| Finishing (dataRow : E) (dispose : bool)
| Ended.

(** Where a caller is: in [push] before the notification; in [deinit] blocked on
    [emptyQueueConditionLock], woken from it, before [notify_all], before [join_all]; in
    [waitForEmpty] blocked or woken; returned. *)
Inductive caller :=
| P_notify
| D_wait
| D_check
| D_notify
| D_join
| E_wait
| E_check
| Returned.

#[export] Instance caller_eq_dec : EqDecision caller.
Proof. solve_decision. Defined.

(** [pushed], [popped] and [fates] record the accepted elements, the ones taken out in
    order, and what became of those no worker has any more. *)
Record Queue := mkQueue {
  bufferQueue : list E;
  in_deinit : bool;
  eventListener : bool;
  t_group : list worker;
  callers : list caller;
  pushed : list E;
  popped : list E;
  fates : list (E * fate) }.

Definition new_Queue : Queue := mkQueue [] false false [] [] [] [] [].

Definition set_bufferQueue q s :=
  mkQueue q (in_deinit s) (eventListener s) (t_group s) (callers s) (pushed s) (popped s) (fates s).
Definition set_in_deinit b s :=
  mkQueue (bufferQueue s) b (eventListener s) (t_group s) (callers s) (pushed s) (popped s) (fates s).
Definition set_eventListener b s :=
  mkQueue (bufferQueue s) (in_deinit s) b (t_group s) (callers s) (pushed s) (popped s) (fates s).
Definition set_t_group g s :=
  mkQueue (bufferQueue s) (in_deinit s) (eventListener s) g (callers s) (pushed s) (popped s) (fates s).
Definition set_callers c s :=
  mkQueue (bufferQueue s) (in_deinit s) (eventListener s) (t_group s) c (pushed s) (popped s) (fates s).
Definition add_pushed e s :=
  mkQueue (bufferQueue s) (in_deinit s) (eventListener s) (t_group s) (callers s) (pushed s ++ [e]) (popped s) (fates s).
Definition add_popped l s :=
  mkQueue (bufferQueue s) (in_deinit s) (eventListener s) (t_group s) (callers s) (pushed s) (popped s ++ l) (fates s).
Definition add_fates l s :=
  mkQueue (bufferQueue s) (in_deinit s) (eventListener s) (t_group s) (callers s) (pushed s) (popped s) (fates s ++ l).

Definition isEmpty (s : Queue) : bool := match bufferQueue s with [] => true | _ => false end.
Definition elementInLiveBuffer (s : Queue) : nat := length (bufferQueue s).

(** ** Condition variables *)

Definition wake_live (p : worker) : worker := match p with WaitLive => Popping | _ => p end.
Definition wake_empty (c : caller) : caller :=
  match c with D_wait => D_check | E_wait => E_check | _ => c end.
Definition is_WaitLive (p : worker) : bool := match p with WaitLive => true | _ => false end.
Definition waits_empty (c : caller) : bool := match c with D_wait | E_wait => true | _ => false end.

(** [notify_one]: the element [i] is woken; when it does not wait, nobody does. *)
Definition wake_one {A} (waits : A -> bool) (wake : A -> A) (i : nat) (l : list A) : option (list A) :=
  if existsb waits l then
    x ← l !! i;
    if waits x then Some (<[i := wake x]> l) else None
  else Some l.

Definition live_notify_all (s : Queue) : Queue := set_t_group (wake_live <$> t_group s) s.
Definition live_notify_one (i : nat) (s : Queue) : option Queue :=
  g ← wake_one is_WaitLive wake_live i (t_group s); Some (set_t_group g s).
Definition empty_notify_one (i : nat) (s : Queue) : option Queue :=
  c ← wake_one waits_empty wake_empty i (callers s); Some (set_callers c s).

(** ** The workers *)

(** What user code answers and whom a notification wakes. *)
Record answers := mkAnswers {
  (** [elementWillBeProcessed]; [None] is an exception *)
  will_be_processed : option bool;
  processing : result;
  will_be_discarded : bool;
  woken : nat }.

Inductive pop := Blocked | Null | Element (e : E).

(** One turn of [waitAndPop] from the moment it has the mutex. *)
Definition waitAndPop (w : nat) (s : Queue) : option (pop * Queue) :=
  if isEmpty s && negb (in_deinit s) then
    s ← empty_notify_one w s; Some (Blocked, s)
  else if isEmpty s then Some (Null, s)
  else
    '(e, q) ← take_next (bufferQueue s);
    let s := add_popped [e] (set_bufferQueue q s) in
    Some (if is_null e then (Null, add_fates [(e, Skipped)] s) else (Element e, s)).

Definition after_processing (e : E) (r : result) (s : Queue) : worker * Queue :=
  match processed e r with
  | inl f => (AtTest, add_fates [(e, f)] s)
  | inr dispose => (Finishing e dispose, s)
  end.

(** [executeOnThread], one step of a worker at [p]. *)
Definition executeOnThread (a : answers) (p : worker) (s : Queue) : option (worker * Queue) :=
  match p with
  | AtTest => Some (if in_deinit s then Ended else Popping, s)
  | Popping =>
      '(r, s) ← waitAndPop (woken a) s;
      Some (match r with Blocked => WaitLive | Null => AtTest | Element e => Got e end, s)
  | WaitLive => None
  | Got e =>
      if eventListener s then
        match will_be_processed a with
        | Some true => Some (Entered e, s)
        | Some false => Some (AtTest, add_fates [(e, refused e)] s)
        | None => Some (after_processing e Threw s)
        end
      else Some (Entered e, s)
  | Entered e => Some (after_processing e (processing a) s)
  | Finishing e dispose =>
      if eventListener s && negb (will_be_discarded a) then
        Some (if kept_ends_thread then Ended else AtTest, add_fates [(e, Kept)] s)
      else Some (AtTest, add_fates [(e, if dispose then Deleted else Released)] s)
  | Ended => None
  end.

(** ** The callers *)

Definition add_caller (c : caller) (s : Queue) : Queue := set_callers (callers s ++ [c]) s.

Definition init (threadNumber : nat) (s : Queue) : Queue :=
  set_t_group (t_group s ++ replicate threadNumber AtTest) (set_in_deinit false s).

Definition push (e : E) (s : Queue) : bool * Queue :=
  if in_deinit s || full (bufferQueue s) then (false, s)
  else (true, add_caller P_notify (add_pushed e (set_bufferQueue (bufferQueue s ++ [e]) s))).

(** The test of the loop of [deinit] that waits for an empty queue. *)
Definition deinit_test (s : Queue) : caller := if isEmpty s then D_notify else D_wait.

Definition deinit (waithForEmptyQueue : bool) (s : Queue) : Queue :=
  let s := set_in_deinit true s in
  add_caller (if waithForEmptyQueue then deinit_test s else D_notify) s.

(** The loop of [waitForEmpty] waits while the queue is empty. *)
Definition empty_test (s : Queue) : caller := if isEmpty s then E_wait else Returned.

Definition waitForEmpty (s : Queue) : Queue := add_caller (empty_test s) s.

(** The elements in the order in which [clear] takes them. *)
Fixpoint clear_loop (fuel : nat) (q : list E) : list E :=
  match fuel, take_next q with
  | S fuel, Some (e, q) => e :: clear_loop fuel q
  | _, _ => []
  end.

Definition clear (s : Queue) : Queue :=
  let out := clear_loop (length (bufferQueue s)) (bufferQueue s) in
  add_fates ((fun e => (e, cleared e)) <$> out) (add_popped out (set_bufferQueue [] s)).

Definition is_Ended (p : worker) : bool := match p with Ended => true | _ => false end.

(** One step of a caller that has not returned. *)
Definition caller_step (w : nat) (c : caller) (s : Queue) : option (caller * Queue) :=
  match c with
  | P_notify =>
      s ← if push_notifies_all then Some (live_notify_all s) else live_notify_one w s;
      Some (Returned, s)
  | D_check => Some (deinit_test s, s)
  | D_notify => Some (D_join, live_notify_all s)
  | D_join => if forallb is_Ended (t_group s) then Some (Returned, s) else None
  | E_check => Some (empty_test s, s)
  | D_wait | E_wait | Returned => None
  end.

(** ** Steps *)

Inductive action :=
| Init (threadNumber : nat)
| Push (e : E)
| Deinit (waithForEmptyQueue : bool)
| Clear
| WaitForEmpty
| SetEndElaborationListener (listener : bool)
| Thread (i : nat) (a : answers)
| Caller (i : nat) (w : nat)
| SpuriousThread (i : nat)
| SpuriousCaller (i : nat).

Definition step (x : action) (s : Queue) : option Queue :=
  match x with
  | Init n => Some (init n s)
  | Push e => Some (push e s).2
  | Deinit b => Some (deinit b s)
  | Clear => Some (clear s)
  | WaitForEmpty => Some (waitForEmpty s)
  | SetEndElaborationListener b => Some (set_eventListener b s)
  | Thread i a =>
      p ← t_group s !! i;
      '(p', s) ← executeOnThread a p s;
      Some (set_t_group (<[i := p']> (t_group s)) s)
  | Caller i w =>
      c ← callers s !! i;
      '(c', s) ← caller_step w c s;
      Some (set_callers (<[i := c']> (callers s)) s)
  | SpuriousThread i =>
      p ← t_group s !! i;
      if is_WaitLive p then Some (set_t_group (<[i := Popping]> (t_group s)) s) else None
  | SpuriousCaller i =>
      c ← callers s !! i;
      if waits_empty c then Some (set_callers (<[i := wake_empty c]> (callers s)) s) else None
  end.

Fixpoint run (xs : list action) (s : Queue) : option Queue :=
  match xs with [] => Some s | x :: xs => s ← step x s; run xs s end.

Definition reachable (s : Queue) : Prop := exists xs, run xs new_Queue = Some s.

(** A step of a thread that is already in the queue's code. *)
Definition internal (x : action) : bool := match x with Thread _ _ | Caller _ _ => true | _ => false end.

(** Somebody in the queue's code can move. *)
Definition can_move (s : Queue) : Prop := exists x s', internal x = true /\ step x s = Some s'.

(** ** Counting *)

Definition count {A} (f : A -> bool) (l : list A) : nat := sum_list_with (fun x => Nat.b2n (f x)) l.

Lemma sum_insert {A} (f : A -> nat) l i x y :
  l !! i = Some x -> sum_list_with f (<[i := y]> l) + f x = sum_list_with f l + f y.
Proof.
  revert i; induction l as [|z l IH]; intros i Hi; [done|].
  destruct i as [|i]; simpl in *; simplify_eq; [lia|]. specialize (IH _ Hi). lia.
Qed.

Lemma sum_in {A} (f : A -> nat) l i x : l !! i = Some x -> f x <= sum_list_with f l.
Proof. intros Hi. by eapply sum_list_with_in, list_elem_of_lookup_2. Qed.

Lemma sum_fmap {A B} (f : B -> nat) (g : A -> B) l :
  sum_list_with f (g <$> l) = sum_list_with (fun x => f (g x)) l.
Proof. induction l as [|x l IH]; [done|]. rewrite fmap_cons. simpl. lia. Qed.

Lemma existsb_count {A} (f : A -> bool) l : existsb f l = true <-> 0 < count f l.
Proof.
  unfold count. induction l as [|x l IH]; simpl; [split; [done|lia]|].
  destruct (f x); simpl; [split; [lia|done]|]. by rewrite IH.
Qed.

Lemma existsb_count_0 {A} (f : A -> bool) l : existsb f l = false <-> count f l = 0.
Proof. rewrite <- not_true_iff_false, existsb_count. lia. Qed.

(** A notification of one that waits moves it; without one it does nothing. *)
Lemma wake_one_spec {A} waits (wake : A -> A) i l l' :
  wake_one waits wake i l = Some l' ->
  (l' = l /\ count waits l = 0) \/ exists x, l !! i = Some x /\ waits x = true /\ l' = <[i := wake x]> l.
Proof.
  unfold wake_one. destruct (existsb waits l) eqn:Hw.
  - destruct (l !! i) as [x|] eqn:Hi; [|done]. simpl_opt. destruct (waits x) eqn:Hx; [|done].
    intros [= <-]. right. eauto.
  - intros [= <-]. left. split; [done|]. by apply existsb_count_0.
Qed.

(** A notification is always possible. *)
Lemma wake_one_some {A} waits (wake : A -> A) l : exists i l', wake_one waits wake i l = Some l'.
Proof.
  unfold wake_one. destruct (existsb waits l) eqn:Hw; [|exists 0; eauto].
  apply existsb_exists in Hw as (x & Hx & Hw). apply list_elem_of_In, list_elem_of_lookup in Hx as [i Hi].
  exists i. rewrite Hi. simpl_opt. rewrite Hw. eauto.
Qed.

End Queue.
Arguments worker : clear implicits.
Arguments Queue : clear implicits.
Arguments action : clear implicits.

(** ** Invariants *)

Section Invariants.
Context {E : Type} `{!EqDecision E, D : !Discipline E, L : !DisciplineLaws E}.
Implicit Types (s : Queue E) (p : worker E) (e : E).

Definition occ (x : E) (l : list E) : nat := count_occ (decide_rel (=)) l x.
Definition held (p : worker E) : list E :=
  match p with Got e | Entered e | Finishing e _ => [e] | _ => [] end.
Definition in_hand (g : list (worker E)) : list E := g ≫= held.
Definition is_Popping (p : worker E) : bool := match p with Popping => true | _ => false end.
Definition is_P_notify (c : caller) : bool := match c with P_notify => true | _ => false end.
(** A [deinit] that will still notify the workers. *)
Definition will_notify (c : caller) : bool :=
  match c with D_wait | D_check | D_notify => true | _ => false end.

(** Every accepted element is in one place. *)
Definition conserved s : Prop := forall x,
  occ x (pushed s) = occ x (bufferQueue s) + sum_list_with (fun p => occ x (held p)) (t_group s) + occ x (fates s).*1.

(** While a worker is blocked, there are as many workers on their way to the queue or
    notifications to come as there are elements. *)
Definition wakes s : Prop :=
  0 < count is_WaitLive (t_group s) ->
  length (bufferQueue s) <= count is_Popping (t_group s) + count is_P_notify (callers s) /\
  (in_deinit s = true -> 0 < count will_notify (callers s)).

Lemma occ_app x l k : occ x (l ++ k) = occ x l + occ x k.
Proof. apply count_occ_app. Qed.

Lemma occ_perm l k : (forall x, occ x l = occ x k) -> l ≡ₚ k.
Proof. intros Ho. by apply (Permutation_count_occ (decide_rel (=))). Qed.

Lemma perm_occ l k x : l ≡ₚ k -> occ x l = occ x k.
Proof. intros Hp. by apply (proj1 (Permutation_count_occ (decide_rel (=)) l k)). Qed.

Lemma occ_in_hand x g : occ x (in_hand g) = sum_list_with (fun p => occ x (held p)) g.
Proof.
  unfold in_hand. induction g as [|p g IH]; [done|]. rewrite bind_cons, occ_app, IH. done.
Qed.

Lemma take_occ x l e l' : take_next l = Some (e, l') -> occ x l = occ x [e] + occ x l'.
Proof. intros Ht. rewrite (perm_occ _ _ x (take_perm _ _ _ Ht)). apply (occ_app x [e]). Qed.

Lemma take_length l e l' : take_next l = Some (e, l') -> length l = S (length l').
Proof. intros Ht. by rewrite (take_perm _ _ _ Ht). Qed.

Lemma clear_loop_perm n l : length l = n -> clear_loop n l ≡ₚ l.
Proof.
  revert l; induction n as [|n IH]; intros l Hl; [by apply length_zero_iff_nil in Hl as ->|].
  destruct (take_some l ltac:(by destruct l)) as [[e l'] Ht]. simpl. rewrite Ht.
  rewrite (IH l') by (apply take_length in Ht; lia). symmetry. by apply take_perm.
Qed.

(** *** Notifications *)

Lemma wake_all_held x g :
  sum_list_with (fun p => occ x (held p)) (wake_live <$> g) = sum_list_with (fun p => occ x (held p)) g.
Proof. rewrite sum_fmap. induction g as [|[] g IH]; simpl in *; lia. Qed.

Lemma wake_all_waits (g : list (worker E)) : count is_WaitLive (wake_live <$> g) = 0.
Proof. unfold count. rewrite sum_fmap. induction g as [|[] g IH]; simpl in *; lia. Qed.

Lemma wake_empty_counts f w s s1 :
  (forall c, f (wake_empty c) = f c) -> empty_notify_one w s = Some s1 ->
  s1 = set_callers (callers s1) s /\ count f (callers s1) = count f (callers s).
Proof.
  unfold empty_notify_one. intros Hf Hw. destruct (wake_one _ _ _ _) as [c|] eqn:Hc; [|done].
  simpl_opt_in Hw. injection Hw as <-. split; [done|]. simpl.
  apply wake_one_spec in Hc as [[-> _]|(x & Hi & _ & ->)]; [done|].
  pose proof (sum_insert (fun x => Nat.b2n (f x)) _ _ _ (wake_empty x) Hi) as Hsum.
  cbn beta in Hsum. rewrite Hf in Hsum. unfold count. lia.
Qed.

(** *** One step of a worker *)

Record exec_effect p s p' s1 : Prop := {
  ef_frame : t_group s1 = t_group s /\ pushed s1 = pushed s /\ in_deinit s1 = in_deinit s;
  ef_occ : forall x, occ x (bufferQueue s) + occ x (held p) + occ x (fates s).*1
    = occ x (bufferQueue s1) + occ x (held p') + occ x (fates s1).*1;
  ef_not_waiting : is_WaitLive p = false;
  ef_waits : is_WaitLive p' = true -> bufferQueue s1 = [] /\ in_deinit s = false;
  ef_length : bufferQueue s1 = [] \/
    length (bufferQueue s1) + Nat.b2n (is_Popping p) = length (bufferQueue s);
  ef_callers : forall f, (forall c, f (wake_empty c) = f c) -> count f (callers s1) = count f (callers s) }.

(** A step that only settles the element of the worker. *)
Lemma settle_effect p s p' l :
  is_WaitLive p = false -> is_WaitLive p' = false -> is_Popping p = false ->
  held p = l.*1 ++ held p' -> exec_effect p s p' (add_fates l s).
Proof.
  intros H1 H2 H3 Hh. split; try done.
  - intros x. simpl. rewrite Hh, fmap_app, !occ_app. lia.
  - by rewrite H2.
  - right. rewrite H3. simpl. lia.
Qed.

Lemma add_fates_nil s : add_fates [] s = s.
Proof. destruct s. unfold add_fates. simpl. by rewrite app_nil_r. Qed.

Lemma after_processing_effect p s e r p' s1 :
  is_WaitLive p = false -> is_Popping p = false -> held p = [e] ->
  after_processing e r s = (p', s1) -> exec_effect p s p' s1.
Proof.
  intros Hw Hp Hh. unfold after_processing. destruct (processed e r) as [f|d]; intros [= <- <-].
  - by apply settle_effect.
  - rewrite <- (add_fates_nil s) at 2. by apply settle_effect.
Qed.

Lemma waitAndPop_effect w s r s1 :
  waitAndPop w s = Some (r, s1) ->
  exec_effect Popping s (match r with Blocked => WaitLive | Null => AtTest | Element e => Got e end) s1.
Proof.
  unfold waitAndPop, isEmpty. destruct (bufferQueue s) as [|e0 q0] eqn:Hq.
  - destruct (in_deinit s) eqn:Hd; cbn [andb negb].
    + intros [= <- <-]. split; simpl; try done. by left.
    + destruct (empty_notify_one w s) as [s2|] eqn:Hn; [|done]. simpl_opt. intros [= <- <-].
      destruct (wake_empty_counts (fun _ => true) _ _ _ ltac:(done) Hn) as [Hs2 _].
      split; try done; try (rewrite Hs2; simpl; rewrite ?Hq; auto; fail).
      intros f Hf. by destruct (wake_empty_counts f _ _ _ Hf Hn).
  - cbn [andb]. rewrite <- Hq. destruct (take_next (bufferQueue s)) as [[e q]|] eqn:Ht; [|done].
    simpl_opt. pose proof (take_length _ _ _ Ht) as Hl.
    destruct (is_null e); intros [= <- <-]; (split; [done| |done|done| |done]); simpl.
    1,3: intros x; rewrite ?fmap_app, ?occ_app, (take_occ x _ _ _ Ht); simpl; lia.
    all: right; lia.
Qed.

Lemma executeOnThread_effect a p s p' s1 :
  executeOnThread a p s = Some (p', s1) -> exec_effect p s p' s1.
Proof.
  destruct p as [| | |e|e|e d|]; simpl; try done.
  - intros [= <- <-]. rewrite <- (add_fates_nil s) at 3. by apply settle_effect; try destruct (in_deinit s).
  - destruct (waitAndPop (woken a) s) as [[r s2]|] eqn:Hw; [|done]. simpl_opt. intros [= <- <-].
    by apply waitAndPop_effect in Hw.
  - destruct (eventListener s); [destruct (will_be_processed a) as [[]|]|].
    + intros [= <- <-]. rewrite <- (add_fates_nil s) at 2. by apply settle_effect.
    + intros [= <- <-]. by apply settle_effect.
    + intros Hp. injection Hp as Hp. by eapply after_processing_effect.
    + intros [= <- <-]. rewrite <- (add_fates_nil s) at 2. by apply settle_effect.
  - intros Hp. injection Hp as Hp. by eapply after_processing_effect.
  - destruct (eventListener s && negb (will_be_discarded a)); intros [= <- <-]; apply settle_effect;
      try done; by destruct kept_ends_thread.
Qed.

(** *** One step of a caller *)

Record caller_effect c s c' s1 : Prop := {
  ce_frame : s1 = set_t_group (t_group s1) s;
  ce_held : forall x, sum_list_with (fun p => occ x (held p)) (t_group s1)
    = sum_list_with (fun p => occ x (held p)) (t_group s);
  ce_wakes : count is_WaitLive (t_group s1) = 0 \/
    count is_WaitLive (t_group s1) <= count is_WaitLive (t_group s) /\
    count is_Popping (t_group s1) = count is_Popping (t_group s) + Nat.b2n (is_P_notify c) /\
    will_notify c' = will_notify c /\ is_P_notify c' = false }.

Lemma notify_all_effect c s c' : caller_effect c s c' (live_notify_all s).
Proof.
  split; [done| |].
  - intros x. apply wake_all_held.
  - left. apply wake_all_waits.
Qed.

Lemma quiet_effect c s c' :
  is_P_notify c = false -> is_P_notify c' = false -> will_notify c' = will_notify c -> caller_effect c s c' s.
Proof. intros H1 H2 H3. split; [by destruct s|done|right]. rewrite H1. repeat split; simpl; try done; lia. Qed.

Lemma notify_one_effect w s s1 : live_notify_one w s = Some s1 -> caller_effect P_notify s Returned s1.
Proof.
  unfold live_notify_one. destruct (wake_one _ _ _ _) as [g|] eqn:Hg; [|done].
  simpl_opt. intros [= <-]. apply wake_one_spec in Hg as [[-> Hz]|(x & Hi & Hx & ->)].
  - split; [done|done|]. by left.
  - destruct x; try done. split; [done| |right].
    + intros x. simpl. pose proof (sum_insert (fun p => occ x (held p)) _ _ _ Popping Hi) as Hs. simpl in Hs. lia.
    + pose proof (sum_insert (fun p => Nat.b2n (is_WaitLive p)) _ _ _ Popping Hi) as H1.
      pose proof (sum_insert (fun p => Nat.b2n (is_Popping p)) _ _ _ Popping Hi) as H2.
      simpl in *. unfold count. repeat split; lia.
Qed.

Lemma caller_step_effect w c s c' s1 : caller_step w c s = Some (c', s1) -> caller_effect c s c' s1.
Proof.
  destruct c; simpl; try done.
  - destruct push_notifies_all.
    + simpl_opt. intros [= <- <-]. apply notify_all_effect.
    + destruct (live_notify_one w s) as [s2|] eqn:Hn; [|done]. simpl_opt. intros [= <- <-].
      by eapply notify_one_effect.
  - intros [= <- <-]. unfold deinit_test. by destruct (isEmpty s); apply quiet_effect.
  - intros [= <- <-]. apply notify_all_effect.
  - destruct (forallb _ _); [|done]. intros [= <- <-]. by apply quiet_effect.
  - intros [= <- <-]. unfold empty_test. by destruct (isEmpty s); apply quiet_effect.
Qed.

(** *** Every step *)

Lemma thread_step i a s s' :
  step (Thread i a) s = Some s' ->
  exists p p' s1, t_group s !! i = Some p /\ exec_effect p s p' s1 /\ s' = set_t_group (<[i := p']> (t_group s)) s1.
Proof.
  simpl. destruct (t_group s !! i) as [p|] eqn:Hi; [|done]. simpl_opt.
  destruct (executeOnThread a p s) as [[p' s1]|] eqn:He; [|done]. simpl_opt. intros [= <-].
  apply executeOnThread_effect in He. exists p, p', s1. do 2 (split; [done|]).
  by destruct (ef_frame _ _ _ _ He) as [-> _].
Qed.

Lemma caller_steps i w s s' :
  step (Caller i w) s = Some s' ->
  exists c c' s1, callers s !! i = Some c /\ caller_effect c s c' s1 /\ s' = set_callers (<[i := c']> (callers s)) s1.
Proof.
  simpl. destruct (callers s !! i) as [c|] eqn:Hi; [|done]. simpl_opt.
  destruct (caller_step w c s) as [[c' s1]|] eqn:He; [|done]. simpl_opt. intros [= <-].
  apply caller_step_effect in He. exists c, c', s1. do 2 (split; [done|]).
  by rewrite (ce_frame _ _ _ _ He).
Qed.

Lemma step_conserved x s s' : step x s = Some s' -> conserved s -> conserved s'.
Proof.
  intros Hstep Hc y. specialize (Hc y). destruct x as [n|e|b| | |b|i a|i w|i|i].
  - injection Hstep as <-. simpl. rewrite sum_list_with_app.
    replace (sum_list_with _ (replicate n AtTest)) with 0; [lia|]. induction n; simpl; lia.
  - injection Hstep as <-. unfold push. destruct (_ || _); simpl; [done|]. rewrite !occ_app. lia.
  - by injection Hstep as <-.
  - injection Hstep as <-. simpl. rewrite fmap_app, occ_app, <- list_fmap_compose.
    erewrite (list_fmap_ext (fst ∘ _) id), list_fmap_id by done.
    rewrite (perm_occ _ _ y (clear_loop_perm _ (bufferQueue s) eq_refl)). lia.
  - by injection Hstep as <-.
  - by injection Hstep as <-.
  - destruct (thread_step _ _ _ _ Hstep) as (p & p' & s1 & Hi & [(_ & Hp & _) Ho _ _ _ _] & ->).
    pose proof (sum_insert (fun p => occ y (held p)) _ _ _ p' Hi) as Hsum. specialize (Ho y).
    simpl in *. rewrite Hp. lia.
  - destruct (caller_steps _ _ _ _ Hstep) as (c & c' & s1 & Hi & [-> Hh _] & ->).
    specialize (Hh y). simpl in *. lia.
  - simpl in Hstep. destruct (t_group s !! i) as [p|] eqn:Hi; [|done]. simpl_opt_in Hstep.
    destruct p; try done. injection Hstep as <-.
    pose proof (sum_insert (fun p => occ y (held p)) _ _ _ Popping Hi) as Hsum. simpl in *. lia.
  - simpl in Hstep. destruct (callers s !! i) as [c|]; [|done]. simpl_opt_in Hstep.
    destruct (waits_empty c); [|done]. by injection Hstep as <-.
Qed.

Lemma count_replicate_AtTest n :
  count is_WaitLive (replicate n (@AtTest E)) = 0 /\ count is_Popping (replicate n (@AtTest E)) = 0.
Proof. unfold count. induction n; simpl; lia. Qed.

Lemma count_app {A} (f : A -> bool) l k : count f (l ++ k) = count f l + count f k.
Proof. apply sum_list_with_app. Qed.

Lemma count_insert {A} (f : A -> bool) l i x y :
  l !! i = Some x -> count f (<[i := y]> l) + Nat.b2n (f x) = count f l + Nat.b2n (f y).
Proof. apply (sum_insert (fun x => Nat.b2n (f x))). Qed.

Lemma wakes_thread s s' i p p' s1 :
  t_group s !! i = Some p -> exec_effect p s p' s1 -> s' = set_t_group (<[i := p']> (t_group s)) s1 ->
  wakes s -> wakes s'.
Proof.
  intros Hi [(_ & _ & Hd) _ Hnw Hw Hl Hc] -> W Hpos. simpl in *.
  rewrite (Hc is_P_notify), (Hc will_notify), Hd by by intros [].
  pose proof (count_insert is_WaitLive _ _ _ p' Hi) as H1. pose proof (count_insert is_Popping _ _ _ p' Hi) as H2.
  rewrite Hnw in H1. simpl in H1. destruct (is_WaitLive p') eqn:Hp'; simpl in H1.
  - destruct (Hw eq_refl) as [-> ->]. simpl. split; [lia|done].
  - destruct W as [Wl Wd]; [lia|]. split; [|done].
    destruct Hl as [->|Hl]; simpl; lia.
Qed.

Lemma wakes_caller s s' i c c' s1 :
  callers s !! i = Some c -> caller_effect c s c' s1 -> s' = set_callers (<[i := c']> (callers s)) s1 ->
  wakes s -> wakes s'.
Proof.
  intros Hi [Hf _ Hw] -> W Hpos. rewrite Hf in *. simpl in *.
  pose proof (count_insert is_P_notify _ _ _ c' Hi) as H1. pose proof (count_insert will_notify _ _ _ c' Hi) as H2.
  destruct Hw as [Hz|(Hle & Hp & Hn & Hno)]; [lia|]. rewrite Hn in H2. rewrite Hno in H1. simpl in H1.
  destruct W as [Wl Wd]; [lia|]. split; [lia|]. intros Hd. specialize (Wd Hd). lia.
Qed.

Lemma step_wakes x s s' : step x s = Some s' -> wakes s -> wakes s'.
Proof.
  intros Hstep W. destruct x as [n|e|b| | |b|i a|i w|i|i].
  - injection Hstep as <-. intros Hpos. simpl in *. destruct (count_replicate_AtTest n) as [Z1 Z2].
    rewrite count_app, ?Z1, ?Z2 in *. destruct W as [Wl _]; [lia|]. split; [lia|done].
  - injection Hstep as <-. unfold push. destruct (in_deinit s || _) eqn:Hg; [done|].
    apply orb_false_elim in Hg as [Hd _]. intros Hpos. simpl in *. destruct (W Hpos) as [Wl _].
    rewrite length_app, count_app, Hd. split; [simpl; lia|done].
  - injection Hstep as <-. intros Hpos. destruct (W Hpos) as [Wl _]. simpl. rewrite !count_app.
    split; [lia|]. intros _. unfold deinit_test. destruct b; [destruct (isEmpty _)|]; simpl; lia.
  - injection Hstep as <-. intros Hpos. destruct (W Hpos) as [_ Wd]. split; [simpl; lia|done].
  - injection Hstep as <-. intros Hpos. destruct (W Hpos) as [Wl Wd]. simpl. rewrite !count_app.
    split; [lia|]. intros Hd. specialize (Wd Hd). lia.
  - by injection Hstep as <-.
  - destruct (thread_step _ _ _ _ Hstep) as (p & p' & s1 & Hi & He & ->). by eapply wakes_thread.
  - destruct (caller_steps _ _ _ _ Hstep) as (c & c' & s1 & Hi & He & ->). by eapply wakes_caller.
  - simpl in Hstep. destruct (t_group s !! i) as [p|] eqn:Hi; [|done]. simpl_opt_in Hstep.
    destruct p; try done. injection Hstep as <-. intros Hpos. simpl in *.
    pose proof (count_insert is_WaitLive _ _ _ Popping Hi) as H1.
    pose proof (count_insert is_Popping _ _ _ Popping Hi) as H2. simpl in *.
    destruct W as [Wl Wd]; [lia|]. split; [lia|done].
  - simpl in Hstep. destruct (callers s !! i) as [c|] eqn:Hi; [|done]. simpl_opt_in Hstep.
    destruct (waits_empty c); [|done]. injection Hstep as <-. intros Hpos. simpl in *.
    pose proof (count_insert is_P_notify _ _ _ (wake_empty c) Hi) as H1.
    pose proof (count_insert will_notify _ _ _ (wake_empty c) Hi) as H2.
    destruct (W Hpos) as [Wl Wd]. destruct c; simpl in *; (split; [lia|]; intros Hd; specialize (Wd Hd); lia).
Qed.

(** What holds at the start and is kept by every step holds in every reachable state. *)
Lemma run_invariant (I : Queue E -> Prop) xs s s' :
  (forall x s s', step x s = Some s' -> I s -> I s') -> I s -> run xs s = Some s' -> I s'.
Proof.
  intros Hstep. revert s; induction xs as [|x xs IH]; intros s Hs Hr; [by injection Hr as <-|].
  simpl in Hr. destruct (step x s) as [s1|] eqn:Hx; [|done]. simpl_opt_in Hr. eauto.
Qed.

Lemma reachable_conserved s : reachable s -> conserved s.
Proof. intros [xs Hr]. by eapply (run_invariant conserved); [apply step_conserved| |exact Hr]. Qed.

Lemma reachable_wakes s : reachable s -> wakes s.
Proof.
  intros [xs Hr]. eapply (run_invariant wakes); [apply step_wakes| |exact Hr]. intros Hpos. by inversion Hpos.
Qed.

(** *** Progress *)

(** The places at which a thread can be blocked. *)
Definition blocked_worker p : bool := match p with WaitLive | Ended => true | _ => false end.
Definition blocked_caller s (c : caller) : bool :=
  match c with
  | D_wait | E_wait | Returned => true
  | D_join => negb (forallb is_Ended (t_group s))
  | _ => false
  end.

Lemma worker_moves p s : blocked_worker p = false -> exists a r, executeOnThread a p s = Some r.
Proof.
  destruct (wake_one_some waits_empty wake_empty (callers s)) as (w & c & Hw).
  intros Hb. exists (mkAnswers (Some true) Threw true w). destruct p as [| | |e|e|e d|]; simpl in *; try done.
  - eauto.
  - unfold waitAndPop, isEmpty, empty_notify_one. destruct (bufferQueue s) as [|e q] eqn:Hq.
    + destruct (in_deinit s); simpl; [eauto|]. rewrite Hw. simpl_opt. eauto.
    + destruct (take_some (e :: q) ltac:(done)) as [[e' q'] ->]. cbn. simpl_opt. destruct (is_null e'); eauto.
  - destruct (eventListener s); eauto.
  - eauto.
  - destruct (eventListener s); simpl; eauto.
Qed.

Lemma caller_moves c s : blocked_caller s c = false -> exists w r, caller_step w c s = Some r.
Proof.
  destruct (wake_one_some is_WaitLive wake_live (t_group s)) as (w & g & Hw).
  intros Hb. exists w. destruct c; simpl in *; try done; eauto.
  - unfold live_notify_one. rewrite Hw. destruct push_notifies_all; simpl_opt; eauto.
  - apply negb_false_iff in Hb as ->. eauto.
Qed.

(** Somebody can move, or all are blocked. *)
Lemma progress s :
  can_move s \/ (Forall (fun p => blocked_worker p = true) (t_group s) /\
                 Forall (fun c => blocked_caller s c = true) (callers s)).
Proof.
  destruct (decide (Forall (fun p => blocked_worker p = true) (t_group s))) as [Hw|Hw].
  - destruct (decide (Forall (fun c => blocked_caller s c = true) (callers s))) as [Hc|Hc]; [by right|left].
    apply not_Forall_Exists in Hc; [|apply _]. apply Exists_exists in Hc as (c & Hin & Hc).
    apply not_true_is_false in Hc. apply list_elem_of_lookup in Hin as [i Hi].
    destruct (caller_moves c s Hc) as (w & [c' s1] & Hs). exists (Caller i w). eexists.
    split; [done|]. simpl. rewrite Hi. simpl_opt. rewrite Hs. done.
  - left. apply not_Forall_Exists in Hw; [|apply _]. apply Exists_exists in Hw as (p & Hin & Hp).
    apply not_true_is_false in Hp. apply list_elem_of_lookup in Hin as [i Hi].
    destruct (worker_moves p s Hp) as (a & [p' s1] & Hs). exists (Thread i a). eexists.
    split; [done|]. simpl. rewrite Hi. simpl_opt. rewrite Hs. done.
Qed.

(** When all are blocked, a worker that has not ended waits. *)
Lemma blocked_waits s :
  Forall (fun p => blocked_worker p = true) (t_group s) ->
  Forall (fun p => is_Ended p = true) (t_group s) \/ 0 < count is_WaitLive (t_group s).
Proof.
  unfold count. induction 1 as [|p g Hp Hg IH]; [by left|]. simpl.
  destruct p; try done; simpl; [right; lia|]. destruct IH as [IH|IH]; [left; by constructor|right; lia].
Qed.

Lemma blocked_none s :
  Forall (fun p => blocked_worker p = true) (t_group s) -> Forall (fun c => blocked_caller s c = true) (callers s) ->
  count is_Popping (t_group s) = 0 /\ count is_P_notify (callers s) = 0.
Proof.
  intros Hw Hc. unfold count. split; [induction Hw as [|[] g]|induction Hc as [|[] g]]; simpl in *; done || lia.
Qed.

(** *** The end of the workers *)

Definition worker_rest p : nat :=
  match p with
  | WaitLive => 6 | Popping => 5 | Got _ => 4 | Entered _ => 3 | Finishing _ _ => 2 | AtTest => 1 | Ended => 0
  end.
Definition caller_rest (c : caller) : nat :=
  match c with D_check => 3 | D_notify => 2 | P_notify | D_join | E_check => 1 | D_wait | E_wait | Returned => 0 end.

(** A bound on the steps to come once [in_deinit] is set. *)
Definition rest s : nat := sum_list_with worker_rest (t_group s) + sum_list_with caller_rest (callers s).

Lemma rest_wake_all (g : list (worker E)) :
  sum_list_with worker_rest (wake_live <$> g) <= sum_list_with worker_rest g.
Proof. rewrite sum_fmap. induction g as [|[] g IH]; simpl in *; lia. Qed.

Lemma exec_rest a p s p' s1 :
  in_deinit s = true -> executeOnThread a p s = Some (p', s1) ->
  worker_rest p' < worker_rest p /\ callers s1 = callers s /\ in_deinit s1 = true.
Proof.
  intros Hd. destruct p as [| | |e|e|e d|]; simpl; try done.
  - rewrite Hd. intros [= <- <-]. repeat split; simpl; done || lia.
  - unfold waitAndPop. rewrite Hd, andb_false_r. destruct (isEmpty s).
    + simpl_opt. intros [= <- <-]. repeat split; simpl; done || lia.
    + destruct (take_next _) as [[e q]|]; [|done]. simpl_opt.
      destruct (is_null e); simpl_opt; intros [= <- <-]; repeat split; simpl; done || lia.
  - unfold after_processing. destruct (eventListener s); [destruct (will_be_processed a) as [[]|]|];
      [| |destruct (processed e Threw)|]; intros [= <- <-]; repeat split; simpl; done || lia.
  - unfold after_processing. destruct (processed e _); intros [= <- <-]; repeat split; simpl; done || lia.
  - destruct (_ && _); [destruct kept_ends_thread|]; intros [= <- <-]; repeat split; simpl; done || lia.
Qed.

Lemma caller_step_rest w c s c' s1 :
  caller_step w c s = Some (c', s1) ->
  sum_list_with worker_rest (t_group s1) + caller_rest c' < sum_list_with worker_rest (t_group s) + caller_rest c.
Proof.
  destruct c; simpl; try done.
  - destruct push_notifies_all.
    + simpl_opt. intros [= <- <-]. simpl. pose proof (rest_wake_all (t_group s)). lia.
    + unfold live_notify_one. destruct (wake_one _ _ _ _) as [g|] eqn:Hg; [|done]. simpl_opt. intros [= <- <-].
      simpl. apply wake_one_spec in Hg as [[-> _]|(x & Hi & Hx & ->)]; [lia|].
      pose proof (sum_insert worker_rest _ _ _ (wake_live x) Hi) as Hs. destruct x; simpl in *; done || lia.
  - intros [= <- <-]. unfold deinit_test. destruct (isEmpty s); simpl; lia.
  - intros [= <- <-]. simpl. pose proof (rest_wake_all (t_group s)). lia.
  - destruct (forallb _ _); [|done]. intros [= <- <-]. simpl. lia.
  - intros [= <- <-]. unfold empty_test. destruct (isEmpty s); simpl; lia.
Qed.

Lemma step_rest x s s' :
  internal x = true -> in_deinit s = true -> step x s = Some s' -> rest s' < rest s /\ in_deinit s' = true.
Proof.
  intros Hx Hd Hs. unfold rest. destruct x as [| | | | | |i a|i w| |]; try done; simpl in Hs.
  - destruct (t_group s !! i) as [p|] eqn:Hi; [|done]. simpl_opt_in Hs.
    destruct (executeOnThread a p s) as [[p' s1]|] eqn:He; [|done]. simpl_opt_in Hs. injection Hs as <-.
    destruct (exec_rest _ _ _ _ _ Hd He) as (Hlt & Hc & Hd1). apply executeOnThread_effect in He.
    destruct (ef_frame _ _ _ _ He) as [Hg _]. simpl. rewrite Hg, Hc.
    pose proof (sum_insert worker_rest _ _ _ p' Hi). split; [lia|done].
  - destruct (callers s !! i) as [c|] eqn:Hi; [|done]. simpl_opt_in Hs.
    destruct (caller_step w c s) as [[c' s1]|] eqn:He; [|done]. simpl_opt_in Hs. injection Hs as <-.
    pose proof (caller_step_rest _ _ _ _ _ He) as Hlt. apply caller_step_effect in He.
    pose proof (ce_frame _ _ _ _ He) as Hf. simpl. pose proof (sum_insert caller_rest _ _ _ c' Hi) as Hsum.
    rewrite Hf. simpl. split; [|done]. lia.
Qed.

Lemma run_rest xs s s' :
  Forall (fun x => internal x = true) xs -> in_deinit s = true -> run xs s = Some s' ->
  length xs + rest s' <= rest s /\ in_deinit s' = true.
Proof.
  intros Hx. revert s; induction Hx as [|x xs Hx Hxs IH]; intros s Hd Hr.
  - injection Hr as <-. by split.
  - simpl in Hr. destruct (step x s) as [s1|] eqn:Hs; [|done]. simpl_opt_in Hr.
    destruct (step_rest _ _ _ Hx Hd Hs) as [Hlt Hd1]. destruct (IH _ Hd1 Hr) as [IH1 IH2].
    split; [simpl; lia|done].
Qed.

Lemma run_app xs ys s s1 : run xs s = Some s1 -> run (xs ++ ys) s = run ys s1.
Proof.
  revert s; induction xs as [|x xs IH]; intros s Hr; [by injection Hr as <-|].
  simpl in *. destruct (step x s); [|done]. simpl_opt. simpl_opt_in Hr. by apply IH.
Qed.

Lemma reachable_run s xs s' : reachable s -> run xs s = Some s' -> reachable s'.
Proof. intros [ys Hy] Hr. exists (ys ++ xs). by rewrite (run_app _ _ _ _ Hy). Qed.

(** A [deinit] that waits is not woken while [in_deinit] is set. *)
Lemma step_keeps_waiting x s s' i :
  match x with Init _ | SpuriousCaller _ => False | _ => True end ->
  callers s !! i = Some D_wait /\ in_deinit s = true -> step x s = Some s' ->
  callers s' !! i = Some D_wait /\ in_deinit s' = true.
Proof.
  intros Hx [Hi Hd] Hs. assert (forall c, (callers s ++ [c]) !! i = Some D_wait) as Happ.
  { intros c. by apply lookup_app_l_Some. }
  destruct x as [n|e|b| | |b|j a|j w|j|j]; try done; simpl in Hs.
  - injection Hs as <-. unfold push. rewrite Hd. done.
  - injection Hs as <-. split; [apply Happ|done].
  - by injection Hs as <-.
  - injection Hs as <-. split; [apply Happ|done].
  - by injection Hs as <-.
  - destruct (t_group s !! j) as [p|]; [|done]. simpl_opt_in Hs.
    destruct (executeOnThread a p s) as [[p' s1]|] eqn:He; [|done]. simpl_opt_in Hs. injection Hs as <-.
    destruct (exec_rest _ _ _ _ _ Hd He) as (_ & Hc & Hd1). simpl. by rewrite Hc.
  - destruct (callers s !! j) as [c|] eqn:Hj; [|done]. simpl_opt_in Hs.
    destruct (caller_step w c s) as [[c' s1]|] eqn:He; [|done]. simpl_opt_in Hs. injection Hs as <-.
    assert (i <> j) by (intros ->; rewrite Hi in Hj; by simplify_eq).
    apply caller_step_effect in He. rewrite (ce_frame _ _ _ _ He). simpl. by rewrite list_lookup_insert_ne.
  - destruct (t_group s !! j) as [p|]; [|done]. simpl_opt_in Hs. destruct (is_WaitLive p); [|done].
    by injection Hs as <-.
Qed.

End Invariants.

(** ** The plain queue *)

Module Plain.

Definition CObjectProcessingQueue_MAX_ELEMENT_IN_QUEUE : nat := 1000.

(** [queue<T*>]: an element is a pointer. *)
#[export] Instance plain : Discipline (option nat) := {|
  take_next q := match q with [] => None | e :: q => Some (e, q) end;
  full q := CObjectProcessingQueue_MAX_ELEMENT_IN_QUEUE <? length q;
  is_null e := match e with None => true | Some _ => false end;
  push_notifies_all := true;
  refused _ := Deleted;
  processed _ r := match r with Done true => inl Released | _ => inr true end;
  kept_ends_thread := true;
  cleared _ := Dropped |}.

#[export] Instance plain_laws : DisciplineLaws (option nat).
Proof.
  split.
  - intros [|e q] e' q'; simpl; [done|]. by intros [= -> ->].
  - intros [|e q] Hq; [done|]. simpl. eauto.
Qed.

(** What has been taken out and what is queued is what was accepted, in order. *)
Definition fifo (s : Queue (option nat)) : Prop :=
  popped s ++ bufferQueue s = pushed s /\ length (bufferQueue s) <= S CObjectProcessingQueue_MAX_ELEMENT_IN_QUEUE.

Lemma clear_loop_plain (q : list (option nat)) : clear_loop (length q) q = q.
Proof. induction q as [|e q IH]; simpl; [done|]. by rewrite IH. Qed.

(** The parts of the state [fifo] is about. *)
Lemma fifo_same s s' :
  popped s' = popped s -> bufferQueue s' = bufferQueue s -> pushed s' = pushed s -> fifo s -> fifo s'.
Proof. unfold fifo. by intros -> -> ->. Qed.

Lemma exec_fifo a p s p' s1 : executeOnThread a p s = Some (p', s1) -> fifo s -> fifo s1.
Proof.
  intros He Hf. destruct p as [| | |e|e|e d|]; simpl in He; try done.
  2:{ destruct (waitAndPop (woken a) s) as [[r s2]|] eqn:Hw; [|done]. simpl_opt_in He. injection He as <- <-.
    unfold waitAndPop, isEmpty in Hw. destruct (bufferQueue s) as [|e q] eqn:Hq.
    - destruct (in_deinit s); simpl in Hw; [by simplify_eq|].
      destruct (empty_notify_one (woken a) s) as [s3|] eqn:Hn; [|done]. simpl_opt_in Hw. injection Hw as <- <-.
      destruct (wake_empty_counts (fun _ => true) _ _ _ ltac:(done) Hn) as [-> _]. by eapply fifo_same.
    - destruct Hf as [Ho Hl]. rewrite Hq in *. cbn in Hw. simpl in Hl.
      assert (fifo (add_popped [e] (set_bufferQueue q s))) as Hf'.
      { split; simpl; [by rewrite <- app_assoc|lia]. }
      destruct e; simpl in Hw; injection Hw as <- <-; [done|]. by eapply fifo_same, Hf'. }
  all: unfold after_processing in He; simpl in He; repeat split_match; done || by eapply fifo_same, Hf.
Qed.

Lemma caller_effect_fifo (c c' : caller) (s s1 : Queue (option nat)) : caller_effect c s c' s1 -> fifo s -> fifo s1.
Proof. intros He. rewrite (ce_frame _ _ _ _ He). by apply fifo_same. Qed.

Lemma step_fifo x s s' : step x s = Some s' -> fifo s -> fifo s'.
Proof.
  intros Hs Hf. destruct x as [n|e|b| | |b|i a|i w|i|i]; simpl in Hs.
  - injection Hs as <-. by eapply fifo_same, Hf.
  - injection Hs as <-. unfold push. destruct (in_deinit s || _) eqn:Hg; [done|].
    apply orb_false_elim in Hg as [_ Hg]. simpl in Hg. reflect_bool. destruct Hf as [Ho Hl].
    split; simpl; [by rewrite app_assoc, Ho|]. rewrite length_app. simpl. lia.
  - injection Hs as <-. by eapply fifo_same, Hf.
  - injection Hs as <-. destruct Hf as [Ho _]. split; simpl; [|lia].
    by rewrite clear_loop_plain, app_nil_r.
  - injection Hs as <-. by eapply fifo_same, Hf.
  - injection Hs as <-. by eapply fifo_same, Hf.
  - destruct (t_group s !! i) as [p|]; [|done]. simpl_opt_in Hs.
    destruct (executeOnThread a p s) as [[p' s1]|] eqn:He; [|done]. simpl_opt_in Hs. injection Hs as <-.
    apply exec_fifo in He; [|done]. by eapply fifo_same, He.
  - destruct (callers s !! i) as [c|]; [|done]. simpl_opt_in Hs.
    destruct (caller_step w c s) as [[c' s1]|] eqn:He; [|done]. simpl_opt_in Hs. injection Hs as <-.
    apply caller_step_effect, caller_effect_fifo in He; [|done]. by eapply fifo_same, He.
  - destruct (t_group s !! i) as [p|]; [|done]. simpl_opt_in Hs. destruct (is_WaitLive p); [|done].
    injection Hs as <-. by eapply fifo_same, Hf.
  - destruct (callers s !! i) as [c|]; [|done]. simpl_opt_in Hs. destruct (waits_empty c); [|done].
    injection Hs as <-. by eapply fifo_same, Hf.
Qed.

End Plain.

(** ** The priority queue *)

Module Priority.

(** [PriorityQueuedElement<T>]. *)
Record PriorityQueuedElement := mkElement {
  disposeOnDestroy : bool;
  priority : Z;
  element : option nat }.

#[export] Instance PriorityQueuedElement_eq_dec : EqDecision PriorityQueuedElement.
Proof. solve_decision. Defined.

(** The argument of [push] is unsigned, the member a signed [int]. *)
Definition new_PriorityQueuedElement (e : option nat) (_priority : Z) (_disposeOnDestroy : bool) :=
  mkElement _disposeOnDestroy (s32 _priority) e.

(** The destructor deletes the element when [d] is set. *)
Definition deletes (d : bool) (e : PriorityQueuedElement) : bool :=
  d && match element e with Some _ => true | None => false end.

Definition delete_fate (d : bool) (e : PriorityQueuedElement) : fate := if deletes d e then Deleted else Released.

(** What [std::priority_queue] does is the argument [top]: which of the elements of
    greatest priority comes first is not specified. *)
Class PriorityTop (top : list PriorityQueuedElement -> option (PriorityQueuedElement * list PriorityQueuedElement)) := {
  top_perm : forall l e l', top l = Some (e, l') -> l ≡ₚ e :: l';
  top_some : forall l, l <> [] -> is_Some (top l);
  top_greatest : forall l e l', top l = Some (e, l') -> Forall (fun x => priority x <= priority e)%Z l' }.

Section Top.
Context (top : list PriorityQueuedElement -> option (PriorityQueuedElement * list PriorityQueuedElement)).

#[export] Instance prioritised : Discipline PriorityQueuedElement := {|
  take_next := top;
  full _ := false;
  is_null _ := false;
  push_notifies_all := false;
  refused e := delete_fate (disposeOnDestroy e) e;
  processed e r := inr (match r with Done b => deletes (negb b) e | Threw => deletes (disposeOnDestroy e) e end);
  kept_ends_thread := false;
  cleared e := delete_fate (disposeOnDestroy e) e |}.

#[export] Instance prioritised_laws `{!PriorityTop top} : DisciplineLaws PriorityQueuedElement.
Proof. split; [apply top_perm|apply top_some]. Qed.

(** The operations of [CObjectProcessingPriorityQueue]. *)
Definition init : nat -> Queue PriorityQueuedElement -> Queue PriorityQueuedElement := init.
Definition deinit : bool -> Queue PriorityQueuedElement -> Queue PriorityQueuedElement := deinit.
Definition push (elementToPush : option nat) (_priority : Z) (_disposeOnDestroy : bool)
    (s : Queue PriorityQueuedElement) : bool * Queue PriorityQueuedElement :=
  push (new_PriorityQueuedElement elementToPush _priority _disposeOnDestroy) s.
Definition waitAndPop (w : nat) (s : Queue PriorityQueuedElement) := waitAndPop w s.
Definition executeOnThread (a : answers) (p : worker PriorityQueuedElement) (s : Queue PriorityQueuedElement) :=
  executeOnThread a p s.
Definition clear (s : Queue PriorityQueuedElement) : Queue PriorityQueuedElement := clear s.

End Top.

(** A heap for examples: the oldest of the elements of greatest priority. *)
Fixpoint first_top (l : list PriorityQueuedElement) : option (PriorityQueuedElement * list PriorityQueuedElement) :=
  match l with
  | [] => None
  | x :: l =>
      match first_top l with
      | Some (e, r) => Some (if (priority x <? priority e)%Z then (e, x :: r) else (x, l))
      | None => Some (x, l)
      end
  end.

Lemma first_top_perm l e l' : first_top l = Some (e, l') -> l ≡ₚ e :: l'.
Proof.
  revert e l'; induction l as [|x l IH]; intros e l'; simpl; [done|].
  destruct (first_top l) as [[y r]|]; [|by intros [= -> ->]].
  destruct (_ <? _)%Z; intros [= <- <-]; [|done]. rewrite (IH y r eq_refl). apply Permutation_swap.
Qed.

#[export] Instance first_top_ok : PriorityTop first_top.
Proof.
  split; [apply first_top_perm|..].
  - intros [|x l] Hl; [done|]. simpl. destruct (first_top l) as [[y r]|]; eauto.
  - induction l as [|x l IH]; intros e l'; simpl; [done|].
    destruct (first_top l) as [[y r]|] eqn:Hl.
    + specialize (IH _ _ eq_refl). destruct (priority x <? priority y)%Z eqn:Hlt; reflect_bool; intros [= <- <-].
      * constructor; [lia|done].
      * rewrite (first_top_perm _ _ _ Hl). constructor; [done|]. eapply Forall_impl; [exact IH|]. simpl. lia.
    + intros [= <- <-]. destruct l as [|z l]; [constructor|]. simpl in Hl. by destruct (first_top l) as [[]|].
Qed.

End Priority.

(** ** The theorems *)

Import Plain.

(** [C23] Whatever calls are made and however the threads interleave, every accepted element
    is in exactly one place: in the queue, in the hands of one worker, or settled once
    (deleted, released, kept by the listener, dropped by [clear]).  When the accepted
    pointers are distinct, none is settled twice and none is settled while it is queued or
    being processed.  This holds for both queues. *)
Theorem no_element_lost {E} `{!EqDecision E, !Discipline E, !DisciplineLaws E} (s : Queue E) (Hr : reachable s) :
  pushed s ≡ₚ bufferQueue s ++ in_hand (t_group s) ++ (fates s).*1 /\
  (NoDup (pushed s) -> NoDup (fates s).*1 /\ forall e, e ∈ (fates s).*1 -> e ∉ bufferQueue s /\ e ∉ in_hand (t_group s)).
Proof.
  assert (pushed s ≡ₚ bufferQueue s ++ in_hand (t_group s) ++ (fates s).*1) as Hp.
  { apply occ_perm. intros x. rewrite !occ_app, occ_in_hand. rewrite (reachable_conserved s Hr x). lia. }
  split; [done|]. rewrite Hp. intros [_ [Hq [_ [Hh Hn]]%NoDup_app]]%NoDup_app. split; [done|].
  intros e He. split; intros Hin; [apply (Hq e Hin)|by apply (Hh e Hin)]. apply elem_of_app. by right.
Qed.

(** [C36] The plain queue is first in, first out: in every reachable state the elements taken
    out, by workers or by [clear], followed by the queued ones, are the accepted ones in the
    order of their acceptance; and at most 1001 elements are queued. *)
Theorem plain_queue_is_fifo (s : Queue (option nat)) (Hr : reachable s) :
  popped s ++ bufferQueue s = pushed s /\
  length (bufferQueue s) <= S Plain.CObjectProcessingQueue_MAX_ELEMENT_IN_QUEUE.
Proof. destruct Hr as [xs Hx]. eapply (run_invariant Plain.fifo); [apply Plain.step_fifo| |exact Hx]. split; simpl; [done|lia]. Qed.

(** The bound is reached: one more than the maximum. *)
Lemma plain_queue_bound_reached :
  option_map elementInLiveBuffer (run ((fun i => Push (Some i)) <$> seq 0 1010) (new_Queue : Queue (option nat))) = Some 1001.
Proof. vm_compute. reflexivity. Qed.

(** [C27] No wake-up is lost: outside of [deinit], when no thread in the code of the queue can
    move any more, the queue is empty or all workers have ended.  So an accepted element is
    taken as long as there is a worker, also with the [notify_one] of the priority queue. *)
Theorem accepted_elements_are_taken {E} `{!EqDecision E, !Discipline E, !DisciplineLaws E} (s : Queue E)
    (Hr : reachable s) (Hd : in_deinit s = false) :
  can_move s \/ bufferQueue s = [] \/ Forall (fun p => is_Ended p = true) (t_group s).
Proof.
  destruct (progress s) as [Hm|[Hw Hc]]; [by left|right].
  destruct (blocked_waits s Hw) as [He|Hpos]; [by right|left].
  destruct (reachable_wakes s Hr Hpos) as [Hl _]. destruct (blocked_none s Hw Hc) as [H1 H2].
  apply length_zero_iff_nil. lia.
Qed.

(** [C30] After [deinit] has set its flag, the threads in the code of the queue make at most
    [rest s] further steps, whatever the interleaving; when none can move, the workers have
    ended and every [deinit] has returned, unless a [deinit] waits for an empty queue. *)
Theorem deinit_ends_workers {E} `{!EqDecision E, !Discipline E, !DisciplineLaws E} (s s' : Queue E) (xs : list (action E))
    (Hr : reachable s) (Hd : in_deinit s = true) (Hx : Forall (fun x => internal x = true) xs)
    (Hrun : run xs s = Some s') :
  length xs <= rest s /\
  (can_move s' \/ D_wait ∈ callers s' \/
   (Forall (fun p => is_Ended p = true) (t_group s') /\ Forall (fun c => c = E_wait \/ c = Returned) (callers s'))).
Proof.
  destruct (run_rest xs s s' Hx Hd Hrun) as [Hlen Hd']. split; [lia|].
  destruct (progress s') as [Hm|[Hw Hc]]; [by left|right].
  destruct (blocked_waits s' Hw) as [He|Hpos].
  - destruct (decide (D_wait ∈ callers s')) as [Hex|Hno]; [by left|right].
    split; [done|]. apply Forall_forall. intros c Hin. rewrite Forall_forall in Hc. specialize (Hc c Hin).
    destruct c; simpl in Hc; auto; try done.
    apply negb_true_iff, not_true_iff_false in Hc. destruct Hc. apply forallb_forall.
    intros p Hp%list_elem_of_In. rewrite Forall_forall in He. by apply He.
  - left. destruct (reachable_wakes s' (reachable_run _ _ _ Hr Hrun) Hpos) as [_ Hn]. specialize (Hn Hd').
    apply existsb_count, existsb_exists in Hn as (c & Hin & Hc'). apply list_elem_of_In in Hin.
    rewrite Forall_forall in Hc. specialize (Hc c Hin). by destruct c.
Qed.

(** A [deinit] that finds elements in the queue and waits for it to become empty never
    returns: the workers notify it only while [in_deinit] is false.  Whatever the workers and
    other callers do, [clear] included, it stays blocked, until the queue is initialised again
    or the condition variable wakes it without a notification. *)
Theorem deinit_never_returns {E} `{!EqDecision E, !Discipline E, !DisciplineLaws E} (s s' : Queue E) (xs : list (action E))
    (Hq : bufferQueue s <> [])
    (Hx : Forall (fun x => match x with Init _ | SpuriousCaller _ => False | _ => True end) xs)
    (Hrun : run (Deinit true :: xs) s = Some s') :
  callers s' !! length (callers s) = Some D_wait.
Proof.
  simpl in Hrun. set (s1 := deinit true s) in *. set (i := length (callers s)).
  assert (callers s1 !! i = Some D_wait /\ in_deinit s1 = true) as Hs1.
  { unfold s1, deinit, deinit_test, isEmpty. simpl. split; [|done].
    destruct (bufferQueue s); [done|]. by apply list_lookup_middle. }
  clearbody s1. revert s1 Hs1 Hrun. induction Hx as [|x xs Hx Hxs IH]; intros s1 Hs1 Hrun.
  - injection Hrun as <-. apply Hs1.
  - simpl in Hrun. destruct (step x s1) as [s2|] eqn:Hs; [|done]. simpl_opt_in Hrun.
    eapply IH; [|exact Hrun]. by eapply step_keeps_waiting.
Qed.

(** ** Runs *)

Module Demo.

#[local] Existing Instance Priority.PriorityQueuedElement_eq_dec.
#[local] Instance demo_top : Discipline Priority.PriorityQueuedElement := Priority.prioritised Priority.first_top.
#[local] Instance demo_top_laws : DisciplineLaws Priority.PriorityQueuedElement.
Proof. exact (@Priority.prioritised_laws _ Priority.first_top_ok). Defined.

(** The listener accepts everything and nothing is detached. *)
Definition yes : answers := mkAnswers (Some true) (Done false) true 0.
Definition ticks {E} (n : nat) : list (action E) := replicate n (Thread 0 yes).

Definition low := Priority.new_PriorityQueuedElement (Some 1) 10 true.
Definition high := Priority.new_PriorityQueuedElement (Some 2) 90 true.

(** A worker waits, two elements come, it takes the one of higher priority and deletes it. *)
Definition two_pushes : list (action Priority.PriorityQueuedElement) :=
  [Init 1] ++ ticks 2 ++ [Push low; Push high; Caller 0 0] ++ ticks 4.

Lemma no_element_lost_witness :
  exists s, run two_pushes new_Queue = Some s /\ bufferQueue s = [low] /\ fates s = [(high, Deleted)] /\
    pushed s ≡ₚ bufferQueue s ++ in_hand (t_group s) ++ (fates s).*1.
Proof.
  eexists. split; [vm_compute; reflexivity|]. do 2 (split; [vm_compute; reflexivity|]).
  refine (proj1 (no_element_lost _ _)). exists two_pushes. vm_compute. reflexivity.
Defined.

Lemma accepted_elements_are_taken_witness :
  exists s, run two_pushes new_Queue = Some s /\ in_deinit s = false /\
    (can_move s \/ bufferQueue s = [] \/ Forall (fun p => is_Ended p = true) (t_group s)).
Proof.
  eexists. split; [vm_compute; reflexivity|]. split; [reflexivity|].
  apply accepted_elements_are_taken; [|reflexivity]. exists two_pushes. vm_compute. reflexivity.
Defined.

(** A worker of the plain queue has the first of two elements. *)
Definition one_in_hand : list (action (option nat)) :=
  [Init 1] ++ ticks 2 ++ [Push (Some 1); Push (Some 2); Caller 0 0] ++ ticks 1.

Lemma plain_queue_is_fifo_witness :
  exists s, run one_in_hand new_Queue = Some s /\ popped s = [Some 1] /\
    popped s ++ bufferQueue s = pushed s /\ length (bufferQueue s) <= 1001.
Proof.
  eexists. split; [vm_compute; reflexivity|]. split; [vm_compute; reflexivity|].
  apply plain_queue_is_fifo. exists one_in_hand. vm_compute. reflexivity.
Defined.

(** [deinit(false)]: the worker finishes its element and ends, and [deinit] returns. *)
Lemma deinit_ends_workers_witness :
  exists s s', run (one_in_hand ++ [Deinit false]) new_Queue = Some s /\
    run (ticks 4 ++ [Caller 1 0; Caller 2 0; Caller 2 0]) s = Some s' /\ in_deinit s = true /\
    t_group s' = [Ended] /\ callers s' = [Returned; Returned; Returned] /\ length (@ticks (option nat) 4) + 3 <= rest s /\
    (can_move s' \/ D_wait ∈ callers s' \/
     (Forall (fun p => is_Ended p = true) (t_group s') /\ Forall (fun c => c = E_wait \/ c = Returned) (callers s'))).
Proof.
  do 2 eexists. do 2 (split; [vm_compute; reflexivity|]). do 3 (split; [vm_compute; reflexivity|]).
  eapply (deinit_ends_workers _ _ (ticks 4 ++ [Caller 1 0; Caller 2 0; Caller 2 0])).
  - exists (one_in_hand ++ [Deinit false]). vm_compute. reflexivity.
  - reflexivity.
  - repeat constructor.
  - vm_compute. reflexivity.
Defined.

(** [deinit(true)] in the same state: the worker ends and [deinit] stays blocked. *)
Lemma deinit_never_returns_witness :
  exists s s', run one_in_hand new_Queue = Some s /\ bufferQueue s = [Some 2] /\
    run (Deinit true :: ticks 4) s = Some s' /\ t_group s' = [Ended] /\
    callers s' !! length (callers s) = Some D_wait.
Proof.
  do 2 eexists. split; [vm_compute; reflexivity|]. split; [vm_compute; reflexivity|].
  split; [vm_compute; reflexivity|]. split; [vm_compute; reflexivity|].
  eapply (deinit_never_returns _ _ (ticks 4)).
  - done.
  - repeat constructor.
  - vm_compute. reflexivity.
Defined.

End Demo.
