(* ===== verification/Dispatcher.v ===== *)
(** * The action dispatcher

    Models [chaos/common/action] and [chaos/common/dispatcher]: the descriptors of actions,
    the domains that hold them, the dispatcher that queues a received message for the
    domain it names, and the scheduler of a domain, a [CObjectProcessingQueue] of
    [ProcessingQueue], that runs the action and sends the answer.

    Objects live in explicit heaps, so that a domain shared by the dispatcher and a
    scheduler is one object and a message that is deleted is gone.  Messages are containers
    of [Container].  The actions are user code: a parameter gives how each one ends.  The
    answers are the messages given to the RPC forwarder, which either takes one over or
    refuses it.  Operations are atomic; logging is left out. *)

From S2P Require Import Prelude BufBuilder Bson BsonBuilder CDataWrapper Container ProcessingQueue.
Import ProcessingQueue.Plain.

Local Open Scope Z_scope.

(** ** Keys of [RpcActionDefinitionKey] *)

Definition CS_CMDM_ACTION_DOMAIN := chars "cs|cmdm|act_domain".
Definition CS_CMDM_ACTION_NAME := chars "cs|cmdm|act_name".
Definition CS_CMDM_ACTION_MESSAGE := chars "cs|cmdm|act_msg".
Definition CS_CMDM_MESSAGE_ID := chars "cs|cmdm|act_msg_id".
Definition CS_CMDM_ACTION_SUBMISSION_ERROR_MESSAGE := chars "cs|cmdm|act_sub_emsg".
Definition CS_CMDM_ACTION_SUBMISSION_ERROR_DOMAIN := chars "cs|cmdm|act_sub_edom".
Definition CS_CMDM_ACTION_SUBMISSION_ERROR_CODE := chars "cs|cmdm|act_sub_ecode".
Definition CS_CMDM_SUB_CMD := chars "cs|cmdm|sub_cmd".
Definition CS_CMDM_ANSWER_HOST_IP := chars "cs|cmdm|rh_ans_ip".
Definition CS_CMDM_ANSWER_DOMAIN := chars "cs|cmdm|rh_ans_domain".
Definition CS_CMDM_ANSWER_ACTION := chars "cs|cmdm|rh_ans_action".
Definition CS_CMDM_ANSWER_ID := chars "cs|cmdm|rh_ans_msg_id".
Definition CS_CMDM_REMOTE_HOST_IP := chars "cs|cmdm|rh_ip".

(** ** State *)

(** [AbstractActionDescriptor], without the descriptions of parameters. *)
Record ActionDescriptor := mkDesc {
  fired : bool;
  enabled : bool;
  actionDomain : list Z;
  actionName : list Z }.

(** The constructor of [ActionDescriptor<T>]. *)
Definition new_ActionDescriptor (domain name : list Z) : ActionDescriptor := mkDesc false true domain name.

Record DomainActions := mkDomain {
  domainName : list Z;
  actionDescriptionsMap : gmap (list Z) nat }.

(** The base class [CObjectProcessingQueue<CDataWrapper>] is [base]. *)
Record DomainActionsScheduler := mkDas {
  armed : bool;
  domainActionsContainer : nat;
  base : Queue (option nat) }.

(** The dispatcher and the objects it reaches; [submitted] are the messages the forwarder
    has taken, with their destination. *)
Record Dispatcher (W : Type) := mkDispatcher {
  descriptors : gmap nat ActionDescriptor;
  domains : gmap nat DomainActions;
  schedulers : gmap nat DomainActionsScheduler;
  packs : gmap nat W;
  actionDomainExecutorMap : gmap (list Z) nat;
  das_map : gmap (list Z) nat;
  submitted : list (list Z * nat);
  heap_next : nat }.
Arguments mkDispatcher {W}.
Arguments descriptors {W}.
Arguments domains {W}.
Arguments schedulers {W}.
Arguments packs {W}.
Arguments actionDomainExecutorMap {W}.
Arguments das_map {W}.
Arguments submitted {W}.
Arguments heap_next {W}.

Section Dispatcher.
Context {W : Type} `{Container W}.
Notation D := (Dispatcher W).
Notation DD := (DX D).

Definition set_descriptors x (s : D) : D :=
  mkDispatcher x (domains s) (schedulers s) (packs s) (actionDomainExecutorMap s) (das_map s) (submitted s) (heap_next s).
Definition set_domains x (s : D) : D :=
  mkDispatcher (descriptors s) x (schedulers s) (packs s) (actionDomainExecutorMap s) (das_map s) (submitted s) (heap_next s).
Definition set_schedulers x (s : D) : D :=
  mkDispatcher (descriptors s) (domains s) x (packs s) (actionDomainExecutorMap s) (das_map s) (submitted s) (heap_next s).
Definition set_packs x (s : D) : D :=
  mkDispatcher (descriptors s) (domains s) (schedulers s) x (actionDomainExecutorMap s) (das_map s) (submitted s) (heap_next s).
Definition set_executors x (s : D) : D :=
  mkDispatcher (descriptors s) (domains s) (schedulers s) (packs s) x (das_map s) (submitted s) (heap_next s).
Definition set_das_map x (s : D) : D :=
  mkDispatcher (descriptors s) (domains s) (schedulers s) (packs s) (actionDomainExecutorMap s) x (submitted s) (heap_next s).
Definition add_submitted x (s : D) : D :=
  mkDispatcher (descriptors s) (domains s) (schedulers s) (packs s) (actionDomainExecutorMap s) (das_map s) (submitted s ++ [x]) (heap_next s).

(** The address of a new object. *)
Definition alloc : DD nat := fun s =>
  (Val (heap_next s), mkDispatcher (descriptors s) (domains s) (schedulers s) (packs s) (actionDomainExecutorMap s)
     (das_map s) (submitted s) (S (heap_next s))).

Definition the_descriptor (a : nat) : DD ActionDescriptor := m ← dx_gets descriptors; dx_access (m !! a).
Definition the_domain (d : nat) : DD DomainActions := m ← dx_gets domains; dx_access (m !! d).
Definition the_scheduler (q : nat) : DD DomainActionsScheduler := m ← dx_gets schedulers; dx_access (m !! q).
Definition put_descriptor (a : nat) x : DD unit := dx_modify (fun s => set_descriptors (<[a := x]> (descriptors s)) s).
Definition put_domain (d : nat) x : DD unit := dx_modify (fun s => set_domains (<[d := x]> (domains s)) s).
Definition put_scheduler (q : nat) x : DD unit := dx_modify (fun s => set_schedulers (<[q := x]> (schedulers s)) s).

(** ** Messages in memory *)

Definition new_pack (w : W) : DD nat := p ← alloc; dx_modify (fun s => set_packs (<[p := w]> (packs s)) s);; mret p.
Definition new_CDataWrapper : DD nat := w ← dx_lift c_new; new_pack w.
Definition the_pack (p : nat) : DD W := m ← dx_gets packs; dx_access (m !! p).
Definition put_pack (p : nat) (w : W) : DD unit := dx_modify (fun s => set_packs (<[p := w]> (packs s)) s).
Definition delete_pack (p : nat) : DD unit := the_pack p;; dx_modify (fun s => set_packs (delete p (packs s)) s).
Definition delete_packs (ps : list nat) : DD unit := foldr (fun p c => delete_pack p;; c) (mret tt) ps.

Definition read_pack {X} (op : W -> outcome (X * W)) (p : nat) : DD X :=
  w ← the_pack p; '(x, w) ← dx_lift (op w); put_pack p w;; mret x.
Definition add_pack (op : W -> outcome W) (p : nat) : DD unit :=
  w ← the_pack p; w ← dx_lift (op w); put_pack p w.
(** [getCSDataValue]: a new message. *)
Definition read_sub (key : list Z) (p : nat) : DD nat :=
  w ← the_pack p; '(x, w) ← dx_lift (c_getCSDataValue key w); put_pack p w;; new_pack x.
(** [addCSDataValue key *q] on [p]. *)
Definition add_sub (key : list Z) (q p : nat) : DD unit :=
  cs ← the_pack q; w ← the_pack p; '(cs, w) ← dx_lift (c_addCSDataValue key cs w); put_pack q cs;; put_pack p w.

(** ** Descriptors *)

Definition setFired (a : nat) (_fired : bool) : DD bool :=
  x ← the_descriptor a;
  let f := _fired && enabled x in
  put_descriptor a (mkDesc f (enabled x) (actionDomain x) (actionName x));; mret f.

Definition setEnabled (a : nat) (_enabled : bool) : DD bool :=
  x ← the_descriptor a;
  put_descriptor a (mkDesc (fired x) _enabled (actionDomain x) (actionName x));; mret _enabled.

(** ** Domains *)

Definition addActionDescriptor (d : nat) (actionDescriptorPtr : option nat) : DD bool :=
  match actionDescriptorPtr with
  | None => mret false
  | Some a =>
      x ← the_descriptor a; v ← the_domain d;
      if bool_decide (actionDomain x <> domainName v) then mret false
      else
        (* [insert] keeps an action that has the name already *)
        put_domain d (mkDomain (domainName v)
          (match actionDescriptionsMap v !! actionName x with
           | Some _ => actionDescriptionsMap v
           | None => <[actionName x := a]> (actionDescriptionsMap v)
           end));;
        mret true
  end.

Definition removeActionDescriptor (d : nat) (actionDescriptorPtr : option nat) : DD unit :=
  match actionDescriptorPtr with
  | None => mret tt
  | Some a =>
      x ← the_descriptor a; v ← the_domain d;
      if bool_decide (actionDomain x <> domainName v) then mret tt
      else
        setEnabled a false;;
        put_domain d (mkDomain (domainName v) (delete (actionName x) (actionDescriptionsMap v)))
  end.

Definition registeredActions (v : DomainActions) : Z := u32 (Z.of_nat (base.size (actionDescriptionsMap v))).

(** ** [AbstractCommandDispatcher] *)

Definition getDomainActionsFromName (domain_name : list Z) : DD nat :=
  m ← dx_gets actionDomainExecutorMap;
  match m !! domain_name with
  | Some d => mret d
  | None =>
      d ← alloc;
      put_domain d (mkDomain domain_name ∅);;
      dx_modify (fun s => set_executors (<[domain_name := d]> (actionDomainExecutorMap s)) s);;
      mret d
  end.

(** The test is inverted in the code: a present domain is not removed. *)
Definition removeDomainActionsFromName (domain_name : list Z) : DD unit :=
  m ← dx_gets actionDomainExecutorMap;
  match m !! domain_name with
  | Some _ => mret tt
  | None => dx_modify (fun s => set_executors (delete domain_name (actionDomainExecutorMap s)) s)
  end.

(** The loops over the descriptors of a [DeclareAction]. *)
Fixpoint for_each (f : nat -> DD unit) (l : list nat) : DD unit :=
  match l with [] => mret tt | a :: l => f a;; for_each f l end.

Definition register_one (a : nat) : DD unit :=
  x ← the_descriptor a; d ← getDomainActionsFromName (actionDomain x); addActionDescriptor d (Some a);; mret tt.

Definition deregister_one (a : nat) : DD unit :=
  x ← the_descriptor a; d ← getDomainActionsFromName (actionDomain x);
  removeActionDescriptor d (Some a);;
  v ← the_domain d;
  if registeredActions v =? 0
  then dx_modify (fun s => set_executors (delete (domainName v) (actionDomainExecutorMap s)) s)
  else mret tt.

(** ** The scheduler of a domain *)

Definition on_base (f : Queue (option nat) -> Queue (option nat)) (armed' : bool) (q : nat) : DD unit :=
  x ← the_scheduler q; put_scheduler q (mkDas armed' (domainActionsContainer x) (f (base x))).

Definition das_init (threadNumber : nat) (q : nat) : DD unit := on_base (init threadNumber) true q.

(** The workers and the wait for their end are steps of [ProcessingQueue]. *)
Definition das_deinit (q : nat) : DD unit := on_base (fun b => deinit true (clear b)) false q.

Definition das_push (q : nat) (actionParam : nat) : DD bool :=
  x ← the_scheduler q;
  if negb (armed x) then
    dx_throw (Chaos (mkExc 0 (chars "Action can't be submitted, scheduler is not armed") (chars "DomainActionsScheduler::push")))
  else
    let '(sent, b) := push (Some actionParam) (base x) in
    put_scheduler q (mkDas (armed x) (domainActionsContainer x) b);; mret sent.

(** ** [DefaultCommandDispatcher] *)

Definition schedule_one (a : nat) : DD unit :=
  x ← the_descriptor a;
  m ← dx_gets das_map;
  match m !! actionDomain x with
  | Some _ => mret tt
  | None =>
      d ← getDomainActionsFromName (actionDomain x);
      q ← alloc;
      put_scheduler q (mkDas false d new_Queue);;
      das_init 1 q;;
      dx_modify (fun s => set_das_map (<[actionDomain x := q]> (das_map s)) s)
  end.

(** A null class, or the descriptors of the class. *)
Definition registerAction (declareActionClass : option (list nat)) : DD unit :=
  match declareActionClass with
  | None => mret tt
  | Some l => for_each register_one l;; for_each schedule_one l
  end.

Definition unschedule_one (a : nat) : DD unit :=
  x ← the_descriptor a;
  m ← dx_gets das_map; e ← dx_gets actionDomainExecutorMap;
  match m !! actionDomain x, e !! actionDomain x with
  | Some q, None =>
      dx_modify (fun s => set_das_map (delete (actionDomain x) (das_map s)) s);;
      attempt (das_deinit q);; mret tt
  | _, _ => mret tt
  end.

Definition deregisterAction (declareActionClass : option (list nat)) : DD unit :=
  match declareActionClass with
  | None => mret tt
  | Some l => for_each deregister_one l;; for_each unschedule_one l
  end.

(** [deinit]: the schedulers in the order of the map. *)
Definition dispatcher_deinit : DD unit :=
  m ← dx_gets das_map;
  for_each (fun q => attempt (das_deinit q);; mret tt) (snd <$> map_to_list m);;
  dx_modify (set_das_map ∅).

(** [__PRETTY_FUNCTION__] of [dispatchCommand]. *)
Context (pretty_function : list Z).

Definition chaos_error (code : Z) (msg : list Z) : thrown := Chaos (mkExc code msg pretty_function).

(** The [try] block up to the submission. *)
Definition submit_pack (p : nat) : DD unit :=
  b ← read_pack (c_hasKey CS_CMDM_ACTION_DOMAIN) p;
  if negb b then dx_throw (chaos_error 0 (chars "Action Call with no action domain")) else
  b ← read_pack (c_hasKey CS_CMDM_ACTION_NAME) p;
  if negb b then dx_throw (chaos_error 1 (chars "Action Call with no action name")) else
  domain ← read_pack (c_getStringValue CS_CMDM_ACTION_DOMAIN) p;
  m ← dx_gets das_map;
  match m !! domain with
  | None => dx_throw (chaos_error 3 (chars "Action Domain not registered"))
  | Some q =>
      sent ← das_push q p;
      if negb sent then dx_throw (chaos_error 1 (chars "No more space in queue")) else mret tt
  end.

(** The two handlers. *)
Definition report_error (sent : bool) (p r : nat) (e : thrown) : DD unit :=
  (if sent then mret tt else delete_pack p);;
  match e with
  | Chaos e =>
      add_pack (c_addStringValue CS_CMDM_ACTION_SUBMISSION_ERROR_MESSAGE (errorMessage e)) r;;
      add_pack (c_addStringValue CS_CMDM_ACTION_SUBMISSION_ERROR_DOMAIN (errorDomain e)) r;;
      add_pack (c_addInt32Value CS_CMDM_ACTION_SUBMISSION_ERROR_CODE (errorCode e)) r
  | Foreign =>
      add_pack (c_addInt32Value CS_CMDM_ACTION_SUBMISSION_ERROR_CODE 1) r;;
      add_pack (c_addStringValue CS_CMDM_ACTION_SUBMISSION_ERROR_MESSAGE (chars "Unmanaged error")) r
  end.

(** The address of the result, which the caller owns. *)
Definition dispatchCommand (commandPack : option nat) : DD nat :=
  only_chaos (
    resultPack ← new_CDataWrapper;
    match commandPack with
    | None => mret resultPack
    | Some p =>
        r ← attempt (submit_pack p);
        match r with
        | inl _ =>
            r ← attempt (add_pack (c_addInt32Value CS_CMDM_ACTION_SUBMISSION_ERROR_CODE 0) resultPack);
            match r with inl _ => mret tt | inr e => report_error true p resultPack e end
        | inr e => report_error false p resultPack e
        end;;
        mret resultPack
    end).

(** ** Running an action *)

(** How an action ends: with a result or null, or with a [CException] ([call] is declared
    [throw(CException)]: another exception ends the process); the flag says that it keeps
    its message. *)
Inductive action_end := AReturns (result : option W) | AThrows (e : CException).

(** By descriptor and message; and whether the forwarder takes a message. *)
Context (call : nat -> option W -> action_end * bool) (forwards : list Z -> bool).

(** [submitMessage]: the forwarder owns the message when it takes it. *)
Definition submitMessage (serverAndPort : list Z) (messageToSend : nat) : DD bool :=
  if forwards serverAndPort then dx_modify (add_submitted (serverAndPort, messageToSend));; mret true
  else mret false.

(** Where the answer goes. *)
Record answer_info := mkInfo { answerID : Z; answerIP : list Z; answerDomain : list Z; answerAction : list Z }.

Definition read_answer_info (p : nat) : DD (option answer_info) :=
  b ← read_pack (c_hasKey CS_CMDM_ANSWER_ID) p;
  b' ← if b : bool then read_pack (c_hasKey CS_CMDM_ANSWER_HOST_IP) p else mret false;
  if negb b' then mret None else
  id ← read_pack (c_getInt32Value CS_CMDM_ANSWER_ID) p;
  ip ← read_pack (c_getStringValue CS_CMDM_ANSWER_HOST_IP) p;
  b ← read_pack (c_hasKey CS_CMDM_ANSWER_DOMAIN) p;
  b' ← if b : bool then read_pack (c_hasKey CS_CMDM_ANSWER_ACTION) p else mret false;
  if negb b' then mret (Some (mkInfo id ip [] [])) else
  dom ← read_pack (c_getStringValue CS_CMDM_ANSWER_DOMAIN) p;
  act ← read_pack (c_getStringValue CS_CMDM_ANSWER_ACTION) p;
  mret (Some (mkInfo id ip dom act)).

Definition read_optional (key : list Z) (p : nat) : DD (option nat) :=
  b ← read_pack (c_hasKey key) p; if b : bool then q ← read_sub key p; mret (Some q) else mret None.

(** The call, with its message; the result of the action is now ours. *)
Definition call_action (a : nat) (actionMessage : option nat) : DD (action_end * bool * option nat) :=
  m ← match actionMessage with Some q => w ← the_pack q; mret (Some w) | None => mret None end;
  let '(e, detached) := call a m in
  r ← match e with AReturns (Some w) => q ← new_pack w; mret (Some q) | _ => mret None end;
  mret (e, detached, r).

Definition delete_optional (o : option nat) : DD unit :=
  match o with Some q => delete_pack q | None => mret tt end.

(** The inner [try]: [actionResult] is what the action returned, [remote] the result to be
    answered, if any. *)
Definition after_call (r : action_end) (actionResult subCommand remote : option nat) : DD unit :=
  match r with
  | AThrows e => dx_throw (Chaos e)
  | AReturns _ =>
      match subCommand with Some q => x ← dispatchCommand (Some q); delete_pack x | None => mret tt end;;
      match remote with
      | Some o =>
          match actionResult with Some q => add_sub CS_CMDM_ACTION_MESSAGE q o | None => mret tt end;;
          add_pack (c_addInt32Value CS_CMDM_ACTION_SUBMISSION_ERROR_CODE 0) o
      | None => mret tt
      end
  end.

(** The handlers of the inner [try]. *)
Definition answer_error (remote : option nat) (e : thrown) : DD unit :=
  match remote, e with
  | None, _ => mret tt
  | Some o, Chaos e =>
      add_pack (c_addInt32Value CS_CMDM_ACTION_SUBMISSION_ERROR_CODE (errorCode e)) o;;
      add_pack (c_addStringValue CS_CMDM_ACTION_SUBMISSION_ERROR_DOMAIN (errorDomain e)) o;;
      add_pack (c_addStringValue CS_CMDM_ACTION_SUBMISSION_ERROR_MESSAGE (errorMessage e)) o
  | Some o, Foreign => add_pack (c_addInt32Value CS_CMDM_ACTION_SUBMISSION_ERROR_CODE 1) o
  end.

Definition send_answer (i : answer_info) (o : nat) : DD unit :=
  r ← new_CDataWrapper;
  add_pack (c_addInt32Value CS_CMDM_MESSAGE_ID (answerID i)) o;;
  add_pack (c_addStringValue CS_CMDM_REMOTE_HOST_IP (answerIP i)) r;;
  (if bool_decide (answerDomain i <> []) && bool_decide (answerAction i <> []) then
     add_pack (c_addStringValue CS_CMDM_ACTION_DOMAIN (answerDomain i)) r;;
     add_pack (c_addStringValue CS_CMDM_ACTION_NAME (answerAction i)) r
   else mret tt);;
  add_sub CS_CMDM_ACTION_MESSAGE o r;;
  ok ← submitMessage (answerIP i) r;
  if ok : bool then mret tt else delete_pack r.

(** The part under the lock of the action, once it has been fired; the objects of the
    [auto_ptr]s are deleted at the end, the message unless the action keeps it. *)
Definition execute_action (a p : nat) : DD unit :=
  actionMessage ← read_optional CS_CMDM_ACTION_MESSAGE p;
  subCommand ← read_optional CS_CMDM_SUB_CMD p;
  info ← read_answer_info p;
  remote ← match info with Some _ => o ← new_CDataWrapper; mret (Some o) | None => mret None end;
  '(e, detached, actionResult) ← call_action a actionMessage;
  r ← attempt (after_call e actionResult subCommand remote);
  match r with inl _ => mret tt | inr e => answer_error remote e end;;
  match info, remote with Some i, Some o => send_answer i o | _, _ => mret tt end;;
  delete_optional actionResult;;
  delete_optional remote;;
  if detached : bool then mret tt else delete_optional actionMessage.

(** [hasActionName] and [getActionDescriptornFormActionName] are one lookup. *)
Definition processBufferElement (q p : nat) : DD unit :=
  only_chaos (
    x ← the_scheduler q;
    name ← read_pack (c_getStringValue CS_CMDM_ACTION_NAME) p;
    v ← the_domain (domainActionsContainer x);
    match actionDescriptionsMap v !! name with
    | None => mret tt
    | Some a =>
        canFire ← setFired a true;
        if negb canFire then mret tt else
        r ← attempt (execute_action a p);
        match r with
        | inr Foreign => dx_throw Foreign
        | _ => setFired a false;; mret tt
        end
    end).

End Dispatcher.

(** ** Messages as documents

    The code above only uses the interface of containers.  So a run on [CDataWrapper]s
    does what the same run does on documents, which computes: [related] says that two
    states differ in the representation of the messages only. *)

Section Simulation.
Context {W : Type} `{C : !Container W, L : !ContainerLaws W}.

Record related (s : Dispatcher W) (t : Dispatcher doc) : Prop := {
  rl_descriptors : descriptors s = descriptors t;
  rl_domains : domains s = domains t;
  rl_schedulers : schedulers s = schedulers t;
  rl_executors : actionDomainExecutorMap s = actionDomainExecutorMap t;
  rl_das_map : das_map s = das_map t;
  rl_submitted : submitted s = submitted t;
  rl_next : heap_next s = heap_next t;
  rl_packs : forall p, match packs t !! p with
    | Some d => exists w, packs s !! p = Some w /\ c_holds d w /\ fits d
    | None => packs s !! p = None
    end }.

(** A run that does not crash on documents is the run on containers. *)
Definition sim {A B} (R : A -> B -> Prop) (c : DX (Dispatcher W) A) (c' : DX (Dispatcher doc) B) : Prop :=
  forall s t, related s t ->
  match c' t with
  | (Val b, t') => exists a s', c s = (Val a, s') /\ R a b /\ related s' t'
  | (Raise e, t') => exists s', c s = (Raise e, s') /\ related s' t'
  | (Crash, _) => True
  end.

Definition message (w : W) (d : doc) : Prop := c_holds d w /\ fits d.

Lemma dsim_ret {A B} (R : A -> B -> Prop) a b : R a b -> sim R (mret a) (mret b).
Proof. intros Hr s t Hs. exists a, s. auto. Qed.

Lemma dsim_bind {A B A' B'} (R : A -> B -> Prop) (R' : A' -> B' -> Prop) c c' k k' :
  sim R c c' -> (forall a b, R a b -> sim R' (k a) (k' b)) -> sim R' (c ≫= k) (c' ≫= k').
Proof.
  intros Hc Hk s t Hs. specialize (Hc s t Hs). unfold mbind, DX_bind.
  destruct (c' t) as [[b|e|] t']; [|destruct Hc as (s' & -> & Hs'); eauto|done].
  destruct Hc as (a & s' & -> & Hr & Hs'). by apply Hk.
Qed.

Lemma sim_attempt {A B} (R : A -> B -> Prop) c c' :
  sim R c c' ->
  sim (fun x y => match x, y with inl a, inl b => R a b | inr e, inr e' => e = e' | _, _ => False end) (attempt c) (attempt c').
Proof.
  intros Hc s t Hs. specialize (Hc s t Hs). unfold attempt. destruct (c' t) as [[b|e|] t']; [| |done].
  - destruct Hc as (a & s' & -> & Hr & Hs'). by exists (inl a), s'.
  - destruct Hc as (s' & -> & Hs'). by exists (inr e), s'.
Qed.

Lemma sim_only_chaos {A B} (R : A -> B -> Prop) c c' : sim R c c' -> sim R (only_chaos c) (only_chaos c').
Proof.
  intros Hc s t Hs. specialize (Hc s t Hs). unfold only_chaos. destruct (c' t) as [[b|[e|]|] t']; [| |done|done].
  - by destruct Hc as (a & s' & -> & Hr & Hs'); exists a, s'.
  - destruct Hc as (s' & -> & Hs'). by exists s'.
Qed.

Lemma sim_throw {A B} (R : A -> B -> Prop) e : sim R (dx_throw e) (dx_throw e).
Proof. intros s t Hs. by exists s. Qed.

Lemma sim_gets {A B} (R : A -> B -> Prop) f g :
  (forall s t, related s t -> R (f s) (g t)) -> sim R (dx_gets f) (dx_gets g).
Proof. intros Hr s t Hs. exists (f s), s. auto. Qed.

Lemma sim_modify f g :
  (forall s t, related s t -> related (f s) (g t)) -> sim eq (dx_modify f) (dx_modify g).
Proof. intros Hr s t Hs. exists tt, (f s). auto. Qed.

Lemma sim_access {A} (o : option A) : sim eq (dx_access o) (dx_access o).
Proof. intros s t Hs. destruct o; simpl; [by exists a, s|done]. Qed.

Lemma sim_alloc : sim eq alloc alloc.
Proof. intros s t Hs. exists (heap_next s), (alloc s).2. destruct Hs. simpl. split_and!; [done|done|]. split; simpl; congruence || done. Qed.

Lemma sim_the_pack p : sim message (the_pack p) (the_pack p).
Proof.
  intros s t Hs. unfold the_pack, mbind, DX_bind, dx_gets. pose proof (rl_packs _ _ Hs p) as Hp.
  destruct (packs t !! p) as [d|]; simpl; [|done]. destruct Hp as (w & -> & Hw). by exists w, s.
Qed.

Lemma sim_put_pack p w d : message w d -> sim eq (put_pack p w) (put_pack p d).
Proof.
  intros [Hw Hf]. apply sim_modify. intros s t Hs. destruct Hs. split; try done. simpl. intros q.
  rewrite !lookup_insert. case_decide; [eauto|apply rl_packs0].
Qed.

Lemma sim_delete_pack p : sim eq (delete_pack p) (delete_pack p).
Proof.
  eapply dsim_bind; [apply sim_the_pack|]. intros _ _ _. apply sim_modify. intros s t Hs. destruct Hs. split; try done. simpl.
  intros q. rewrite !lookup_delete. case_decide; [done|apply rl_packs0].
Qed.

Lemma sim_new_pack w d : message w d -> sim eq (new_pack w) (new_pack d).
Proof.
  intros Hm. eapply dsim_bind; [apply sim_alloc|]. intros p ? <-.
  eapply dsim_bind; [by apply sim_put_pack|]. intros ? ? _. by apply dsim_ret.
Qed.

Lemma sim_new_CDataWrapper : sim eq new_CDataWrapper (@new_CDataWrapper _ doc_container).
Proof.
  intros s t Hs. destruct new_law as (w & E & Hw). unfold new_CDataWrapper. rewrite E.
  apply (sim_new_pack w DNil); [|done]. split; [done|apply fits_nil].
Qed.

Lemma sim_lift {A B} (R : A -> B -> Prop) (o : outcome A) (o' : outcome B) :
  match o' with Ret b => exists a, o = Ret a /\ R a b | Throw _ => exists c, o = Throw c | Fault => True end ->
  sim R (dx_lift o) (dx_lift o').
Proof.
  intros Ho s t Hs. destruct o' as [b|c|]; [destruct Ho as (a & -> & Hr); by exists a, s|destruct Ho as [c' ->]; by exists s|done].
Qed.

Lemma sim_read_pack {X} opW opD p :
  read_sim opW opD -> sim (@eq X) (read_pack opW p) (@read_pack _ X opD p).
Proof.
  intros Hop. eapply dsim_bind; [apply sim_the_pack|]. intros w d [Hw Hf]. specialize (Hop d w Hw Hf).
  eapply (dsim_bind (fun x y => x.1 = y.1 /\ message x.2 y.2)).
  - apply sim_lift. destruct (opD d) as [[x d']|c|]; [|eauto|done]. destruct Hop as (-> & w' & -> & Hw'). by eexists.
  - intros [x w'] [y d'] [Hx Hm]. simpl in *. subst y.
    eapply dsim_bind; [by apply sim_put_pack|]. intros ? ? _. by apply dsim_ret.
Qed.

Lemma sim_add_pack opW opD p : add_sim opW opD -> sim eq (add_pack opW p) (@add_pack _ opD p).
Proof.
  intros Hop. eapply dsim_bind; [apply sim_the_pack|]. intros w d [Hw Hf]. specialize (Hop d w Hw Hf).
  eapply (dsim_bind message); [|intros; by apply sim_put_pack].
  apply sim_lift. destruct (opD d) as [d'|c|]; [|done|done]. destruct Hop as (Hf' & w' & -> & Hw'). by eexists.
Qed.

Lemma sim_read_sub key p : sim eq (read_sub key p) (@read_sub _ doc_container key p).
Proof.
  eapply dsim_bind; [apply sim_the_pack|]. intros w d [Hw Hf].
  eapply (dsim_bind (fun x y => message x.1 y.1 /\ message x.2 y.2)).
  - apply sim_lift. simpl. destruct (getCSDataValue_law key d w Hw Hf) as (w1 & w2 & E & H1 & H2).
    exists (w1, w2). split_and!; [done|split; [done|]|by split]. simpl.
    destruct (doc_find key d) as [v|] eqn:Ef; [|apply fits_nil]. destruct v; try apply fits_nil; eapply fits_sub; eauto.
  - intros [x w'] [y d'] [Hx Hm]. simpl in *.
    eapply dsim_bind; [by apply sim_put_pack|]. intros ? ? _. by apply sim_new_pack.
Qed.

Lemma sim_add_sub key q p : sim eq (add_sub key q p) (@add_sub _ doc_container key q p).
Proof.
  eapply dsim_bind; [apply sim_the_pack|]. intros cs sub [Hcs Hfs].
  eapply dsim_bind; [apply sim_the_pack|]. intros w d [Hw Hf].
  eapply (dsim_bind (fun x y => message x.1 y.1 /\ message x.2 y.2)).
  - apply sim_lift. simpl. unfold fitting. case_decide as Hd; [|done]. simpl_out.
    destruct (addCSDataValue_law key sub d cs w Hcs Hfs Hw Hd) as (cs' & w' & E & H1 & H2). exists (cs', w'). by split_and!.
  - intros [x w'] [y d'] [Hx Hm]. simpl in *.
    eapply dsim_bind; [by apply sim_put_pack|]. intros ? ? _. by apply sim_put_pack.
Qed.

(** *** Every operation *)

Lemma sim_descriptor a : sim eq (the_descriptor a) (the_descriptor a).
Proof. eapply (dsim_bind eq); [apply sim_gets; apply rl_descriptors|]. intros ? ? ->. apply sim_access. Qed.
Lemma sim_domain d : sim eq (the_domain d) (the_domain d).
Proof. eapply (dsim_bind eq); [apply sim_gets; apply rl_domains|]. intros ? ? ->. apply sim_access. Qed.
Lemma sim_scheduler q : sim eq (the_scheduler q) (the_scheduler q).
Proof. eapply (dsim_bind eq); [apply sim_gets; apply rl_schedulers|]. intros ? ? ->. apply sim_access. Qed.
Lemma sim_das_map : sim eq (dx_gets das_map) (dx_gets das_map).
Proof. apply sim_gets. apply rl_das_map. Qed.
Lemma sim_put_descriptor a x : sim eq (put_descriptor a x) (put_descriptor a x).
Proof. apply sim_modify. intros s t []. split; simpl; congruence || done. Qed.
Lemma sim_put_scheduler q x : sim eq (put_scheduler q x) (put_scheduler q x).
Proof. apply sim_modify. intros s t []. split; simpl; congruence || done. Qed.
Lemma sim_add_submitted x : sim eq (dx_modify (add_submitted x)) (dx_modify (add_submitted x)).
Proof. apply sim_modify. intros s t []. split; simpl; congruence || done. Qed.

#[local] Hint Resolve sim_descriptor sim_domain sim_scheduler sim_das_map sim_put_descriptor sim_put_scheduler
  sim_add_submitted sim_the_pack sim_delete_pack sim_new_CDataWrapper sim_read_sub
  sim_add_sub sim_throw : sim.

(** Follow the code: a bind, a test on equal values, a known command. *)
Ltac sim_go :=
  cbn beta iota;
  lazymatch goal with
  | |- sim _ (mret _) (mret _) => apply dsim_ret; try done
  | |- sim _ (only_chaos _) (only_chaos _) => apply sim_only_chaos; sim_go
  | |- sim _ (mbind _ (attempt _)) (mbind _ (attempt _)) =>
      eapply dsim_bind; [apply sim_attempt; sim_go|let a := fresh in let b := fresh in intros a b ?; destruct a, b; simplify_eq; try done; sim_go]
  | |- sim _ (mbind _ _) (mbind _ _) =>
      eapply (dsim_bind eq); [sim_go|let a := fresh in intros a ? <-; sim_go]
  | |- sim _ (match ?x with _ => _ end) (match ?x with _ => _ end) => destruct x; sim_go
  | |- sim _ (read_pack _ _) _ => apply sim_read_pack; solve [auto with container nocore]
  | |- sim _ (add_pack _ _) _ => apply sim_add_pack; solve [auto with container nocore]
  | |- sim _ _ _ => solve [auto with sim nocore]
  | |- _ => idtac
  end.

Lemma sim_setFired a b : sim eq (setFired a b) (setFired a b).
Proof. unfold setFired. sim_go. Qed.
Lemma sim_das_push q p : sim eq (das_push q p) (das_push q p).
Proof. unfold das_push. sim_go. Qed.
#[local] Hint Resolve sim_setFired sim_das_push : sim.

Lemma sim_submit_pack pf p : sim eq (submit_pack pf p) (@submit_pack _ doc_container pf p).
Proof. unfold submit_pack. sim_go. Qed.
Lemma sim_report_error sent p r e : sim eq (report_error sent p r e) (@report_error _ doc_container sent p r e).
Proof. unfold report_error. sim_go. Qed.
#[local] Hint Resolve sim_submit_pack sim_report_error : sim.

Lemma sim_dispatchCommand pf o : sim eq (dispatchCommand pf o) (@dispatchCommand _ doc_container pf o).
Proof. unfold dispatchCommand. sim_go. Qed.
#[local] Hint Resolve sim_dispatchCommand : sim.

(** Actions that do the same on a message and on its document. *)
Definition same_end (e : @action_end W) (e' : @action_end doc) : Prop :=
  match e, e' with
  | AReturns None, AReturns None => True
  | AReturns (Some w), AReturns (Some d) => message w d
  | AThrows e, AThrows e' => e = e'
  | _, _ => False
  end.
Definition same_calls (call : nat -> option W -> @action_end W * bool) (call' : nat -> option doc -> @action_end doc * bool) : Prop :=
  forall a m m', match m, m' with Some w, Some d => message w d | None, None => True | _, _ => False end ->
  same_end (call a m).1 (call' a m').1 /\ (call a m).2 = (call' a m').2.

Context (pf : list Z) (call : nat -> option W -> @action_end W * bool) (call' : nat -> option doc -> @action_end doc * bool).
Context (forwards : list Z -> bool) (Hcall : same_calls call call').

Lemma sim_submitMessage ip m : sim eq (submitMessage forwards ip m) (submitMessage forwards ip m).
Proof. unfold submitMessage. sim_go. Qed.
Lemma sim_read_answer_info p : sim eq (read_answer_info p) (@read_answer_info _ doc_container p).
Proof. unfold read_answer_info. sim_go. Qed.
Lemma sim_read_optional key p : sim eq (read_optional key p) (@read_optional _ doc_container key p).
Proof. unfold read_optional. sim_go. Qed.
Lemma sim_delete_optional o : sim eq (delete_optional o) (delete_optional o).
Proof. unfold delete_optional. sim_go. Qed.
Lemma sim_answer_error o e : sim eq (answer_error o e) (@answer_error _ doc_container o e).
Proof. unfold answer_error. sim_go. Qed.
#[local] Hint Resolve sim_submitMessage sim_read_answer_info sim_read_optional sim_delete_optional sim_answer_error : sim.

Lemma sim_send_answer i o : sim eq (send_answer forwards i o) (@send_answer _ doc_container forwards i o).
Proof. unfold send_answer. sim_go. Qed.

Lemma sim_call_action a o :
  sim (fun x y => same_end x.1.1 y.1.1 /\ x.1.2 = y.1.2 /\ x.2 = y.2) (call_action call a o) (call_action call' a o).
Proof.
  unfold call_action.
  eapply (dsim_bind (fun m m' => match m, m' with Some w, Some d => message w d | None, None => True | _, _ => False end)).
  { destruct o as [q|]; [|by apply dsim_ret]. eapply dsim_bind; [apply sim_the_pack|]. intros w d Hm. by apply dsim_ret. }
  intros m m' Hm. destruct (Hcall a m m' Hm) as [He Hb]. destruct (call a m) as [e b], (call' a m') as [e' b'].
  simpl in *. subst b'. eapply (dsim_bind eq).
  - destruct e as [[w|]|x], e' as [[d|]|x']; try done; [|by apply dsim_ret|by apply dsim_ret].
    eapply (dsim_bind eq); [by apply sim_new_pack|]. intros q ? <-. by apply dsim_ret.
  - intros r ? <-. by apply dsim_ret.
Qed.

Lemma sim_after_call e e' r sub o :
  same_end e e' -> sim eq (after_call pf e r sub o) (@after_call _ doc_container pf e' r sub o).
Proof. intros He. destruct e as [[w|]|x], e' as [[d|]|x']; try done; simpl in *; [sim_go|sim_go|]. subst. apply sim_throw. Qed.

Lemma sim_execute_action a p :
  sim eq (execute_action pf call forwards a p) (@execute_action _ doc_container pf call' forwards a p).
Proof.
  unfold execute_action. do 2 (eapply (dsim_bind eq); [sim_go|intros ? ? <-]).
  eapply (dsim_bind eq); [sim_go|intros info ? <-].
  eapply (dsim_bind eq); [sim_go|intros o ? <-]. eapply dsim_bind; [apply sim_call_action|].
  intros [[e b] r] [[e' b'] r'] (He & Hb & Hr). simpl in *. subst b' r'.
  eapply dsim_bind; [by apply sim_attempt, sim_after_call|].
  intros x y Hxy. eapply (dsim_bind eq); [destruct x, y; simplify_eq; try done; sim_go|intros ? ? <-].
  eapply (dsim_bind eq); [|intros ? ? <-; sim_go].
  destruct info as [i|], o as [o|]; first [apply sim_send_answer|by apply dsim_ret].
Qed.

(** [processBufferElement] on messages is [processBufferElement] on documents. *)
Lemma sim_processBufferElement q p :
  sim eq (processBufferElement pf call forwards q p) (@processBufferElement _ doc_container pf call' forwards q p).
Proof.
  unfold processBufferElement. apply sim_only_chaos. do 3 (eapply (dsim_bind eq); [sim_go|intros ? ? <-]).
  destruct (actionDescriptionsMap _ !! _) as [x|]; [|by apply dsim_ret].
  eapply (dsim_bind eq); [sim_go|intros f ? <-]. destruct f; [|by apply dsim_ret].
  eapply dsim_bind; [apply sim_attempt, sim_execute_action|].
  intros u v Huv. destruct u as [[]|e], v as [[]|e']; try done; [sim_go|]. simplify_eq. destruct e'; sim_go.
Qed.

End Simulation.
