(* ===== verification/DispatcherSpec.v ===== *)
(** * What the dispatcher does

    Theorems about [Dispatcher]: which messages are accepted and what is reported for the
    others, what a registered action is called with and what is answered, which actions are
    found after a history of registrations.  The proofs compute on documents and carry over
    to containers by the simulation of [Dispatcher]. *)

From S2P Require Import Prelude BufBuilder Bson BsonBuilder CDataWrapper Container ProcessingQueue Dispatcher.
Import ProcessingQueue.Plain.

Local Open Scope Z_scope.

#[local] Existing Instance doc_container.
Notation DocDispatcher := (Dispatcher doc).

(** ** Steps on documents *)

Lemma set_packs_id (t : DocDispatcher) p d : packs t !! p = Some d -> set_packs (<[p := d]> (packs t)) t = t.
Proof. intros Hp. rewrite insert_id by done. by destruct t. Qed.

Lemma the_pack_doc p (t : DocDispatcher) d : packs t !! p = Some d -> the_pack p t = (Val d, t).
Proof. intros Hp. unfold the_pack, mbind, DX_bind, dx_gets, dx_access. by rewrite Hp. Qed.

Lemma read_pack_doc {X} (op : doc -> outcome (X * doc)) p (t : DocDispatcher) d x :
  packs t !! p = Some d -> op d = Ret (x, d) -> read_pack op p t = (Val x, t).
Proof.
  intros Hp Ho. unfold read_pack, the_pack, mbind, DX_bind, dx_gets, dx_access, dx_lift. rewrite Hp. simpl. rewrite Ho. simpl.
  by rewrite set_packs_id.
Qed.

Lemma read_pack_foreign {X} (op : doc -> outcome (X * doc)) p (t : DocDispatcher) d c :
  packs t !! p = Some d -> op d = Throw c -> read_pack op p t = (Raise Foreign, t).
Proof.
  intros Hp Ho. unfold read_pack, the_pack, mbind, DX_bind, dx_gets, dx_access, dx_lift. rewrite Hp. simpl. by rewrite Ho.
Qed.

Lemma add_pack_doc (op : doc -> outcome doc) p (t : DocDispatcher) d d' :
  packs t !! p = Some d -> op d = Ret d' -> add_pack op p t = (Val tt, set_packs (<[p := d']> (packs t)) t).
Proof.
  intros Hp Ho. unfold add_pack, the_pack, mbind, DX_bind, dx_gets, dx_access, dx_lift. rewrite Hp. simpl. by rewrite Ho.
Qed.

Lemma delete_pack_doc p (t : DocDispatcher) d :
  packs t !! p = Some d -> delete_pack p t = (Val tt, set_packs (delete p (packs t)) t).
Proof. intros Hp. unfold delete_pack, the_pack, mbind, DX_bind, dx_gets, dx_access. by rewrite Hp. Qed.

(** A new message at the next address. *)
Definition with_new (d : doc) (t : DocDispatcher) : DocDispatcher :=
  mkDispatcher (descriptors t) (domains t) (schedulers t) (<[heap_next t := d]> (packs t)) (actionDomainExecutorMap t)
    (das_map t) (submitted t) (S (heap_next t)).

Lemma new_pack_doc d (t : DocDispatcher) : new_pack d t = (Val (heap_next t), with_new d t).
Proof. done. Qed.

Lemma new_CDataWrapper_doc (t : DocDispatcher) : new_CDataWrapper t = (Val (heap_next t), with_new DNil t).
Proof. done. Qed.

Lemma doc_ok_snoc d key v : doc_ok (doc_snoc d key v) -> doc_ok d.
Proof. unfold doc_snoc. induction d as [|n x d IH]; simpl; [done|]. intros (Hn & Hx & Hd). auto. Qed.

Lemma fits_snoc d key v : fits (doc_snoc d key v) -> fits d.
Proof.
  intros [Hok Hl]. split; [by eapply doc_ok_snoc|].
  rewrite enc_doc_length in *. unfold doc_snoc in Hl. rewrite enc_elems_app, length_app in Hl. lia.
Qed.

Lemma fitting_ok d : fits d -> fitting d = Ret d.
Proof. intros Hf. unfold fitting. by rewrite decide_True. Qed.

Lemma add_string_doc key v p (t : DocDispatcher) d :
  packs t !! p = Some d -> fits (doc_snoc d key (VString v)) ->
  add_pack (c_addStringValue key v) p t = (Val tt, set_packs (<[p := doc_snoc d key (VString v)]> (packs t)) t).
Proof. intros Hp Hf. by apply (add_pack_doc _ p t d); [|apply fitting_ok]. Qed.

Lemma add_int_doc key n p (t : DocDispatcher) d :
  packs t !! p = Some d -> fits (doc_snoc d key (VInt n)) ->
  add_pack (c_addInt32Value key n) p t = (Val tt, set_packs (<[p := doc_snoc d key (VInt n)]> (packs t)) t).
Proof. intros Hp Hf. by apply (add_pack_doc _ p t d); [|apply fitting_ok]. Qed.

(** ** Dispatching *)

Section Dispatch.
Context (pf : list Z).

(** The scheduler a message is queued in, or the exception. *)
Definition route (t : DocDispatcher) (d : doc) : nat + thrown :=
  if negb (has_field CS_CMDM_ACTION_DOMAIN d) then inr (chaos_error pf 0 (chars "Action Call with no action domain"))
  else if negb (has_field CS_CMDM_ACTION_NAME d) then inr (chaos_error pf 1 (chars "Action Call with no action name"))
  else match field_spec as_string (doc_find CS_CMDM_ACTION_DOMAIN d) with
  | Ret domain =>
      match das_map t !! domain with
      | None => inr (chaos_error pf 3 (chars "Action Domain not registered"))
      | Some q =>
          match schedulers t !! q with
          | None => inr Foreign
          | Some x =>
              if negb (armed x) then inr (Chaos (mkExc 0 (chars "Action can't be submitted, scheduler is not armed") (chars "DomainActionsScheduler::push")))
              else if in_deinit (base x) || full (bufferQueue (base x)) then inr (chaos_error pf 1 (chars "No more space in queue"))
              else inl q
          end
      end
  | _ => inr Foreign
  end.

(** The document of the result. *)
Definition result_doc (v : nat + thrown) : doc :=
  match v with
  | inl _ => DCons CS_CMDM_ACTION_SUBMISSION_ERROR_CODE (VInt 0) DNil
  | inr (Chaos e) =>
      DCons CS_CMDM_ACTION_SUBMISSION_ERROR_MESSAGE (VString (errorMessage e))
        (DCons CS_CMDM_ACTION_SUBMISSION_ERROR_DOMAIN (VString (errorDomain e))
          (DCons CS_CMDM_ACTION_SUBMISSION_ERROR_CODE (VInt (errorCode e)) DNil))
  | inr Foreign =>
      DCons CS_CMDM_ACTION_SUBMISSION_ERROR_CODE (VInt 1)
        (DCons CS_CMDM_ACTION_SUBMISSION_ERROR_MESSAGE (VString (chars "Unmanaged error")) DNil)
  end.

(** The message [p] in the queue of [q]. *)
Definition queued (q p : nat) (t : DocDispatcher) : DocDispatcher :=
  match schedulers t !! q with
  | Some x => set_schedulers (<[q := mkDas (armed x) (domainActionsContainer x) (push (Some p) (base x)).2]> (schedulers t)) t
  | None => t
  end.

(** The state after a dispatch with the verdict [v]. *)
Definition dispatched (t : DocDispatcher) (p : nat) (v : nat + thrown) : DocDispatcher :=
  match v with
  | inl q => queued q p (with_new (result_doc v) t)
  | inr _ => set_packs (<[heap_next t := result_doc v]> (delete p (packs t))) (with_new (result_doc v) t)
  end.

(** Schedulers that are registered exist. *)
Definition das_live (t : DocDispatcher) : Prop := forall domain q, das_map t !! domain = Some q -> is_Some (schedulers t !! q).

Lemma field_string_cases o : (exists s, field_spec as_string o = Ret s) \/ field_spec as_string o = Throw 13111.
Proof. unfold field_spec. destruct (o ≫= as_string); eauto. Qed.

Lemma das_push_doc (t : DocDispatcher) q p x :
  schedulers t !! q = Some x ->
  das_push q p t =
    if negb (armed x) then (Raise (Chaos (mkExc 0 (chars "Action can't be submitted, scheduler is not armed") (chars "DomainActionsScheduler::push"))), t)
    else if in_deinit (base x) || full (bufferQueue (base x)) then (Val false, t) else (Val true, queued q p t).
Proof.
  intros Hx. unfold das_push. rewrite (dx_bind_val _ _ _ x t); [|unfold the_scheduler, mbind, DX_bind, dx_gets, dx_access; by rewrite Hx].
  destruct (armed x) eqn:Ha; [|done]. unfold queued. rewrite Hx, Ha. unfold push. cbn [negb].
  destruct (in_deinit (base x) || _) eqn:Hg; [|done]. unfold mbind, DX_bind, put_scheduler, dx_modify, mret, DX_ret. f_equal.
  replace (mkDas true _ _) with x by (rewrite <- Ha; by destruct x). rewrite insert_id by done. by destruct t.
Qed.

Lemma submit_pack_doc (t : DocDispatcher) p d :
  packs t !! p = Some d -> das_live t ->
  submit_pack pf p t = match route t d with inl q => (Val tt, queued q p t) | inr e => (Raise e, t) end.
Proof.
  intros Hp Hl. unfold submit_pack, route.
  rewrite (dx_bind_val _ _ _ _ _ (read_pack_doc _ p t d _ Hp eq_refl)).
  destruct (has_field CS_CMDM_ACTION_DOMAIN d); [|done]. cbn [negb].
  rewrite (dx_bind_val _ _ _ _ _ (read_pack_doc _ p t d _ Hp eq_refl)).
  destruct (has_field CS_CMDM_ACTION_NAME d); [|done]. cbn [negb].
  destruct (field_string_cases (doc_find CS_CMDM_ACTION_DOMAIN d)) as [[domain Hd]|Hd]; rewrite Hd.
  2:{ erewrite dx_bind_raise; [done|]. eapply read_pack_foreign; [exact Hp|]. simpl. by rewrite Hd. }
  erewrite dx_bind_val; [|eapply read_pack_doc; [exact Hp|]; simpl; by rewrite Hd]. dx_step.
  destruct (das_map t !! domain) as [q|] eqn:Hq; [|done]. destruct (Hl _ _ Hq) as [x Hx].
  rewrite Hx. pose proof (das_push_doc t q p x Hx) as Hd'. unfold mbind, DX_bind. rewrite Hd'.
  destruct (armed x); [|done]. cbn [negb]. by destruct (in_deinit (base x) || _).
Qed.

Lemma report_error_doc (t : DocDispatcher) p r d e :
  packs t !! p = Some d -> p <> r -> packs t !! r = Some DNil -> fits (result_doc (inr e)) ->
  report_error false p r e t = (Val tt, set_packs (<[r := result_doc (inr e)]> (delete p (packs t))) t).
Proof.
  intros Hp Hne Hr Hf. unfold report_error. rewrite (dx_bind_val _ _ _ _ _ (delete_pack_doc p t d Hp)).
  set (t1 := set_packs _ t). assert (packs t1 !! r = Some DNil) as Hr1 by (simpl; by rewrite lookup_delete_ne).
  destruct e as [e|].
  - change (fits (doc_snoc (doc_snoc (doc_snoc DNil CS_CMDM_ACTION_SUBMISSION_ERROR_MESSAGE (VString (errorMessage e)))
      CS_CMDM_ACTION_SUBMISSION_ERROR_DOMAIN (VString (errorDomain e))) CS_CMDM_ACTION_SUBMISSION_ERROR_CODE (VInt (errorCode e)))) in Hf.
    pose proof (fits_snoc _ _ _ Hf) as Hf2. pose proof (fits_snoc _ _ _ Hf2) as Hf1.
    rewrite (dx_bind_val _ _ _ _ _ (add_string_doc _ _ r t1 _ Hr1 Hf1)).
    rewrite (dx_bind_val _ _ _ _ _ (add_string_doc _ _ r _ _ (lookup_insert_eq _ _ _) Hf2)).
    rewrite (add_int_doc _ _ r _ _ (lookup_insert_eq _ _ _) Hf). unfold set_packs. cbn [packs]. by rewrite !insert_insert_eq.
  - change (fits (doc_snoc (doc_snoc DNil CS_CMDM_ACTION_SUBMISSION_ERROR_CODE (VInt 1))
      CS_CMDM_ACTION_SUBMISSION_ERROR_MESSAGE (VString (chars "Unmanaged error")))) in Hf.
    pose proof (fits_snoc _ _ _ Hf) as Hf1.
    rewrite (dx_bind_val _ _ _ _ _ (add_int_doc _ _ r t1 _ Hr1 Hf1)).
    rewrite (add_string_doc _ _ r _ _ (lookup_insert_eq _ _ _) Hf). unfold set_packs. cbn [packs]. by rewrite !insert_insert_eq.
Qed.

(** Dispatching computes [route] and [dispatched]. *)
Lemma dispatchCommand_doc (t : DocDispatcher) p d :
  packs t !! p = Some d -> (p < heap_next t)%nat -> das_live t -> fits (result_doc (route t d)) ->
  dispatchCommand pf (Some p) t = (Val (heap_next t), dispatched t p (route t d)).
Proof.
  intros Hp Hlt Hl Hf. unfold dispatchCommand, only_chaos. rewrite (dx_bind_val _ _ _ _ _ (new_CDataWrapper_doc t)).
  set (r := heap_next t) in *. set (t1 := with_new DNil t).
  assert (packs t1 !! p = Some d) as Hp1 by (simpl; rewrite lookup_insert_ne by lia; done).
  pose proof (submit_pack_doc t1 p d Hp1 Hl) as Hs. change (route t1 d) with (route t d) in Hs.
  destruct (route t d) as [q|e].
  - rewrite (dx_bind_val _ _ _ _ _ (attempt_val _ _ _ _ Hs)).
    set (t2 := queued q p t1).
    assert (packs t2 !! r = Some DNil) as Hr2.
    { unfold t2, queued. destruct (schedulers t1 !! q); apply lookup_insert_eq. }
    assert (add_pack (c_addInt32Value CS_CMDM_ACTION_SUBMISSION_ERROR_CODE 0) r t2
      = (Val tt, set_packs (<[r := result_doc (inl q)]> (packs t2)) t2)) as Ha.
    { exact (add_int_doc _ _ r t2 _ Hr2 Hf). }
    erewrite dx_bind_val; [|erewrite dx_bind_val; [|by apply attempt_val]; reflexivity].
    unfold t2, dispatched, queued. simpl. destruct (schedulers t !! q); unfold set_packs, set_schedulers, with_new, mret, DX_ret; simpl;
      by rewrite insert_insert_eq.
  - rewrite (dx_bind_val _ _ _ _ _ (attempt_raise _ _ _ _ Hs)).
    erewrite dx_bind_val; [|eapply report_error_doc; [exact Hp1|lia|apply lookup_insert_eq|done]].
    unfold dispatched, set_packs, with_new, mret, DX_ret. simpl. rewrite delete_insert_ne by lia. by rewrite insert_insert_eq.
Qed.

Lemma elems_cons_length n v d :
  Z.of_nat (length (enc_elems (DCons n v d))) = Z.of_nat (length n) + 2 + Z.of_nat (length (enc_val v)) + Z.of_nat (length (enc_elems d)).
Proof. change (enc_elems (DCons n v d)) with (enc_elem n v ++ enc_elems d). rewrite length_app. pose proof (enc_elem_length n v). lia. Qed.

Lemma enc_string_length s : Z.of_nat (length (enc_val (VString s))) = Z.of_nat (length s) + 5.
Proof. simpl. rewrite !length_app. simpl. lia. Qed.

(** The report of an exception is a document. *)
Lemma report_fits e :
  bytes (errorMessage e) -> bytes (errorDomain e) -> in_s 32 (errorCode e) ->
  (length (errorMessage e) <= 4096)%nat -> (length (errorDomain e) <= 4096)%nat -> fits (result_doc (inr (Chaos e))).
Proof.
  intros Hm Hd Hc Hlm Hld. split.
  - simpl. split_and!; try done; by apply (bool_decide_unpack _); vm_compute.
  - rewrite enc_doc_length. unfold result_doc. rewrite !elems_cons_length, !enc_string_length.
    assert (length (enc_val (VInt (errorCode e))) = 4%nat) as -> by done.
    assert (length CS_CMDM_ACTION_SUBMISSION_ERROR_MESSAGE = 20%nat /\ length CS_CMDM_ACTION_SUBMISSION_ERROR_DOMAIN = 20%nat /\
      length CS_CMDM_ACTION_SUBMISSION_ERROR_CODE = 21%nat) as (-> & -> & ->) by done.
    simpl. unfold BSONObjMaxInternalSize, BSONObjMaxUserSize. lia.
Qed.

(** Every verdict can be reported. *)
Lemma route_fits (t : DocDispatcher) d : bytes pf -> (length pf <= 4096)%nat -> fits (result_doc (route t d)).
Proof.
  intros Hb Hl.
  assert (forall code msg, in_s 32 code -> bytes msg -> (length msg <= 4096)%nat -> fits (result_doc (inr (chaos_error pf code msg)))) as Hce.
  { intros code msg Hc Hm Hlm. by apply report_fits. }
  assert (fits (result_doc (inr Foreign))) as Hf by (apply (bool_decide_unpack _); by vm_compute).
  assert (fits (result_doc (inl 0%nat))) as Ho by (apply (bool_decide_unpack _); by vm_compute).
  assert (bytes (chars "Action Call with no action domain") /\ bytes (chars "Action Call with no action name") /\
    bytes (chars "Action Domain not registered") /\ bytes (chars "No more space in queue")) as (? & ? & ? & ?)
    by (split_and!; apply (bool_decide_unpack _); by vm_compute).
  assert (in_s 32 0 /\ in_s 32 1 /\ in_s 32 3) as (? & ? & ?) by (split_and!; apply (bool_decide_unpack _); by vm_compute).
  unfold route. destruct (has_field CS_CMDM_ACTION_DOMAIN d); [|by apply Hce; simpl; [| |lia]]. cbn [negb].
  destruct (has_field CS_CMDM_ACTION_NAME d); [|by apply Hce; simpl; [| |lia]]. cbn [negb].
  destruct (field_spec _ _); [|done|done]. destruct (_ !! _); [|by apply Hce; simpl; [| |lia]].
  destruct (_ !! _) as [x|]; [|done]. destruct (armed x); cbn [negb]; [|apply (bool_decide_unpack _); by vm_compute].
  destruct (_ || _); [by apply Hce; simpl; [| |lia]|done].
Qed.

End Dispatch.

(** ** Running an action *)

Section Process.
Context (pf : list Z) (call : nat -> option doc -> @action_end doc * bool) (forwards : list Z -> bool).

(** Where the answer to a request goes. *)
Definition info_of (d : doc) : outcome (option answer_info) :=
  if negb (has_field CS_CMDM_ANSWER_ID d && has_field CS_CMDM_ANSWER_HOST_IP d) then mret None else
  id ← as_int 32 (doc_find CS_CMDM_ANSWER_ID d);
  ip ← field_spec as_string (doc_find CS_CMDM_ANSWER_HOST_IP d);
  if negb (has_field CS_CMDM_ANSWER_DOMAIN d && has_field CS_CMDM_ANSWER_ACTION d) then mret (Some (mkInfo id ip [] [])) else
  dom ← field_spec as_string (doc_find CS_CMDM_ANSWER_DOMAIN d);
  act ← field_spec as_string (doc_find CS_CMDM_ANSWER_ACTION d);
  mret (Some (mkInfo id ip dom act)).

(** The message of a request. *)
Definition message_of (d : doc) : option doc :=
  if has_field CS_CMDM_ACTION_MESSAGE d then Some (sub_doc (doc_find CS_CMDM_ACTION_MESSAGE d)) else None.

(** The result that is answered. *)
Definition remote_doc (e : @action_end doc) : doc :=
  match e with
  | AReturns None => DCons CS_CMDM_ACTION_SUBMISSION_ERROR_CODE (VInt 0) DNil
  | AReturns (Some r) =>
      DCons CS_CMDM_ACTION_MESSAGE (VObject r) (DCons CS_CMDM_ACTION_SUBMISSION_ERROR_CODE (VInt 0) DNil)
  | AThrows x =>
      DCons CS_CMDM_ACTION_SUBMISSION_ERROR_CODE (VInt (errorCode x))
        (DCons CS_CMDM_ACTION_SUBMISSION_ERROR_DOMAIN (VString (errorDomain x))
          (DCons CS_CMDM_ACTION_SUBMISSION_ERROR_MESSAGE (VString (errorMessage x)) DNil))
  end.

Definition numbered (i : answer_info) (r : doc) : doc := doc_snoc r CS_CMDM_MESSAGE_ID (VInt (answerID i)).

Definition address_doc (i : answer_info) : doc :=
  let d := doc_snoc DNil CS_CMDM_REMOTE_HOST_IP (VString (answerIP i)) in
  if bool_decide (answerDomain i <> []) && bool_decide (answerAction i <> []) then
    doc_snoc (doc_snoc d CS_CMDM_ACTION_DOMAIN (VString (answerDomain i))) CS_CMDM_ACTION_NAME (VString (answerAction i))
  else d.

Definition response_doc (i : answer_info) (e : @action_end doc) : doc :=
  doc_snoc (address_doc i) CS_CMDM_ACTION_MESSAGE (VObject (numbered i (remote_doc e))).

Lemma field_string_read key p (t : DocDispatcher) d s :
  packs t !! p = Some d -> field_spec as_string (doc_find key d) = Ret s ->
  read_pack (c_getStringValue key) p t = (Val s, t).
Proof. intros Hp Hs. apply (read_pack_doc _ p t d); [done|]. simpl. by rewrite Hs. Qed.

Lemma field_int_read key p (t : DocDispatcher) d n :
  packs t !! p = Some d -> as_int 32 (doc_find key d) = Ret n ->
  read_pack (c_getInt32Value key) p t = (Val n, t).
Proof. intros Hp Hs. apply (read_pack_doc _ p t d); [done|]. simpl. by rewrite Hs. Qed.

Lemma has_read key p (t : DocDispatcher) d :
  packs t !! p = Some d -> read_pack (c_hasKey key) p t = (Val (has_field key d), t).
Proof. intros Hp. by apply (read_pack_doc _ p t d). Qed.

(** Two tests joined by [&&], the second made when the first succeeds. *)
Lemma has_both_read {X} key key' p (t : DocDispatcher) d (k : bool -> DX DocDispatcher X) :
  packs t !! p = Some d ->
  (b ← read_pack (c_hasKey key) p; b' ← (if b : bool then read_pack (c_hasKey key') p else mret false); k b') t
  = k (has_field key d && has_field key' d) t.
Proof.
  intros Hp. rewrite (dx_bind_val _ _ _ _ _ (has_read key p t d Hp)).
  destruct (has_field key d); [|by dx_step]. by rewrite (dx_bind_val _ _ _ _ _ (has_read key' p t d Hp)).
Qed.

Lemma read_answer_info_doc p (t : DocDispatcher) d i :
  packs t !! p = Some d -> info_of d = Ret i -> read_answer_info p t = (Val i, t).
Proof.
  intros Hp Hi. unfold read_answer_info, info_of in *.
  rewrite (has_both_read CS_CMDM_ANSWER_ID CS_CMDM_ANSWER_HOST_IP p t d _ Hp).
  destruct (negb _); [by injection Hi as <-|].
  apply outcome_bind_inv in Hi as (id & Hid & Hi). apply outcome_bind_inv in Hi as (ip & Hip & Hi).
  rewrite (dx_bind_val _ _ _ _ _ (field_int_read _ p t d id Hp Hid)).
  rewrite (dx_bind_val _ _ _ _ _ (field_string_read _ p t d ip Hp Hip)).
  rewrite (has_both_read CS_CMDM_ANSWER_DOMAIN CS_CMDM_ANSWER_ACTION p t d _ Hp).
  destruct (negb _); [by injection Hi as <-|].
  apply outcome_bind_inv in Hi as (dom & Hdom & Hi). apply outcome_bind_inv in Hi as (act & Hact & Hi).
  rewrite (dx_bind_val _ _ _ _ _ (field_string_read _ p t d dom Hp Hdom)).
  rewrite (dx_bind_val _ _ _ _ _ (field_string_read _ p t d act Hp Hact)). by injection Hi as <-.
Qed.

(** A state with an optional new message. *)
Definition with_optional (o : option doc) (t : DocDispatcher) : DocDispatcher :=
  match o with Some d => with_new d t | None => t end.
Definition address (o : option doc) (t : DocDispatcher) : option nat := (fun _ => heap_next t) <$> o.

Lemma read_optional_doc key p (t : DocDispatcher) d :
  packs t !! p = Some d ->
  let o := if has_field key d then Some (sub_doc (doc_find key d)) else None in
  read_optional key p t = (Val (address o t), with_optional o t).
Proof.
  intros Hp o. unfold read_optional. rewrite (dx_bind_val _ _ _ _ _ (has_read key p t d Hp)). subst o.
  destruct (has_field key d); [|done]. unfold read_sub, the_pack, mbind, DX_bind, dx_gets, dx_access. rewrite Hp. simpl.
  by rewrite (insert_id (packs t)).
Qed.

Lemma add_sub_doc key q p (t : DocDispatcher) sub d :
  packs t !! q = Some sub -> packs t !! p = Some d -> q <> p -> fits (doc_snoc d key (VObject sub)) ->
  add_sub key q p t = (Val tt, set_packs (<[p := doc_snoc d key (VObject sub)]> (packs t)) t).
Proof.
  intros Hq Hp Hne Hf. unfold add_sub. rewrite (dx_bind_val _ _ _ _ _ (the_pack_doc q t sub Hq)).
  rewrite (dx_bind_val _ _ _ _ _ (the_pack_doc p t d Hp)). simpl. rewrite fitting_ok by done. dx_step.
  unfold put_pack, mbind, DX_bind, dx_modify, set_packs. simpl. by rewrite (insert_id (packs t) q).
Qed.

(** The inner [try] and its handlers give the result to be answered. *)
Lemma after_call_doc (t : DocDispatcher) e res o :
  packs t !! o = Some DNil -> match e with AReturns (Some r) => exists q, res = Some q /\ packs t !! q = Some r /\ q <> o | _ => res = None end ->
  fits (remote_doc e) ->
  (x ← attempt (after_call pf e res None (Some o));
   match x with inl _ => mret tt | inr e => answer_error (Some o) e end) t
  = (Val tt, set_packs (<[o := remote_doc e]> (packs t)) t).
Proof.
  intros Ho Hres Hf. destruct e as [[r|]|x].
  - destruct Hres as (q & -> & Hq & Hne).
    change (fits (doc_snoc (doc_snoc DNil CS_CMDM_ACTION_MESSAGE (VObject r)) CS_CMDM_ACTION_SUBMISSION_ERROR_CODE (VInt 0))) in Hf.
    erewrite (dx_bind_val _ _ _ (inl tt)); [unfold mret, DX_ret; reflexivity|]. apply attempt_val. unfold after_call. dx_step.
    erewrite dx_bind_val by (eapply add_sub_doc; [exact Hq|exact Ho|done|by eapply fits_snoc]).
    rewrite (add_int_doc _ _ o _ _ (lookup_insert_eq _ _ _) Hf). unfold set_packs. cbn [packs]. by rewrite insert_insert_eq.
  - subst res. erewrite (dx_bind_val _ _ _ (inl tt)); [unfold mret, DX_ret; reflexivity|]. apply attempt_val. unfold after_call. dx_step. dx_step.
    by rewrite (add_int_doc _ _ o _ _ Ho Hf).
  - subst res. erewrite dx_bind_val; [|by apply attempt_raise]. unfold answer_error.
    change (fits (doc_snoc (doc_snoc (doc_snoc DNil CS_CMDM_ACTION_SUBMISSION_ERROR_CODE (VInt (errorCode x)))
      CS_CMDM_ACTION_SUBMISSION_ERROR_DOMAIN (VString (errorDomain x))) CS_CMDM_ACTION_SUBMISSION_ERROR_MESSAGE (VString (errorMessage x)))) in Hf.
    pose proof (fits_snoc _ _ _ Hf) as Hf2. pose proof (fits_snoc _ _ _ Hf2) as Hf1.
    rewrite (dx_bind_val _ _ _ _ _ (add_int_doc _ _ o t _ Ho Hf1)).
    rewrite (dx_bind_val _ _ _ _ _ (add_string_doc _ _ o _ _ (lookup_insert_eq _ _ _) Hf2)).
    rewrite (add_string_doc _ _ o _ _ (lookup_insert_eq _ _ _) Hf). unfold set_packs. cbn [packs]. by rewrite !insert_insert_eq.
Qed.

Lemma after_call_quiet (t : DocDispatcher) e res :
  (x ← attempt (after_call pf e res None None);
   match x with inl _ => mret tt | inr e => answer_error None e end) t = (Val tt, t).
Proof. by destruct e as [[r|]|x]. Qed.

(** No message at an address that has not been given out. *)
Definition heap_fresh (t : DocDispatcher) : Prop := forall o, (heap_next t <= o)%nat -> packs t !! o = None.

(** One message more, or not. *)
Definition extra (o : option doc) (p : nat) (l : gmap nat doc) : gmap nat doc :=
  match o with Some d => <[p := d]> l | None => l end.
Definition room (o : option doc) : nat := if o is Some _ then 1%nat else 0%nat.

(** The state after the answer [r] has been given to the forwarder or dropped. *)
Definition answered (i : answer_info) (r : doc) (t : DocDispatcher) : DocDispatcher :=
  let r' := heap_next t in
  mkDispatcher (descriptors t) (domains t) (schedulers t)
    (extra (if forwards (answerIP i) then Some r else None) r' (packs t)) (actionDomainExecutorMap t) (das_map t)
    (submitted t ++ (if forwards (answerIP i) then [(answerIP i, r')] else [])) (S r').

Lemma doc_ok_snoc_val d key v : doc_ok (doc_snoc d key v) -> val_ok v.
Proof. unfold doc_snoc. induction d as [|n x d IH]; simpl; [by intros (_ & ? & _)|]. intros (Hn & Hx & Hd). auto. Qed.

Lemma fits_snoc_sub d key sub : fits (doc_snoc d key (VObject sub)) -> fits sub.
Proof.
  intros [Hok Hl]. pose proof (doc_ok_snoc_val _ _ _ Hok) as Hv. split; [done|].
  rewrite (enc_doc_length (doc_snoc _ _ _)) in Hl. unfold doc_snoc in Hl. rewrite enc_elems_app, length_app in Hl.
  change (enc_elems (DCons key (VObject sub) DNil)) with (enc_elem key (VObject sub) ++ []) in Hl. rewrite app_nil_r in Hl.
  pose proof (enc_elem_length key (VObject sub)) as HE. change (enc_val (VObject sub)) with (enc_doc sub) in HE. lia.
Qed.

Lemma build_address_doc (t : DocDispatcher) i r :
  packs t !! r = Some DNil -> fits (address_doc i) ->
  (add_pack (c_addStringValue CS_CMDM_REMOTE_HOST_IP (answerIP i)) r;;
   (if bool_decide (answerDomain i <> []) && bool_decide (answerAction i <> []) then
     add_pack (c_addStringValue CS_CMDM_ACTION_DOMAIN (answerDomain i)) r;;
     add_pack (c_addStringValue CS_CMDM_ACTION_NAME (answerAction i)) r
   else mret tt)) t = (Val tt, set_packs (<[r := address_doc i]> (packs t)) t).
Proof.
  intros Hr Hf. unfold address_doc in *. destruct (_ && _).
  - pose proof (fits_snoc _ _ _ Hf) as Hf2. pose proof (fits_snoc _ _ _ Hf2) as Hf1.
    rewrite (dx_bind_val _ _ _ _ _ (add_string_doc _ _ r t _ Hr Hf1)).
    rewrite (dx_bind_val _ _ _ _ _ (add_string_doc _ _ r _ _ (lookup_insert_eq _ _ _) Hf2)).
    rewrite (add_string_doc _ _ r _ _ (lookup_insert_eq _ _ _) Hf). unfold set_packs. cbn [packs]. by rewrite !insert_insert_eq.
  - by rewrite (dx_bind_val _ _ _ _ _ (add_string_doc _ _ r t _ Hr Hf)).
Qed.

Lemma send_answer_doc (t : DocDispatcher) i o rd :
  packs t !! o = Some rd -> (o < heap_next t)%nat -> heap_fresh t ->
  fits (doc_snoc (address_doc i) CS_CMDM_ACTION_MESSAGE (VObject (numbered i rd))) ->
  send_answer forwards i o t =
    (Val tt, answered i (doc_snoc (address_doc i) CS_CMDM_ACTION_MESSAGE (VObject (numbered i rd)))
       (set_packs (<[o := numbered i rd]> (packs t)) t)).
Proof.
  intros Ho Hlt Hfr Hf. pose proof (fits_snoc _ _ _ Hf) as Ha. pose proof (fits_snoc_sub _ _ _ Hf) as Hn.
  unfold send_answer. rewrite (dx_bind_val _ _ _ _ _ (new_CDataWrapper_doc t)). set (r := heap_next t) in *.
  assert (packs t !! r = None) as Hr by (by apply Hfr).
  assert (packs (with_new DNil t) !! o = Some rd) as Ho' by (simpl; by rewrite lookup_insert_ne by lia).
  rewrite (dx_bind_val _ _ _ _ _ (add_int_doc _ _ o _ _ Ho' Hn)). fold (numbered i rd). rewrite <- dx_bind_assoc.
  erewrite dx_bind_val; [|apply build_address_doc; [simpl; rewrite lookup_insert_ne by lia; apply lookup_insert_eq|done]].
  erewrite dx_bind_val; [|eapply (add_sub_doc _ o r); [simpl; rewrite lookup_insert_ne by lia; apply lookup_insert_eq
    |apply lookup_insert_eq|lia|done]].
  unfold submitMessage, answered, set_packs, with_new. simpl. destruct (forwards (answerIP i)); dx_step; unfold mret, DX_ret.
  - unfold dx_modify, mbind, DX_bind, add_submitted. simpl. do 2 f_equal. apply map_eq. intros j.
    rewrite !lookup_insert. repeat case_decide; simplify_eq; done || lia.
  - erewrite delete_pack_doc by apply lookup_insert_eq. unfold set_packs. simpl. rewrite app_nil_r. do 2 f_equal.
    apply map_eq. intros j. rewrite !lookup_delete, !lookup_insert. repeat case_decide; simplify_eq; done || lia.
Qed.

Definition result_of (e : @action_end doc) : option doc := match e with AReturns r => r | AThrows _ => None end.

Lemma call_action_doc (t : DocDispatcher) a (m : option doc) o :
  match m, o with Some d, Some q => packs t !! q = Some d | None, None => True | _, _ => False end ->
  call_action call a o t =
    (Val ((call a m).1, (call a m).2, address (result_of (call a m).1) t), with_optional (result_of (call a m).1) t).
Proof.
  intros Hm. unfold call_action. rewrite (dx_bind_val _ _ _ m t).
  2:{ destruct m as [d|], o as [q|]; try done. by rewrite (dx_bind_val _ _ _ _ _ (the_pack_doc q t d Hm)). }
  destruct (call a m) as [[[r|]|x] b]; simpl; [|done|done]. done.
Qed.


(** What the action of the request [d] answers, and the message it keeps. *)
Definition answer_of (d : doc) (a : nat) (info : option answer_info) : option (list Z * doc) :=
  match info with
  | Some i => if forwards (answerIP i) then Some (answerIP i, response_doc i (call a (message_of d)).1) else None
  | None => None
  end.
Definition kept_of (d : doc) (a : nat) : option doc := if (call a (message_of d)).2 then message_of d else None.

(** The address of the answer. *)
Definition answer_at (d : doc) (a : nat) (info : option answer_info) (t : DocDispatcher) : nat :=
  (heap_next t + room (message_of d) + (if info is Some _ then 1 else 0) + room (result_of (call a (message_of d)).1))%nat.

(** The state after the request [d] has been served by the action [a]. *)
Definition served (d : doc) (a : nat) (info : option answer_info) (t : DocDispatcher) : DocDispatcher :=
  let r := answer_at d a info t in
  mkDispatcher (descriptors t) (domains t) (schedulers t)
    (extra (snd <$> answer_of d a info) r (extra (kept_of d a) (heap_next t) (packs t)))
    (actionDomainExecutorMap t) (das_map t)
    (submitted t ++ match answer_of d a info with Some (ip, _) => [(ip, r)] | None => [] end)
    (r + (if info is Some _ then 1 else 0))%nat.

Definition without (o : option nat) (l : gmap nat doc) : gmap nat doc := match o with Some q => delete q l | None => l end.

Lemma delete_optional_doc o (t : DocDispatcher) :
  match o with Some q => is_Some (packs t !! q) | None => True end ->
  delete_optional o t = (Val tt, set_packs (without o (packs t)) t).
Proof. destruct o as [q|]; simpl; [intros [d Hd]; by apply delete_pack_doc with d|]. by destruct t. Qed.

(** The action, its handlers and the answer, on a request that has no sub-command. *)
Definition run_action (a : nat) (info : option answer_info) (actionMessage : option nat) : DX DocDispatcher unit :=
  remote ← match info with Some _ => o ← new_CDataWrapper; mret (Some o) | None => mret None end;
  '(e, detached, actionResult) ← call_action call a actionMessage;
  r ← attempt (after_call pf e actionResult None remote);
  match r with inl _ => mret tt | inr e => answer_error remote e end;;
  match info, remote with Some i, Some o => send_answer forwards i o | _, _ => mret tt end;;
  delete_optional actionResult;;
  delete_optional remote;;
  if detached : bool then mret tt else delete_optional actionMessage.

Lemma run_action_quiet (t : DocDispatcher) a m o :
  match m, o with Some d, Some q => packs t !! q = Some d /\ (q < heap_next t)%nat | None, None => True | _, _ => False end ->
  heap_fresh t ->
  run_action a None o t = (Val tt,
    mkDispatcher (descriptors t) (domains t) (schedulers t) (if (call a m).2 then packs t else without o (packs t))
      (actionDomainExecutorMap t) (das_map t) (submitted t) (heap_next t + room (result_of (call a m).1))%nat).
Proof.
  intros Hm Hfr. unfold run_action. dx_step.
  rewrite (dx_bind_val _ _ _ _ _ (call_action_doc t a m o ltac:(by destruct m, o; destruct_and?))).
  set (e := (call a m).1). set (b := (call a m).2). set (t1 := with_optional (result_of e) t).
  rewrite <- dx_bind_assoc, (dx_bind_val _ _ _ _ _ (after_call_quiet t1 e _)). dx_step.
  assert (forall q, (q < heap_next t)%nat -> packs t1 !! q = packs t !! q) as Hold.
  { intros q Hq. unfold t1. destruct (result_of e); simpl; [|done]. by rewrite lookup_insert_ne by lia. }
  erewrite dx_bind_val; [|apply delete_optional_doc; unfold t1; destruct (result_of e); simpl; [by rewrite lookup_insert_eq|done]].
  assert (without (address (result_of e) t) (packs t1) = packs t) as Hp.
  { unfold t1. destruct (result_of e); simpl; [|done]. rewrite delete_insert_eq, delete_id by (by apply Hfr). done. }
  rewrite Hp. erewrite dx_bind_val; [|by apply delete_optional_doc].
  destruct b.
  - unfold mret, DX_ret, t1. destruct (result_of e); simpl; [by rewrite Nat.add_1_r|]. rewrite Nat.add_0_r. by destruct t.
  - erewrite delete_optional_doc by (destruct m as [d|], o as [q|]; try done; destruct Hm; simpl; eauto).
    unfold t1. destruct (result_of e); simpl; [by rewrite Nat.add_1_r|]. by rewrite Nat.add_0_r.
Qed.

(** Deleting the result and the container of the answer leaves the answer. *)
Lemma clean_packs (l : gmap nat doc) n (res ans : option doc) x y :
  (forall j, (n <= j)%nat -> l !! j = None) ->
  let r := (S n + room res)%nat in
  without (Some n) (without ((fun _ => S n) <$> res) (extra ans r (<[n := x]> (extra res (S n) (<[n := y]> l))))) = extra ans r l.
Proof.
  intros Hl r. subst r. apply map_eq. intros j. unfold without, extra.
  assert (l !! n = None /\ l !! S n = None /\ l !! S (S n) = None) as (? & ? & ?) by (split_and!; apply Hl; lia).
  destruct res, ans; simpl; rewrite ?Nat.add_0_r, ?Nat.add_1_r, ?lookup_insert, ?lookup_delete, ?lookup_insert;
    repeat case_decide; simplify_eq; congruence || lia.
Qed.

Lemma extra_ne o r (l : gmap nat doc) j : j <> r -> extra o r l !! j = l !! j.
Proof. intros Hj. destruct o; simpl; [by rewrite lookup_insert_ne|done]. Qed.

(** The three deletions at the end. *)
Lemma clean_up_doc (t : DocDispatcher) res rem (b : bool) o :
  match res with Some q => is_Some (packs t !! q) | None => True end ->
  is_Some (packs t !! rem) -> res <> Some rem ->
  match o with Some q => is_Some (packs t !! q) /\ q <> rem /\ res <> Some q | None => True end ->
  (delete_optional res;; delete_optional (Some rem);; if b then mret tt else delete_optional o) t
  = (Val tt, set_packs ((if b then fun l => l else without o) (without (Some rem) (without res (packs t)))) t).
Proof.
  intros Hres Hrem Hne Ho. erewrite dx_bind_val by (by apply delete_optional_doc).
  erewrite dx_bind_val; [|apply (delete_optional_doc (Some rem))].
  2:{ simpl. destruct res as [q|]; simpl; [|done]. rewrite lookup_delete_ne by congruence. done. }
  destruct b; [done|]. rewrite delete_optional_doc; [done|]. destruct o as [q|]; [|done]. destruct Ho as (Ho & Hn & Hr). simpl.
  rewrite lookup_delete_ne by congruence. destruct res as [q'|]; simpl; [|done]. by rewrite lookup_delete_ne by congruence.
Qed.

Lemma run_action_answer (t : DocDispatcher) a m o i :
  match m, o with Some d, Some q => packs t !! q = Some d /\ (q < heap_next t)%nat | None, None => True | _, _ => False end ->
  heap_fresh t -> fits (response_doc i (call a m).1) ->
  let r := (S (heap_next t) + room (result_of (call a m).1))%nat in
  let l := extra (if forwards (answerIP i) then Some (response_doc i (call a m).1) else None) r (packs t) in
  run_action a (Some i) o t = (Val tt,
    mkDispatcher (descriptors t) (domains t) (schedulers t) (if (call a m).2 then l else without o l)
      (actionDomainExecutorMap t) (das_map t)
      (submitted t ++ (if forwards (answerIP i) then [(answerIP i, r)] else [])) (S r)).
Proof.
  intros Hm Hfr Hf r l. pose proof (fits_snoc _ _ _ (fits_snoc_sub _ _ _ Hf)) as Hrem. unfold run_action.
  rewrite (dx_bind_val _ _ _ (Some (heap_next t)) (with_new DNil t)) by done.
  set (n := heap_next t) in *. set (t0 := with_new DNil t).
  erewrite dx_bind_val; [|apply (call_action_doc t0 a m o)].
  2:{ destruct m as [d|], o as [q|]; try done. destruct Hm. simpl. by rewrite lookup_insert_ne by lia. }
set (e := (call a m).1) in *.
pose (l1 := extra (result_of e) (S n) (<[n := DNil]> (packs t))).
  pose (t1 := mkDispatcher (descriptors t) (domains t) (schedulers t) l1 (actionDomainExecutorMap t) (das_map t) (submitted t) r).
  assert (with_optional (result_of e) t0 = t1) as ->.
  { unfold t0, t1, l1, r. destruct (result_of e); simpl; unfold with_new; simpl; f_equal; unfold n; lia. }
  assert (packs t1 !! n = Some DNil) as Hn0 by (simpl; unfold l1; rewrite extra_ne by lia; apply lookup_insert_eq).
  cbn beta iota. rewrite <- dx_bind_assoc. erewrite dx_bind_val; [|apply (after_call_doc t1 e _ n Hn0); [|exact Hrem]].
  2:{ destruct e as [[x|]|x]; [|done|done]. exists (S n). split_and!; [done|apply lookup_insert_eq|lia]. }
  erewrite dx_bind_val; [|apply (send_answer_doc _ i n (remote_doc e)); [apply lookup_insert_eq| | |exact Hf]].
  2:{ simpl. unfold r. lia. }
  2:{ intros j Hj. simpl in *. unfold r in Hj. unfold l1. rewrite lookup_insert_ne by lia.
      destruct (result_of e); simpl in *; rewrite ?lookup_insert_ne by lia; apply Hfr; unfold n in *; lia. }
  fold (response_doc i e). unfold answered, set_packs, t1. cbn [packs heap_next descriptors domains schedulers submitted actionDomainExecutorMap das_map].
  assert (forall j, (j < r)%nat -> extra (if forwards (answerIP i) then Some (response_doc i e) else None) r (<[n:=numbered i (remote_doc e)]> (<[n:=remote_doc e]> l1)) !! j = <[n:=numbered i (remote_doc e)]> l1 !! j) as Hlow.
  { intros j Hj. rewrite extra_ne by lia. by rewrite insert_insert_eq. }
  rewrite clean_up_doc; cbn [packs].
  - unfold set_packs. cbn [packs heap_next descriptors domains schedulers submitted actionDomainExecutorMap das_map].
    rewrite insert_insert_eq. unfold l1, address. simpl heap_next. fold n.
    rewrite (clean_packs (packs t) n (result_of e)) by apply Hfr. by destruct (call a m).2.
  - destruct (result_of e) eqn:He; simpl; [|done]. rewrite Hlow by (unfold r; simpl; lia). unfold l1. simpl. fold n.
    rewrite lookup_insert_ne, lookup_insert_eq by lia. eauto.
  - rewrite Hlow by (unfold r; lia). rewrite lookup_insert_eq. eauto.
  - destruct (result_of e); simpl; [|done]. fold n. intros [=]. lia.
  - destruct m as [d|], o as [q|]; try done. destruct Hm as [Hq Hlt]. split_and!; [|unfold n in *; lia|].
    + rewrite Hlow by (unfold r; lia). unfold l1. rewrite lookup_insert_ne, extra_ne, lookup_insert_ne by lia. eauto.
    + destruct (result_of e); simpl; [|done]. intros [=]. unfold n in *. lia.
Qed.

Lemma message_room (t : DocDispatcher) d : heap_next (with_optional (message_of d) t) = (heap_next t + room (message_of d))%nat.
Proof. destruct (message_of d); simpl; lia. Qed.

Lemma execute_action_doc (t : DocDispatcher) a p d info :
  packs t !! p = Some d -> (p < heap_next t)%nat -> heap_fresh t -> has_field CS_CMDM_SUB_CMD d = false ->
  info_of d = Ret info -> match info with Some i => fits (response_doc i (call a (message_of d)).1) | None => True end ->
  execute_action pf call forwards a p t = (Val tt, served d a info t).
Proof.
  intros Hp Hlt Hfr Hs Hi Hf. set (o := address (message_of d) t). set (t1 := with_optional (message_of d) t).
  assert (packs t1 !! p = Some d) as Hp1.
  { unfold t1. destruct (message_of d); simpl; [by rewrite lookup_insert_ne by lia|done]. }
  assert (execute_action pf call forwards a p t = run_action a info o t1) as ->.
  { unfold execute_action. rewrite (dx_bind_val _ _ _ _ _ (read_optional_doc CS_CMDM_ACTION_MESSAGE p t d Hp)). fold (message_of d) o t1.
    pose proof (read_optional_doc CS_CMDM_SUB_CMD p t1 d Hp1) as Hr. cbv zeta in Hr. rewrite Hs in Hr.
    rewrite (dx_bind_val _ _ _ _ _ Hr). simpl with_optional. by rewrite (dx_bind_val _ _ _ _ _ (read_answer_info_doc p t1 d info Hp1 Hi)). }
  assert (heap_fresh t1) as Hfr1.
  { intros j Hj. unfold t1 in *. rewrite message_room in Hj. destruct (message_of d); simpl in *;
      rewrite ?lookup_insert_ne by lia; apply Hfr; lia. }
  assert (match message_of d, o with Some d, Some q => packs t1 !! q = Some d /\ (q < heap_next t1)%nat
    | None, None => True | _, _ => False end) as Hm.
  { unfold o, t1. destruct (message_of d); simpl; [|done]. split; [apply lookup_insert_eq|lia]. }
  assert (packs t !! heap_next t = None) as Hn by (by apply Hfr).
  destruct info as [i|].
  - rewrite (run_action_answer t1 a _ o i Hm Hfr1 Hf). unfold served, answer_at, answer_of, kept_of, t1, o in *.
    rewrite message_room. destruct (forwards (answerIP i)), (message_of d), (call a _) as [e []]; simpl in *; unfold with_new;
      rewrite ?Nat.add_0_r; do 2 f_equal; try (repeat f_equal; lia);
      try (apply map_eq; intros j; rewrite ?lookup_delete, ?lookup_insert; repeat case_decide; simplify_eq; done || lia).
  - rewrite (run_action_quiet t1 a _ o Hm Hfr1). unfold served, answer_at, answer_of, kept_of, t1, o in *.
    rewrite message_room, app_nil_r. destruct (message_of d), (call a _) as [e []]; simpl in *; unfold with_new;
      rewrite ?Nat.add_0_r; do 2 f_equal; try lia. rewrite delete_insert_eq. by apply delete_id.
Qed.

(** A request for a registered and enabled action. *)
Record request (t : DocDispatcher) (q p : nat) (d : doc) (a : nat) (x : ActionDescriptor) (info : option answer_info) : Prop := {
  rq_pack : packs t !! p = Some d;
  rq_live : (p < heap_next t)%nat;
  rq_fresh : heap_fresh t;
  rq_action : exists das v name, schedulers t !! q = Some das /\ domains t !! domainActionsContainer das = Some v /\
    field_spec as_string (doc_find CS_CMDM_ACTION_NAME d) = Ret name /\ actionDescriptionsMap v !! name = Some a;
  rq_descriptor : descriptors t !! a = Some x;
  rq_enabled : enabled x = true;
  rq_single : has_field CS_CMDM_SUB_CMD d = false;
  rq_info : info_of d = Ret info;
  rq_fits : match info with Some i => fits (response_doc i (call a (message_of d)).1) | None => True end }.

(** The action, not fired any more. *)
Definition unfired (a : nat) (x : ActionDescriptor) (t : DocDispatcher) : DocDispatcher :=
  set_descriptors (<[a := mkDesc false (enabled x) (actionDomain x) (actionName x)]> (descriptors t)) t.

Lemma processBufferElement_doc (t : DocDispatcher) q p d a x info :
  request t q p d a x info ->
  processBufferElement pf call forwards q p t = (Val tt, unfired a x (served d a info t)).
Proof.
  intros [Hp Hlt Hfr (das & v & name & Hq & Hv & Hn & Ha) Hx He Hs Hi Hf]. unfold processBufferElement, only_chaos.
  rewrite (dx_bind_val _ _ _ das t) by (unfold the_scheduler, mbind, DX_bind, dx_gets, dx_access; by rewrite Hq).
  rewrite (dx_bind_val _ _ _ _ _ (field_string_read _ p t d name Hp Hn)).
  rewrite (dx_bind_val _ _ _ v t) by (unfold the_domain, mbind, DX_bind, dx_gets, dx_access; by rewrite Hv).
  rewrite Ha. set (t1 := set_descriptors (<[a := mkDesc true true (actionDomain x) (actionName x)]> (descriptors t)) t).
  rewrite (dx_bind_val _ _ _ true t1).
  2:{ unfold setFired, the_descriptor, mbind, DX_bind, dx_gets, dx_access. rewrite Hx. simpl. by rewrite He. }
  cbn [negb]. assert (execute_action pf call forwards a p t1 = (Val tt, served d a info t1)) as Hex by (by apply execute_action_doc).
  rewrite (dx_bind_val _ _ _ _ _ (attempt_val _ _ _ _ Hex)).
  unfold setFired, the_descriptor, put_descriptor, dx_modify, mbind, DX_bind, dx_gets, dx_access, mret, DX_ret. simpl.
  rewrite lookup_insert_eq. simpl. unfold unfired, set_descriptors. simpl. by rewrite insert_insert_eq, He.
Qed.

End Process.

(** ** With containers *)

Section Containers.
Context {W : Type} `{C : !Container W, L : !ContainerLaws W}.

Lemma dispatch_refines (pf : list Z) (s : Dispatcher W) (t : DocDispatcher) p d :
  related s t -> packs t !! p = Some d -> (p < heap_next t)%nat -> das_live t -> bytes pf -> (length pf <= 4096)%nat ->
  exists s', dispatchCommand pf (Some p) s = (Val (heap_next s), s') /\ related s' (dispatched t p (route pf t d)).
Proof.
  intros Hs Hp Hlt Hl Hb Hn. pose proof (sim_dispatchCommand pf (Some p) s t Hs) as Hsim.
  rewrite (dispatchCommand_doc pf t p d Hp Hlt Hl (route_fits pf t d Hb Hn)) in Hsim.
  destruct Hsim as (a & s' & E & -> & Hs'). exists s'. by rewrite (rl_next _ _ Hs).
Qed.

End Containers.
