(* ===== verification/DispatcherRegistry.v ===== *)
(** * The actions a dispatcher knows

    Registering and deregistering classes of actions keeps five structures in step: the
    domains by name, the actions of each domain, the schedulers by domain, the domain each
    scheduler looks at, and the flags of the descriptors.  The theorems refine them to one
    table from a domain and a name to an action and the set of the actions that have been
    deregistered once. *)

From S2P Require Import Prelude BufBuilder Bson BsonBuilder CDataWrapper Container ProcessingQueue Dispatcher.
Import ProcessingQueue.Plain.

Local Open Scope Z_scope.

(** ** The abstract registry *)

Record Registry := mkRegistry {
  actions : gmap (list Z * list Z) nat;
  retired : gset nat }.

Definition no_actions : Registry := mkRegistry ∅ ∅.

Section Registry.
(** The domain and the name of every descriptor. *)
Context (table : gmap nat (list Z * list Z)).

(** The first action of a name stays. *)
Definition enrol (r : Registry) (a : nat) : Registry :=
  match table !! a with
  | Some k => mkRegistry (if actions r !! k is Some _ then actions r else <[k := a]> (actions r)) (retired r)
  | None => r
  end.

Definition strike (r : Registry) (a : nat) : Registry :=
  match table !! a with
  | Some k => mkRegistry (delete k (actions r)) ({[a]} ∪ retired r)
  | None => r
  end.

(** What the users do. *)
Inductive registration := Registers (l : list nat) | Deregisters (l : list nat).

Definition registry_step (r : Registry) (o : registration) : Registry :=
  match o with Registers l => foldl enrol r l | Deregisters l => foldl strike r l end.

Definition registrations (o : registration) : list nat := match o with Registers l | Deregisters l => l end.
Definition known (l : list nat) : Prop := Forall (fun a => is_Some (table !! a)) l.

Section Refinement.
Context {W : Type} `{Container W}.
Notation D := (Dispatcher W).
Implicit Types s : D.

Definition perform (o : registration) : DX D unit :=
  match o with Registers l => registerAction (Some l) | Deregisters l => deregisterAction (Some l) end.

(** A domain that is known has exactly the actions of the table. *)
Definition domain_ok s (r : Registry) (dm : list Z) : Prop :=
  match actionDomainExecutorMap s !! dm with
  | Some d => (d < heap_next s)%nat /\ exists m, domains s !! d = Some (mkDomain dm m) /\ m <> ∅ /\
      forall n, m !! n = actions r !! (dm, n)
  | None => forall n, actions r !! (dm, n) = None
  end.

Record registry_ok s (r : Registry) : Prop := {
  rg_domains : forall dm, domain_ok s r dm;
  rg_table : forall dm n a, actions r !! (dm, n) = Some a -> table !! a = Some (dm, n);
  rg_descriptors : forall a, (fun x => (actionDomain x, actionName x)) <$> descriptors s !! a = table !! a;
  rg_enabled : forall a x, descriptors s !! a = Some x -> enabled x = bool_decide (a ∉ retired r);
  rg_few : Z.of_nat (base.size table) < 2 ^ 32 }.

(** A scheduler is armed, looks at the domain of its name and serves no other. *)
Record linked s : Prop := {
  lk_link : forall dm q, das_map s !! dm = Some q -> (q < heap_next s)%nat /\
    exists x, schedulers s !! q = Some x /\ armed x = true /\
    forall d, actionDomainExecutorMap s !! dm = Some d -> domainActionsContainer x = d;
  lk_inj : forall dm dm' q, das_map s !! dm = Some q -> das_map s !! dm' = Some q -> dm = dm' }.

Definition has_domain s (dm : list Z) : Prop := is_Some (actionDomainExecutorMap s !! dm).
Definition has_scheduler s (dm : list Z) : Prop := is_Some (das_map s !! dm).
Definition of_class (l : list nat) (dm : list Z) : Prop := exists a n, a ∈ l /\ table !! a = Some (dm, n).

(** The dispatcher implements the registry. *)
Record implements s (r : Registry) : Prop := {
  im_registry : registry_ok s r;
  im_linked : linked s;
  im_scheduled : forall dm, has_domain s dm <-> has_scheduler s dm }.

(** ** Looking up *)

Lemma the_descriptor_ok s r a dm n :
  registry_ok s r -> table !! a = Some (dm, n) ->
  exists f, the_descriptor a s = (Val (mkDesc f (bool_decide (a ∉ retired r)) dm n), s) /\
    descriptors s !! a = Some (mkDesc f (bool_decide (a ∉ retired r)) dm n).
Proof.
  intros Hr Ht. pose proof (rg_descriptors _ _ Hr a) as Hd. rewrite Ht in Hd.
  destruct (descriptors s !! a) as [x|] eqn:Hx; [|done]. pose proof (rg_enabled _ _ Hr a x Hx) as He.
  destruct x as [f e dm' nm]. simpl in *. simplify_eq. exists f. split; [|done].
  unfold the_descriptor, mbind, DX_bind, dx_gets, dx_access. by rewrite Hx.
Qed.

Lemma table_names (dm : list Z) (m : gmap (list Z) nat) :
  (forall n a, m !! n = Some a -> table !! a = Some (dm, n)) -> (base.size m <= base.size table)%nat.
Proof.
  intros Hm. rewrite <- (size_dom m). set (l := (fun x : nat * (list Z * list Z) => x.2.2) <$> map_to_list table).
  assert (base.size (list_to_set l : gset (list Z)) <= base.size table)%nat as Hs.
  { rewrite <- length_map_to_list, <- (length_fmap (fun x : nat * (list Z * list Z) => x.2.2)). fold l. clearbody l.
    induction l as [|x l IH]; [done|]. rewrite list_to_set_cons, size_union_alt, size_singleton. simpl.
    apply le_n_S. etrans; [|exact IH]. apply subseteq_size. set_solver. }
  etrans; [|exact Hs]. apply subseteq_size. intros k [b Hb]%elem_of_dom. rewrite elem_of_list_to_set.
  apply list_elem_of_fmap. exists (b, (dm, k)). split; [done|]. apply elem_of_map_to_list. eauto.
Qed.

(** A domain that an operation does not touch. *)
Lemma domain_frame s s' r r' dm :
  domain_ok s r dm -> actionDomainExecutorMap s' !! dm = actionDomainExecutorMap s !! dm ->
  (heap_next s <= heap_next s')%nat ->
  (forall d m, actionDomainExecutorMap s !! dm = Some d -> (d < heap_next s)%nat -> domains s !! d = Some (mkDomain dm m) ->
     domains s' !! d = Some (mkDomain dm m)) ->
  (forall n, actions r' !! (dm, n) = actions r !! (dm, n)) -> domain_ok s' r' dm.
Proof.
  unfold domain_ok. intros Hd He Hn Hdom Ha. rewrite He. destruct (actionDomainExecutorMap s !! dm) as [d|].
  - destruct Hd as (Hlt & m & Hm & Hne & Hl). split; [lia|]. exists m. split_and!; [by apply Hdom|done|].
    intros n. by rewrite Ha.
  - intros n. by rewrite Ha.
Qed.

(** ** Registering *)

(** What the first loop changes. *)
Record grows s s' : Prop := {
  gr_das : das_map s' = das_map s;
  gr_schedulers : schedulers s' = schedulers s;
  gr_next : (heap_next s <= heap_next s')%nat;
  gr_domains : forall dm d, actionDomainExecutorMap s !! dm = Some d -> actionDomainExecutorMap s' !! dm = Some d }.

Lemma grows_refl s : grows s s.
Proof. split; auto. Qed.

Lemma grows_trans s1 s2 s3 : grows s1 s2 -> grows s2 s3 -> grows s1 s3.
Proof. intros [] []. split; [congruence|congruence|lia|auto]. Qed.

Definition registered (dm n : list Z) (a : nat) s : D :=
  match actionDomainExecutorMap s !! dm with
  | Some d =>
      match domains s !! d with
      | Some v => set_domains (<[d := mkDomain dm (match actionDescriptionsMap v !! n with
          Some _ => actionDescriptionsMap v | None => <[n := a]> (actionDescriptionsMap v) end)]> (domains s)) s
      | None => s
      end
  | None =>
      mkDispatcher (descriptors s) (<[heap_next s := mkDomain dm {[n := a]}]> (domains s)) (schedulers s) (packs s)
        (<[dm := heap_next s]> (actionDomainExecutorMap s)) (das_map s) (submitted s) (S (heap_next s))
  end.

Lemma register_one_run s r a dm n :
  registry_ok s r -> table !! a = Some (dm, n) -> register_one a s = (Val tt, registered dm n a s).
Proof.
  intros Hr Ht. destruct (the_descriptor_ok s r a dm n Hr Ht) as (f & Hd & Hx). unfold register_one.
  rewrite (dx_bind_val _ _ _ _ _ Hd). unfold getDomainActionsFromName, registered. simpl actionDomain.
  pose proof (rg_domains _ _ Hr dm) as Hdm. unfold domain_ok in Hdm.
  destruct (actionDomainExecutorMap s !! dm) as [d|] eqn:He.
  - destruct Hdm as (_ & m & Hm & _). unfold mbind, DX_bind, dx_gets, mret, DX_ret, addActionDescriptor, the_domain, the_descriptor, dx_access.
    rewrite He. unfold mbind, DX_bind, dx_gets, mret, DX_ret. rewrite Hx. simpl. rewrite Hm. simpl. rewrite bool_decide_false by auto. done.
  - unfold mbind, DX_bind, dx_gets, mret, DX_ret, addActionDescriptor, the_domain, the_descriptor, dx_access. rewrite He.
    unfold alloc, put_domain, dx_modify, mbind, DX_bind, dx_gets, mret, DX_ret. simpl. rewrite Hx. simpl. rewrite lookup_insert_eq. simpl.
    rewrite bool_decide_false by auto. simpl. unfold set_domains, set_executors. simpl. by rewrite insert_insert_eq, lookup_empty, insert_empty.
Qed.

Lemma enrol_other r a dm n k : table !! a = Some (dm, n) -> k <> (dm, n) -> actions (enrol r a) !! k = actions r !! k.
Proof. intros Ht Hk. unfold enrol. rewrite Ht. simpl. destruct (actions r !! (dm, n)); [done|]. by rewrite lookup_insert_ne. Qed.

Lemma enrol_table r a :
  (forall dm n b, actions r !! (dm, n) = Some b -> table !! b = Some (dm, n)) ->
  forall dm n b, actions (enrol r a) !! (dm, n) = Some b -> table !! b = Some (dm, n).
Proof.
  intros Hr dm n b. unfold enrol. destruct (table !! a) as [k|] eqn:Ht; [|apply Hr]. simpl.
  destruct (actions r !! k); [apply Hr|]. rewrite lookup_insert. case_decide; [intros; by simplify_eq|apply Hr].
Qed.

(** A domain and its actions after one more. *)
Lemma registered_domain s r a dm n :
  registry_ok s r -> table !! a = Some (dm, n) -> domain_ok (registered dm n a s) (enrol r a) dm.
Proof.
  intros Hr Ht. pose proof (rg_domains _ _ Hr dm) as Hdm. unfold registered, domain_ok in *.
  destruct (actionDomainExecutorMap s !! dm) as [d|] eqn:He.
  - destruct Hdm as (Hlt & m & Hm & Hne & Hl). rewrite Hm. simpl. rewrite He. split; [done|].
    eexists. split_and!; [apply lookup_insert_eq|destruct (m !! n); [done|apply insert_non_empty]|].
    intros k. unfold enrol. rewrite Ht, <- Hl. simpl. destruct (m !! n) eqn:Hn; [done|].
    rewrite !lookup_insert. repeat case_decide; simplify_eq; done.
  - simpl. rewrite lookup_insert_eq. split; [lia|]. eexists. split_and!; [apply lookup_insert_eq|apply map_non_empty_singleton|].
    intros k. unfold enrol. rewrite Ht, Hdm. simpl. rewrite lookup_insert. case_decide; simplify_eq; [by rewrite lookup_singleton_eq|].
    rewrite lookup_singleton_ne, Hdm by congruence. done.
Qed.

Lemma registered_ok s r a dm n :
  registry_ok s r -> table !! a = Some (dm, n) ->
  registry_ok (registered dm n a s) (enrol r a) /\ grows s (registered dm n a s) /\ has_domain (registered dm n a s) dm /\
  (forall dm', has_domain (registered dm n a s) dm' -> has_domain s dm' \/ dm' = dm).
Proof.
  intros Hr Ht. pose proof (registered_domain s r a dm n Hr Ht) as Hdm.
  assert (descriptors (registered dm n a s) = descriptors s) as Hds.
  { unfold registered. destruct (_ !! dm) as [d|]; [by destruct (domains s !! d)|done]. }
  pose proof (rg_domains _ _ Hr dm) as Hold. unfold domain_ok in Hold.
  split_and!.
  - split.
    + intros dm'. destruct (decide (dm' = dm)) as [->|Hne]; [done|].
      apply (domain_frame s _ r); [apply Hr| | | |intros k; apply (enrol_other _ _ dm n); [done|congruence]];
        unfold registered; destruct (actionDomainExecutorMap s !! dm) as [d|] eqn:He.
      1,3,5: destruct Hold as (_ & m & -> & _); simpl; try done.
      1: { intros d' m' He' _ Hm'. rewrite lookup_insert_ne; [done|]. intros ->.
           pose proof (rg_domains _ _ Hr dm) as Hx. unfold domain_ok in Hx. rewrite He in Hx. destruct Hx as (_ & ? & Hx & _).
           rewrite Hx in Hm'. congruence. }
      * simpl. by rewrite lookup_insert_ne.
      * simpl. lia.
      * simpl. intros d' m' _ Hlt Hm'. by rewrite lookup_insert_ne by lia.
    + apply enrol_table, Hr.
    + rewrite Hds. apply Hr.
    + rewrite Hds. replace (retired (enrol r a)) with (retired r); [apply Hr|]. unfold enrol. by rewrite Ht.
    + apply Hr.
  - unfold registered. destruct (_ !! dm) as [d|] eqn:He.
    + destruct Hold as (_ & m & -> & _). by split.
    + split; simpl; [done|done|lia|]. intros dm' d' Hd'. rewrite lookup_insert_ne; [done|]. congruence.
  - unfold has_domain, registered. destruct (_ !! dm) as [d|] eqn:He.
    + destruct Hold as (_ & m & -> & _). simpl. rewrite He. eauto.
    + simpl. rewrite lookup_insert_eq. eauto.
  - intros dm'. unfold has_domain, registered. destruct (_ !! dm) as [d|] eqn:He.
    + destruct Hold as (_ & m & -> & _). simpl. auto.
    + simpl. rewrite lookup_insert. case_decide; auto.
Qed.

(** The first loop of [registerAction]. *)
Lemma register_loop l s r :
  registry_ok s r -> known l ->
  exists s', for_each register_one l s = (Val tt, s') /\ registry_ok s' (foldl enrol r l) /\ grows s s' /\
    (forall dm, of_class l dm -> has_domain s' dm) /\ (forall dm, has_domain s' dm -> has_domain s dm \/ of_class l dm).
Proof.
  revert s r. induction l as [|a l IH]; intros s r Hr Hl.
  { exists s. split_and!; [done|done|apply grows_refl|intros dm (a & n & Ha & _); set_solver|auto]. }
  apply Forall_cons in Hl as [[[dm n] Ht] Hl]. destruct (registered_ok s r a dm n Hr Ht) as (Hr1 & Hg1 & Hd1 & Hn1).
  destruct (IH _ _ Hr1 Hl) as (s' & Hs & Hr' & Hg' & Hd' & Hn'). exists s'. split_and!; [|done|by eapply grows_trans| |].
  - simpl. by rewrite (dx_bind_val _ _ _ _ _ (register_one_run s r a dm n Hr Ht)).
  - intros dm' (b & k & Hb & Hk). apply elem_of_cons in Hb as [->|Hb]; [|apply Hd'; by exists b, k].
    rewrite Ht in Hk. injection Hk as -> ->. destruct Hd1 as [d Hd]. exists d. by apply (gr_domains _ _ Hg').
  - intros dm' [H1|(b & k & Hb & Hk)]%Hn'; [|right; exists b, k; set_solver].
    apply Hn1 in H1 as [H1| ->]; [by left|]. right. exists a, n. set_solver.
Qed.

(** What the second loops change. *)
Record schedules s s' : Prop := {
  sc_descriptors : descriptors s' = descriptors s;
  sc_domains : domains s' = domains s;
  sc_executors : actionDomainExecutorMap s' = actionDomainExecutorMap s;
  sc_next : (heap_next s <= heap_next s')%nat }.

Lemma schedules_refl s : schedules s s.
Proof. by split. Qed.

Lemma schedules_trans s1 s2 s3 : schedules s1 s2 -> schedules s2 s3 -> schedules s1 s3.
Proof. intros [] []. split; congruence || lia. Qed.

Lemma schedules_registry s s' r : schedules s s' -> registry_ok s r -> registry_ok s' r.
Proof.
  intros [Hd Hm He Hn] [H1 H2 H3 H4 H5]. split; [|done|by rewrite Hd|by rewrite Hd|done].
  intros dm. apply (domain_frame s s' r r dm (H1 dm)); [by rewrite He|done|by rewrite Hm|done].
Qed.

Lemma schedules_domain s s' dm : schedules s s' -> has_domain s' dm <-> has_domain s dm.
Proof. intros Hs. unfold has_domain. by rewrite (sc_executors _ _ Hs). Qed.

Lemma elem_class a l dm n : table !! a = Some (dm, n) -> of_class (a :: l) dm.
Proof. intros Ht. exists a, n. set_solver. Qed.

Lemma of_class_cons a l dm n dm' : table !! a = Some (dm, n) -> of_class (a :: l) dm' -> dm' = dm \/ of_class l dm'.
Proof.
  intros Ht (b & k & Hb & Hk). apply elem_of_cons in Hb as [->|Hb]; [left; congruence|right; by exists b, k].
Qed.

Lemma schedule_one_ok s r a dm n :
  registry_ok s r -> linked s -> table !! a = Some (dm, n) -> has_domain s dm ->
  exists s', schedule_one a s = (Val tt, s') /\ schedules s s' /\ linked s' /\
    forall dm', has_scheduler s' dm' <-> has_scheduler s dm' \/ dm' = dm.
Proof.
  intros Hr Hl Ht [d Hd]. destruct (the_descriptor_ok s r a dm n Hr Ht) as (f & Hx & _). unfold schedule_one.
  rewrite (dx_bind_val _ _ _ _ _ Hx). dx_step. cbn [actionDomain actionName]. destruct (das_map s !! dm) as [q|] eqn:Hq.
  { exists s. split_and!; [done|apply schedules_refl|done|]. intros dm'. split; [by left|]. intros [?| ->]; [done|]. by exists q. }
  unfold getDomainActionsFromName, mbind, DX_bind, dx_gets, mret, DX_ret. rewrite Hd.
  unfold alloc, put_scheduler, dx_modify, das_init, on_base, the_scheduler, mbind, DX_bind, dx_gets, dx_access. simpl.
  rewrite lookup_insert_eq. simpl. eexists. split_and!; [reflexivity|split; simpl; done || lia| |].
  - split; simpl.
    + intros dm' q' Hq'. rewrite lookup_insert in Hq'. case_decide as Hdm; [injection Hq' as <-; subst dm'|].
      * split; [lia|]. eexists. rewrite lookup_insert_eq. split_and!; [done|done|]. simpl. intros d' Hd'. congruence.
      * destruct (lk_link _ Hl _ _ Hq') as (Hlt & x & Hx' & Hrest). split; [lia|]. exists x. by rewrite !lookup_insert_ne by lia.
    + intros dm1 dm2 q' [[<- <-]|[_ Hq1]]%lookup_insert_Some [[<- Hq2]|[_ Hq2]]%lookup_insert_Some; [done| | |by eapply (lk_inj _ Hl)].
      * destruct (lk_link _ Hl _ _ Hq2). lia.
      * destruct (lk_link _ Hl _ _ Hq1). lia.
  - intros dm'. unfold has_scheduler. simpl. destruct (decide (dm = dm')) as [->|Hdm].
    { rewrite lookup_insert_eq. split; [auto|intros _; by eexists]. }
    rewrite lookup_insert_ne by done. split; [by left|]. intros [?|?]; [done|congruence].
Qed.

Lemma schedule_loop l s r :
  registry_ok s r -> linked s -> known l -> (forall dm, of_class l dm -> has_domain s dm) ->
  (forall dm, has_scheduler s dm -> has_domain s dm) ->
  (forall dm, has_domain s dm -> has_scheduler s dm \/ of_class l dm) ->
  exists s', for_each schedule_one l s = (Val tt, s') /\ implements s' r.
Proof.
  revert s. induction l as [|a l IH]; intros s Hr Hl Hk Hc H1 H2.
  { exists s. split; [done|]. split; [done|done|]. intros dm. split; [|apply H1].
    intros [?|(a & n & Ha & _)]%H2; [done|set_solver]. }
  apply Forall_cons in Hk as [[[dm n] Ht] Hk].
  destruct (schedule_one_ok s r a dm n Hr Hl Ht) as (s1 & Hs1 & Hsc & Hl1 & H3); [by apply Hc, (elem_class a l dm n)|].
  destruct (IH s1) as (s' & Hs' & Him); [by eapply schedules_registry|done|done| | | |].
  - intros dm' (b & k & Hb & Hk'). apply (schedules_domain _ _ _ Hsc), Hc. exists b, k. set_solver.
  - intros dm' Hd. apply (schedules_domain _ _ _ Hsc). apply H3 in Hd as [Hd| ->]; [by apply H1|]. by apply Hc, (elem_class a l dm n).
  - intros dm' Hd%(schedules_domain _ _ _ Hsc). rewrite H3. apply H2 in Hd as [Hd|Hd]; [by left; left|].
    apply (of_class_cons a l dm n dm' Ht) in Hd as [->|Hd]; auto.
  - exists s'. split; [|done]. simpl. by rewrite (dx_bind_val _ _ _ _ _ Hs1).
Qed.

Lemma registerAction_implements l s r :
  implements s r -> known l ->
  exists s', registerAction (Some l) s = (Val tt, s') /\ implements s' (foldl enrol r l).
Proof.
  intros [Hr Hl Hs] Hk. destruct (register_loop l s r Hr Hk) as (s1 & Hs1 & Hr1 & Hg & Hd & Hn).
  assert (linked s1) as Hl1.
  { split; [|rewrite (gr_das _ _ Hg); apply Hl]. intros dm q Hq. rewrite (gr_das _ _ Hg) in Hq. pose proof (gr_next _ _ Hg). destruct (lk_link _ Hl _ _ Hq) as (Hlt & x & Hx & Ha & Hc).
    split; [lia|]. exists x. rewrite (gr_schedulers _ _ Hg). split_and!; [done|done|]. intros d Hd1. apply Hc.
    destruct (proj2 (Hs dm)) as [d0 Hd0]; [by exists q|]. rewrite (gr_domains _ _ Hg _ _ Hd0) in Hd1. congruence. }
  destruct (schedule_loop l s1 (foldl enrol r l)) as (s' & Hs' & Him); try done.
  - intros dm Hdm. assert (has_domain s dm) as [d Hd0]; [|exists d; by apply (gr_domains _ _ Hg)].
    apply Hs. unfold has_scheduler in *. by rewrite <- (gr_das _ _ Hg).
  - intros dm Hdm. apply Hn in Hdm as [Hdm|Hdm]; [|by right]. left. apply Hs in Hdm. unfold has_scheduler in *. by rewrite (gr_das _ _ Hg).
  - exists s'. split; [|done]. unfold registerAction. by rewrite (dx_bind_val _ _ _ _ _ Hs1).
Qed.

(** ** Deregistering *)

(** The actions of a domain, none when it is not known. *)
Definition actions_of s (dm : list Z) : gmap (list Z) nat :=
  match actionDomainExecutorMap s !! dm with
  | Some d => match domains s !! d with Some v => actionDescriptionsMap v | None => ∅ end
  | None => ∅
  end.
Definition address_of s (dm : list Z) : nat := default (heap_next s) (actionDomainExecutorMap s !! dm).

Definition struck (dm n : list Z) (a : nat) (f : bool) s : D :=
  mkDispatcher (<[a := mkDesc f false dm n]> (descriptors s))
    (<[address_of s dm := mkDomain dm (delete n (actions_of s dm))]> (domains s)) (schedulers s) (packs s)
    (if bool_decide (delete n (actions_of s dm) = ∅) then delete dm (actionDomainExecutorMap s) else actionDomainExecutorMap s)
    (das_map s) (submitted s) (if actionDomainExecutorMap s !! dm is Some _ then heap_next s else S (heap_next s)).

Lemma actions_of_ok s r dm n : registry_ok s r -> actions_of s dm !! n = actions r !! (dm, n).
Proof.
  intros Hr. pose proof (rg_domains _ _ Hr dm) as Hd. unfold domain_ok, actions_of in *. destruct (_ !! dm) as [d|].
  - destruct Hd as (_ & m & -> & _ & Hm). apply Hm.
  - by rewrite lookup_empty.
Qed.

(** The count of actions, at its width, is zero when there are none. *)
Lemma registeredActions_zero s r dm n :
  registry_ok s r ->
  (registeredActions (mkDomain dm (delete n (actions_of s dm))) =? 0) = bool_decide (delete n (actions_of s dm) = ∅).
Proof.
  intros Hr. unfold registeredActions. simpl. set (m := delete n (actions_of s dm)).
  assert (base.size m <= base.size table)%nat as Hs.
  { apply (table_names dm). intros k b Hb. apply lookup_delete_Some in Hb as [_ Hb]. rewrite (actions_of_ok s r) in Hb by done.
    by apply (rg_table _ _ Hr). }
  pose proof (rg_few _ _ Hr). rewrite uwrap_small by (unfold in_u; lia).
  destruct (decide (m = ∅)) as [->|Hm].
  - by rewrite map_size_empty, bool_decide_true.
  - rewrite bool_decide_false by done. apply Z.eqb_neq. apply map_size_non_empty_iff in Hm. lia.
Qed.

Lemma deregister_one_run s r a dm n :
  registry_ok s r -> table !! a = Some (dm, n) -> exists f, deregister_one a s = (Val tt, struck dm n a f s).
Proof.
  intros Hr Ht. destruct (the_descriptor_ok s r a dm n Hr Ht) as (f & Hd & Hx). exists f. unfold deregister_one.
  rewrite (dx_bind_val _ _ _ _ _ Hd). cbn [actionDomain].
  pose proof (rg_domains _ _ Hr dm) as Hdm. pose proof (registeredActions_zero s r dm n Hr) as Hz.
  unfold domain_ok, actions_of in *.
  unfold struck, actions_of, address_of, getDomainActionsFromName, removeActionDescriptor, setEnabled.
  destruct (actionDomainExecutorMap s !! dm) as [d|] eqn:He.
  - destruct Hdm as (_ & m & Hm & _). rewrite Hm in *. cbn [actionDescriptionsMap] in *.
    unfold put_domain, put_descriptor, dx_modify, mbind, DX_bind, dx_gets, mret, DX_ret, the_domain, the_descriptor, dx_access.
    unfold mbind, DX_bind, dx_gets, mret, DX_ret. rewrite He, Hx. simpl. rewrite Hm. simpl. rewrite bool_decide_false by auto.
    rewrite Hx. simpl. rewrite lookup_insert_eq. rewrite Hz. by destruct (bool_decide (delete n m = ∅)).
  - rewrite delete_empty in *. rewrite bool_decide_true by done.
    unfold alloc, put_domain, put_descriptor, dx_modify, mbind, DX_bind, dx_gets, mret, DX_ret, the_domain, the_descriptor, dx_access.
    unfold mbind, DX_bind, dx_gets, mret, DX_ret. rewrite He. simpl. rewrite Hx. simpl. rewrite lookup_insert_eq. simpl.
    rewrite bool_decide_false by auto. simpl. rewrite Hx. simpl. rewrite !lookup_insert_eq, delete_empty. simpl.
    rewrite Hz, bool_decide_true by done. unfold set_executors, set_domains, set_descriptors. simpl.
    by rewrite insert_insert_eq, delete_insert_eq.
Qed.

(** What the loop changes: domains only disappear. *)
Record shrinks s s' : Prop := {
  sh_das : das_map s' = das_map s;
  sh_schedulers : schedulers s' = schedulers s;
  sh_next : (heap_next s <= heap_next s')%nat;
  sh_domains : forall dm d, actionDomainExecutorMap s' !! dm = Some d -> actionDomainExecutorMap s !! dm = Some d }.

Lemma shrinks_refl s : shrinks s s.
Proof. split; auto. Qed.

Lemma shrinks_trans s1 s2 s3 : shrinks s1 s2 -> shrinks s2 s3 -> shrinks s1 s3.
Proof. intros [] []. split; [congruence|congruence|lia|auto]. Qed.

Lemma struck_executors dm n a f s dm' :
  actionDomainExecutorMap (struck dm n a f s) !! dm' =
    if bool_decide (dm' = dm /\ delete n (actions_of s dm) = ∅) then None else actionDomainExecutorMap s !! dm'.
Proof.
  simpl. destruct (decide (delete n (actions_of s dm) = ∅)) as [Hm|Hm].
  - rewrite (bool_decide_true (_ = ∅)) by done. destruct (decide (dm' = dm)) as [->|Hne].
    + by rewrite lookup_delete_eq, bool_decide_true.
    + rewrite lookup_delete_ne, bool_decide_false by naive_solver. done.
  - rewrite !bool_decide_false by naive_solver. done.
Qed.

Lemma struck_domain s r dm n a f :
  registry_ok s r -> table !! a = Some (dm, n) -> domain_ok (struck dm n a f s) (strike r a) dm.
Proof.
  intros Hr Ht. assert (forall k, actions (strike r a) !! (dm, k) = delete n (actions_of s dm) !! k) as Hk.
  { intros k. unfold strike. rewrite Ht. simpl. destruct (decide (k = n)) as [->|Hne]; [by rewrite !lookup_delete_eq|].
    rewrite !lookup_delete_ne by congruence. by rewrite (actions_of_ok s r). }
  unfold domain_ok. rewrite struck_executors. destruct (decide (delete n (actions_of s dm) = ∅)) as [Hm|Hm].
  { rewrite bool_decide_true by done. intros k. by rewrite Hk, Hm, lookup_empty. }
  rewrite bool_decide_false by naive_solver. pose proof (rg_domains _ _ Hr dm) as Hd. unfold domain_ok in Hd.
  destruct (actionDomainExecutorMap s !! dm) as [d|] eqn:He.
  - destruct Hd as (Hlt & m & Hdm & _). split; [simpl; by rewrite He|]. exists (delete n (actions_of s dm)).
    split_and!; [|done|done]. simpl. unfold address_of. rewrite He. apply lookup_insert_eq.
  - destruct Hm. unfold actions_of. rewrite He. apply delete_empty.
Qed.

Lemma struck_ok s r dm n a f :
  registry_ok s r -> table !! a = Some (dm, n) -> registry_ok (struck dm n a f s) (strike r a).
Proof.
  intros Hr Ht. split.
  - intros dm'. destruct (decide (dm' = dm)) as [->|Hne]; [by apply struck_domain|].
    apply (domain_frame s _ r); [apply Hr| | | |].
    + rewrite struck_executors, bool_decide_false by naive_solver. done.
    + simpl. destruct (_ !! dm); lia.
    + simpl. intros d m He Hlt Hm. rewrite lookup_insert_ne; [done|]. unfold address_of. pose proof (rg_domains _ _ Hr dm) as Hd.
      unfold domain_ok in Hd. destruct (_ !! dm) as [d'|]; simpl; [|lia]. intros ->. destruct Hd as (_ & m' & Hm' & _). congruence.
    + intros k. unfold strike. rewrite Ht. simpl. rewrite lookup_delete_ne; [done|congruence].
  - unfold strike. rewrite Ht. simpl. intros dm' k b [_ Hb]%lookup_delete_Some. by apply (rg_table _ _ Hr).
  - simpl. intros b. destruct (decide (b = a)) as [->|Hne]; [by rewrite lookup_insert_eq|].
    rewrite lookup_insert_ne by done. apply (rg_descriptors _ _ Hr).
  - simpl. unfold strike. rewrite Ht. simpl. intros b x. destruct (decide (b = a)) as [->|Hne].
    + rewrite lookup_insert_eq. intros [= <-]. simpl. symmetry. apply bool_decide_false. set_solver.
    + rewrite lookup_insert_ne by done. intros Hx. rewrite (rg_enabled _ _ Hr b x Hx). apply bool_decide_ext. set_solver.
  - apply Hr.
Qed.

Lemma struck_shrinks dm n a f s : shrinks s (struck dm n a f s).
Proof.
  split; [done|done|simpl; destruct (_ !! dm); lia|]. intros dm' d. rewrite struck_executors.
  by case_bool_decide.
Qed.

Lemma deregister_loop l s r :
  registry_ok s r -> known l ->
  exists s', for_each deregister_one l s = (Val tt, s') /\ registry_ok s' (foldl strike r l) /\ shrinks s s' /\
    forall dm, has_domain s dm -> has_domain s' dm \/ of_class l dm.
Proof.
  revert s r. induction l as [|a l IH]; intros s r Hr Hl.
  { exists s. split_and!; [done|done|apply shrinks_refl|auto]. }
  apply Forall_cons in Hl as [[[dm n] Ht] Hl]. destruct (deregister_one_run s r a dm n Hr Ht) as [f Hf].
  destruct (IH _ _ (struck_ok s r dm n a f Hr Ht) Hl) as (s' & Hs & Hr' & Hg' & Hn'). exists s'.
  split_and!; [|done|eapply shrinks_trans; [apply struck_shrinks|done]|].
  - simpl. by rewrite (dx_bind_val _ _ _ _ _ Hf).
  - intros dm' Hd. destruct (decide (dm' = dm)) as [->|Hne]; [right; by apply (elem_class a l dm n)|].
    destruct (Hn' dm') as [?|(b & k & Hb & Hk)]; [|by left|right; exists b, k; set_solver].
    unfold has_domain in *. rewrite struck_executors, bool_decide_false by naive_solver. done.
Qed.

Lemma unschedule_one_ok s r a dm n :
  registry_ok s r -> linked s -> table !! a = Some (dm, n) ->
  exists s', unschedule_one a s = (Val tt, s') /\ schedules s s' /\ linked s' /\
    forall dm', has_scheduler s' dm' <-> has_scheduler s dm' /\ (dm' = dm -> has_domain s dm).
Proof.
  intros Hr Hl Ht. destruct (the_descriptor_ok s r a dm n Hr Ht) as (f & Hx & _). unfold unschedule_one.
  rewrite (dx_bind_val _ _ _ _ _ Hx). do 2 dx_step. cbn [actionDomain].
  destruct (das_map s !! dm) as [q|] eqn:Hq, (actionDomainExecutorMap s !! dm) as [d|] eqn:He.
  all: try (exists s; split_and!; [done|apply schedules_refl|done|]; intros dm'; split; [|by intros [? _]];
    intros Hd; split; [done|intros ->; unfold has_domain, has_scheduler in *; rewrite ?Hq in Hd; rewrite ?He; first [by destruct Hd as [? [=]]|by eexists]]).
  destruct (lk_link _ Hl _ _ Hq) as (Hlt & x & Hxq & _).
  unfold attempt, das_deinit, on_base, the_scheduler, put_scheduler, dx_modify, mbind, DX_bind, dx_gets, dx_access, mret, DX_ret. simpl.
  rewrite Hxq. simpl. eexists. split_and!; [reflexivity|by split| |].
  - split; simpl.
    + intros dm' q' [Hne Hq']%lookup_delete_Some. destruct (lk_link _ Hl _ _ Hq') as (Hlt' & x' & Hx' & Ha & Hc).
      split; [done|]. exists x'. rewrite lookup_insert_ne; [done|]. intros ->. by apply Hne, (lk_inj _ Hl _ _ q').
    + intros dm1 dm2 q' [_ H1]%lookup_delete_Some [_ H2]%lookup_delete_Some. by eapply (lk_inj _ Hl).
  - intros dm'. unfold has_scheduler, has_domain. simpl. rewrite He. destruct (decide (dm' = dm)) as [->|Hne].
    + rewrite lookup_delete_eq. split; [by intros []|]. intros [_ H1]. by destruct (H1 eq_refl).
    + rewrite lookup_delete_ne by done. split; [|by intros [? _]]. intros H1. split; [done|]. by intros.
Qed.

Lemma unschedule_loop l s r :
  registry_ok s r -> linked s -> known l ->
  (forall dm, has_domain s dm -> has_scheduler s dm) ->
  (forall dm, has_scheduler s dm -> has_domain s dm \/ of_class l dm) ->
  exists s', for_each unschedule_one l s = (Val tt, s') /\ implements s' r.
Proof.
  revert s. induction l as [|a l IH]; intros s Hr Hl Hk H1 H2.
  { exists s. split; [done|]. split; [done|done|]. intros dm. split; [apply H1|].
    intros [?|(a & n & Ha & _)]%H2; [done|set_solver]. }
  apply Forall_cons in Hk as [[[dm n] Ht] Hk].
  destruct (unschedule_one_ok s r a dm n Hr Hl Ht) as (s1 & Hs1 & Hsc & Hl1 & H3).
  destruct (IH s1) as (s' & Hs' & Him); [by eapply schedules_registry|done|done| | |].
  - intros dm' Hd%(schedules_domain _ _ _ Hsc). apply H3. split; [by apply H1|]. by intros <-.
  - intros dm' [Hd Hdm]%H3. apply H2 in Hd as [Hd|Hd]; [left; by apply (schedules_domain _ _ _ Hsc)|].
    apply (of_class_cons a l dm n dm' Ht) in Hd as [->|Hd]; [|by right]. left. by apply (schedules_domain _ _ _ Hsc), Hdm.
  - exists s'. split; [|done]. simpl. by rewrite (dx_bind_val _ _ _ _ _ Hs1).
Qed.

Lemma deregisterAction_implements l s r :
  implements s r -> known l ->
  exists s', deregisterAction (Some l) s = (Val tt, s') /\ implements s' (foldl strike r l).
Proof.
  intros [Hr Hl Hs] Hk. destruct (deregister_loop l s r Hr Hk) as (s1 & Hs1 & Hr1 & Hg & Hn).
  assert (linked s1) as Hl1.
  { split; [|rewrite (sh_das _ _ Hg); apply Hl]. intros dm q Hq. rewrite (sh_das _ _ Hg) in Hq. pose proof (sh_next _ _ Hg).
    destruct (lk_link _ Hl _ _ Hq) as (Hlt & x & Hx & Ha & Hc). split; [lia|]. exists x. rewrite (sh_schedulers _ _ Hg).
    split_and!; [done|done|]. intros d Hd. by apply Hc, (sh_domains _ _ Hg). }
  destruct (unschedule_loop l s1 (foldl strike r l)) as (s' & Hs' & Him); try done.
  - intros dm [d Hd]. unfold has_scheduler. rewrite (sh_das _ _ Hg). apply Hs. exists d. by apply (sh_domains _ _ Hg).
  - intros dm Hdm. apply Hn, Hs. unfold has_scheduler in *. by rewrite <- (sh_das _ _ Hg).
  - exists s'. split; [|done]. unfold deregisterAction. by rewrite (dx_bind_val _ _ _ _ _ Hs1).
Qed.

Lemma perform_implements o s r :
  implements s r -> known (registrations o) ->
  exists s', perform o s = (Val tt, s') /\ implements s' (registry_step r o).
Proof. destruct o; [apply registerAction_implements|apply deregisterAction_implements]. Qed.

(** A dispatcher that has just been made. *)
Definition new_Dispatcher : D :=
  mkDispatcher ((fun k => new_ActionDescriptor k.1 k.2) <$> table) ∅ ∅ ∅ ∅ ∅ [] 0.

Definition perform_all (os : list registration) : DX D unit := foldr (fun o c => perform o;; c) (mret tt) os.

Lemma new_implements : Z.of_nat (base.size table) < 2 ^ 32 -> implements new_Dispatcher no_actions.
Proof.
  intros Hn. split.
  - split; [|intros dm n a Ha; simpl in Ha; by rewrite lookup_empty in Ha| | |done].
    + intros dm. unfold domain_ok. simpl. rewrite lookup_empty. intros n. by rewrite lookup_empty.
    + intros a. simpl. rewrite lookup_fmap. by destruct (table !! a) as [[dm n]|].
    + intros a x. simpl. rewrite lookup_fmap. destruct (table !! a); [|done]. intros [= <-]. simpl.
      symmetry. apply bool_decide_true. set_solver.
  - split; simpl; [intros dm q|intros dm dm' q]; by rewrite lookup_empty.
  - intros dm. unfold has_domain, has_scheduler. simpl. rewrite !lookup_empty. done.
Qed.

Lemma perform_all_implements os s r :
  implements s r -> Forall (fun o => known (registrations o)) os ->
  exists s', perform_all os s = (Val tt, s') /\ implements s' (foldl registry_step r os).
Proof.
  revert s r. induction os as [|o os IH]; intros s r Hs Hk; [by exists s|].
  apply Forall_cons in Hk as [Hk Hks]. destruct (perform_implements o s r Hs Hk) as (s1 & E & H1).
  destruct (IH _ _ H1 Hks) as (s' & E' & H'). exists s'. split; [|done]. simpl. by rewrite (dx_bind_val _ _ _ _ _ E).
Qed.

End Refinement.
(** [C14] Whatever classes of actions are registered and deregistered, in any order, the
    dispatcher goes on without an exception and is the abstract registry: a domain exists
    exactly while it has an action, holds exactly the actions of the table, and has one
    armed scheduler that looks at it; an action is enabled exactly if it has never been
    deregistered. *)
Theorem registrations_refine {W} `{Container W} (os : list registration) :
  Z.of_nat (base.size table) < 2 ^ 32 -> Forall (fun o => known (registrations o)) os ->
  exists s : Dispatcher W, perform_all os new_Dispatcher = (Val tt, s) /\ implements s (foldl registry_step no_actions os).
Proof. intros Hn Hk. by apply perform_all_implements; [apply new_implements|]. Qed.

End Registry.

Lemma registrations_refine_witness :
  exists s : Dispatcher doc, perform_all [Registers [1; 2]; Deregisters [1]; Registers [1]]%nat
    (new_Dispatcher {[ 1%nat := (chars "cu", chars "init"); 2%nat := (chars "cu", chars "stop") ]}) = (Val tt, s) /\
  implements {[ 1%nat := (chars "cu", chars "init"); 2%nat := (chars "cu", chars "stop") ]} s
    (mkRegistry {[ (chars "cu", chars "init") := 1%nat; (chars "cu", chars "stop") := 2%nat ]} {[ 1%nat ]}).
Proof.
  set (table := {[ 1%nat := (chars "cu", chars "init"); 2%nat := (chars "cu", chars "stop") ]} : gmap nat (list Z * list Z)).
  destruct (@registrations_refine table doc doc_container [Registers [1; 2]; Deregisters [1]; Registers [1]]%nat) as (s & E & H).
  - by vm_compute.
  - repeat constructor; by eexists.
  - exists s. split; [exact E|]. exact H.
Defined.
