(* ===== verification/DispatcherService.v ===== *)
(** * Serving requests

    The dispatcher from the outside: [DispatcherRegistry] says which actions it knows after
    a history of registrations, [DispatcherSpec] what dispatching and processing one
    message do.  Together: a request for a registered action is queued, the action is
    called with its message and the answer goes to the host the request names. *)

From S2P Require Import Prelude BufBuilder Bson BsonBuilder CDataWrapper Container ProcessingQueue Dispatcher DispatcherSpec DispatcherRegistry.
Import ProcessingQueue.Plain.

Local Open Scope Z_scope.

#[local] Existing Instance doc_container.

(** ** Requests *)

(** The domain and the name of the action a message asks for. *)
Definition asks (d : doc) (dm n : list Z) : Prop :=
  field_spec as_string (doc_find CS_CMDM_ACTION_DOMAIN d) = Ret dm /\
  field_spec as_string (doc_find CS_CMDM_ACTION_NAME d) = Ret n.

(** The queue of the domain has room. *)
Definition accepts (t : DocDispatcher) (dm : list Z) : Prop :=
  forall q x, das_map t !! dm = Some q -> schedulers t !! q = Some x ->
  in_deinit (base x) || full (bufferQueue (base x)) = false.

Lemma field_present {X} (f : val -> option X) key d x : field_spec f (doc_find key d) = Ret x -> has_field key d = true.
Proof. unfold field_spec, has_field, present. by destruct (doc_find key d). Qed.

Section Service.
Context (table : gmap nat (list Z * list Z)) (pf : list Z).
Implicit Types t : DocDispatcher.

(** The scheduler and the domain of a registered action. *)
Lemma implements_domain t r dm n a :
  implements table t r -> actions r !! (dm, n) = Some a ->
  exists q x v, das_map t !! dm = Some q /\ schedulers t !! q = Some x /\ armed x = true /\
    domains t !! domainActionsContainer x = Some v /\ actionDescriptionsMap v !! n = Some a.
Proof.
  intros [Hr Hl Hs] Ha. pose proof (rg_domains _ _ _ Hr dm) as Hd. unfold domain_ok in Hd.
  destruct (actionDomainExecutorMap t !! dm) as [d|] eqn:He; [|by rewrite Hd in Ha].
  destruct Hd as (_ & m & Hm & _ & Hn). destruct (proj1 (Hs dm)) as [q Hq]; [by exists d|].
  destruct (lk_link _ Hl _ _ Hq) as (_ & x & Hx & Har & Hc). exists q, x, (mkDomain dm m).
  rewrite (Hc d He). split_and!; [done..|]. simpl. by rewrite Hn.
Qed.

Lemma implements_live t r : implements table t r -> das_live t.
Proof. intros [_ Hl _] dm q Hq. destruct (lk_link _ Hl _ _ Hq) as (_ & x & Hx & _). eauto. Qed.

Lemma route_accepts t d dm n q x :
  asks d dm n -> das_map t !! dm = Some q -> schedulers t !! q = Some x -> armed x = true -> accepts t dm ->
  route pf t d = inl q.
Proof.
  intros [Hd Hn] Hq Hx Ha Hac. unfold route. rewrite (field_present _ _ _ _ Hd), (field_present _ _ _ _ Hn). cbn [negb].
  rewrite Hd, Hq, Hx, Ha. cbn [negb]. by rewrite (Hac q x).
Qed.

Lemma descriptor_of t r dm n a :
  registry_ok table t r -> actions r !! (dm, n) = Some a ->
  exists f, descriptors t !! a = Some (mkDesc f (bool_decide (a ∉ retired r)) dm n).
Proof.
  intros Hr Ha. destruct (the_descriptor_ok table t r a dm n Hr (rg_table _ _ _ Hr _ _ _ Ha)) as (f & _ & Hx). eauto.
Qed.

(** After an accepted dispatch only the queue and the new result are different. *)
Lemma dispatched_accepted t p d q x :
  schedulers t !! q = Some x -> packs t !! p = Some d -> (p < heap_next t)%nat -> heap_fresh t ->
  in_deinit (base x) || full (bufferQueue (base x)) = false ->
  let t' := dispatched t p (inl q) in
  packs t' !! p = Some d /\ heap_next t' = S (heap_next t) /\ heap_fresh t' /\ domains t' = domains t /\
  descriptors t' = descriptors t /\ submitted t' = submitted t /\
  exists x', schedulers t' !! q = Some x' /\ domainActionsContainer x' = domainActionsContainer x /\
    bufferQueue (base x') = bufferQueue (base x) ++ [Some p].
Proof.
  intros Hx Hp Hlt Hfr Hg. simpl. unfold queued. simpl. rewrite Hx. simpl. split_and!; [|done| |done..|].
  - by rewrite lookup_insert_ne by lia.
  - intros j Hj. simpl in *. rewrite lookup_insert_ne by lia. apply Hfr. lia.
  - eexists. rewrite lookup_insert_eq. split_and!; [done|done|]. simpl. unfold push. by rewrite Hg.
Qed.

Section Containers.
Context {W : Type} `{C : !Container W, L : !ContainerLaws W}.
Context (call : nat -> option W -> @action_end W * bool) (call' : nat -> option doc -> @action_end doc * bool).
Context (forwards : list Z -> bool).

(** A request for a registered action. *)
Lemma request_served (s : Dispatcher W) t r p d dm n a info :
  same_calls call call' -> related s t -> implements table t r -> heap_fresh t ->
  packs t !! p = Some d -> (p < heap_next t)%nat -> asks d dm n -> accepts t dm ->
  actions r !! (dm, n) = Some a -> a ∉ retired r ->
  has_field CS_CMDM_SUB_CMD d = false -> info_of d = Ret info ->
  match info with Some i => fits (response_doc i (call' a (message_of d)).1) | None => True end ->
  bytes pf -> (length pf <= 4096)%nat ->
  exists q x s1 s2, das_map s !! dm = Some q /\
    dispatchCommand pf (Some p) s = (Val (heap_next s), s1) /\
    (fun y => bufferQueue (base y)) <$> schedulers s1 !! q = (fun y => bufferQueue (base y) ++ [Some p]) <$> schedulers s !! q /\
    processBufferElement pf call forwards q p s1 = (Val tt, s2) /\
    related s2 (unfired a x (served call' forwards d a info (dispatched t p (inl q)))) /\
    match info with
    | Some i =>
        if forwards (answerIP i) then exists o w, submitted s2 = submitted s ++ [(answerIP i, o)] /\
          packs s2 !! o = Some w /\ c_holds (response_doc i (call' a (message_of d)).1) w
        else submitted s2 = submitted s
    | None => submitted s2 = submitted s
    end.
Proof.
  intros Hcall Hs Him Hfr Hp Hlt Hask Hacc Ha Hret Hsub Hinfo Hfit Hb Hlen.
  destruct (implements_domain t r dm n a Him Ha) as (q & x & v & Hq & Hx & Harm & Hv & Hva).
  destruct (descriptor_of t r dm n a (im_registry _ _ _ Him) Ha) as [f Hdesc]. rewrite bool_decide_true in Hdesc by done.
  pose proof (route_accepts t d dm n q x Hask Hq Hx Harm Hacc) as Hroute.
  destruct (dispatch_refines pf s t p d Hs Hp Hlt (implements_live t r Him) Hb Hlen) as (s1 & E1 & Hs1).
  rewrite Hroute in Hs1. set (t1 := dispatched t p (inl q)) in *.
  destruct (dispatched_accepted t p d q x Hx Hp Hlt Hfr (Hacc q x Hq Hx)) as (Hp1 & Hn1 & Hf1 & Hd1 & Hds1 & Hsub1 & x1 & Hx1 & Hc1 & Hb1).
  fold t1 in Hp1, Hn1, Hf1, Hd1, Hds1, Hsub1, Hx1.
  assert (request call' t1 q p d a (mkDesc f true dm n) info) as Hreq.
  { split; try done; [lia| |by rewrite Hds1]. destruct Hask as [_ Hname]. exists x1, v, n. by rewrite Hc1, Hd1. }
  pose proof (processBufferElement_doc pf call' forwards t1 q p d a _ info Hreq) as Hrun.
  pose proof (sim_processBufferElement pf call call' forwards Hcall q p s1 t1 Hs1) as Hsim. rewrite Hrun in Hsim.
  destruct Hsim as ([] & s2 & E2 & _ & Hs2). exists q, (mkDesc f true dm n), s1, s2. split_and!; try done.
  - by rewrite (rl_das_map _ _ Hs).
  - rewrite (rl_schedulers _ _ Hs), (rl_schedulers _ _ Hs1), Hx, Hx1. simpl. by rewrite Hb1.
  - assert (submitted s = submitted t1) as Hss by (by rewrite (rl_submitted _ _ Hs)).
    pose proof (rl_submitted _ _ Hs2) as Hsm. simpl in Hsm. rewrite Hss.
    destruct info as [i|]; simpl in Hsm; [|by rewrite app_nil_r in Hsm].
    destruct (forwards (answerIP i)) eqn:Hfw; [|by rewrite app_nil_r in Hsm].
    pose proof (rl_packs _ _ Hs2 (answer_at call' d a (Some i) t1)) as Hpk. simpl in Hpk. rewrite Hfw in Hpk. simpl in Hpk.
    rewrite lookup_insert_eq in Hpk. destruct Hpk as (w & Hw & Hh & _). by exists (answer_at call' d a (Some i) t1), w.
Qed.

(** [C5] A request for an action that is registered and was never deregistered, that names no
    sub-command and whose fields for the answer have their types, to a domain whose queue has
    room and is not being shut down, is accepted and queued.  Processing it calls the action
    with the message of the request and gives the forwarder the answer the request asks
    for, if it fits the size limit, addressed to the host and the action it names, with its
    number, and with the result of the action, or the exception it threw.  Of the messages
    made on the way only the one the action kept and the answer the forwarder took are left
    (the state is that of [served]); the request stays for the worker of the queue. *)
Theorem registered_request_is_served (s : Dispatcher W) t r p d dm n a info :
  same_calls call call' -> related s t -> implements table t r -> heap_fresh t ->
  packs t !! p = Some d -> (p < heap_next t)%nat -> asks d dm n -> accepts t dm ->
  actions r !! (dm, n) = Some a -> a ∉ retired r ->
  has_field CS_CMDM_SUB_CMD d = false -> info_of d = Ret info ->
  match info with Some i => fits (response_doc i (call' a (message_of d)).1) | None => True end ->
  bytes pf -> (length pf <= 4096)%nat ->
  exists q x s1 s2, das_map s !! dm = Some q /\
    dispatchCommand pf (Some p) s = (Val (heap_next s), s1) /\
    (fun y => bufferQueue (base y)) <$> schedulers s1 !! q = (fun y => bufferQueue (base y) ++ [Some p]) <$> schedulers s !! q /\
    processBufferElement pf call forwards q p s1 = (Val tt, s2) /\
    related s2 (unfired a x (served call' forwards d a info (dispatched t p (inl q)))) /\
    match info with
    | Some i =>
        if forwards (answerIP i) then exists o w, submitted s2 = submitted s ++ [(answerIP i, o)] /\
          packs s2 !! o = Some w /\ c_holds (response_doc i (call' a (message_of d)).1) w
        else submitted s2 = submitted s
    | None => submitted s2 = submitted s
    end.
Proof. apply request_served. Qed.

(** [C15] Every message gets a verdict in a new result document, without an exception: the
    code 0, and then the message is still there, at the end of the queue of its domain; or
    the code and the texts of the error, and then the message has been deleted and no
    queue has changed. *)
Theorem dispatch_verdict (s : Dispatcher W) t p d :
  related s t -> packs t !! p = Some d -> (p < heap_next t)%nat -> das_live t -> bytes pf -> (length pf <= 4096)%nat ->
  exists s' w, dispatchCommand pf (Some p) s = (Val (heap_next s), s') /\
    packs s' !! heap_next s = Some w /\ c_holds (result_doc (route pf t d)) w /\
    match route pf t d with
    | inl q => (exists w', packs s' !! p = Some w' /\ c_holds d w') /\ exists x, schedulers s !! q = Some x /\
        schedulers s' = <[q := mkDas true (domainActionsContainer x) (push (Some p) (base x)).2]> (schedulers s)
    | inr _ => packs s' !! p = None /\ schedulers s' = schedulers s
    end.
Proof.
  intros Hs Hp Hlt Hl Hb Hlen. destruct (dispatch_refines pf s t p d Hs Hp Hlt Hl Hb Hlen) as (s' & E & Hs').
  pose proof (rl_packs _ _ Hs' (heap_next t)) as Hres. pose proof (rl_packs _ _ Hs' p) as Hmsg.
  pose proof (rl_schedulers _ _ Hs') as Hsch. rewrite (rl_next _ _ Hs) in *. rewrite (rl_schedulers _ _ Hs).
  assert (forall q, route pf t d = inl q -> exists x, schedulers t !! q = Some x /\ armed x = true) as Hq.
  { intros q. unfold route. destruct (negb _); [done|]. destruct (negb _); [done|]. destruct (field_spec _ _); [|done|done].
    destruct (das_map t !! _) as [q'|]; [|done]. destruct (schedulers t !! q') as [x|] eqn:Hx; [|done].
    destruct (armed x) eqn:Harm; cbn [negb]; [|done]. destruct (_ || _); [done|]. intros [= <-]. eauto. }
  destruct (route pf t d) as [q|e] eqn:Hr.
  - destruct (Hq q eq_refl) as (x & Hx & Harm). simpl in *. unfold queued in *. simpl in *. rewrite Hx in *. simpl in *.
    rewrite lookup_insert_eq in Hres. destruct Hres as (w & Hw & Hh & _). rewrite lookup_insert_ne, Hp in Hmsg by lia.
    destruct Hmsg as (w' & Hw' & Hh' & _). exists s', w. split_and!; [done|done|done|by exists w'|]. exists x. by rewrite <- Harm.
  - simpl in *. rewrite lookup_insert_eq in Hres. destruct Hres as (w & Hw & Hh & _).
    rewrite lookup_insert_ne, lookup_delete_eq in Hmsg by lia. by exists s', w.
Qed.

(** An action that was deregistered once stays disabled when it is registered again:
    its requests are still accepted and queued, but processing one does not call the
    action and sends no answer. *)
Theorem retired_action_is_silent (s : Dispatcher W) t r p d dm n a :
  same_calls call call' -> related s t -> implements table t r -> packs t !! p = Some d -> asks d dm n ->
  actions r !! (dm, n) = Some a -> a ∈ retired r ->
  exists q x s', das_map s !! dm = Some q /\ processBufferElement pf call forwards q p s = (Val tt, s') /\
    related s' (unfired a x t) /\ submitted s' = submitted s.
Proof.
  intros Hcall Hs Him Hp [_ Hname] Ha Hret.
  destruct (implements_domain t r dm n a Him Ha) as (q & x & v & Hq & Hx & Harm & Hv & Hva).
  destruct (descriptor_of t r dm n a (im_registry _ _ _ Him) Ha) as [f Hdesc]. rewrite bool_decide_false in Hdesc by auto.
  assert (processBufferElement pf call' forwards q p t = (Val tt, unfired a (mkDesc f false dm n) t)) as Hrun.
  { unfold processBufferElement, only_chaos.
    rewrite (dx_bind_val _ _ _ x t) by (unfold the_scheduler, mbind, DX_bind, dx_gets, dx_access; by rewrite Hx).
    rewrite (dx_bind_val _ _ _ _ _ (field_string_read _ p t d n Hp Hname)).
    rewrite (dx_bind_val _ _ _ v t) by (unfold the_domain, mbind, DX_bind, dx_gets, dx_access; by rewrite Hv).
    rewrite Hva. unfold setFired, the_descriptor, put_descriptor, dx_modify, mbind, DX_bind, dx_gets, dx_access, mret, DX_ret.
    rewrite Hdesc. done. }
  pose proof (sim_processBufferElement pf call call' forwards Hcall q p s t Hs) as Hsim. rewrite Hrun in Hsim.
  destruct Hsim as ([] & s' & E & _ & Hs'). exists q, (mkDesc f false dm n), s'.
  split_and!; [by rewrite (rl_das_map _ _ Hs)|done|done|]. by rewrite (rl_submitted _ _ Hs), (rl_submitted _ _ Hs').
Qed.

End Containers.
End Service.

(** ** A dispatcher at work *)

Module Witness.

(** One action, [init] of the domain [cu]. *)
Definition table : gmap nat (list Z * list Z) := {[ 7%nat := (chars "cu", chars "init") ]}.
Definition pf : list Z := chars "dispatchCommand".

(** A request with a message and a host for the answer. *)
Definition question : doc :=
  DCons CS_CMDM_ACTION_DOMAIN (VString (chars "cu"))
    (DCons CS_CMDM_ACTION_NAME (VString (chars "init"))
      (DCons CS_CMDM_ACTION_MESSAGE (VObject (DCons (chars "x") (VInt 3) DNil))
        (DCons CS_CMDM_ANSWER_ID (VInt 12) (DCons CS_CMDM_ANSWER_HOST_IP (VString (chars "host:1")) DNil)))).

(** The action answers with its message; every message is forwarded. *)
Definition echo {W} (a : nat) (m : option W) : @action_end W * bool := (AReturns m, false).
Definition always (ip : list Z) : bool := true.
Definition info := mkInfo 12 (chars "host:1") [] [].

(** A dispatcher after some registrations, with one message. *)
Definition after (os : list registration) {W} (w : W) : Dispatcher W :=
  let s : Dispatcher W := (perform_all os (new_Dispatcher table)).2 in
  mkDispatcher (descriptors s) (domains s) (schedulers s) {[ heap_next s := w ]} (actionDomainExecutorMap s) (das_map s)
    (submitted s) (S (heap_next s)).
Definition at_work (os : list registration) : DocDispatcher := after os question.
Definition here (os : list registration) : nat := pred (heap_next (at_work os)).

Lemma same_echo {W} `{Container W} : same_calls (W := W) echo echo.
Proof. intros a [w|] [d|]; done. Qed.

Lemma few : Z.of_nat (base.size table) < 2 ^ 32.
Proof. by vm_compute. Qed.

Lemma classes (os : list registration) : Forall (fun o => registrations o = [7%nat]) os -> Forall (fun o => known table (registrations o)) os.
Proof. intros Hos. eapply Forall_impl; [exact Hos|]. intros o ->. apply Forall_singleton. by eexists. Qed.

Lemma after_implements os {W} (w : W) :
  Forall (fun o => registrations o = [7%nat]) os -> implements table (after os w) (foldl (registry_step table) no_actions os).
Proof.
  intros Hos%classes. destruct (perform_all_implements table os (new_Dispatcher table : Dispatcher W) no_actions
    (new_implements table few) Hos) as (s & E & [[H1 H2 H3 H4 H5] Hl Hs]).
  unfold after. rewrite E. simpl. split; [split; try done| |done].
  - intros dm. apply (domain_frame s _ _ _ dm (H1 dm)); simpl; auto.
  - split; [|apply Hl]. intros dm q Hq. destruct (lk_link _ Hl _ _ Hq) as (Hlt & Hrest). split; [simpl; lia|exact Hrest].
Qed.

Lemma question_fits : fits question.
Proof. apply (bool_decide_unpack _). by vm_compute. Qed.

(** The dispatcher with a container and the one with its document. *)
Lemma after_related os (w : CDataWrapper) :
  holds question [] w -> Forall (fun o => registrations o = [7%nat]) os -> os = [Registers [7%nat]] \/ os = [Registers [7]; Deregisters [7]; Registers [7]]%nat ->
  @related _ (wrapper_container 0) (after os w) (at_work os).
Proof.
  intros Hw _ Hos. split; try (by destruct Hos; subst os). intros p. unfold at_work, after. simpl.
  assert (heap_next (perform_all os (new_Dispatcher table : Dispatcher CDataWrapper)).2 =
    heap_next (perform_all os (new_Dispatcher table : DocDispatcher)).2) as -> by (by destruct Hos; subst os).
  destruct (decide (p = heap_next (perform_all os (new_Dispatcher table : DocDispatcher)).2)) as [->|Hne].
  - rewrite !lookup_singleton_eq. exists w. split_and!; [done|done|apply question_fits].
  - rewrite !lookup_singleton_ne by done. done.
Qed.

Lemma a_container : exists w, holds question [] w.
Proof. destruct (from_holds 0 question [] question_fits) as (w & _ & Hw). by exists w. Qed.

Definition once := [Registers [7%nat]].
Definition again := [Registers [7%nat]; Deregisters [7%nat]; Registers [7%nat]].

Lemma dispatch_verdict_witness :
  exists (s s' : Dispatcher CDataWrapper) w, @dispatchCommand _ (wrapper_container 0) pf (Some (here once)) s = (Val (heap_next s), s') /\
    packs s' !! heap_next s = Some w /\ holds (DCons CS_CMDM_ACTION_SUBMISSION_ERROR_CODE (VInt 0) DNil) [] w.
Proof.
  destruct a_container as [w Hw].
  assert (@related _ (wrapper_container 0) (after once w) (at_work once)) as Hrel by (apply after_related; [done| |by left]; by repeat constructor).
  destruct (@dispatch_verdict pf CDataWrapper (wrapper_container 0) (wrapper_laws 0) (after once w) (at_work once) (here once) question Hrel)
    as (s' & w' & E & Hp & Hh & _); [by vm_compute|by apply Nat.ltb_lt; vm_compute|
      apply (implements_live table _ (foldl (registry_step table) no_actions once)), after_implements; by repeat constructor
      |by apply (bool_decide_unpack _); vm_compute|by apply Nat.leb_le; vm_compute|].
  exists (after once w), s', w'. split_and!; [done|done|]. exact Hh.
Defined.

Lemma registered_request_is_served_witness :
  exists (s s1 s2 : Dispatcher CDataWrapper) q o w,
    @dispatchCommand _ (wrapper_container 0) pf (Some (here once)) s = (Val (heap_next s), s1) /\
    @processBufferElement _ (wrapper_container 0) pf echo always q (here once) s1 = (Val tt, s2) /\
    submitted s2 = submitted s ++ [(chars "host:1", o)] /\ packs s2 !! o = Some w /\
    holds (response_doc info (AReturns (Some (DCons (chars "x") (VInt 3) DNil)))) [] w.
Proof.
  destruct a_container as [w Hw].
  assert (@related _ (wrapper_container 0) (after once w) (at_work once)) as Hrel by (apply after_related; [done| |by left]; by repeat constructor).
  destruct (@registered_request_is_served table pf CDataWrapper (wrapper_container 0) (wrapper_laws 0) echo echo always (after once w) (at_work once)
    (foldl (registry_step table) no_actions once) (here once) question (chars "cu") (chars "init") 7%nat (Some info)
    same_echo Hrel) as (q & x & s1 & s2 & _ & E1 & _ & E2 & _ & o & w' & Hsub & Hp & Hh).
  - apply after_implements. by repeat constructor.
  - intros o Ho. change (heap_next (at_work once)) with 3%nat in Ho. apply lookup_singleton_ne. vm_compute. lia.
  - by vm_compute.
  - by apply Nat.ltb_lt; vm_compute.
  - split; by vm_compute.
  - intros q x Hq Hx. change (das_map (at_work once) !! chars "cu") with (Some 1%nat) in Hq. injection Hq as <-.
    vm_compute in Hx. by injection Hx as <-.
  - by vm_compute.
  - change (retired _) with (∅ : gset nat). set_solver.
  - by vm_compute.
  - by vm_compute.
  - apply (bool_decide_unpack _). by vm_compute.
  - apply (bool_decide_unpack _). by vm_compute.
  - by apply Nat.leb_le; vm_compute.
  - exists (after once w), s1, s2, q, o, w'. by split_and!.
Defined.

Lemma retired_action_is_silent_witness :
  exists (s s' : Dispatcher CDataWrapper) q,
    @processBufferElement _ (wrapper_container 0) pf echo always q (here again) s = (Val tt, s') /\ submitted s' = submitted s.
Proof.
  destruct a_container as [w Hw].
  assert (@related _ (wrapper_container 0) (after again w) (at_work again)) as Hrel by (apply after_related; [done| |by right]; by repeat constructor).
  destruct (@retired_action_is_silent table pf CDataWrapper (wrapper_container 0) (wrapper_laws 0) echo echo always (after again w) (at_work again)
    (foldl (registry_step table) no_actions again) (here again) question (chars "cu") (chars "init") 7%nat
    same_echo Hrel) as (q & x & s' & _ & E & _ & Hsub).
  - apply after_implements. by repeat constructor.
  - by vm_compute.
  - split; by vm_compute.
  - by vm_compute.
  - change (retired _) with ({[7%nat]} ∪ ∅ : gset nat). set_solver.
  - by exists (after again w), s', q.
Defined.

End Witness.
