(* ===== verification/BatchCommand.v ===== *)
(** * Batch commands

    Models [chaos/common/batch_command/BatchCommand.h] and [.cpp]: the object a control
    unit runs in a sandbox, its features and its running property.  The handlers a
    subclass overrides are user code: a call of one is described by the calls it makes
    on the command and by how it ends.  Texts of fault descriptions are left out. *)

From S2P Require Import Prelude.

Local Open Scope Z_scope.

(** ** Constants of [BatchCommandTypes.h] *)

Inductive event :=
  | EVT_QUEUED | EVT_WAITING | EVT_RUNNING | EVT_PAUSED | EVT_COMPLETED | EVT_FAULT | EVT_KILLED.
#[export] Instance event_eq_dec : EqDecision event.
Proof. solve_decision. Defined.
Inductive sandbox_event := EVT_RUN | EVT_HEART_BEAT.

Definition SUBMIT_AND_Stack : Z := 0.
Definition SUBMIT_AND_Kill : Z := 1.
Definition SUBMIT_NORMAL : Z := 2.

Definition FF_SET_SCHEDULER_DELAY : Z := 1.
Definition FF_SET_SUBMISSION_RETRY : Z := 2.
Definition FF_SET_COMMAND_TIMEOUT : Z := 4.
Definition FF_LOCK_USER_MOD : Z := 8.

Definition HT_Set : Z := 1.
Definition HT_Acquisition : Z := 2.
Definition HT_Correlation : Z := 4.

Definition RP_Exsc : Z := 0.
Definition RP_Normal : Z := 1.
Definition RP_End : Z := 2.
Definition RP_Fault : Z := 3.

(** ** The command *)

Record Features := mkFeatures {
  featuresFlag : Z;
  featureSchedulerStepsDelay : Z;
  featureSubmissionRetryDelay : Z;
  featureCommandTimeout : Z }.

(** [lockFeaturePropertyFlag] as its three bits; [implementedHandler] is the virtual
    method, a constant of the class. *)
Record BatchCommand := mkCmd {
  unique_id : Z;
  implementedHandler : Z;
  submissionRule : Z;
  already_setupped : bool;
  command_set_time_usec : Z;
  lockFeaturePropertyFlag : bool * bool * bool;
  commandFeatures : Features;
  runningProperty : Z;
  fault_code : Z }.

(** The constructor. *)
Definition new_BatchCommand (uid mask : Z) : BatchCommand :=
  mkCmd uid mask SUBMIT_NORMAL false 0 (false, false, false) (mkFeatures 0 0 0 0) RP_Normal 0.

Definition with_features (c : BatchCommand) (f : Features) : BatchCommand :=
  mkCmd (unique_id c) (implementedHandler c) (submissionRule c) (already_setupped c)
    (command_set_time_usec c) (lockFeaturePropertyFlag c) f (runningProperty c) (fault_code c).
Definition with_property (c : BatchCommand) (p : Z) : BatchCommand :=
  mkCmd (unique_id c) (implementedHandler c) (submissionRule c) (already_setupped c)
    (command_set_time_usec c) (lockFeaturePropertyFlag c) (commandFeatures c) p (fault_code c).
Definition with_fault_code (c : BatchCommand) (code : Z) : BatchCommand :=
  mkCmd (unique_id c) (implementedHandler c) (submissionRule c) (already_setupped c)
    (command_set_time_usec c) (lockFeaturePropertyFlag c) (commandFeatures c) (runningProperty c) code.
Definition setupped (c : BatchCommand) : BatchCommand :=
  mkCmd (unique_id c) (implementedHandler c) (submissionRule c) true
    (command_set_time_usec c) (lockFeaturePropertyFlag c) (commandFeatures c) (runningProperty c) (fault_code c).

(** [lockFeaturePropertyFlag.test(0) || lockFeaturePropertyFlag.test(2)] *)
Definition features_locked (c : BatchCommand) : bool :=
  let '(b0, _, b2) := lockFeaturePropertyFlag c in (b0 || b2)%bool.

(** The two overloads of [setFeatures], by the width of the value. *)
Definition setFeatures_u32 (features value : Z) (c : BatchCommand) : BatchCommand :=
  if features_locked c then c else
  let f := commandFeatures c in
  if features =? FF_SET_SUBMISSION_RETRY then
    with_features c (mkFeatures (Z.lor (featuresFlag f) features) (featureSchedulerStepsDelay f)
                       value (featureCommandTimeout f))
  else c.
Definition setFeatures_u64 (features value : Z) (c : BatchCommand) : BatchCommand :=
  if features_locked c then c else
  let f := commandFeatures c in
  if features =? FF_SET_SCHEDULER_DELAY then
    with_features c (mkFeatures (Z.lor (featuresFlag f) features) value
                       (featureSubmissionRetryDelay f) (featureCommandTimeout f))
  else if features =? FF_SET_COMMAND_TIMEOUT then
    with_features c (mkFeatures (Z.lor (featuresFlag f) features) (featureSchedulerStepsDelay f)
                       (featureSubmissionRetryDelay f) value)
  else c.

Definition clearFeatures (features : Z) (c : BatchCommand) : BatchCommand :=
  if features_locked c then c else
  let f := commandFeatures c in
  let flag := Z.lxor (featuresFlag f) features in
  with_features c
    (if features =? FF_SET_SCHEDULER_DELAY then
       mkFeatures flag 0 (featureSubmissionRetryDelay f) (featureCommandTimeout f)
     else if features =? FF_SET_SUBMISSION_RETRY then
       mkFeatures flag (featureSchedulerStepsDelay f) 0 (featureCommandTimeout f)
     else if features =? FF_SET_COMMAND_TIMEOUT then
       mkFeatures flag (featureSchedulerStepsDelay f) (featureSubmissionRetryDelay f) 0
     else mkFeatures flag (featureSchedulerStepsDelay f) (featureSubmissionRetryDelay f)
            (featureCommandTimeout f)).

Definition setRunningProperty (property : Z) (c : BatchCommand) : BatchCommand :=
  let '(_, b1, _) := lockFeaturePropertyFlag c in if b1 then c else with_property c property.

(** The macro [SET_NAMED_FAULT]. *)
Definition set_fault (code : Z) (c : BatchCommand) : BatchCommand :=
  with_fault_code (setRunningProperty RP_Fault c) code.

(** ** User handlers *)

Inductive ucall :=
  | USetRunningProperty (p : Z)
  | USetFeatures32 (f v : Z)
  | USetFeatures64 (f v : Z)
  | UClearFeatures (f : Z).

(** A [CException] with its code, a [std::exception], or anything else. *)
Inductive exn := CExc (code : Z) | StdExc | OtherExc.
Inductive uend := UReturn (b : bool) | UThrow (e : exn).
Record user := mkUser { ucalls : list ucall; uends : uend }.

Definition do_call (c : BatchCommand) (u : ucall) : BatchCommand :=
  match u with
  | USetRunningProperty p => setRunningProperty p c
  | USetFeatures32 f v => setFeatures_u32 f v c
  | USetFeatures64 f v => setFeatures_u64 f v c
  | UClearFeatures f => clearFeatures f c
  end.
Definition do_calls (c : BatchCommand) (u : user) : BatchCommand := foldl do_call c (ucalls u).

(** The fault code of the three [catch] clauses, [std] for a [std::exception]. *)
Definition exn_code (std : Z) (e : exn) : Z :=
  match e with CExc code => code | StdExc => std | OtherExc => std - 1 end.

(** A handler called inside the three [catch] clauses of a functor. *)
Definition guarded (u : user) (c : BatchCommand) : BatchCommand :=
  let c := do_calls c u in
  match uends u with UReturn _ => c | UThrow e => set_fault (exn_code (-1) e) c end.

Definition commandPre (now : Z) (c : BatchCommand) : BatchCommand :=
  mkCmd (unique_id c) (implementedHandler c) (submissionRule c) (already_setupped c)
    now (lockFeaturePropertyFlag c) (commandFeatures c) (runningProperty c) (fault_code c).

(** [lastCmdStepStart] is read through [shared_stat]. *)
Definition commandPost (lastCmdStepStart : Z) (timeoutHandler : user) (c : BatchCommand) : BatchCommand :=
  if Z.land (featuresFlag (commandFeatures c)) FF_SET_COMMAND_TIMEOUT =? 0 then c
  else if featureCommandTimeout (commandFeatures c) <=? u64 (lastCmdStepStart - command_set_time_usec c) then
    let c' := do_calls c timeoutHandler in
    match uends timeoutHandler with
    | UReturn true => set_fault (-1) c'
    | UReturn false => c'
    | UThrow e => set_fault (exn_code (-2) e) c'
    end
  else c.

(** ** What commands and users cannot change *)

(** The identity of a command, and a valid running property. *)
Record same_cmd (c c' : BatchCommand) : Prop := {
  sc_uid : unique_id c' = unique_id c;
  sc_mask : implementedHandler c' = implementedHandler c;
  sc_rule : submissionRule c' = submissionRule c;
  sc_lock : (lockFeaturePropertyFlag c').1.2 = (lockFeaturePropertyFlag c).1.2;
  sc_setup : already_setupped c = true -> already_setupped c' = true;
  sc_prop : 0 <= runningProperty c <= 3 -> 0 <= runningProperty c' <= 3 }.

#[export] Instance same_cmd_refl : Reflexive same_cmd.
Proof. by split. Qed.
#[export] Instance same_cmd_trans : Transitive same_cmd.
Proof. intros c1 c2 c3 [] []. split; try congruence; auto. Qed.

(** Users that call [setRunningProperty] only with the values of the enumeration. *)
Definition ucall_ok (u : ucall) : Prop :=
  match u with USetRunningProperty p => 0 <= p <= 3 | _ => True end.
Definition user_ok (u : user) : Prop := Forall ucall_ok (ucalls u).

Lemma setRunningProperty_same p c : 0 <= p <= 3 -> same_cmd c (setRunningProperty p c).
Proof. intros Hp. unfold setRunningProperty. destruct (lockFeaturePropertyFlag c) as [[b0 b1] b2]. by destruct b1. Qed.

Lemma do_call_same c u : ucall_ok u -> same_cmd c (do_call c u).
Proof.
  destruct u; simpl; intros Hu.
  - by apply setRunningProperty_same.
  - unfold setFeatures_u32. by repeat case_match.
  - unfold setFeatures_u64. by repeat case_match.
  - unfold clearFeatures. by repeat case_match.
Qed.

Lemma do_calls_same c u : user_ok u -> same_cmd c (do_calls c u).
Proof.
  unfold user_ok, do_calls. generalize (ucalls u). intros l H. revert c.
  induction H as [|x l Hx _ IH]; intros c; simpl; [done|]. etrans; [by apply do_call_same|apply IH].
Qed.

Lemma set_fault_same code c : same_cmd c (set_fault code c).
Proof.
  etrans; [apply (setRunningProperty_same RP_Fault)|by split]. unfold RP_Fault. lia.
Qed.

Lemma guarded_same u c : user_ok u -> same_cmd c (guarded u c).
Proof.
  intros Hu. unfold guarded. destruct (uends u); [by apply do_calls_same|].
  etrans; [by apply do_calls_same|apply set_fault_same].
Qed.

Lemma commandPost_same t u c : user_ok u -> same_cmd c (commandPost t u c).
Proof.
  intros Hu. unfold commandPost. repeat case_match; try done; try (by apply do_calls_same).
  - etrans; [by apply do_calls_same|apply set_fault_same].
  - etrans; [by apply do_calls_same|apply set_fault_same].
Qed.

(** ** Features *)

(** Clearing a feature that is not set turns it on: [clearFeatures] toggles the flag.
    For the command timeout, with its value reset to 0, the next step of the command
    times out: the command faults although no timeout was ever asked for. *)
Theorem clear_unset_timeout_faults c lastCmdStepStart :
  features_locked c = false -> lockFeaturePropertyFlag c = (false, false, false) ->
  Z.testbit (featuresFlag (commandFeatures c)) 2 = false ->
  runningProperty (commandPost lastCmdStepStart (mkUser [] (UReturn true))
    (clearFeatures FF_SET_COMMAND_TIMEOUT c)) = RP_Fault.
Proof.
  intros Hl Hlock Hbit. unfold clearFeatures. rewrite Hl. unfold commandPost. simpl.
  assert (Z.land (Z.lxor (featuresFlag (commandFeatures c)) FF_SET_COMMAND_TIMEOUT) FF_SET_COMMAND_TIMEOUT =? 0
    = false) as ->.
  { apply Z.eqb_neq. intros E. apply (f_equal (fun z => Z.testbit z 2)) in E.
    rewrite Z.land_spec, Z.lxor_spec, Hbit in E. by rewrite Z.bits_0 in E. }
  assert (0 <=? u64 (lastCmdStepStart - command_set_time_usec c) = true) as ->.
  { apply Z.leb_le, uwrap_range. lia. }
  unfold do_calls, set_fault, setRunningProperty. simpl. by rewrite Hlock.
Qed.

Lemma clear_unset_timeout_faults_witness :
  runningProperty (commandPost 1000 (mkUser [] (UReturn true))
    (clearFeatures FF_SET_COMMAND_TIMEOUT (new_BatchCommand 7 6))) = RP_Fault.
Proof. by apply (clear_unset_timeout_faults (new_BatchCommand 7 6) 1000). Defined.
