(* ===== verification/BatchSandbox.v ===== *)
(** * The command sandbox

    Models [chaos/common/batch_command/BatchCommandSandbox.cpp]: the scheduler that runs
    the commands of a control unit.  Commands live in an explicit heap, so that a use of
    a deleted command is visible.  The checker thread ([checkNextCommand]) and the
    scheduler thread ([runCommand]) are given by the bodies of their loops, cut where
    they release the mutex of the current command; the waits are results of the bodies.
    [None] is a use of a null or deleted command or a read outside of the decision
    table. *)

From S2P Require Import Prelude BatchCommand.

Local Open Scope Z_scope.

(** ** The decision table *)

Inductive RunningVSSubmissioneResult :=
  | RSR_NO_CHANGE | RSR_TIMED_RETRY | RSR_STACK_CURENT_COMMAND | RSR_KILL_KURRENT_COMMAND
  | RSR_CURRENT_CMD_HAS_ENDED | RSR_CURRENT_CMD_HAS_FAULTED.

Definition running_vs_submition : list (list RunningVSSubmissioneResult) :=
  [ [RSR_TIMED_RETRY; RSR_TIMED_RETRY; RSR_NO_CHANGE];
    [RSR_STACK_CURENT_COMMAND; RSR_KILL_KURRENT_COMMAND; RSR_NO_CHANGE];
    [RSR_CURRENT_CMD_HAS_ENDED; RSR_CURRENT_CMD_HAS_ENDED; RSR_CURRENT_CMD_HAS_ENDED];
    [RSR_CURRENT_CMD_HAS_FAULTED; RSR_CURRENT_CMD_HAS_FAULTED; RSR_CURRENT_CMD_HAS_FAULTED] ].

Definition CHECK_RUNNING_VS_SUBMISSION (r s : Z) : option RunningVSSubmissioneResult :=
  row ← running_vs_submition !! Z.to_nat r; row !! Z.to_nat s.

(** ** State *)

Record SandboxStat := mkStat { lastCmdStepStart : Z; lastCmdStepTime : Z; lastHBTime : Z }.

(** [waithForNextCheck] and [threadSchedulerPauseCondition] are the [answered] flags of
    the two semaphores; [log] and [slog] are the calls of the event handler, in order. *)
Record sandbox := mkSandbox {
  cmds : gmap nat BatchCommand;
  currentExecutingCommand : option nat;
  acquireHandlerFunctor : option nat;
  correlationHandlerFunctor : option nat;
  command_submitted_queue : list (Z * nat);
  commandStack : list nat;
  scheduleWorkFlag : bool;
  waithForNextCheck : bool;
  threadSchedulerPauseCondition : bool;
  stat : SandboxStat;
  deinitiated : bool;
  log : list (Z * event);
  slog : list sandbox_event }.

Definition SB := ST sandbox.

Definition set_cmds f s := mkSandbox (f (cmds s)) (currentExecutingCommand s) (acquireHandlerFunctor s)
  (correlationHandlerFunctor s) (command_submitted_queue s) (commandStack s) (scheduleWorkFlag s)
  (waithForNextCheck s) (threadSchedulerPauseCondition s) (stat s) (deinitiated s) (log s) (slog s).
Definition set_current o s := mkSandbox (cmds s) o (acquireHandlerFunctor s)
  (correlationHandlerFunctor s) (command_submitted_queue s) (commandStack s) (scheduleWorkFlag s)
  (waithForNextCheck s) (threadSchedulerPauseCondition s) (stat s) (deinitiated s) (log s) (slog s).
Definition set_functors a c s := mkSandbox (cmds s) (currentExecutingCommand s) a c
  (command_submitted_queue s) (commandStack s) (scheduleWorkFlag s)
  (waithForNextCheck s) (threadSchedulerPauseCondition s) (stat s) (deinitiated s) (log s) (slog s).
Definition set_queue q s := mkSandbox (cmds s) (currentExecutingCommand s) (acquireHandlerFunctor s)
  (correlationHandlerFunctor s) q (commandStack s) (scheduleWorkFlag s)
  (waithForNextCheck s) (threadSchedulerPauseCondition s) (stat s) (deinitiated s) (log s) (slog s).
Definition set_stack k s := mkSandbox (cmds s) (currentExecutingCommand s) (acquireHandlerFunctor s)
  (correlationHandlerFunctor s) (command_submitted_queue s) k (scheduleWorkFlag s)
  (waithForNextCheck s) (threadSchedulerPauseCondition s) (stat s) (deinitiated s) (log s) (slog s).
Definition set_flags w a b s := mkSandbox (cmds s) (currentExecutingCommand s) (acquireHandlerFunctor s)
  (correlationHandlerFunctor s) (command_submitted_queue s) (commandStack s) w a b
  (stat s) (deinitiated s) (log s) (slog s).
Definition set_stat t s := mkSandbox (cmds s) (currentExecutingCommand s) (acquireHandlerFunctor s)
  (correlationHandlerFunctor s) (command_submitted_queue s) (commandStack s) (scheduleWorkFlag s)
  (waithForNextCheck s) (threadSchedulerPauseCondition s) t (deinitiated s) (log s) (slog s).
Definition add_log l s := mkSandbox (cmds s) (currentExecutingCommand s) (acquireHandlerFunctor s)
  (correlationHandlerFunctor s) (command_submitted_queue s) (commandStack s) (scheduleWorkFlag s)
  (waithForNextCheck s) (threadSchedulerPauseCondition s) (stat s) (deinitiated s) (log s ++ l) (slog s).
Definition add_slog e s := mkSandbox (cmds s) (currentExecutingCommand s) (acquireHandlerFunctor s)
  (correlationHandlerFunctor s) (command_submitted_queue s) (commandStack s) (scheduleWorkFlag s)
  (waithForNextCheck s) (threadSchedulerPauseCondition s) (stat s) (deinitiated s) (log s) (slog s ++ [e]).

Definition zero_stat : SandboxStat := mkStat 0 0 0.
Definition new_sandbox : sandbox :=
  mkSandbox ∅ None None None [] [] false false false zero_stat false [] [].

(** ** The priority queue

    [top] may be any of the elements with the highest priority; [pick] chooses. *)
Definition max_priority (q : list (Z * nat)) : Z :=
  match q with [] => 0 | e :: q => foldr (fun e m => Z.max e.1 m) e.1 q end.
Definition candidates (q : list (Z * nat)) : list (Z * nat) :=
  filter (fun e => e.1 = max_priority q) q.
Definition top (pick : nat) (q : list (Z * nat)) : option nat :=
  let cs := candidates q in snd <$> cs !! (pick mod length cs)%nat.
Definition pop (p : nat) (q : list (Z * nat)) : list (Z * nat) := filter (fun e => e.2 <> p) q.

Section Sandbox.

(** Whether an event handler is set. *)
Context (event_handler : bool).

(** What a user handler does when it is called, by command and handler. *)
Inductive handler := HSet | HAcquire | HCorrelation | HTimeout.
Definition users := nat -> handler -> user.
Context (h : users).

(** ** Commands *)

Definition deref (p : nat) : SB BatchCommand := m ← st_gets cmds; st_lift (m !! p).
Definition store (p : nat) (c : BatchCommand) : SB unit := st_modify (set_cmds (<[p := c]>)).
Definition delete_command (p : nat) : SB unit := deref p;; st_modify (set_cmds (delete p)).
Definition handleCommandEvent (uid : Z) (e : event) : SB unit :=
  if event_handler then st_modify (add_log [(uid, e)]) else mret tt.
Definition handleSandboxEvent (e : sandbox_event) : SB unit :=
  if event_handler then st_modify (add_slog e) else mret tt.

Definition has_handler (c : BatchCommand) (ht : Z) : bool :=
  negb (Z.land (implementedHandler c) ht =? 0).

(** The part of [installHandler] that works on the command alone: [commandPre] and the
    set handler, with its [catch] clauses. *)
Definition setup (now : Z) (p : nat) (c : BatchCommand) : bool * BatchCommand :=
  let c := commandPre now c in
  if (negb (already_setupped c) && has_handler c HT_Set)%bool then
    let u := h p HSet in
    let c := do_calls c u in
    match uends u with
    | UReturn _ => (true, setupped c)
    | UThrow e => (false, set_fault (exn_code (-1) e) c)
    end
  else (true, c).

Definition installHandler (now : Z) (cmd_to_install : option nat) : SB bool :=
  match cmd_to_install with
  | None => st_modify (fun s => set_functors None None (set_current None s));; mret true
  | Some p =>
      c ← deref p;
      let '(installed, c) := setup now p c in
      store p c;;
      if ((implementedHandler c <=? 1) || negb installed)%bool then mret false
      else
        st_modify (fun s => set_current (Some p)
          (set_functors (if has_handler c HT_Acquisition then Some p else acquireHandlerFunctor s)
             (if has_handler c HT_Correlation then Some p else correlationHandlerFunctor s) s));;
        handleCommandEvent (unique_id c) EVT_RUNNING;;
        mret true
  end.

Definition removeHandler (cmd : option nat) : SB unit :=
  match cmd with
  | None => mret tt
  | Some p =>
      c ← deref p;
      if implementedHandler c <=? 1 then mret tt
      else st_modify (fun s => set_functors
        (if (has_handler c HT_Acquisition && bool_decide (acquireHandlerFunctor s = Some p))%bool
         then None else acquireHandlerFunctor s)
        (if (has_handler c HT_Correlation && bool_decide (correlationHandlerFunctor s = Some p))%bool
         then None else correlationHandlerFunctor s) s)
  end.

Definition killCurrentCommand : SB unit :=
  o ← st_gets currentExecutingCommand;
  p ← st_lift o; c ← deref p; store p (setRunningProperty RP_End c).

(** [p] is the address of the new queue element. *)
Definition enqueueCommand (p : nat) (c : BatchCommand) (priority : Z) : SB bool :=
  d ← st_gets deinitiated;
  if (d : bool) then mret false
  else
    store p c;;
    st_modify (fun s => set_queue (command_submitted_queue s ++ [(s32 priority, p)]) s);;
    handleCommandEvent (unique_id c) EVT_QUEUED;;
    st_modify (fun s => set_flags (scheduleWorkFlag s) true (threadSchedulerPauseCondition s) s);;
    mret true.

Definition wake_scheduler : SB unit :=
  st_modify (fun s => set_flags (scheduleWorkFlag s) (waithForNextCheck s) true s).
Definition wake_checker : SB unit :=
  st_modify (fun s => set_flags (scheduleWorkFlag s) true (threadSchedulerPauseCondition s) s).

(** ** The checker thread *)

(** How a round of the loop ends: at once or after a wait with the next round
    ([continue]), or with the test of [scheduleWorkFlag]. *)
Inductive round := RContinue | RWaitContinue | RTimedWaitContinue (ms : Z) | RTest | RWaitTest.

(** The event for a command that has ended, by its running property. *)
Definition end_event (c : BatchCommand) : SB unit :=
  if runningProperty c =? RP_End then handleCommandEvent (unique_id c) EVT_COMPLETED
  else if runningProperty c =? RP_Fault then handleCommandEvent (unique_id c) EVT_FAULT
  else mret tt.

(** The command that could not be installed. *)
Definition drop_failed (n : nat) : SB unit :=
  if event_handler then
    c ← deref n;
    (if Z.land (runningProperty c) RP_Fault =? 0 then mret tt
     else handleCommandEvent (unique_id c) EVT_FAULT);;
    delete_command n
  else mret tt.

(** A command with only a set handler: it runs and is gone. *)
Definition run_set_only (now : Z) (n : nat) : SB round :=
  installHandler now (Some n);;
  st_modify (fun s => set_queue (pop n (command_submitted_queue s)) s);;
  c ← deref n;
  (if runningProperty c =? RP_Fault then handleCommandEvent (unique_id c) EVT_FAULT
   else handleCommandEvent (unique_id c) EVT_COMPLETED);;
  delete_command n;;
  mret RContinue.

Definition stack_current (now : Z) (cur n : nat) : SB round :=
  st_modify (fun s => set_queue (pop n (command_submitted_queue s)) s);;
  ok ← installHandler now (Some n);
  (if (ok : bool) then
     st_modify (fun s => set_stack (cur :: commandStack s) s);;
     c ← deref cur;
     handleCommandEvent (unique_id c) EVT_PAUSED
   else drop_failed n);;
  wake_scheduler;;
  mret RTest.

(** The new command replaces the current one, for which [e] is reported. *)
Definition replace_current (now : Z) (cur n : nat) (e : event) : SB round :=
  st_modify (fun s => set_queue (pop n (command_submitted_queue s)) s);;
  removeHandler (Some cur);;
  ok ← installHandler now (Some n);
  if (ok : bool) then
    wake_scheduler;;
    c ← deref cur;
    handleCommandEvent (unique_id c) e;;
    delete_command cur;;
    mret RTest
  else
    drop_failed n;;
    installHandler now (Some cur);;
    wake_scheduler;;
    mret RTest.

(** The submitted queue is not empty and a command is installed. *)
Definition check_submitted (now : Z) (cur n : nat) : SB round :=
  c ← deref cur; cn ← deref n;
  if implementedHandler cn <=? 1 then run_set_only now n
  else
    d ← st_lift (CHECK_RUNNING_VS_SUBMISSION (runningProperty c) (submissionRule cn));
    match d with
    | RSR_NO_CHANGE => mret RWaitContinue
    | RSR_TIMED_RETRY => mret (RTimedWaitContinue (featureSubmissionRetryDelay (commandFeatures cn)))
    | RSR_STACK_CURENT_COMMAND => stack_current now cur n
    | RSR_KILL_KURRENT_COMMAND => replace_current now cur n EVT_KILLED
    | RSR_CURRENT_CMD_HAS_ENDED => replace_current now cur n EVT_COMPLETED
    | RSR_CURRENT_CMD_HAS_FAULTED => replace_current now cur n EVT_FAULT
    end.

(** The submitted queue is empty: a command that has ended gives way to the one it
    stacked, if any. *)
Definition check_ended (now : Z) (cur : nat) : SB round :=
  c ← deref cur;
  if RP_End <=? runningProperty c then
    k ← st_gets commandStack;
    removeHandler (Some cur);;
    match k with
    | n :: k =>
        installHandler now (Some n);;
        st_modify (set_stack k);;
        wake_scheduler
    | [] => installHandler now None;; mret tt
    end;;
    c ← deref cur;
    end_event c;;
    delete_command cur;;
    mret RWaitTest
  else mret RWaitTest.

Definition checkNextCommand (now : Z) (pick : nat) : SB round :=
  q ← st_gets command_submitted_queue;
  cur ← st_gets currentExecutingCommand;
  match top pick q, cur with
  | Some n, Some cur => check_submitted now cur n
  | Some n, None =>
      installHandler now (Some n);;
      st_modify (fun s => set_queue (pop n (command_submitted_queue s)) s);;
      wake_scheduler;;
      mret RTest
  | None, Some cur => check_ended now cur
  | None, None => mret RWaitTest
  end.

(** ** The scheduler thread *)

Definition call_functor (o : option nat) (ht : handler) : SB unit :=
  match o with
  | None => mret tt
  | Some p => c ← deref p; if runningProperty c <? RP_End then store p (guarded (h p ht) c) else mret tt
  end.

(** The part of a step under the mutex of the current command: [start] and [now] are the
    two readings of the clock. *)
Definition run_step (start now : Z) : SB (option nat) :=
  o ← st_gets currentExecutingCommand;
  match o with
  | None => mret None
  | Some cur =>
      st_modify (fun s => set_stat (mkStat start (lastCmdStepTime (stat s)) (lastHBTime (stat s))) s);;
      a ← st_gets acquireHandlerFunctor; call_functor a HAcquire;;
      k ← st_gets correlationHandlerFunctor; call_functor k HCorrelation;;
      handleSandboxEvent EVT_RUN;;
      st_modify (fun s => set_stat (mkStat start (u64 (start - now)) (lastHBTime (stat s))) s);;
      t ← st_gets stat;
      (if u64 (lastHBTime t + 1000) <? start then
         st_modify (set_stat (mkStat start (lastCmdStepTime t) start));; handleSandboxEvent EVT_HEART_BEAT
       else mret tt);;
      c ← deref cur;
      store cur (commandPost start (h cur HTimeout) c);;
      mret (Some cur)
  end.

Inductive pause := PExit | PNone | PDelay (usec : Z) | PWait.

(** The microseconds the scheduler waits between two steps. *)
Definition time_to_wait (delay : Z) (t : SandboxStat) : Z :=
  let w := s64 (u64 (delay - u64 (lastCmdStepTime t * 1000))) in if 0 <? w then w else 0.

(** The part of a step after the mutex has been released, on the command of the step. *)
Definition run_after (o : option nat) : SB pause :=
  w ← st_gets scheduleWorkFlag;
  match o with
  | Some cur =>
      c ← deref cur;
      if (negb w && negb (runningProperty c =? 0))%bool then mret PExit
      else if runningProperty c <? RP_End then
        t ← st_gets stat;
        let d := featureSchedulerStepsDelay (commandFeatures c) in
        mret (if 0 <? d then PDelay (time_to_wait d t) else PNone)
      else if runningProperty c <=? RP_Fault then wake_checker;; mret PWait
      else mret PNone
  | None =>
      if negb w then mret PExit
      else st_modify (set_stat zero_stat);; wake_checker;; mret PWait
  end.

(** ** Life cycle of the sandbox *)

Definition init : SB unit :=
  st_modify (fun s => set_flags false (waithForNextCheck s) (threadSchedulerPauseCondition s)
    (set_functors None None (set_current None s))).
Definition start : SB unit :=
  st_modify (fun s => set_stat zero_stat (set_flags true (waithForNextCheck s) (threadSchedulerPauseCondition s) s)).
(** [stop] up to its wait for the end of the checker. *)
Definition stop : SB unit := st_modify (set_flags false true true).

(** [if(event_handler && currentExecutingCommand) ...(EVT_KILLED); DELETE_OBJ_POINTER(p)] *)
Definition kill_and_delete (p : nat) : SB unit :=
  o ← st_gets currentExecutingCommand;
  (match o with Some _ => c ← deref p; handleCommandEvent (unique_id c) EVT_KILLED | None => mret tt end);;
  delete_command p.
Fixpoint delete_all (ps : list nat) : SB unit :=
  match ps with [] => mret tt | p :: ps => kill_and_delete p;; delete_all ps end.
(** The queue is emptied from its top; the order of the deletions has no effect. *)
Definition deinit : SB unit :=
  o ← st_gets currentExecutingCommand;
  (match o with
   | Some cur => kill_and_delete cur;; st_modify (set_current None)
   | None => mret tt
   end);;
  k ← st_gets commandStack; delete_all k;; st_modify (set_stack []);;
  q ← st_gets command_submitted_queue; delete_all (q.*2);; st_modify (set_queue []);;
  st_modify (set_functors None None).

End Sandbox.

(** ** The life cycle of a command

    The contract of the event handler: the events of one command, in order. *)

Inductive phase := New | Queued | Running | Paused | Dead.
#[export] Instance phase_eq_dec : EqDecision phase.
Proof. solve_decision. Defined.

Definition phase_step (ph : phase) (e : event) : option phase :=
  match ph, e with
  | New, EVT_QUEUED => Some Queued
  | Queued, EVT_RUNNING => Some Running
  | Queued, (EVT_COMPLETED | EVT_FAULT) => Some Dead
  | Running, EVT_RUNNING => Some Running
  | Running, EVT_PAUSED => Some Paused
  | Running, (EVT_COMPLETED | EVT_FAULT | EVT_KILLED) => Some Dead
  | Paused, EVT_RUNNING => Some Running
  | _, _ => None
  end.

Definition event_step (u : Z) (o : option phase) (e : Z * event) : option phase :=
  if decide (e.1 = u) then ph ← o; phase_step ph e.2 else o.
Definition phase_of (u : Z) (l : list (Z * event)) : option phase := foldl (event_step u) (Some New) l.

Lemma phase_of_snoc u l v e :
  phase_of u (l ++ [(v, e)]) =
    if decide (v = u) then ph ← phase_of u l; phase_step ph e else phase_of u l.
Proof. unfold phase_of. by rewrite foldl_app. Qed.

(** The values a command can have: a running property of the enumeration, any submission
    rule, and any locks but the one of the running property, which no code sets. *)
Definition cmd_ok (c : BatchCommand) : Prop :=
  0 <= runningProperty c <= 3 /\ 0 <= submissionRule c /\ (lockFeaturePropertyFlag c).1.2 = false.

Definition users_ok (h : users) : Prop := forall p ht, user_ok (h p ht).

Lemma same_cmd_ok c c' : same_cmd c c' -> cmd_ok c -> cmd_ok c'.
Proof.
  intros [_ _ Hr Hl _ Hp] (H1 & H2 & H3). specialize (Hp H1). unfold cmd_ok. rewrite Hr, Hl. done.
Qed.

(** *** Logs

    [pl] gives the phase each live command is in according to the log. *)

Record linv (pl : nat -> phase) (s : sandbox) : Prop := {
  l_cmd : forall p c, cmds s !! p = Some c -> cmd_ok c;
  l_uid : forall p q c d, cmds s !! p = Some c -> cmds s !! q = Some d -> unique_id c = unique_id d -> p = q;
  l_phase : forall p c, cmds s !! p = Some c -> phase_of (unique_id c) (log s) = Some (pl p);
  l_ok : forall u, is_Some (phase_of u (log s)) }.

Definition fins (p : nat) (ph : phase) (pl : nat -> phase) : nat -> phase :=
  fun q => if decide (q = p) then ph else pl q.

Lemma linv_emit pl s p c e ph :
  linv pl s -> cmds s !! p = Some c -> phase_step (pl p) e = Some ph ->
  linv (fins p ph pl) (add_log [(unique_id c, e)] s).
Proof.
  intros [H1 H2 H3 H4] Hc He. split; simpl; try done.
  - intros q d Hd. rewrite phase_of_snoc. unfold fins. case_decide as E; case_decide as E'.
    + subst q. rewrite Hd in Hc. injection Hc as ->. rewrite (H3 _ _ Hd). simpl. done.
    + destruct E'. eauto.
    + subst q. rewrite Hd in Hc. injection Hc as ->. done.
    + eauto.
  - intros u. rewrite phase_of_snoc. case_decide as E; [|done]. subst.
    rewrite (H3 _ _ Hc). simpl. by rewrite He.
Qed.

(** Changes that keep the log and the identities of the commands. *)
Lemma linv_cmds pl s s' :
  linv pl s -> log s' = log s ->
  (forall p c', cmds s' !! p = Some c' -> exists c, cmds s !! p = Some c /\ same_cmd c c') ->
  linv pl s'.
Proof.
  intros [H1 H2 H3 H4] Hlog Hc. split.
  - intros p c' H. destruct (Hc _ _ H) as (c & Hp & Hs). eapply same_cmd_ok; eauto.
  - intros p q c d Hp Hq Hu. destruct (Hc _ _ Hp) as (c0 & Hp0 & Hs). destruct (Hc _ _ Hq) as (d0 & Hq0 & Hs').
    apply (H2 p q c0 d0); [done..|]. by rewrite <- (sc_uid _ _ Hs), <- (sc_uid _ _ Hs').
  - intros p c' H. destruct (Hc _ _ H) as (c & Hp & Hs). rewrite (sc_uid _ _ Hs), Hlog. eauto.
  - intros u. by rewrite Hlog.
Qed.

(** *** Where commands are *)

Definition active (s : sandbox) : list nat :=
  match currentExecutingCommand s with Some p => p :: commandStack s | None => commandStack s end.
Definition owned (s : sandbox) : list nat := active s ++ (command_submitted_queue s).*2.

(** A command that has been installed: it has more than a set handler, and that one is
    done. *)
Definition ready (c : BatchCommand) : Prop :=
  1 < implementedHandler c /\ (already_setupped c = true \/ has_handler c HT_Set = false).

Record sinv (s : sandbox) : Prop := {
  s_nodup : NoDup (owned s);
  s_live : forall p, p ∈ owned s -> is_Some (cmds s !! p);
  s_ready : forall p c, p ∈ active s -> cmds s !! p = Some c -> ready c;
  s_acq : forall p, acquireHandlerFunctor s = Some p ->
    p ∈ active s /\ forall c, cmds s !! p = Some c -> has_handler c HT_Acquisition = true;
  s_corr : forall p, correlationHandlerFunctor s = Some p ->
    p ∈ active s /\ forall c, cmds s !! p = Some c -> has_handler c HT_Correlation = true }.

(** The phase of a command, by its place; a command in no place is still waiting. *)
Definition placed (s : sandbox) (p : nat) : phase :=
  if decide (currentExecutingCommand s = Some p) then Running
  else if decide (p ∈ commandStack s) then Paused else Queued.

Definition inv (s : sandbox) : Prop := sinv s /\ linv (placed s) s.

Lemma linv_ext pl pl' s :
  linv pl s -> (forall p c, cmds s !! p = Some c -> pl p = pl' p) -> linv pl' s.
Proof. intros [H1 H2 H3 H4] He. split; eauto. intros p c Hp. rewrite (H3 _ _ Hp). f_equal. eauto. Qed.

Lemma has_handler_same c c' ht : same_cmd c c' -> has_handler c' ht = has_handler c ht.
Proof. intros H. unfold has_handler. by rewrite (sc_mask _ _ H). Qed.

Lemma ready_same c c' : same_cmd c c' -> ready c -> ready c'.
Proof.
  intros H [H1 H2]. unfold ready. rewrite (sc_mask _ _ H), (has_handler_same _ _ _ H).
  split; [done|]. destruct H2; [left; by apply (sc_setup _ _ H)|by right].
Qed.

(** Changes that keep the places and the identities. *)
Lemma inv_same s s' :
  inv s -> currentExecutingCommand s' = currentExecutingCommand s -> commandStack s' = commandStack s ->
  command_submitted_queue s' = command_submitted_queue s ->
  acquireHandlerFunctor s' = acquireHandlerFunctor s ->
  correlationHandlerFunctor s' = correlationHandlerFunctor s -> log s' = log s ->
  (forall p, cmds s !! p = None <-> cmds s' !! p = None) ->
  (forall p c', cmds s' !! p = Some c' -> exists c, cmds s !! p = Some c /\ same_cmd c c') ->
  inv s'.
Proof.
  intros [[S1 S2 S3 S4 S5] L] Ec Ek Eq Ea Er El Hdom Hc.
  assert (active s' = active s) as Eact by (unfold active; by rewrite Ec, Ek).
  split; [split|].
  - unfold owned. by rewrite Eact, Eq.
  - intros p. unfold owned. rewrite Eact, Eq. intros Hp. specialize (S2 p Hp).
    rewrite <- not_eq_None_Some in *. by rewrite <- Hdom.
  - intros p c'. rewrite Eact. intros Hp H. destruct (Hc _ _ H) as (c & Hcp & Hs). eauto using ready_same.
  - intros p. rewrite Ea, Eact. intros H. destruct (S4 p H) as [H1 H2]. split; [done|].
    intros c' Hc'. destruct (Hc _ _ Hc') as (c & Hcp & Hs). rewrite (has_handler_same _ _ _ Hs). eauto.
  - intros p. rewrite Er, Eact. intros H. destruct (S5 p H) as [H1 H2]. split; [done|].
    intros c' Hc'. destruct (Hc _ _ Hc') as (c & Hcp & Hs). rewrite (has_handler_same _ _ _ Hs). eauto.
  - eapply linv_ext; [eapply linv_cmds; eauto|]. intros p c _. unfold placed. by rewrite Ec, Ek.
Qed.

Lemma inv_store s s' p c c' :
  inv s -> cmds s !! p = Some c -> same_cmd c c' -> s' = set_cmds (<[p := c']>) s -> inv s'.
Proof.
  intros H Hp Hs ->. eapply inv_same; [exact H|done..| |].
  - intros q. simpl. destruct (decide (q = p)) as [->|Hne].
    + rewrite lookup_insert_eq. split; congruence.
    + by rewrite lookup_insert_ne.
  - intros q d. simpl. destruct (decide (q = p)) as [->|Hne].
    + rewrite lookup_insert_eq. intros [= <-]. eauto.
    + rewrite lookup_insert_ne by done. intros Hd. by exists d.
Qed.

(** Transitions: [drop] are the commands that are in no place any more, [s0] is the state
    before with the new log. *)
Lemma inv_trans s s' s0 drop pl :
  inv s -> owned s ≡ₚ drop ++ owned s' ->
  (forall p, p ∈ owned s' -> is_Some (cmds s !! p) -> is_Some (cmds s' !! p)) ->
  (forall p c', cmds s' !! p = Some c' -> exists c, cmds s !! p = Some c /\ same_cmd c c') ->
  (forall p c, p ∈ active s' -> cmds s' !! p = Some c -> p ∈ active s \/ ready c) ->
  (forall p, acquireHandlerFunctor s' = Some p -> p ∈ active s' /\
     (acquireHandlerFunctor s = Some p \/ forall c, cmds s' !! p = Some c -> has_handler c HT_Acquisition = true)) ->
  (forall p, correlationHandlerFunctor s' = Some p -> p ∈ active s' /\
     (correlationHandlerFunctor s = Some p \/ forall c, cmds s' !! p = Some c -> has_handler c HT_Correlation = true)) ->
  linv pl s0 -> cmds s0 = cmds s -> log s' = log s0 ->
  (forall p c, cmds s' !! p = Some c -> pl p = placed s' p) -> inv s'.
Proof.
  intros [[S1 S2 S3 S4 S5] L] Hperm Hdom Hc Hr Ha Hk L0 Ec El Hpl.
  rewrite Hperm in S1. apply NoDup_app in S1 as (_ & _ & S1).
  assert (forall p, p ∈ owned s' -> p ∈ owned s) as Hsub by (intros p; rewrite Hperm; set_solver).
  split; [split|].
  - done.
  - intros p Hp. apply Hdom; auto.
  - intros p c Hp H. destruct (Hr p c Hp H) as [Hp'|]; [|done]. destruct (Hc _ _ H) as (c0 & H0 & Hs).
    eauto using ready_same.
  - intros p H. destruct (Ha p H) as [Hp [H'|H']]; split; try done. intros c Hcp.
    destruct (Hc _ _ Hcp) as (c0 & H0 & Hs). rewrite (has_handler_same _ _ _ Hs). by eapply S4.
  - intros p H. destruct (Hk p H) as [Hp [H'|H']]; split; try done. intros c Hcp.
    destruct (Hc _ _ Hcp) as (c0 & H0 & Hs). rewrite (has_handler_same _ _ _ Hs). by eapply S5.
  - eapply linv_ext; [|exact Hpl]. eapply linv_cmds; [exact L0|done|]. by rewrite Ec.
Qed.

Lemma insert_same (m : gmap nat BatchCommand) n c c1 p d :
  m !! n = Some c -> same_cmd c c1 -> <[n := c1]> m !! p = Some d -> exists c0, m !! p = Some c0 /\ same_cmd c0 d.
Proof. intros Hn Hs. rewrite lookup_insert_Some. intros [[<- <-]|[_ Hd]]; [by exists c|by exists d]. Qed.

(** A functor that is given to [n] or kept, in a state with the commands [m]. *)
Lemma functor_new (m : gmap nat BatchCommand) n c ht (F : option nat) (act : list nat) p :
  n ∈ act -> (forall d, m !! n = Some d -> same_cmd c d) -> (forall q, F = Some q -> q ∈ act) ->
  (if has_handler c ht then Some n else F) = Some p ->
  p ∈ act /\ (F = Some p \/ forall d, m !! p = Some d -> has_handler d ht = true).
Proof.
  intros Hn Hm HF. destruct (has_handler c ht) eqn:E.
  - intros [= <-]. split; [done|]. right. intros d Hd. by rewrite (has_handler_same c) by auto.
  - intros ->. split; [auto|by left].
Qed.

(** A functor from which [cur] is removed. *)
Lemma functor_removed (m : gmap nat BatchCommand) cur c ht (F : option nat) p :
  m !! cur = Some c -> (forall q d, F = Some q -> m !! q = Some d -> has_handler d ht = true) ->
  (if (has_handler c ht && bool_decide (F = Some cur))%bool then None else F) = Some p -> F = Some p /\ p <> cur.
Proof.
  intros Hc HF. destruct (has_handler c ht) eqn:E; simpl.
  - case_bool_decide as Eb; [done|]. intros ->. split; [done|]. congruence.
  - intros ->. split; [done|]. intros ->. specialize (HF cur c eq_refl Hc). congruence.
Qed.

Lemma pop_absent n q : n ∉ q.*2 -> pop n q = q.
Proof.
  unfold pop. induction q as [|[z m] q IH]; simpl; [done|]. rewrite not_elem_of_cons. intros [Hne Hn].
  rewrite filter_cons_True by (simpl; congruence). by rewrite IH.
Qed.

Lemma pop_perm n q : NoDup (q.*2) -> n ∈ q.*2 -> q.*2 ≡ₚ n :: (pop n q).*2.
Proof.
  induction q as [|[z m] q IH]; simpl; [set_solver|]. intros [Hm Hq]%NoDup_cons [->|Hin]%elem_of_cons.
  - unfold pop. rewrite filter_cons_False by (simpl; naive_solver).
    change (filter _ q) with (pop m q). by rewrite pop_absent.
  - unfold pop. rewrite filter_cons_True by (simpl; intros ->; done). simpl.
    change (filter _ q) with (pop n q). rewrite (IH Hq Hin) at 1. by rewrite Permutation_swap.
Qed.

Lemma top_in pick q n : top pick q = Some n -> n ∈ q.*2.
Proof.
  unfold top. destruct (candidates q !! _) as [e|] eqn:E; [|done]. intros [= <-].
  apply list_elem_of_lookup_2 in E. unfold candidates in E. apply list_elem_of_filter in E as [_ E].
  by apply list_elem_of_fmap_2.
Qed.

(** *** Specifications of the parts *)

Lemma setup_spec h now p c b c' :
  user_ok (h p HSet) -> setup h now p c = (b, c') ->
  same_cmd c c' /\ (b = true -> already_setupped c' = true \/ has_handler c' HT_Set = false) /\
  (b = false -> cmd_ok c -> runningProperty c' = RP_Fault) /\
  (already_setupped c = true \/ has_handler c HT_Set = false -> b = true).
Proof.
  intros Hu. unfold setup. set (c0 := commandPre now c). assert (same_cmd c c0) as H0 by done.
  assert (already_setupped c0 = already_setupped c) as Ea by done.
  assert (has_handler c0 HT_Set = has_handler c HT_Set) as Eh by done. clearbody c0.
  pose proof (do_calls_same c0 (h p HSet) Hu) as Hd.
  destruct (negb (already_setupped c0) && has_handler c0 HT_Set)%bool eqn:E; reflect_bool.
  - destruct (uends (h p HSet)) as [r|x]; intros [= <- <-].
    + split_and!; try done; [|by left]. etrans; [exact H0|]. etrans; [exact Hd|by split].
    + split_and!; try done.
      * etrans; [exact H0|]. etrans; [exact Hd|]. apply set_fault_same.
      * intros _ (_ & _ & Hl). unfold set_fault, setRunningProperty. rewrite <- (sc_lock _ _ H0), <- (sc_lock _ _ Hd) in Hl.
        by destruct (lockFeaturePropertyFlag (do_calls c0 (h p HSet))) as [[b0 []] b2].
      * intros [?|?]; congruence.
  - intros [= <- <-]. split_and!; try done. intros _. apply andb_false_iff in E as [E|E]; reflect_bool; auto.
Qed.

Lemma current_facts s cur : inv s -> currentExecutingCommand s = Some cur ->
  cur ∈ active s /\ cur ∉ commandStack s /\ exists c, cmds s !! cur = Some c /\ cmd_ok c /\ ready c.
Proof.
  intros [[S1 S2 S3 _ _] L] Hc. assert (active s = cur :: commandStack s) as Ea by (unfold active; by rewrite Hc).
  unfold owned in *. rewrite Ea in *. apply NoDup_app in S1 as (S1 & _). apply NoDup_cons in S1 as [S1 _].
  destruct (S2 cur) as [c Hcc]; [set_solver|]. split_and!; [set_solver|done|]. exists c.
  split_and!; [done|by eapply L|]. apply (S3 cur); [set_solver|done].
Qed.

Lemma inv_fields s s' :
  inv s -> cmds s' = cmds s -> currentExecutingCommand s' = currentExecutingCommand s ->
  commandStack s' = commandStack s -> command_submitted_queue s' = command_submitted_queue s ->
  acquireHandlerFunctor s' = acquireHandlerFunctor s ->
  correlationHandlerFunctor s' = correlationHandlerFunctor s -> log s' = log s -> inv s'.
Proof.
  intros H Em Ec Ek Eq Ea Er El. eapply inv_same; try done; rewrite Em; [done|]. intros p c Hp. by exists c.
Qed.

Lemma wp_deref_cmd p s c (Q : BatchCommand -> sandbox -> Prop) :
  cmds s !! p = Some c -> Q c s -> wp (deref p) Q s.
Proof. intros Hp HQ. unfold deref. wp_steps. eapply wp_lift; [exact Hp|exact HQ]. Qed.

(** *** The rounds of the checker *)

Lemma queued_facts s n : inv s -> n ∈ (command_submitted_queue s).*2 ->
  n ∉ active s /\ placed s n = Queued /\ NoDup ((command_submitted_queue s).*2) /\
  exists c, cmds s !! n = Some c /\ cmd_ok c.
Proof.
  intros [[S1 S2 _ _ _] L] Hn. unfold owned in S1. apply NoDup_app in S1 as (_ & Hd & Hq).
  assert (n ∉ active s) as Ha by (intros H; by apply (Hd n)).
  split_and!; [done| |done|].
  - unfold placed, active in *. destruct (currentExecutingCommand s) as [m|]; rewrite ?decide_False; try done.
    + set_solver.
    + intros [= ->]. set_solver.
  - destruct (S2 n) as [c Hc]; [unfold owned; set_solver|]. exists c. split; [done|]. by eapply L.
Qed.

Lemma placed_current s p : currentExecutingCommand s = Some p -> placed s p = Running.
Proof. intros H. unfold placed. by rewrite decide_True. Qed.

Lemma owned_pop s s' n :
  inv s -> n ∈ (command_submitted_queue s).*2 -> active s' = active s ->
  command_submitted_queue s' = pop n (command_submitted_queue s) -> owned s ≡ₚ n :: owned s'.
Proof.
  intros H Hn Ea Eq. destruct (queued_facts s n H Hn) as (_ & _ & Hq & _). unfold owned.
  rewrite Ea, Eq, (pop_perm n _ Hq Hn) at 1. by rewrite Permutation_middle.
Qed.

(** The set handler of [n] ends normally, or has been called before. *)
Definition installs (h : users) (n : nat) (c : BatchCommand) : Prop :=
  1 < implementedHandler c /\ exists b, uends (h n HSet) = UReturn b.

Lemma setup_installs h now n c : installs h n c -> (setup h now n c).1 = true.
Proof. intros [_ [b Hb]]. unfold setup. rewrite Hb. by destruct (_ && _)%bool. Qed.

Section Specs.
Context (h : users) (Hu : users_ok h).

Lemma wp_delete p s c (Q : unit -> sandbox -> Prop) :
  cmds s !! p = Some c -> Q tt (set_cmds (delete p) s) -> wp (delete_command p) Q s.
Proof. intros Hp HQ. unfold delete_command. wp_steps. eapply wp_deref_cmd; [exact Hp|]. wp_steps. exact HQ. Qed.

(** What [installHandler] does to a live command, installed or not. *)
Record install_post (s s' : sandbox) (p : nat) (c c' : BatchCommand) (b : bool) : Prop := {
  ip_cmds : cmds s' = <[p := c']> (cmds s);
  ip_same : same_cmd c c';
  ip_queue : command_submitted_queue s' = command_submitted_queue s;
  ip_stack : commandStack s' = commandStack s;
  ip_ok : b = true -> ready c' /\ currentExecutingCommand s' = Some p /\
    acquireHandlerFunctor s' = (if has_handler c HT_Acquisition then Some p else acquireHandlerFunctor s) /\
    correlationHandlerFunctor s' = (if has_handler c HT_Correlation then Some p else correlationHandlerFunctor s) /\
    log s' = log s ++ [(unique_id c, EVT_RUNNING)];
  ip_failed : b = false -> currentExecutingCommand s' = currentExecutingCommand s /\
    acquireHandlerFunctor s' = acquireHandlerFunctor s /\
    correlationHandlerFunctor s' = correlationHandlerFunctor s /\ log s' = log s /\
    (implementedHandler c <= 1 \/ (cmd_ok c -> runningProperty c' = RP_Fault));
  ip_ready : ready c -> b = true;
  ip_installs : installs h p c -> b = true }.

Lemma wp_install now p s c (Q : bool -> sandbox -> Prop) :
  cmds s !! p = Some c ->
  (forall b s' c', install_post s s' p c c' b -> Q b s') ->
  wp (installHandler true h now (Some p)) Q s.
Proof.
  intros Hp HQ. unfold installHandler. wp_steps. eapply wp_deref_cmd; [exact Hp|].
  destruct (setup h now p c) as [b c'] eqn:E.
  destruct (setup_spec h now p c b c' (Hu _ _) E) as (Hs & Ht & Hf & Hr). wp_steps.
  assert (implementedHandler c' = implementedHandler c) as Em by apply Hs.
  destruct ((implementedHandler c' <=? 1) || negb b)%bool eqn:Ec.
  - wp_steps. apply (HQ false _ c'). split; try done; simpl.
    + intros _. split_and!; try done. apply orb_true_iff in Ec as [Ec|Ec]; reflect_bool; [left; lia|].
      right. intros Hok. by apply Hf.
    + intros [R1 R2]. rewrite (Hr R2) in Ec. simpl in Ec. rewrite orb_false_r in Ec. reflect_bool. lia.
    + intros Hi. pose proof (setup_installs h now p c Hi) as Hb. rewrite E in Hb. simpl in Hb. rewrite Hb in Ec.
      simpl in Ec. rewrite orb_false_r in Ec. reflect_bool. destruct Hi. lia.
  - reflect_bool. wp_steps. apply (HQ true _ c'). split; try done; simpl.
    intros _. rewrite !(has_handler_same _ _ _ Hs), (sc_uid _ _ Hs). split_and!; try done. split; auto.
Qed.


(** A queued command that ends without having been installed. *)
Lemma inv_drop_queued s s' n c c' e :
  inv s -> n ∈ (command_submitted_queue s).*2 -> cmds s !! n = Some c -> phase_step Queued e = Some Dead ->
  cmds s' = delete n (<[n := c']> (cmds s)) ->
  currentExecutingCommand s' = currentExecutingCommand s -> commandStack s' = commandStack s ->
  command_submitted_queue s' = pop n (command_submitted_queue s) ->
  acquireHandlerFunctor s' = acquireHandlerFunctor s ->
  correlationHandlerFunctor s' = correlationHandlerFunctor s ->
  log s' = log s ++ [(unique_id c, e)] -> inv s'.
Proof.
  intros H Hn Hc He Em Ec Ek Eq Ea Er El. destruct (queued_facts s n H Hn) as (Hna & Hpl & Hq & _).
  assert (active s' = active s) as Eact by (unfold active; by rewrite Ec, Ek).
  pose proof (owned_pop s s' n H Hn Eact Eq) as Hperm. destruct H as [S L].
  assert (n ∉ owned s') as Hno.
  { pose proof (s_nodup _ S) as Hnd. rewrite Hperm in Hnd. by apply NoDup_cons in Hnd as [? _]. }
  eapply (inv_trans s s' (add_log [(unique_id c, e)] s) [n] (fins n Dead (placed s))); try done.
  - intros p Hp HS. rewrite Em, delete_insert_eq, lookup_delete_ne by set_solver. done.
  - intros p d. rewrite Em, delete_insert_eq, lookup_delete_Some. intros [_ Hd]. by exists d.
  - rewrite Eact. auto.
  - intros p. rewrite Ea, Eact. intros Hp. split; [by apply (s_acq _ S)|by left].
  - intros p. rewrite Er, Eact. intros Hp. split; [by apply (s_corr _ S)|by left].
  - eapply linv_emit; [exact L|exact Hc|by rewrite Hpl].
  - intros p d. rewrite Em, delete_insert_eq, lookup_delete_Some. intros [Hne _].
    unfold fins. rewrite decide_False by done. unfold placed. by rewrite Ec, Ek.
Qed.

Lemma wp_run_set_only now n s c :
  inv s -> n ∈ (command_submitted_queue s).*2 -> cmds s !! n = Some c -> implementedHandler c <= 1 ->
  wp (run_set_only true h now n) (fun _ s' => inv s') s.
Proof.
  intros H Hn Hc Hm. unfold run_set_only. wp_steps. eapply wp_install; [exact Hc|].
  intros b s1 c1 [I1 I2 I3 I4 I5 I6 _ _]. destruct b.
  { destruct (I5 eq_refl) as ([R _] & _). rewrite (sc_mask _ _ I2) in R. lia. }
  destruct (I6 eq_refl) as (J1 & J2 & J3 & J4 & _). wp_steps.
  eapply (wp_deref_cmd _ _ c1); [simpl; by rewrite I1, lookup_insert_eq|].
  assert (forall e, phase_step Queued e = Some Dead ->
    wp (handleCommandEvent true (unique_id c1) e;; delete_command n;; mret RContinue) (fun _ s' => inv s')
      (set_queue (pop n (command_submitted_queue s1)) s1)) as Hend.
  { intros e He. unfold handleCommandEvent. wp_steps.
    eapply (wp_delete _ _ c1); [simpl; by rewrite I1, lookup_insert_eq|]. wp_steps.
    eapply (inv_drop_queued s _ n c c1 e); try done; simpl;
      rewrite ?I1, ?I3, ?I4, ?J1, ?J2, ?J3, ?J4, ?(sc_uid _ _ I2); done. }
  destruct (runningProperty c1 =? RP_Fault); by apply Hend.
Qed.

(** A command that could not be installed, with the state it was tried in. *)
Lemma wp_drop_failed n s c (Q : unit -> sandbox -> Prop) :
  cmds s !! n = Some c -> runningProperty c = RP_Fault ->
  Q tt (set_cmds (delete n) (add_log [(unique_id c, EVT_FAULT)] s)) ->
  wp (drop_failed true n) Q s.
Proof.
  intros Hc Hf HQ. unfold drop_failed. wp_steps. eapply wp_deref_cmd; [exact Hc|]. rewrite Hf. simpl. wp_steps.
  by eapply wp_delete.
Qed.

Lemma wp_stack_current now cur n s c :
  inv s -> currentExecutingCommand s = Some cur -> n ∈ (command_submitted_queue s).*2 ->
  cmds s !! n = Some c -> 1 < implementedHandler c ->
  wp (stack_current true h now cur n) (fun _ s' => inv s') s.
Proof.
  intros H Hcur Hn Hc Hm. unfold stack_current. wp_steps. eapply wp_install; [exact Hc|].
  destruct (queued_facts s n H Hn) as (Hna & Hpl & Hq & _).
  destruct (current_facts s cur H Hcur) as (Hca & Hcs & cc & Hcc & Hcok & Hcr).
  intros b s1 c1 [I1 I2 I3 I4 I5 I6 _ _]. simpl in I1, I3, I4, I5, I6.
  assert (cur <> n) as Hne by set_solver. destruct b.
  - destruct (I5 eq_refl) as (R & J1 & J2 & J3 & J4). wp_steps.
    eapply (wp_deref_cmd _ _ cc); [simpl; by rewrite I1, lookup_insert_ne|].
    unfold handleCommandEvent, wake_scheduler. wp_steps.
    assert (active s = cur :: commandStack s) as Ea by (unfold active; by rewrite Hcur).
    match goal with |- inv ?x => set (s' := x) end.
    assert (active s' = n :: active s) as Ea' by (unfold active, s'; simpl; by rewrite J1, I4, Hcur).
    assert (forall p, p ∈ active s -> p ∈ active s') as Hsub by (rewrite Ea'; set_solver).
    eapply (inv_trans s s' (add_log [(unique_id cc, EVT_PAUSED)] (add_log [(unique_id c, EVT_RUNNING)] s)) []
      (fins cur Paused (fins n Running (placed s)))); try done.
    + unfold owned. rewrite Ea'. unfold s'. simpl. rewrite I3.
      rewrite (pop_perm n _ Hq Hn) at 1. by rewrite Permutation_middle.
    + intros p _. unfold s'. simpl. rewrite I1, lookup_insert_is_Some. destruct (decide (n = p)); auto.
    + intros p d. unfold s'. simpl. rewrite I1. by eapply insert_same.
    + intros p d. rewrite Ea'. unfold s'. simpl. rewrite I1.
      intros [->|Hp]%elem_of_cons; [|by left]. rewrite lookup_insert_eq. intros [= <-]. by right.
    + intros p. unfold s' at 1. simpl. rewrite J2. apply functor_new; [rewrite Ea'; set_solver|..].
      * unfold s'. simpl. rewrite I1, lookup_insert_eq. by intros d [= <-].
      * intros q Hq'. by apply Hsub, (s_acq _ (proj1 H)).
    + intros p. unfold s' at 1. simpl. rewrite J3. apply functor_new; [rewrite Ea'; set_solver|..].
      * unfold s'. simpl. rewrite I1, lookup_insert_eq. by intros d [= <-].
      * intros q Hq'. by apply Hsub, (s_corr _ (proj1 H)).
    + eapply linv_emit; [eapply linv_emit; [by apply H|done|by rewrite Hpl]|done|].
      unfold fins. rewrite decide_False by done. by rewrite (placed_current _ _ Hcur).
    + unfold s'. simpl. by rewrite J4.
    + intros p d _. unfold fins, placed, s'. simpl. rewrite J1, I4, Hcur.
      repeat case_decide; simplify_eq; try done; set_solver.
  - destruct (I6 eq_refl) as (J1 & J2 & J3 & J4 & J5). wp_steps.
    destruct (queued_facts s n H Hn) as (_ & _ & _ & c' & Hc' & Hok). simplify_eq.
    eapply (wp_drop_failed _ _ c1).
    + by rewrite I1, lookup_insert_eq.
    + destruct J5 as [?|J5]; [lia|auto].
    + unfold wake_scheduler. wp_steps.
      eapply (inv_drop_queued s _ n c c1 EVT_FAULT); try done; simpl;
        rewrite ?I1, ?I3, ?I4, ?J1, ?J2, ?J3, ?J4, ?(sc_uid _ _ I2); done.
Qed.

Lemma wp_removeHandler cur c s (Q : unit -> sandbox -> Prop) :
  cmds s !! cur = Some c -> ready c ->
  (forall s1, cmds s1 = cmds s -> currentExecutingCommand s1 = currentExecutingCommand s ->
     commandStack s1 = commandStack s -> command_submitted_queue s1 = command_submitted_queue s ->
     log s1 = log s ->
     acquireHandlerFunctor s1 = (if (has_handler c HT_Acquisition &&
       bool_decide (acquireHandlerFunctor s = Some cur))%bool then None else acquireHandlerFunctor s) ->
     correlationHandlerFunctor s1 = (if (has_handler c HT_Correlation &&
       bool_decide (correlationHandlerFunctor s = Some cur))%bool then None else correlationHandlerFunctor s) ->
     Q tt s1) ->
  wp (removeHandler (Some cur)) Q s.
Proof.
  intros Hc [Hm _] HQ. unfold removeHandler. wp_steps. eapply wp_deref_cmd; [exact Hc|].
  assert (implementedHandler c <=? 1 = false) as -> by (apply Z.leb_gt; lia). wp_steps. by apply HQ.
Qed.

(** The functors of a state where [cur] was removed and [n] was given what it implements. *)
Lemma functors_replaced s cur c n cn (m : gmap nat BatchCommand) ht (F F1 : option nat) (act : list nat) p :
  cmds s !! cur = Some c ->
  (forall q, F = Some q -> q ∈ active s /\ forall d, cmds s !! q = Some d -> has_handler d ht = true) ->
  F1 = (if (has_handler c ht && bool_decide (F = Some cur))%bool then None else F) ->
  n ∈ act -> (forall d, m !! n = Some d -> same_cmd cn d) -> (forall q, q ∈ active s -> q <> cur -> q ∈ act) ->
  (if has_handler cn ht then Some n else F1) = Some p ->
  p ∈ act /\ (F = Some p \/ forall d, m !! p = Some d -> has_handler d ht = true).
Proof.
  intros Hc HF HF1 Hn Hm Hact Hp.
  assert (forall q, F1 = Some q -> F = Some q /\ q <> cur) as Hrem.
  { intros q. rewrite HF1. eapply functor_removed; [exact Hc|]. intros q' d Hq'. by apply HF. }
  destruct (functor_new m n cn ht F1 act p) as [H1 [H2|H2]]; try done.
  - intros q [HFq Hne]%Hrem. apply Hact; [by apply HF|done].
  - split; [done|]. left. by apply Hrem.
  - split; [done|by right].
Qed.

(** The current command ends and [n], waiting or paused, takes its place. *)
Lemma inv_replace s s' cur c n cn c1 e a1 k1 :
  inv s -> currentExecutingCommand s = Some cur -> cmds s !! cur = Some c -> n <> cur ->
  cmds s !! n = Some cn -> same_cmd cn c1 -> ready c1 ->
  phase_step (placed s n) EVT_RUNNING = Some Running -> phase_step Running e = Some Dead ->
  currentExecutingCommand s' = Some n -> owned s ≡ₚ cur :: owned s' ->
  (forall p, p ∈ commandStack s' <-> p ∈ commandStack s /\ p <> n) ->
  cmds s' = delete cur (<[n := c1]> (cmds s)) ->
  a1 = (if (has_handler c HT_Acquisition &&
    bool_decide (acquireHandlerFunctor s = Some cur))%bool then None else acquireHandlerFunctor s) ->
  k1 = (if (has_handler c HT_Correlation &&
    bool_decide (correlationHandlerFunctor s = Some cur))%bool then None else correlationHandlerFunctor s) ->
  acquireHandlerFunctor s' = (if has_handler cn HT_Acquisition then Some n else a1) ->
  correlationHandlerFunctor s' = (if has_handler cn HT_Correlation then Some n else k1) ->
  log s' = (log s ++ [(unique_id cn, EVT_RUNNING)]) ++ [(unique_id c, e)] -> inv s'.
Proof.
  intros H Hcur Hc Hne Hcn Hs R Hp1 Hp2 Ec' Hperm Hst Em Ea1 Ek1 Ea Ek El.
  destruct (current_facts s cur H Hcur) as (Hca & Hcs & _). pose proof H as [S L].
  assert (active s = cur :: commandStack s) as Eact by (unfold active; by rewrite Hcur).
  assert (active s' = n :: commandStack s') as Eact' by (unfold active; by rewrite Ec').
  assert (cur ∉ owned s') as Hno.
  { pose proof (s_nodup _ S) as Hnd. rewrite Hperm in Hnd. by apply NoDup_cons in Hnd as [? _]. }
  assert (forall d, cmds s' !! n = Some d -> same_cmd cn d) as Hn.
  { intros d. rewrite Em, lookup_delete_ne, lookup_insert_eq by done. by intros [= <-]. }
  assert (forall q, q ∈ active s -> q <> cur -> q ∈ active s') as Hact.
  { intros q. rewrite Eact, Eact'. intros [->|Hq]%elem_of_cons Hqc; [done|].
    destruct (decide (q = n)) as [->|Hqn]; [set_solver|]. apply elem_of_cons. right. by apply Hst. }
  eapply (inv_trans s s' (add_log [(unique_id c, e)] (add_log [(unique_id cn, EVT_RUNNING)] s)) [cur]
    (fins cur Dead (fins n Running (placed s)))); try done.
  - intros p Hp HS. rewrite Em, lookup_delete_ne by set_solver. rewrite lookup_insert_is_Some.
    destruct (decide (n = p)); auto.
  - intros p d. rewrite Em, lookup_delete_Some. intros [_ Hd]. by eapply insert_same.
  - intros p d. rewrite Eact', Eact. intros [->|Hp]%elem_of_cons.
    + rewrite Em, lookup_delete_ne, lookup_insert_eq by done. intros [= <-]. by right.
    + left. apply Hst in Hp. set_solver.
  - intros p. rewrite Ea. eapply (functors_replaced s); [exact Hc|apply (s_acq _ S)|exact Ea1|..]; try done.
    rewrite Eact'. set_solver.
  - intros p. rewrite Ek. eapply (functors_replaced s); [exact Hc|apply (s_corr _ S)|exact Ek1|..]; try done.
    rewrite Eact'. set_solver.
  - eapply linv_emit; [eapply linv_emit; [exact L|done|done]|done|].
    unfold fins. rewrite decide_False by done. by rewrite (placed_current _ _ Hcur).
  - intros p d. rewrite Em, lookup_delete_Some. intros [Hpc _]. unfold fins, placed. rewrite Ec', Hcur.
    rewrite (decide_False (P := p = cur)) by done. destruct (decide (p = n)) as [->|Hpn].
    + by rewrite decide_True.
    + rewrite (decide_False (P := Some cur = Some p)), (decide_False (P := Some n = Some p)) by congruence.
      pose proof (Hst p) as Hp.
      destruct (decide (p ∈ commandStack s)); destruct (decide (p ∈ commandStack s')); try done; exfalso; tauto.
Qed.

(** [n] could not be installed and the current command stays. *)
Lemma inv_reinstall s s' cur c c2 n cn c1 a1 k1 :
  inv s -> currentExecutingCommand s = Some cur -> cmds s !! cur = Some c ->
  n ∈ (command_submitted_queue s).*2 -> cmds s !! n = Some cn -> same_cmd c c2 -> ready c2 ->
  currentExecutingCommand s' = Some cur -> commandStack s' = commandStack s ->
  command_submitted_queue s' = pop n (command_submitted_queue s) ->
  cmds s' = <[cur := c2]> (delete n (<[n := c1]> (cmds s))) ->
  a1 = (if (has_handler c HT_Acquisition &&
    bool_decide (acquireHandlerFunctor s = Some cur))%bool then None else acquireHandlerFunctor s) ->
  k1 = (if (has_handler c HT_Correlation &&
    bool_decide (correlationHandlerFunctor s = Some cur))%bool then None else correlationHandlerFunctor s) ->
  acquireHandlerFunctor s' = (if has_handler c HT_Acquisition then Some cur else a1) ->
  correlationHandlerFunctor s' = (if has_handler c HT_Correlation then Some cur else k1) ->
  log s' = (log s ++ [(unique_id cn, EVT_FAULT)]) ++ [(unique_id c, EVT_RUNNING)] -> inv s'.
Proof.
  intros H Hcur Hc Hn Hcn Hs R Ec' Est Eq Em Ea1 Ek1 Ea Ek El.
  destruct (queued_facts s n H Hn) as (Hna & Hpl & Hq & _).
  destruct (current_facts s cur H Hcur) as (Hca & Hcs & _). pose proof H as [S L].
  assert (cur <> n) as Hne by set_solver.
  assert (active s' = active s) as Eact by (unfold active; by rewrite Ec', Hcur, Est).
  pose proof (owned_pop s s' n H Hn Eact Eq) as Hperm.
  assert (n ∉ owned s') as Hno.
  { pose proof (s_nodup _ S) as Hnd. rewrite Hperm in Hnd. by apply NoDup_cons in Hnd as [? _]. }
  rewrite delete_insert_eq in Em.
  assert (forall d, cmds s' !! cur = Some d -> same_cmd c d) as Hcd.
  { intros d. rewrite Em, lookup_insert_eq. by intros [= <-]. }
  eapply (inv_trans s s' (add_log [(unique_id c, EVT_RUNNING)] (add_log [(unique_id cn, EVT_FAULT)] s)) [n]
    (fins cur Running (fins n Dead (placed s)))); try done.
  - intros p Hp HS. rewrite Em, lookup_insert_is_Some. destruct (decide (cur = p)); [auto|].
    right. split; [done|]. by rewrite lookup_delete_ne by set_solver.
  - intros p d. rewrite Em, lookup_insert_Some. intros [[<- <-]|[_ Hd]]; [by exists c|].
    apply lookup_delete_Some in Hd as [_ Hd]. by exists d.
  - rewrite Eact. auto.
  - intros p. rewrite Ea. eapply (functors_replaced s); [exact Hc|apply (s_acq _ S)|exact Ea1|..]; try done;
      rewrite Eact; auto.
  - intros p. rewrite Ek. eapply (functors_replaced s); [exact Hc|apply (s_corr _ S)|exact Ek1|..]; try done;
      rewrite Eact; auto.
  - eapply linv_emit; [eapply linv_emit; [exact L|done|by rewrite Hpl]|done|].
    unfold fins. rewrite decide_False by done. by rewrite (placed_current _ _ Hcur).
  - intros p d Hp. assert (p <> n) as Hpn.
    { intros ->. rewrite Em, lookup_insert_ne, lookup_delete_eq in Hp by done. done. }
    unfold fins, placed. rewrite Ec', Hcur, Est. rewrite (decide_False (P := p = n)) by done.
    destruct (decide (p = cur)) as [->|]; [by rewrite decide_True|]. done.
Qed.

Lemma wp_replace_current now cur n e s cn :
  inv s -> currentExecutingCommand s = Some cur -> n ∈ (command_submitted_queue s).*2 ->
  cmds s !! n = Some cn -> 1 < implementedHandler cn -> phase_step Running e = Some Dead ->
  wp (replace_current true h now cur n e) (fun _ s' => inv s') s.
Proof.
  intros H Hcur Hn Hcn Hm He. unfold replace_current. wp_steps.
  destruct (queued_facts s n H Hn) as (Hna & Hpl & Hq & c0 & Hc0 & Hok).
  assert (c0 = cn) as -> by congruence.
  destruct (current_facts s cur H Hcur) as (Hca & Hcs & c & Hc & Hcok & Hcr).
  assert (n <> cur) as Hne by set_solver.
  eapply (wp_removeHandler cur c); [done|done|]. intros s1 A1 A2 A3 A4 A5 A6 A7. simpl in A1, A2, A3, A4, A5, A6, A7.
  wp_steps. eapply (wp_install now n s1 cn); [by rewrite A1|].
  intros b s2 c1 [I1 I2 I3 I4 I5 I6 _ _]. destruct b.
  - destruct (I5 eq_refl) as (R & J1 & J2 & J3 & J4). unfold wake_scheduler. wp_steps.
    eapply (wp_deref_cmd _ _ c); [simpl; by rewrite I1, A1, lookup_insert_ne|]. unfold handleCommandEvent. wp_steps.
    eapply (wp_delete _ _ c); [simpl; by rewrite I1, A1, lookup_insert_ne|]. wp_steps.
    eapply (inv_replace s _ cur c n cn c1 e (acquireHandlerFunctor s1) (correlationHandlerFunctor s1));
      try done; simpl.
    + by rewrite Hpl.
    + unfold owned, active. simpl. rewrite J1, I3, I4, A3, A4, Hcur.
      simpl. f_equiv. rewrite (pop_perm n _ Hq Hn) at 1. by rewrite Permutation_middle.
    + intros p. rewrite I4, A3. split; [|tauto]. intros Hp. split; [done|]. intros ->. apply Hna.
      unfold active. rewrite Hcur. set_solver.
    + by rewrite I1, A1.
    + by rewrite J4, A5.
  - destruct (I6 eq_refl) as (J1 & J2 & J3 & J4 & J5). wp_steps.
    eapply (wp_drop_failed _ _ c1); [by rewrite I1, lookup_insert_eq|by destruct J5 as [?|J5]; [lia|auto]|].
    wp_steps. eapply (wp_install now cur _ c).
    { simpl. by rewrite lookup_delete_ne, I1, lookup_insert_ne, A1 by done. }
    intros b s3 c2 [K1 K2 K3 K4 K5 _ K7 _]. rewrite (K7 Hcr) in *.
    destruct (K5 eq_refl) as (R & L1 & L2 & L3 & L4). simpl in K1, K3, K4, L2, L3, L4.
    unfold wake_scheduler. wp_steps.
    eapply (inv_reinstall s _ cur c c2 n cn c1 (acquireHandlerFunctor s1) (correlationHandlerFunctor s1));
      try done; simpl.
    + by rewrite K4, I4.
    + by rewrite K3, I3.
    + by rewrite K1, I1, A1.
    + by rewrite L2, J2.
    + by rewrite L3, J3.
    + by rewrite L4, J4, A5, (sc_uid _ _ I2).
Qed.

(** No command is installed. *)
Lemma wp_install_first now n s :
  inv s -> currentExecutingCommand s = None -> n ∈ (command_submitted_queue s).*2 ->
  wp (installHandler true h now (Some n);;
      st_modify (fun s => set_queue (pop n (command_submitted_queue s)) s);; wake_scheduler;; mret RTest)
    (fun _ s' => inv s') s.
Proof.
  intros H Hcur Hn. destruct (queued_facts s n H Hn) as (Hna & Hpl & Hq & c & Hc & Hok). pose proof H as [S L].
  wp_steps. eapply (wp_install now n s c); [done|]. intros b s1 c1 [I1 I2 I3 I4 I5 I6 _ _].
  unfold wake_scheduler. wp_steps. match goal with |- inv ?x => set (s' := x) end.
  assert (active s = commandStack s) as Ea by (unfold active; by rewrite Hcur). destruct b.
  - destruct (I5 eq_refl) as (R & J1 & J2 & J3 & J4).
    assert (active s' = n :: active s) as Ea' by (unfold active, s'; simpl; by rewrite J1, I4, Hcur).
    assert (forall d, cmds s' !! n = Some d -> same_cmd c d) as Hd.
    { unfold s'. simpl. rewrite I1, lookup_insert_eq. by intros d [= <-]. }
    eapply (inv_trans s s' (add_log [(unique_id c, EVT_RUNNING)] s) [] (fins n Running (placed s))); try done.
    + unfold owned. rewrite Ea'. unfold s'. simpl. rewrite I3.
      rewrite (pop_perm n _ Hq Hn) at 1. by rewrite Permutation_middle.
    + intros p _. unfold s'. simpl. rewrite I1, lookup_insert_is_Some. destruct (decide (n = p)); auto.
    + intros p d. unfold s'. simpl. rewrite I1. by eapply insert_same.
    + intros p d. rewrite Ea'. unfold s'. simpl. rewrite I1.
      intros [->|Hp]%elem_of_cons; [|by left]. rewrite lookup_insert_eq. intros [= <-]. by right.
    + intros p. unfold s' at 1. simpl. rewrite J2. apply functor_new; [rewrite Ea'; set_solver|done|].
      intros q Hq'. rewrite Ea'. apply elem_of_cons. right. by apply (s_acq _ S).
    + intros p. unfold s' at 1. simpl. rewrite J3. apply functor_new; [rewrite Ea'; set_solver|done|].
      intros q Hq'. rewrite Ea'. apply elem_of_cons. right. by apply (s_corr _ S).
    + eapply linv_emit; [exact L|done|by rewrite Hpl].
    + intros p d _. unfold fins, placed, s'. simpl. rewrite J1, I4, Hcur.
      repeat case_decide; simplify_eq; try done; set_solver.
  - destruct (I6 eq_refl) as (J1 & J2 & J3 & J4 & _).
    assert (active s' = active s) as Ea' by (unfold active, s'; simpl; by rewrite J1, I4).
    eapply (inv_trans s s' s [n] (placed s)); try done.
    + apply (owned_pop s s' n H Hn Ea'). unfold s'. simpl. by rewrite I3.
    + intros p _. unfold s'. simpl. rewrite I1, lookup_insert_is_Some. destruct (decide (n = p)); auto.
    + intros p d. unfold s'. simpl. rewrite I1. by eapply insert_same.
    + rewrite Ea'. auto.
    + intros p. unfold s' at 1. simpl. rewrite J2, Ea'. intros Hp. split; [by apply (s_acq _ S)|by left].
    + intros p. unfold s' at 1. simpl. rewrite J3, Ea'. intros Hp. split; [by apply (s_corr _ S)|by left].
    + intros p d _. unfold placed, s'. simpl. by rewrite J1, I4.
Qed.

Lemma wp_end_event c s (Q : unit -> sandbox -> Prop) :
  cmd_ok c -> RP_End <= runningProperty c ->
  (forall e, phase_step Running e = Some Dead -> Q tt (add_log [(unique_id c, e)] s)) ->
  wp (end_event true c) Q s.
Proof.
  intros (Hp & _) He HQ. unfold end_event, handleCommandEvent.
  destruct (runningProperty c =? RP_End) eqn:E1; [wp_steps; by apply HQ|].
  destruct (runningProperty c =? RP_Fault) eqn:E2; [wp_steps; by apply HQ|].
  reflect_bool. unfold RP_End, RP_Fault in *. lia.
Qed.

(** The last command ends. *)
Lemma inv_last s s' cur c e :
  inv s -> currentExecutingCommand s = Some cur -> cmds s !! cur = Some c -> commandStack s = [] ->
  phase_step Running e = Some Dead -> currentExecutingCommand s' = None -> commandStack s' = [] ->
  command_submitted_queue s' = command_submitted_queue s -> acquireHandlerFunctor s' = None ->
  correlationHandlerFunctor s' = None -> cmds s' = delete cur (cmds s) ->
  log s' = log s ++ [(unique_id c, e)] -> inv s'.
Proof.
  intros H Hcur Hc Hk He Ec Ek Eq Ea Er Em El. pose proof H as [S L].
  assert (owned s = cur :: owned s') as Ho by (unfold owned, active; by rewrite Hcur, Ec, Hk, Ek, Eq).
  assert (cur ∉ owned s') as Hno.
  { pose proof (s_nodup _ S) as Hnd. rewrite Ho in Hnd. by apply NoDup_cons in Hnd as [? _]. }
  eapply (inv_trans s s' (add_log [(unique_id c, e)] s) [cur] (fins cur Dead (placed s))); try done.
  - by rewrite Ho.
  - intros p Hp HS. by rewrite Em, lookup_delete_ne by set_solver.
  - intros p d. rewrite Em, lookup_delete_Some. intros [_ Hd]. by exists d.
  - intros p d. unfold active. rewrite Ec, Ek. set_solver.
  - intros p. by rewrite Ea.
  - intros p. by rewrite Er.
  - eapply linv_emit; [exact L|done|by rewrite (placed_current _ _ Hcur)].
  - intros p d. rewrite Em, lookup_delete_Some. intros [Hpc _]. unfold fins, placed.
    rewrite Ec, Ek, Hcur, Hk. rewrite (decide_False (P := p = cur)) by done.
    by rewrite (decide_False (P := Some cur = Some p)) by congruence.
Qed.

Lemma wp_check_ended now cur s :
  inv s -> currentExecutingCommand s = Some cur ->
  wp (check_ended true h now cur) (fun _ s' => inv s') s.
Proof.
  intros H Hcur. destruct (current_facts s cur H Hcur) as (Hca & Hcs & c & Hc & Hcok & Hcr).
  unfold check_ended. wp_steps. eapply (wp_deref_cmd cur s c); [done|].
  destruct (RP_End <=? runningProperty c) eqn:E; [|by wp_steps]. reflect_bool. wp_steps.
  eapply (wp_removeHandler cur c); [done|done|]. intros s1 A1 A2 A3 A4 A5 A6 A7. wp_steps.
  destruct (commandStack s) as [|n k] eqn:Ek.
  - unfold installHandler. wp_steps. eapply (wp_deref_cmd cur _ c); [simpl; by rewrite A1|]. wp_steps.
    eapply wp_end_event; [done|done|]. intros e He. wp_steps.
    eapply (wp_delete cur _ c); [simpl; by rewrite A1|]. wp_steps.
    eapply (inv_last s _ cur c e); try done; simpl; rewrite ?A1, ?A3, ?A4, ?A5; done.
  - assert (active s = cur :: n :: k) as Ea by (unfold active; by rewrite Hcur, Ek).
    pose proof H as [S L]. assert (n <> cur /\ n ∉ k) as [Hne Hnk].
    { pose proof (s_nodup _ S) as Hnd. unfold owned in Hnd. rewrite Ea in Hnd.
      apply NoDup_app in Hnd as (Hnd & _). apply NoDup_cons in Hnd as [Hn1 Hnd].
      apply NoDup_cons in Hnd as [Hn2 _]. split; [set_solver|done]. }
    destruct (s_live _ S n) as [cn Hcn]; [unfold owned; rewrite Ea; set_solver|].
    assert (ready cn) as Hrn by (apply (s_ready _ S n); [rewrite Ea; set_solver|done]).
    wp_steps. eapply (wp_install now n s1 cn); [by rewrite A1|].
    intros b s2 c1 [I1 I2 I3 I4 I5 _ I7 _]. rewrite (I7 Hrn) in *.
    destruct (I5 eq_refl) as (R & J1 & J2 & J3 & J4). unfold wake_scheduler. wp_steps.
    eapply (wp_deref_cmd cur _ c); [simpl; by rewrite I1, A1, lookup_insert_ne|]. wp_steps.
    eapply wp_end_event; [done|done|]. intros e He. wp_steps.
    eapply (wp_delete cur _ c); [simpl; by rewrite I1, A1, lookup_insert_ne|]. wp_steps.
    eapply (inv_replace s _ cur c n cn c1 e (acquireHandlerFunctor s1) (correlationHandlerFunctor s1));
      try done; simpl.
    + unfold placed. rewrite Hcur, Ek, decide_False by congruence. by rewrite decide_True by set_solver.
    + unfold owned. rewrite Ea. unfold active. simpl. by rewrite J1, I3, A4.
    + intros p. rewrite Ek. set_solver.
    + by rewrite I1, A1.
    + by rewrite J4, A5.
Qed.

Lemma table_total r u : 0 <= r <= 3 -> 0 <= u <= 2 -> is_Some (CHECK_RUNNING_VS_SUBMISSION r u).
Proof.
  intros Hr Hs. assert (r = 0 \/ r = 1 \/ r = 2 \/ r = 3) as Hr' by lia.
  assert (u = 0 \/ u = 1 \/ u = 2) as Hs' by lia.
  destruct Hr' as [->|[->|[->| ->]]]; destruct Hs' as [->|[->| ->]]; by eexists.
Qed.

(** The checker reads outside of the decision table: it compares the current command with
    a submitted one whose rule has no column. *)
Definition out_of_table (s : sandbox) (pick : nat) : Prop :=
  exists cur n cn, currentExecutingCommand s = Some cur /\ top pick (command_submitted_queue s) = Some n /\
    cmds s !! n = Some cn /\ 1 < implementedHandler cn /\ 2 < submissionRule cn.

Lemma wp_checkNextCommand now pick s :
  inv s -> ~ out_of_table s pick -> wp (checkNextCommand true h now pick) (fun _ s' => inv s') s.
Proof.
  intros H Hin. unfold checkNextCommand. wp_steps.
  destruct (top pick (command_submitted_queue s)) as [n|] eqn:Et;
    destruct (currentExecutingCommand s) as [cur|] eqn:Ec.
  - pose proof Et as Et0. apply top_in in Et. destruct (queued_facts s n H Et) as (_ & _ & _ & cn & Hcn & Hok).
    destruct (current_facts s cur H Ec) as (_ & _ & c & Hc & Hcok & _).
    unfold check_submitted. wp_steps. eapply (wp_deref_cmd cur s c); [done|]. wp_steps.
    eapply (wp_deref_cmd n s cn); [done|].
    destruct (implementedHandler cn <=? 1) eqn:Em; reflect_bool; [by eapply wp_run_set_only|]. wp_steps.
    assert (submissionRule cn <= 2) as Hr2.
    { destruct (Z.le_gt_cases (submissionRule cn) 2); [done|]. destruct Hin. exists cur, n, cn. split_and!; try done; lia. }
    destruct (table_total (runningProperty c) (submissionRule cn)) as [d Hd]; [apply Hcok|split; [apply Hok|done]|].
    eapply wp_lift; [exact Hd|].
    destruct d; first [by wp_steps | by eapply wp_stack_current | by eapply wp_replace_current].
  - apply top_in in Et. by apply wp_install_first.
  - by apply wp_check_ended.
  - by wp_steps.
Qed.

(** *** The scheduler *)

Lemma wp_call_functor o ht s (Q : unit -> sandbox -> Prop) :
  inv s -> (forall p, o = Some p -> p ∈ active s) ->
  (forall s', inv s' -> currentExecutingCommand s' = currentExecutingCommand s -> Q tt s') ->
  wp (call_functor h o ht) Q s.
Proof.
  intros H Ho HQ. unfold call_functor. destruct o as [p|]; [|by wp_steps; apply HQ]. wp_steps.
  destruct (s_live _ (proj1 H) p) as [c Hc]; [unfold owned; specialize (Ho p eq_refl); set_solver|].
  eapply wp_deref_cmd; [exact Hc|]. destruct (runningProperty c <? RP_End); [|by wp_steps; apply HQ].
  unfold store. wp_steps. apply HQ; [|done].
  eapply inv_store; [exact H|exact Hc|by apply guarded_same|done].
Qed.

Lemma wp_run_step t1 t2 s :
  inv s -> wp (run_step true h t1 t2) (fun o s' => inv s' /\ o = currentExecutingCommand s' /\
    currentExecutingCommand s' = currentExecutingCommand s) s.
Proof.
  intros H. unfold run_step. wp_steps. destruct (currentExecutingCommand s) as [cur|] eqn:Ec; [|by wp_steps].
  wp_steps. match goal with |- wp _ _ ?x => assert (inv x) as H0 by (by eapply inv_fields); set (s0 := x) in * end.
  assert (currentExecutingCommand s0 = Some cur) as Ec0 by done. clearbody s0.
  eapply wp_call_functor; [done|intros p Hp; by apply (s_acq _ (proj1 H0))|]. intros s1 H1 Ec1. wp_steps.
  eapply wp_call_functor; [done|intros p Hp; by apply (s_corr _ (proj1 H1))|]. intros s2 H2 Ec2.
  unfold handleSandboxEvent. wp_steps.
  assert (forall s3, inv s3 -> currentExecutingCommand s3 = Some cur ->
    wp (deref cur) (fun c => wp (store cur (commandPost t1 (h cur HTimeout) c);; mret (Some cur))
      (fun o s' => inv s' /\ o = currentExecutingCommand s' /\ currentExecutingCommand s' = Some cur)) s3) as Hend.
  { intros s3 H3 Ec3. destruct (current_facts s3 cur H3 Ec3) as (_ & _ & c & Hc & _).
    eapply wp_deref_cmd; [exact Hc|]. unfold store. wp_steps. split; [|done].
    eapply inv_store; [exact H3|exact Hc|by apply commandPost_same|done]. }
  destruct (_ <? t1); wp_steps; (apply Hend; [by eapply inv_fields|simpl; congruence]).
Qed.

Lemma wp_run_after o s :
  inv s -> (forall p, o = Some p -> is_Some (cmds s !! p)) -> wp (run_after o) (fun _ s' => inv s') s.
Proof.
  intros H Ho. unfold run_after. wp_steps. destruct o as [cur|].
  - destruct (Ho cur eq_refl) as [c Hc]. wp_steps. eapply wp_deref_cmd; [exact Hc|].
    destruct (_ && _)%bool; [by wp_steps|]. destruct (_ <? _); [by wp_steps|].
    destruct (_ <=? _); [|by wp_steps]. unfold wake_checker. wp_steps. by eapply inv_fields.
  - destruct (negb _); [by wp_steps|]. unfold wake_checker. wp_steps. by eapply inv_fields.
Qed.
End Specs.

(** ** Reachable states *)

Lemma inv_enqueue p c priority s :
  inv s -> cmds s !! p = None -> phase_of (unique_id c) (log s) = Some New -> cmd_ok c ->
  wp (enqueueCommand true p c priority) (fun _ s' => inv s') s.
Proof.
  intros H Hp Hnew Hok. unfold enqueueCommand. wp_steps. destruct (deinitiated s); [by wp_steps|].
  unfold store, handleCommandEvent. wp_steps. match goal with |- inv ?x => set (s' := x) end.
  pose proof H as [[S1 S2 S3 S4 S5] [L1 L2 L3 L4]].
  assert (p ∉ owned s) as Hno by (intros Hin; destruct (S2 p Hin); congruence).
  assert (owned s' = owned s ++ [p]) as Eo.
  { unfold owned, s'. simpl. by rewrite fmap_app, app_assoc. }
  assert (active s' = active s) as Ea by done.
  assert (forall q d, cmds s !! q = Some d -> unique_id d <> unique_id c) as Hfresh.
  { intros q d Hd Hu. rewrite <- Hu, (L3 _ _ Hd) in Hnew. injection Hnew. unfold placed.
    repeat case_decide; done. }
  assert (forall q, q ∈ active s -> q <> p) as Hact by (unfold owned in Hno; set_solver).
  split; split.
  - rewrite Eo. apply NoDup_app. split_and!; [done|set_solver|apply NoDup_singleton].
  - intros q. rewrite Eo. unfold s'. simpl. rewrite lookup_insert_is_Some. intros Hq.
    destruct (decide (p = q)); [by left|]. right. split; [done|]. apply S2. set_solver.
  - intros q d. rewrite Ea. unfold s'. simpl. intros Hq. rewrite lookup_insert_ne by naive_solver. by apply S3.
  - intros q Hq. rewrite Ea. destruct (S4 q Hq) as [H1 H2]. split; [done|]. intros d. unfold s'. simpl.
    rewrite lookup_insert_ne by naive_solver. apply H2.
  - intros q Hq. rewrite Ea. destruct (S5 q Hq) as [H1 H2]. split; [done|]. intros d. unfold s'. simpl.
    rewrite lookup_insert_ne by naive_solver. apply H2.
  - intros q d. unfold s'. simpl. rewrite lookup_insert_Some. intros [[<- <-]|[_ Hd]]; [done|eauto].
  - intros q r d d'. unfold s'. simpl. rewrite !lookup_insert_Some.
    intros [[<- <-]|[Hq Hd]] [[<- <-]|[Hr Hd']] Hu; [done| | |eauto].
    + by apply Hfresh in Hd'.
    + by apply Hfresh in Hd.
  - intros q d. unfold s'. simpl. rewrite phase_of_snoc, lookup_insert_Some. intros [[<- <-]|[Hq Hd]].
    + rewrite decide_True by done. rewrite Hnew. simpl. f_equal.
      change (Queued = placed s p). unfold placed. unfold owned, active in Hno.
      destruct (currentExecutingCommand s) as [m|].
      * rewrite !decide_False; [done|set_solver|intros [= ->]; set_solver].
      * rewrite !decide_False; [done|set_solver|done].
    + pose proof (Hfresh _ _ Hd). rewrite decide_False by congruence. by apply L3.
  - intros u. unfold s'. simpl. rewrite phase_of_snoc. case_decide as Eu; [|done]. subst u.
    by rewrite Hnew.
Qed.

(** A change of the current command by a client, as [setCommandFeatures] makes it. *)
Definition change_current (f : BatchCommand -> BatchCommand) : SB unit :=
  o ← st_gets currentExecutingCommand; p ← st_lift o; c ← deref p; store p (f c).

(** The operations of the two threads and of their clients.  A step of the scheduler is cut
    where it releases the mutex: [ORunAfter] is the part after that, with the command of
    the step in a local variable.  A client asks whether there is a current command before it
    takes the mutex for [OKill], so that there may be none any more; for [OFeatures] it
    asks with the mutex held.  [OCheck] is a round of the checker up to its wait; the end
    of a round, the event and the deletion of the replaced command, and the installation
    of a first command are made without the mutex of the current command, and are part of
    the step here. *)
Inductive sop :=
  | OEnqueue (p : nat) (c : BatchCommand) (priority : Z)
  | OCheck (h : users) (now : Z) (pick : nat)
  | ORunStep (h : users) (t1 t2 : Z)
  | ORunAfter (curr_executing_impl : option nat)
  | OKill
  | OFeatures (f : BatchCommand -> BatchCommand)
  | OStop.

Definition exec (o : sop) (s : sandbox) : option sandbox :=
  match o with
  | OEnqueue p c priority => snd <$> enqueueCommand true p c priority s
  | OCheck h now pick => snd <$> checkNextCommand true h now pick s
  | ORunStep h t1 t2 => snd <$> run_step true h t1 t2 s
  | ORunAfter o => snd <$> run_after o s
  | OKill => snd <$> killCurrentCommand s
  | OFeatures f => snd <$> change_current f s
  | OStop => snd <$> stop s
  end.

(** New commands are at a new address and have a new identifier. *)
Definition sop_ok (s : sandbox) (o : sop) : Prop :=
  match o with
  | OEnqueue p c _ => cmds s !! p = None /\ phase_of (unique_id c) (log s) = Some New /\ cmd_ok c
  | OCheck h _ _ | ORunStep h _ _ => users_ok h
  | OFeatures f => currentExecutingCommand s <> None /\ forall c, same_cmd c (f c)
  | ORunAfter _ | OKill | OStop => True
  end.

(** The three ways in which an operation has undefined behaviour: the scheduler reads the
    command of its step after it has been deleted, the checker reads outside of the
    decision table, and a client kills a current command that is gone. *)
Definition defect (s : sandbox) (o : sop) : Prop :=
  match o with
  | ORunAfter (Some p) => cmds s !! p = None
  | OCheck _ _ pick => out_of_table s pick
  | OKill => currentExecutingCommand s = None
  | _ => False
  end.

Definition sstep (s s' : sandbox) : Prop := exists o, sop_ok s o /\ exec o s = Some s'.

(** A sandbox after [init] and [start]. *)
Definition started : sandbox := set_flags true false false new_sandbox.

Lemma wp_exec {A} (c : SB A) s :
  wp c (fun _ s' => inv s') s -> exists s', snd <$> c s = Some s' /\ inv s'.
Proof. intros (a & s' & E & H)%wp_elim. exists s'. by rewrite E. Qed.

Lemma wp_change_current f s :
  inv s -> currentExecutingCommand s <> None -> (forall c, same_cmd c (f c)) -> wp (change_current f) (fun _ s' => inv s') s.
Proof.
  intros H Hne Hf. unfold change_current. destruct (currentExecutingCommand s) as [cur|] eqn:Ec; [|done].
  destruct (current_facts s cur H Ec) as (_ & _ & c & Hc & _). wp_steps. rewrite Ec.
  eapply wp_lift; [done|]. wp_steps. eapply wp_deref_cmd; [exact Hc|]. unfold store. wp_steps.
  by eapply (inv_store _ _ cur c (f c)).
Qed.

Lemma exec_ok s o : inv s -> sop_ok s o -> ~ defect s o -> exists s', exec o s = Some s' /\ inv s'.
Proof.
  intros H Ho Hd. destruct o as [p c z|h now pick|h t1 t2|o| |f|]; simpl in Ho, Hd; unfold exec.
  - destruct Ho as (H1 & H2 & H3). by apply wp_exec, inv_enqueue.
  - by apply wp_exec, wp_checkNextCommand.
  - apply wp_exec. eapply wp_mono; [by apply wp_run_step|]. by intros o s' [? _].
  - apply wp_exec, wp_run_after; [done|]. intros p ->. by destruct (cmds s !! p).
  - apply wp_exec. change killCurrentCommand with (change_current (setRunningProperty RP_End)).
    apply wp_change_current; [done|done|]. intros c. apply setRunningProperty_same. unfold RP_End. lia.
  - apply wp_exec. destruct Ho as [Ho1 Ho2]. by apply wp_change_current.
  - eexists. split; [done|]. by eapply inv_fields.
Qed.

Lemma decide_defect s o : defect s o \/ ~ defect s o.
Proof.
  destruct o as [p c z|h now pick|h t1 t2|[p|]| |f|]; simpl; try (right; intros []; fail).
  - unfold out_of_table. destruct (currentExecutingCommand s) as [cur|]; [|right; naive_solver].
    destruct (top pick (command_submitted_queue s)) as [n|]; [|right; naive_solver].
    destruct (cmds s !! n) as [cn|] eqn:Hn; [|right; naive_solver].
    destruct (decide (1 < implementedHandler cn /\ 2 < submissionRule cn)) as [[? ?]|Hno]; [left; naive_solver|].
    right. intros (cur' & n' & cn' & _ & [= <-] & Hn' & ? & ?). apply Hno. split; congruence.
  - destruct (cmds s !! p); [by right|by left].
  - destruct (currentExecutingCommand s); [by right|by left].
Qed.

Lemma table_outside r u : 2 < u -> CHECK_RUNNING_VS_SUBMISSION r u = None.
Proof.
  intros Hu. unfold CHECK_RUNNING_VS_SUBMISSION. destruct (running_vs_submition !! Z.to_nat r) as [row|] eqn:E; [|done]. simpl.
  apply lookup_ge_None_2. assert (length row = 3%nat); [|lia].
  apply list_elem_of_lookup_2 in E. unfold running_vs_submition in E. rewrite !elem_of_cons, elem_of_nil in E.
  by destruct E as [->|[->|[->|[->|[]]]]].
Qed.

Lemma exec_defect s o : inv s -> defect s o -> exec o s = None.
Proof.
  intros H Hd. destruct o as [p c z|h now pick|h t1 t2|[p|]| |f|]; try done; unfold exec.
  - destruct Hd as (cur & n & cn & Hcur & Ht & Hn & Hm & Hr). destruct (current_facts s cur H Hcur) as (_ & _ & c & Hc & _).
    unfold checkNextCommand, mbind, ST_bind, st_gets. rewrite Ht, Hcur.
    unfold check_submitted, deref, mbind, ST_bind, st_gets, st_lift. rewrite Hc, Hn.
    rewrite (proj2 (Z.leb_gt _ _)) by done. by rewrite table_outside.
  - simpl in Hd. unfold run_after, deref, mbind, ST_bind, st_gets, st_lift. by rewrite Hd.
  - simpl in Hd. unfold killCurrentCommand, mbind, ST_bind, st_gets, st_lift. by rewrite Hd.
Qed.

Lemma started_inv : inv started.
Proof.
  split; split; try done; simpl.
  - apply NoDup_nil_2.
  - set_solver.
Qed.

Lemma reachable_inv s : rtc sstep started s -> inv s.
Proof.
  assert (forall s1, rtc sstep s1 s -> inv s1 -> inv s) as H; [|intros Hr; by eapply H, started_inv].
  induction 1 as [|s1 s2 s3 (o & Ho & He) _ IH]; [done|]. intros H1. apply IH.
  destruct (exec_ok s1 o H1 Ho) as (s' & E & H'); [|congruence]. intros Hd. by rewrite (exec_defect s1 o H1 Hd) in He.
Qed.


(** ** What the checker decides *)

Lemma max_priority_ge q e : e ∈ q -> e.1 <= max_priority q.
Proof.
  destruct q as [|x q]; [set_solver|]. simpl. revert e. induction q as [|y q IH]; intros e; simpl.
  - intros ->%list_elem_of_singleton. lia.
  - rewrite !elem_of_cons. intros [->|[->|H]]; [specialize (IH x ltac:(set_solver))|
      |specialize (IH e ltac:(set_solver))]; lia.
Qed.

Lemma max_priority_in q : q <> [] -> exists e, e ∈ q /\ e.1 = max_priority q.
Proof.
  destruct q as [|x q]; [done|]. intros _. simpl. induction q as [|y q (e & He & E)]; simpl.
  - exists x. split; [set_solver|done].
  - destruct (Z.max_spec (y.1) (foldr (fun e m => Z.max e.1 m) (x.1) q)) as [[_ ->]|[_ ->]].
    + exists e. split; [set_solver|done].
    + exists y. split; [set_solver|done].
Qed.

Lemma top_maximal pick q n :
  top pick q = Some n -> exists z, (z, n) ∈ q /\ forall e, e ∈ q -> e.1 <= z.
Proof.
  unfold top. destruct (candidates q !! _) as [[z m]|] eqn:E; [|done]. intros [= <-].
  apply list_elem_of_lookup_2 in E. unfold candidates in E. apply list_elem_of_filter in E as [E1 E2].
  exists z. split; [done|]. intros e He. simpl in E1. rewrite E1. by apply max_priority_ge.
Qed.

Lemma top_some pick q : q <> [] -> is_Some (top pick q).
Proof.
  intros (e & He & E)%max_priority_in. unfold top. apply fmap_is_Some, lookup_lt_is_Some.
  assert (e ∈ candidates q) as Hin by (unfold candidates; by rewrite list_elem_of_filter).
  assert (length (candidates q) <> 0%nat) by (destruct (candidates q); [set_solver|done]).
  by apply Nat.mod_upper_bound.
Qed.

(** [C39] A command that declares itself exclusive is not preempted: a round of the checker
    leaves it installed and unchanged, with the same commands stacked below it. *)
Theorem exclusive_not_preempted s cur c h now pick r s' :
  rtc sstep started s -> users_ok h -> currentExecutingCommand s = Some cur ->
  cmds s !! cur = Some c -> runningProperty c = RP_Exsc ->
  checkNextCommand true h now pick s = Some (r, s') ->
  currentExecutingCommand s' = Some cur /\ commandStack s' = commandStack s /\ cmds s' !! cur = Some c.
Proof.
  intros H%reachable_inv Hu Hcur Hc Hex E.
  assert (wp (checkNextCommand true h now pick) (fun _ s' => currentExecutingCommand s' = Some cur /\
    commandStack s' = commandStack s /\ cmds s' !! cur = Some c) s) as Hwp; [|unfold wp in Hwp; by rewrite E in Hwp].
  assert (forall n cn, top pick (command_submitted_queue s) = Some n -> cmds s !! n = Some cn -> 1 < implementedHandler cn ->
    submissionRule cn <= 2) as Hin.
  { intros n cn Ht Hn Hm. destruct (Z.le_gt_cases (submissionRule cn) 2) as [|Hr]; [done|].
    pose proof (exec_defect s (OCheck h now pick) H) as Hx. simpl in Hx. rewrite E in Hx. discriminate Hx. by exists cur, n, cn. }
  clear E r s'. unfold checkNextCommand. wp_steps. rewrite Hcur.
  destruct (top pick (command_submitted_queue s)) as [n|] eqn:Et.
  - pose proof Et as Et0. apply top_in in Et. destruct (queued_facts s n H Et) as (Hna & _ & _ & cn & Hcn & Hok).
    assert (cur <> n) as Hne. { intros ->. apply Hna. unfold active. rewrite Hcur. set_solver. }
    unfold check_submitted. wp_steps. eapply (wp_deref_cmd cur s c); [done|]. wp_steps.
    eapply (wp_deref_cmd n s cn); [done|]. destruct (implementedHandler cn <=? 1) eqn:Em; reflect_bool.
    + unfold run_set_only. wp_steps. eapply (wp_install h Hu); [exact Hcn|].
      intros b s1 c1 [I1 I2 I3 I4 I5 I6 _ _]. destruct b.
      { destruct (I5 eq_refl) as ([R _] & _). rewrite (sc_mask _ _ I2) in R. lia. }
      destruct (I6 eq_refl) as (J1 & _). wp_steps.
      eapply (wp_deref_cmd n _ c1); [simpl; by rewrite I1, lookup_insert_eq|]. unfold handleCommandEvent.
      destruct (_ =? _); wp_steps; (eapply (wp_delete n _ c1); [simpl; by rewrite I1, lookup_insert_eq|]);
        wp_steps; simpl; rewrite I1, I4, J1, lookup_delete_ne, lookup_insert_ne by done; done.
    + destruct Hok as (_ & Hr & _). specialize (Hin n cn eq_refl Hcn Em).
      destruct (table_total (runningProperty c) (submissionRule cn)) as [d Hd]; [rewrite Hex; done|lia|].
      wp_steps. eapply wp_lift; [exact Hd|]. rewrite Hex in Hd.
      assert (submissionRule cn = 0 \/ submissionRule cn = 1 \/ submissionRule cn = 2) as Hs by lia.
      destruct Hs as [Hs|[Hs|Hs]]; rewrite Hs in Hd; injection Hd as <-; by wp_steps.
  - unfold check_ended. wp_steps. eapply (wp_deref_cmd cur s c); [done|]. rewrite Hex. by wp_steps.
Qed.

(** What a round with the decision [d] does when it takes the submitted command [n]:
    nothing, or [n] leaves the queue and runs while the current command is stacked or
    deleted, with the event of that decision. *)
Definition scheduled (d : RunningVSSubmissioneResult) (z : Z) (cur n : nat) (c cn : BatchCommand)
    (s s' : sandbox) : Prop :=
  let taken k live e :=
    currentExecutingCommand s' = Some n /\ commandStack s' = k /\
    command_submitted_queue s ≡ₚ (z, n) :: command_submitted_queue s' /\ cmds s' !! cur = live /\
    log s' = log s ++ [(unique_id cn, EVT_RUNNING); (unique_id c, e)] in
  match d with
  | RSR_NO_CHANGE | RSR_TIMED_RETRY => s' = s
  | RSR_STACK_CURENT_COMMAND => taken (cur :: commandStack s) (Some c) EVT_PAUSED
  | RSR_KILL_KURRENT_COMMAND => taken (commandStack s) None EVT_KILLED
  | RSR_CURRENT_CMD_HAS_ENDED => taken (commandStack s) None EVT_COMPLETED
  | RSR_CURRENT_CMD_HAS_FAULTED => taken (commandStack s) None EVT_FAULT
  end.

Lemma pop_perm_entry z n q : NoDup (q.*2) -> (z, n) ∈ q -> q ≡ₚ (z, n) :: pop n q.
Proof.
  induction q as [|[y m] q IH]; [set_solver|]. simpl. intros [Hm Hq]%NoDup_cons [[= -> ->]|Hin]%elem_of_cons.
  - unfold pop. rewrite filter_cons_False by (simpl; naive_solver). change (filter _ q) with (pop m q). by rewrite pop_absent.
  - assert (m <> n) by (intros ->; apply Hm, list_elem_of_fmap; by exists (z, n)).
    unfold pop. rewrite filter_cons_True by done. change (filter _ q) with (pop n q).
    rewrite (IH Hq Hin) at 1. by rewrite Permutation_swap.
Qed.

Lemma wp_installs h (Hu : users_ok h) now p s c (Q : bool -> sandbox -> Prop) :
  cmds s !! p = Some c -> installs h p c ->
  (forall s', currentExecutingCommand s' = Some p -> commandStack s' = commandStack s ->
     (forall q, q <> p -> cmds s' !! q = cmds s !! q) -> command_submitted_queue s' = command_submitted_queue s ->
     log s' = log s ++ [(unique_id c, EVT_RUNNING)] -> Q true s') ->
  wp (installHandler true h now (Some p)) Q s.
Proof.
  intros Hp Hi HQ. eapply (wp_install h Hu); [exact Hp|]. intros b s' c' Hpost.
  assert (b = true) as -> by (by eapply ip_installs). destruct Hpost as [I1 _ I3 I4 I5 _ _ _].
  destruct (I5 eq_refl) as (_ & Hc & _ & _ & Hl). apply HQ; [done|done| |done|done].
  intros q Hq. rewrite I1. by apply lookup_insert_ne.
Qed.

(** The two rounds that take the submitted command. *)
Section Taken.
Context (h : users) (Hu : users_ok h) (now : Z) (s : sandbox) (cur n : nat) (z : Z) (c cn : BatchCommand).
Context (Hne : cur <> n) (Hc : cmds s !! cur = Some c) (Hcn : cmds s !! n = Some cn) (Hi : installs h n cn).
Context (Hq : NoDup ((command_submitted_queue s).*2)) (Hz : (z, n) ∈ command_submitted_queue s).

Lemma wp_replaced e (P : sandbox -> Prop) :
  ready c ->
  (forall s', currentExecutingCommand s' = Some n -> commandStack s' = commandStack s ->
     command_submitted_queue s ≡ₚ (z, n) :: command_submitted_queue s' -> cmds s' !! cur = None ->
     log s' = log s ++ [(unique_id cn, EVT_RUNNING); (unique_id c, e)] -> P s') ->
  wp (replace_current true h now cur n e) (fun _ s' => P s') s.
Proof using All.
  intros Hcr HP. unfold replace_current. wp_steps. eapply wp_removeHandler; [exact Hc|done|].
  intros s1 A1 A2 A3 A4 A5 A6 A7. wp_steps. eapply (wp_installs h Hu); [by rewrite A1|done|].
  intros s2 B1 B2 B3 B4 B5. unfold wake_scheduler. wp_steps.
  eapply (wp_deref_cmd cur _ c); [simpl; by rewrite B3, A1|]. unfold handleCommandEvent. wp_steps.
  eapply (wp_delete cur _ c); [simpl; by rewrite B3, A1|]. wp_steps. apply HP; simpl.
  - done.
  - by rewrite B2, A3.
  - rewrite B4, A4. by apply pop_perm_entry.
  - apply lookup_delete_eq.
  - rewrite B5, A5. simpl. by rewrite <- app_assoc.
Qed.

Lemma wp_stacked (P : sandbox -> Prop) :
  (forall s', currentExecutingCommand s' = Some n -> commandStack s' = cur :: commandStack s ->
     command_submitted_queue s ≡ₚ (z, n) :: command_submitted_queue s' -> cmds s' !! cur = Some c ->
     log s' = log s ++ [(unique_id cn, EVT_RUNNING); (unique_id c, EVT_PAUSED)] -> P s') ->
  wp (stack_current true h now cur n) (fun _ s' => P s') s.
Proof using All.
  intros HP. unfold stack_current. wp_steps. eapply (wp_installs h Hu); [exact Hcn|done|].
  intros s2 B1 B2 B3 B4 B5. wp_steps.
  eapply (wp_deref_cmd cur _ c); [simpl; by rewrite B3|]. unfold handleCommandEvent, wake_scheduler. wp_steps. apply HP; simpl.
  - done.
  - by rewrite B2.
  - rewrite B4. by apply pop_perm_entry.
  - by rewrite B3.
  - rewrite B5. simpl. by rewrite <- app_assoc.
Qed.

End Taken.

(** The round that installs a submitted command. *)
Lemma wp_check_schedules h (Hu : users_ok h) now s cur n z c cn :
  inv s -> currentExecutingCommand s = Some cur -> (z, n) ∈ command_submitted_queue s ->
  cmds s !! cur = Some c -> cmds s !! n = Some cn -> installs h n cn -> submissionRule cn <= 2 ->
  wp (check_submitted true h now cur n) (fun _ s' => exists d,
    CHECK_RUNNING_VS_SUBMISSION (runningProperty c) (submissionRule cn) = Some d /\ scheduled d z cur n c cn s s') s.
Proof.
  intros H Hcur Hz Hc Hcn Hi Hr. assert (n ∈ (command_submitted_queue s).*2) as Hn by (apply list_elem_of_fmap; by exists (z, n)).
  destruct (queued_facts s n H Hn) as (Hna & _ & Hnd & c0 & Hc0 & Hok).
  destruct (current_facts s cur H Hcur) as (_ & _ & c0' & Hc0' & Hcok & Hcr). simplify_eq.
  assert (cur <> n) as Hne. { intros ->. apply Hna. unfold active. rewrite Hcur. set_solver. }
  unfold check_submitted. wp_steps. eapply wp_deref_cmd; [exact Hc|]. wp_steps. eapply wp_deref_cmd; [exact Hcn|].
  assert (implementedHandler cn <=? 1 = false) as -> by (apply Z.leb_gt; apply Hi). wp_steps.
  destruct (table_total (runningProperty c) (submissionRule cn)) as [d Hd]; [apply Hcok|destruct Hok as (_ & ? & _); lia|].
  eapply wp_lift; [exact Hd|].
  destruct d; try (by wp_steps; eexists);
    (eapply (wp_stacked h Hu now s cur n z c cn) || eapply (wp_replaced h Hu now s cur n z c cn)); try done;
    intros s' ? ? ? ? ?; (eexists; split; [exact Hd|]; done).
Qed.

(** [C22] Scheduling.  A round of the checker with a current command considers a submitted
    command with the highest priority.  If that command has more than a set handler, its set
    handler returns and its submission rule is one of the three of the decision table,
    the round does what the table says: nothing; or the submitted command leaves the
    queue and runs, and the current one is stacked and reported paused, or is deleted
    and reported killed, completed or at fault.  With an empty queue a command that has ended
    is deleted and gives way to the one it had stacked last, or to none. *)
Theorem checker_schedules s cur c h now pick :
  rtc sstep started s -> users_ok h -> currentExecutingCommand s = Some cur -> cmds s !! cur = Some c ->
  (forall n cn, top pick (command_submitted_queue s) = Some n -> cmds s !! n = Some cn -> installs h n cn ->
     submissionRule cn <= 2 ->
     exists r s' d z, checkNextCommand true h now pick s = Some (r, s') /\
       CHECK_RUNNING_VS_SUBMISSION (runningProperty c) (submissionRule cn) = Some d /\
       scheduled d z cur n c cn s s' /\
       (z, n) ∈ command_submitted_queue s /\ forall e, e ∈ command_submitted_queue s -> e.1 <= z) /\
  (command_submitted_queue s = [] -> RP_End <= runningProperty c ->
     exists r s', checkNextCommand true h now pick s = Some (r, s') /\
       currentExecutingCommand s' = head (commandStack s) /\ commandStack s' = tail (commandStack s) /\
       cmds s' !! cur = None).
Proof.
  intros H%reachable_inv Hu Hcur Hc. split.
  - intros n cn Ht Hcn Hi Hr. destruct (top_maximal _ _ _ Ht) as (z & Hz & Hmax).
    pose proof (wp_check_schedules h Hu now s cur n z c cn H Hcur Hz Hc Hcn Hi Hr) as Hwp.
    apply wp_elim in Hwp as (r & s' & E & d & Hd & Hs). exists r, s', d, z. split_and!; try done.
    unfold checkNextCommand, st_gets, mbind, ST_bind. by rewrite Ht, Hcur.
  - intros Hq He. destruct (current_facts s cur H Hcur) as (Hca & Hcs & c0 & Hc0 & Hcok & Hcr). simplify_eq.
    assert (wp (checkNextCommand true h now pick) (fun _ s' => currentExecutingCommand s' = head (commandStack s) /\
      commandStack s' = tail (commandStack s) /\ cmds s' !! cur = None) s) as Hwp.
    { unfold checkNextCommand. wp_steps. rewrite Hq, Hcur. change (top pick []) with (@None nat).
      unfold check_ended. wp_steps.
      eapply wp_deref_cmd; [exact Hc|]. rewrite (proj2 (Z.leb_le _ _) He). wp_steps.
      eapply wp_removeHandler; [exact Hc|done|]. intros s1 A1 A2 A3 A4 A5 A6 A7. wp_steps.
      destruct (commandStack s) as [|n k] eqn:Ek.
      - unfold installHandler. wp_steps. eapply (wp_deref_cmd cur _ c); [simpl; by rewrite A1|]. wp_steps.
        eapply wp_end_event; [done|done|]. intros e _. wp_steps.
        eapply (wp_delete cur _ c); [simpl; by rewrite A1|]. wp_steps. simpl.
        by rewrite A3, lookup_delete_eq.
      - assert (active s = cur :: n :: k) as Ea by (unfold active; by rewrite Hcur, Ek).
        assert (cur <> n) as Hne by set_solver.
        destruct (s_live _ (proj1 H) n) as [cn Hcn]; [unfold owned; rewrite Ea; set_solver|].
        assert (ready cn) as Hrn by (apply (s_ready _ (proj1 H) n); [rewrite Ea; set_solver|done]).
        wp_steps. eapply (wp_install h Hu); [by rewrite A1|]. intros b s2 c1 [I1 I2 I3 I4 I5 _ I7 _].
        rewrite (I7 Hrn) in *. destruct (I5 eq_refl) as (R & J1 & _). unfold wake_scheduler. wp_steps.
        eapply (wp_deref_cmd cur _ c); [simpl; by rewrite I1, A1, lookup_insert_ne|]. wp_steps.
        eapply wp_end_event; [done|done|]. intros e _. wp_steps.
        eapply (wp_delete cur _ c); [simpl; by rewrite I1, A1, lookup_insert_ne|]. wp_steps. simpl.
        by rewrite J1, lookup_delete_eq. }
    apply wp_elim in Hwp as (r & s' & E & Hs). by exists r, s'.
Qed.

(** ** Defects *)

(** The loop of the checker thread, with waits that always return: [true] when it ends. *)
Fixpoint checker_loop (fuel : nat) (h : users) (now : Z) (pick : nat -> nat) (s : sandbox) : option (bool * sandbox) :=
  match fuel with
  | O => Some (false, s)
  | S fuel =>
      '(r, s) ← checkNextCommand true h now (pick fuel) s;
      match r with
      | RTest | RWaitTest => if scheduleWorkFlag s then checker_loop fuel h now pick s else Some (true, s)
      | _ => checker_loop fuel h now pick s
      end
  end.

(** [stop] does not end while a command waits for the current one: the checker thread,
    which [stop] waits for, goes round without looking at the work flag, however often it
    is woken. *)
Theorem stop_hangs_with_waiting_command s cur c h now pick fuel :
  currentExecutingCommand s = Some cur -> cmds s !! cur = Some c -> runningProperty c = RP_Normal ->
  command_submitted_queue s <> [] ->
  (forall z n, (z, n) ∈ command_submitted_queue s -> exists cn, cmds s !! n = Some cn /\
     1 < implementedHandler cn /\ submissionRule cn = SUBMIT_NORMAL) ->
  exists s', stop s = Some (tt, s') /\ scheduleWorkFlag s' = false /\
    checker_loop fuel h now pick s' = Some (false, s').
Proof.
  intros Hcur Hc Hp Hq Hw. eexists. split; [done|]. split; [done|]. set (s' := set_flags _ _ _ s).
  induction fuel as [|fuel IH]; [done|]. cbn [checker_loop].
  destruct (top_some (pick fuel) (command_submitted_queue s) Hq) as [n Hn].
  destruct (top_maximal _ _ _ Hn) as (z & Hz & _). destruct (Hw z n Hz) as (cn & Hcn & Hm & Hr).
  assert (checkNextCommand true h now (pick fuel) s' = Some (RWaitContinue, s')) as ->; [|exact IH].
  assert (wp (checkNextCommand true h now (pick fuel)) (fun r s1 => r = RWaitContinue /\ s1 = s') s') as Hwp.
  { unfold checkNextCommand. wp_steps. simpl. rewrite Hn, Hcur. unfold check_submitted. wp_steps.
    eapply (wp_deref_cmd cur _ c); [done|]. wp_steps. eapply (wp_deref_cmd n _ cn); [done|].
    assert (implementedHandler cn <=? 1 = false) as -> by (apply Z.leb_gt; lia). wp_steps.
    rewrite Hp, Hr. eapply wp_lift; [reflexivity|]. by wp_steps. }
  apply wp_elim in Hwp as (r & s1 & E & -> & ->). exact E.
Qed.

(** *** Scenarios *)

Definition quiet : users := fun _ _ => mkUser [] (UReturn false).
Lemma quiet_ok : users_ok quiet.
Proof. intros p ht. constructor. Qed.

(** Operations with users that do nothing; the side conditions are tested. *)
Inductive qop := QEnqueue (p : nat) (c : BatchCommand) (priority : Z) | QCheck | QRun (t1 t2 : Z) | QStop.
Definition qsop (o : qop) : sop :=
  match o with
  | QEnqueue p c z => OEnqueue p c z | QCheck => OCheck quiet 0 0 | QRun t1 t2 => ORunStep quiet t1 t2 | QStop => OStop
  end.
Definition cmd_okb (c : BatchCommand) : bool :=
  (0 <=? runningProperty c) && (runningProperty c <=? 3) && (0 <=? submissionRule c) && negb (lockFeaturePropertyFlag c).1.2.
Definition qokb (s : sandbox) (o : qop) : bool :=
  match o with
  | QEnqueue p c _ =>
      match cmds s !! p with None => true | _ => false end &&
      bool_decide (phase_of (unique_id c) (log s) = Some New) && cmd_okb c
  | _ => true
  end.
Fixpoint qrun (ops : list qop) (s : sandbox) : option sandbox :=
  match ops with
  | [] => Some s
  | o :: ops => if qokb s o then s ← exec (qsop o) s; qrun ops s else None
  end.

Lemma qokb_ok s o : qokb s o = true -> sop_ok s (qsop o).
Proof.
  destruct o; simpl; intros H; try exact quiet_ok; try done. reflect_bool.
  unfold cmd_okb in *. reflect_bool. split_and!; [by destruct (cmds s !! p)|done|].
  split_and!; [lia|lia|lia|done].
Qed.

Lemma qrun_rtc ops s s' : qrun ops s = Some s' -> rtc sstep s s'.
Proof.
  revert s. induction ops as [|o ops IH]; intros s; simpl; [by intros [= ->]|].
  destruct (qokb s o) eqn:Eo; [|done]. destruct (exec (qsop o) s) as [s1|] eqn:E; [|done]. simpl.
  intros H. eapply rtc_l; [exists (qsop o); split; [by apply qokb_ok|exact E]|]. by apply IH.
Qed.

Definition with_rule (rule : Z) (c : BatchCommand) : BatchCommand :=
  mkCmd (unique_id c) (implementedHandler c) rule (already_setupped c) (command_set_time_usec c)
    (lockFeaturePropertyFlag c) (commandFeatures c) (runningProperty c) (fault_code c).
Definition cmdA : BatchCommand := new_BatchCommand 1 6.
Definition cmdB (rule : Z) : BatchCommand := with_rule rule (new_BatchCommand 2 6).

Definition install_A : list qop := [QEnqueue 1 cmdA 50; QCheck].
Definition submit_B (rule : Z) : list qop := [QEnqueue 2 (cmdB rule) 50; QCheck].

Definition the_state (o : option sandbox) : sandbox := default new_sandbox o.

(** The scheduler uses a deleted command: it reads the running property of the command of
    its step after it has released the mutex.  If in between a command with the kill rule
    is submitted and checked, the command is gone. *)
Theorem scheduler_uses_deleted_command :
  exists s1 s2 s3, rtc sstep started s1 /\
    run_step true quiet 10 12 s1 = Some (Some 1%nat, s2) /\
    rtc sstep s2 s3 /\ run_after (Some 1%nat) s3 = None.
Proof.
  exists (the_state (qrun install_A started)).
  exists (the_state (snd <$> run_step true quiet 10 12 (the_state (qrun install_A started)))).
  exists (the_state (qrun (submit_B SUBMIT_AND_Kill)
    (the_state (snd <$> run_step true quiet 10 12 (the_state (qrun install_A started)))))).
  split_and!.
  - apply (qrun_rtc install_A). vm_compute. reflexivity.
  - vm_compute. reflexivity.
  - apply (qrun_rtc (submit_B SUBMIT_AND_Kill)). vm_compute. reflexivity.
  - vm_compute. reflexivity.
Qed.

(** The scheduler waits longer after a slow step: the time a step took is computed with
    the wrong sign, so that it is added to the delay between two steps instead of being
    taken off it. *)
Theorem slow_steps_are_delayed_more (delay t1 elapsed hb : Z) :
  0 <= elapsed -> 0 < delay -> delay + 1000 * elapsed < 2 ^ 63 ->
  time_to_wait delay (mkStat t1 (u64 (t1 - (t1 + elapsed))) hb) = delay + 1000 * elapsed.
Proof.
  intros He Hd Hb. unfold time_to_wait. simpl lastCmdStepTime.
  assert (s64 (u64 (delay - u64 (u64 (t1 - (t1 + elapsed)) * 1000))) = delay + 1000 * elapsed) as ->.
  { rewrite swrap_uwrap by lia. replace (t1 - (t1 + elapsed)) with (- elapsed) by lia.
    unfold uwrap. rewrite Zmult_mod_idemp_l. rewrite <- (swrap_uwrap 64) by lia. unfold uwrap.
    rewrite Zminus_mod_idemp_r. change ((delay - - elapsed * 1000) mod 2 ^ 64) with (u64 (delay - - elapsed * 1000)).
    rewrite swrap_uwrap by lia. rewrite swrap_small; [lia|lia|]. unfold in_s. lia. }
  destruct (0 <? delay + 1000 * elapsed) eqn:E; [done|]. reflect_bool. lia.
Qed.

(** The first command is lost when it cannot be installed: with no current command, a
    submitted command that has only a set handler leaves the queue without being
    deleted and without any event, although its set handler has run. *)
Theorem first_set_only_command_lost s n c h now pick :
  rtc sstep started s -> users_ok h -> currentExecutingCommand s = None ->
  top pick (command_submitted_queue s) = Some n -> cmds s !! n = Some c -> implementedHandler c <= 1 ->
  exists r s', checkNextCommand true h now pick s = Some (r, s') /\
    n ∉ owned s' /\ is_Some (cmds s' !! n) /\ log s' = log s.
Proof.
  intros H%reachable_inv Hu Hcur Ht Hc Hm. pose proof (top_in _ _ _ Ht) as Hn.
  destruct (queued_facts s n H Hn) as (Hna & _ & Hq & _).
  assert (wp (checkNextCommand true h now pick) (fun _ s' => n ∉ owned s' /\ is_Some (cmds s' !! n) /\
    log s' = log s) s) as Hwp; [|by apply wp_elim in Hwp as (r & s' & E & Hs); exists r, s'].
  unfold checkNextCommand. wp_steps. rewrite Ht, Hcur. wp_steps. eapply (wp_install h Hu); [exact Hc|].
  intros b s1 c1 [I1 I2 I3 I4 I5 I6 _ _]. destruct b.
  { destruct (I5 eq_refl) as ([R _] & _). rewrite (sc_mask _ _ I2) in R. lia. }
  destruct (I6 eq_refl) as (J1 & _ & _ & J4 & _). unfold wake_scheduler. wp_steps. simpl. split_and!.
  - unfold owned, active in *. simpl. rewrite J1, I4, I3, Hcur in *. rewrite not_elem_of_app. split; [done|].
    pose proof (pop_perm n _ Hq Hn) as Hp. rewrite Hp in Hq. by apply NoDup_cons in Hq as [? _].
  - rewrite I1. by rewrite lookup_insert_eq.
  - done.
Qed.

(** ** Witnesses *)


Definition exclusive (c : BatchCommand) : BatchCommand := with_property c RP_Exsc.

Lemma exclusive_not_preempted_witness :
  exists r s', checkNextCommand true quiet 0 0 (the_state (qrun
    [QEnqueue 1 (exclusive cmdA) 50; QCheck; QEnqueue 2 (cmdB SUBMIT_AND_Kill) 50] started)) = Some (r, s') /\
    currentExecutingCommand s' = Some 1%nat.
Proof.
  set (s := the_state _).
  destruct (checkNextCommand true quiet 0 0 s) as [[r s']|] eqn:E; [|vm_compute in E; discriminate].
  exists r, s'. split; [reflexivity|].
  eapply (exclusive_not_preempted s 1 _ quiet 0 0 r s'); [| |reflexivity|reflexivity|reflexivity|exact E].
  - apply (qrun_rtc [QEnqueue 1 (exclusive cmdA) 50; QCheck; QEnqueue 2 (cmdB SUBMIT_AND_Kill) 50]).
    vm_compute. reflexivity.
  - exact quiet_ok.
Defined.

Lemma checker_schedules_witness :
  exists r s', checkNextCommand true quiet 0 0
      (the_state (qrun (install_A ++ [QEnqueue 2 (cmdB SUBMIT_AND_Stack) 50]) started)) = Some (r, s') /\
    currentExecutingCommand s' = Some 2%nat /\ commandStack s' = [1%nat].
Proof.
  set (s := the_state _).
  assert (rtc sstep started s) as H
    by (apply (qrun_rtc (install_A ++ [QEnqueue 2 (cmdB SUBMIT_AND_Stack) 50])); vm_compute; reflexivity).
  assert (exists c, cmds s !! 1%nat = Some c /\ runningProperty c = RP_Normal) as (c & Hc & Hp)
    by (eexists; split; [vm_compute; reflexivity|reflexivity]).
  destruct (proj1 (checker_schedules s 1 c quiet 0 0 H quiet_ok eq_refl Hc) 2%nat (cmdB SUBMIT_AND_Stack))
    as (r & s' & d & z & E & Hd & Hs & _).
  - vm_compute. reflexivity.
  - vm_compute. reflexivity.
  - split; [vm_compute; reflexivity|by eexists].
  - by vm_compute.
  - exists r, s'. split; [exact E|]. rewrite Hp in Hd. injection Hd as <-. destruct Hs as (H1 & H2 & _).
    split; [exact H1|]. rewrite H2. vm_compute. reflexivity.
Defined.

Lemma stop_hangs_with_waiting_command_witness :
  exists s', stop (the_state (qrun (install_A ++ submit_B SUBMIT_NORMAL) started)) = Some (tt, s') /\
    scheduleWorkFlag s' = false /\ checker_loop 1000 quiet 0 id s' = Some (false, s').
Proof.
  set (s := the_state _).
  assert (exists c, cmds s !! 1%nat = Some c /\ runningProperty c = RP_Normal) as (c & Hc & Hp)
    by (eexists; split; [vm_compute; reflexivity|reflexivity]).
  apply (stop_hangs_with_waiting_command s 1 c quiet 0 id 1000); [vm_compute; reflexivity|exact Hc|exact Hp|
    vm_compute; discriminate|].
  assert (command_submitted_queue s = [(50, 2%nat)]) as -> by (vm_compute; reflexivity).
  intros z n [= -> ->]%list_elem_of_singleton. exists (cmdB SUBMIT_NORMAL).
  split; [vm_compute; reflexivity|]. split; [vm_compute; reflexivity|reflexivity].
Defined.

Lemma slow_steps_are_delayed_more_witness :
  time_to_wait 1000000 (mkStat 5000 (u64 (5000 - (5000 + 300))) 0) = 1300000.
Proof. apply (slow_steps_are_delayed_more 1000000 5000 300 0); lia. Defined.

Lemma first_set_only_command_lost_witness :
  exists r s', checkNextCommand true quiet 0 0
      (the_state (qrun [QEnqueue 1 (new_BatchCommand 7 1) 50] started)) = Some (r, s') /\
    1%nat ∉ owned s' /\ is_Some (cmds s' !! 1%nat).
Proof.
  destruct (first_set_only_command_lost (the_state (qrun [QEnqueue 1 (new_BatchCommand 7 1) 50] started))
    1 (new_BatchCommand 7 1) quiet 0 0) as (r & s' & E & H1 & H2 & _).
  - apply (qrun_rtc [QEnqueue 1 (new_BatchCommand 7 1) 50]). vm_compute. reflexivity.
  - exact quiet_ok.
  - vm_compute. reflexivity.
  - vm_compute. reflexivity.
  - vm_compute. reflexivity.
  - simpl. lia.
  - exists r, s'. split; [exact E|]. split; [exact H1|exact H2].
Defined.
