(* ===== verification/CommandHistory.v ===== *)
(** * The history of commands

    Models the part of [chaos/common/batch_command/BatchCommandExecutor.cpp] that remembers
    the state of every submitted command: a queue of state objects in the order of
    submission and a map from the identifier of a command to its state object.  The
    objects are shared by the two, so they live in an explicit heap; an object nobody
    refers to any more is garbage there.  The events come from the sandboxes of
    [BatchSandbox]; the capper thread and the clients shorten the queue. *)

From S2P Require Import Prelude BatchCommand BatchSandbox.

Local Open Scope Z_scope.

(** ** State *)

Record FaultDescription := mkFault { source : list Z; code : Z; description : list Z; domain : list Z }.

Record CommandState := mkState { command_id : Z; last_event : event; fault_description : FaultDescription }.

Record History := mkHistory {
  states : gmap nat CommandState;
  command_state_queue : list nat;
  command_state_fast_access_map : gmap Z nat;
  next_state : nat }.

Definition new_History : History := mkHistory ∅ [] ∅ 0.

(** The numbers of the events. *)
Definition event_code (e : event) : Z :=
  match e with
  | EVT_QUEUED => 0 | EVT_WAITING => 1 | EVT_RUNNING => 2 | EVT_PAUSED => 3
  | EVT_COMPLETED => 4 | EVT_FAULT => 5 | EVT_KILLED => 6
  end.

(** [last_event < EVT_COMPLETED]: the command has not ended. *)
Definition active_event (e : event) : bool := event_code e <? event_code EVT_COMPLETED.

Definition HM := ST History.

Definition set_states f (h : History) : History :=
  mkHistory (f (states h)) (command_state_queue h) (command_state_fast_access_map h) (next_state h).
Definition set_state_queue q (h : History) : History :=
  mkHistory (states h) q (command_state_fast_access_map h) (next_state h).
Definition set_fast f (h : History) : History :=
  mkHistory (states h) (command_state_queue h) (f (command_state_fast_access_map h)) (next_state h).

(** ** Operations *)

Definition the_state (p : nat) : HM CommandState := m ← st_gets states; st_lift (m !! p).
Definition put_state (p : nat) (x : CommandState) : HM unit := st_modify (set_states (<[p := x]>)).
Definition erase (id : Z) : HM unit := st_modify (set_fast (delete id)).

(** [getCommandState(uint64_t)] *)
Definition find_state (command_sequence : Z) : HM (option nat) :=
  m ← st_gets command_state_fast_access_map; mret (m !! command_sequence).

(** [std::map::insert] keeps an entry that is there. *)
Definition addComamndState (id : Z) : HM unit :=
  st_modify (fun h => mkHistory
    (<[next_state h := mkState id EVT_QUEUED (mkFault [] 0 [] [])]> (states h))
    (command_state_queue h ++ [next_state h])
    (match command_state_fast_access_map h !! id with
     | Some _ => command_state_fast_access_map h
     | None => <[id := next_state h]> (command_state_fast_access_map h)
     end) (S (next_state h))).

(** [fault] is what [type_value_ptr] points to. *)
Definition handleCommandEvent (id : Z) (type : event) (fault : FaultDescription) : HM unit :=
  match type with
  | EVT_QUEUED => addComamndState id
  | EVT_FAULT =>
      o ← find_state id;
      match o with
      | Some p => x ← the_state p; put_state p (mkState (command_id x) type fault)
      | None => mret tt
      end
  | _ =>
      o ← find_state id;
      match o with
      | Some p => x ← the_state p; put_state p (mkState (command_id x) type (fault_description x))
      | None => mret tt
      end
  end.

(** The loop of [capCommanaQueue] on the queue [q], with the states to reinsert. *)
Fixpoint cap_loop (idx max : Z) (q keep : list nat) : HM (list nat * list nat) :=
  if idx <? max then mret (q, keep) else
  match q with
  | [] => mret ([], keep)
  | p :: q =>
      x ← the_state p;
      if active_event (last_event x) then cap_loop idx max q (keep ++ [p])
      else erase (command_id x);; cap_loop (u64 (idx - 1)) max q keep
  end.

Definition capCommanaQueue (command_state_queue_max_size : Z) : HM unit :=
  q ← st_gets command_state_queue;
  if Z.of_nat (length q) <=? command_state_queue_max_size then mret tt else
  '(q, keep) ← cap_loop (u64 (Z.of_nat (length q) - 1)) command_state_queue_max_size q [];
  (* [push_front] for every state kept *)
  st_modify (set_state_queue (foldl (fun q p => p :: q) q keep)).

(** The loop of [flushCommandStates], on the reversed queue. *)
Fixpoint flush_loop (q : list nat) : HM (list nat) :=
  match q with
  | [] => mret []
  | p :: q' =>
      x ← the_state p;
      if active_event (last_event x) then mret q
      else erase (command_id x);; flush_loop q'
  end.

Definition flushCommandStates : HM unit :=
  q ← st_gets command_state_queue;
  q ← flush_loop (reverse q);
  st_modify (set_state_queue (reverse q)).

(** ** What the queue holds *)

Definition state_at (h : History) (p : nat) : CommandState := default (mkState 0 EVT_QUEUED (mkFault [] 0 [] [])) (states h !! p).
Definition ended_at (h : History) (p : nat) : bool := negb (active_event (last_event (state_at h p))).

(** Queue and map agree: the entries of the map are the states in the queue. *)
Record history_ok (h : History) : Prop := {
  ho_states : forall p, p ∈ command_state_queue h -> is_Some (states h !! p);
  ho_fresh : forall p, is_Some (states h !! p) -> (p < next_state h)%nat;
  ho_nodup : NoDup (command_state_queue h);
  ho_map : forall id p, command_state_fast_access_map h !! id = Some p <->
    p ∈ command_state_queue h /\ command_id (state_at h p) = id }.

Lemma the_state_run h p : is_Some (states h !! p) -> the_state p h = Some (state_at h p, h).
Proof. intros [x Hx]. unfold the_state, state_at, mbind, ST_bind, st_gets, st_lift. by rewrite Hx. Qed.

Lemma new_History_ok : history_ok new_History.
Proof. split; simpl; [set_solver|intros p [x Hx]; by rewrite lookup_empty in Hx|apply NoDup_nil_2|]. intros id p. rewrite lookup_empty. set_solver. Qed.

(** ** Shortening the queue *)

(** The map without the commands of some states. *)
Definition forget (h : History) (d : list nat) : History := set_fast (fun m => foldl (fun m p => delete (command_id (state_at h p)) m) m d) h.

(** From the front of [q]: what is not reached, the active ones passed over and the [n]
    ended ones removed. *)
Fixpoint cap_split (h : History) (n : nat) (q : list nat) : list nat * list nat * list nat :=
  match n, q with
  | O, _ => (q, [], [])
  | _, [] => ([], [], [])
  | S n', p :: q =>
      if ended_at h p then let '(r, k, d) := cap_split h n' q in (r, k, p :: d)
      else let '(r, k, d) := cap_split h n q in (r, p :: k, d)
  end.

Lemma forget_cons h p d : forget (set_fast (delete (command_id (state_at h p))) h) d = forget h (p :: d).
Proof. done. Qed.

Lemma cap_loop_run max n q : forall h keep,
  (forall p, p ∈ q -> is_Some (states h !! p)) -> 1 <= max -> max + Z.of_nat n < 2 ^ 64 ->
  cap_loop (max - 1 + Z.of_nat n) max q keep h =
    let '(r, k, d) := cap_split h n q in Some (r, keep ++ k, forget h d).
Proof.
  revert n. induction q as [|p q IH]; intros n h keep Hq Hm Hn; simpl.
  - destruct n as [|n].
    + rewrite (proj2 (Z.ltb_lt _ _)) by lia. simpl. rewrite app_nil_r. by destruct h.
    + rewrite (proj2 (Z.ltb_ge _ _)) by lia. rewrite app_nil_r. by destruct h.
  - destruct n as [|n].
    { rewrite (proj2 (Z.ltb_lt _ _)) by lia. simpl. rewrite app_nil_r. by destruct h. }
    rewrite (proj2 (Z.ltb_ge _ _)) by lia.
    assert (forall p', p' ∈ q -> is_Some (states h !! p')) as Hq' by (intros p' Hp'; apply Hq; set_solver).
    unfold mbind at 1, ST_bind. rewrite the_state_run by (apply Hq; set_solver). unfold ended_at.
    destruct (active_event (last_event (state_at h p))); simpl.
    + rewrite IH by done. destruct (cap_split h (S n) q) as [[r k] d]. by rewrite <- app_assoc.
    + replace (u64 (max - 1 + Z.of_nat (S n) - 1)) with (max - 1 + Z.of_nat n) by (rewrite uwrap_small; unfold in_u; lia).
      set (h1 := set_fast (delete (command_id (state_at h p))) h). unfold mbind, ST_bind, erase, st_modify. fold h1. rewrite IH by (done || lia).
      assert (cap_split h1 n q = cap_split h n q) as ->.
      { clear. revert n. induction q as [|p' q IH]; intros [|n]; try done. simpl. unfold ended_at. simpl. by rewrite !IH. }
      by destruct (cap_split h n q) as [[r k] d].
Qed.

Lemma cap_split_spec h q : forall n, let '(r, k, d) := cap_split h n q in
  q ≡ₚ k ++ r ++ d /\ d = take n (filter (fun p => ended_at h p = true) q) /\
  Forall (fun p => ended_at h p = false) k /\ ((length d < n)%nat -> r = []).
Proof.
  induction q as [|p q IH]; intros [|n]; simpl.
  - split_and!; [done..|by constructor|lia].
  - split_and!; [done..|by constructor|done].
  - split_and!; [by rewrite app_nil_r|by rewrite take_0|by constructor|lia].
  - rewrite filter_cons. destruct (ended_at h p) eqn:He.
    + specialize (IH n). destruct (cap_split h n q) as [[r k] d]. destruct IH as (H1 & H2 & H3 & H4).
      rewrite decide_True by done. split_and!; [rewrite H1|simpl; by rewrite H2|done|simpl; intros; apply H4; lia].
      rewrite !app_assoc. apply Permutation_middle.
    + specialize (IH (S n)). destruct (cap_split h (S n) q) as [[r k] d]. destruct IH as (H1 & H2 & H3 & H4).
      rewrite decide_False by done. split_and!; [by rewrite H1|done|by constructor|done].
Qed.

(** States left the queue; those that did had ended. *)
Record trimmed (h h' : History) (d : list nat) : Prop := {
  tm_states : states h' = states h;
  tm_next : next_state h' = next_state h;
  tm_queue : command_state_queue h ≡ₚ command_state_queue h' ++ d;
  tm_ended : Forall (fun p => ended_at h p = true) d;
  tm_fast : command_state_fast_access_map h' = command_state_fast_access_map (forget h d) }.

Lemma forget_lookup h d id :
  command_state_fast_access_map (forget h d) !! id =
    if bool_decide (id ∈ (fun p => command_id (state_at h p)) <$> d) then None else command_state_fast_access_map h !! id.
Proof.
  simpl. generalize (command_state_fast_access_map h) as m. induction d as [|p d IH]; intros m; simpl; [done|].
  rewrite IH. destruct (decide (id = command_id (state_at h p))) as [->|Hne].
  - rewrite (bool_decide_true (_ ∈ _ :: _)) by set_solver. rewrite lookup_delete_eq. by case_bool_decide.
  - rewrite lookup_delete_ne by done.
    by rewrite (bool_decide_ext (id ∈ _) (id ∈ command_id (state_at h p) :: ((fun p => command_id (state_at h p)) <$> d))) by set_solver.
Qed.

Lemma trimmed_state h h' d p : trimmed h h' d -> state_at h' p = state_at h p.
Proof. intros Ht. unfold state_at. by rewrite (tm_states _ _ _ Ht). Qed.

Lemma trimmed_ok h h' d : history_ok h -> trimmed h h' d -> history_ok h'.
Proof.
  intros [H1 H2 H3 H4] Ht. pose proof (tm_queue _ _ _ Ht) as Hq.
  assert (forall p, p ∈ command_state_queue h' -> p ∈ command_state_queue h) as Hin by (intros p Hp; rewrite Hq; set_solver).
  rewrite Hq in H3. apply NoDup_app in H3 as (Hn & Hd & _). split.
  - intros p Hp. rewrite (tm_states _ _ _ Ht). auto.
  - intros p. rewrite (tm_states _ _ _ Ht), (tm_next _ _ _ Ht). apply H2.
  - done.
  - intros id p. rewrite (tm_fast _ _ _ Ht), forget_lookup, (trimmed_state _ _ _ p Ht). case_bool_decide as Hid.
    + split; [done|]. intros [Hp He]. apply list_elem_of_fmap in Hid as (p' & -> & Hp').
      assert (p' = p) as ->; [|by destruct (Hd p Hp)].
      assert (Some p' = Some p) as [= ->]; [|done].
      rewrite <- (proj2 (H4 (command_id (state_at h p')) p')) by (split; [rewrite Hq; set_solver|done]).
      by rewrite (proj2 (H4 (command_id (state_at h p')) p)) by (split; [by apply Hin|done]).
    + rewrite H4. split; [|intros [Hp He]; auto]. intros [Hp He]. split; [|done].
      rewrite Hq in Hp. apply elem_of_app in Hp as [Hp|Hp]; [done|]. destruct Hid. apply list_elem_of_fmap. eauto.
Qed.

Lemma foldl_push (k r : list nat) : foldl (fun q p => p :: q) r k = reverse k ++ r.
Proof. revert r. induction k as [|p k IH]; intros r; simpl; [done|]. by rewrite IH, reverse_cons, <- app_assoc. Qed.

(** What [capCommanaQueue] removes: the first ended states in the order of the queue. *)
Definition excess (max : Z) (h : History) : list nat :=
  take (length (command_state_queue h) - Z.to_nat max) (filter (fun p => ended_at h p = true) (command_state_queue h)).

Lemma cap_run max h :
  history_ok h -> 1 <= max -> Z.of_nat (length (command_state_queue h)) < 2 ^ 63 ->
  exists h', capCommanaQueue max h = Some (tt, h') /\ trimmed h h' (excess max h) /\
    ((length (command_state_queue h') <= Z.to_nat max)%nat \/ Forall (fun p => ended_at h p = false) (command_state_queue h')).
Proof.
  intros Hok Hm Hl. unfold capCommanaQueue, mbind, ST_bind, st_gets, excess. set (q := command_state_queue h) in *.
  destruct (Z.of_nat (length q) <=? max) eqn:Hc.
  { apply Z.leb_le in Hc. exists h. assert (length q - Z.to_nat max = 0)%nat as -> by lia. rewrite take_0.
    split_and!; [done|split; simpl; auto; by rewrite app_nil_r|left; fold q; lia]. }
  apply Z.leb_gt in Hc. set (n := (length q - Z.to_nat max)%nat).
  rewrite uwrap_small by (unfold in_u; lia). replace (Z.of_nat (length q) - 1) with (max - 1 + Z.of_nat n) by lia.
  rewrite cap_loop_run by (apply Hok || lia). pose proof (cap_split_spec h q n) as Hs.
  destruct (cap_split h n q) as [[r k] d]. destruct Hs as (H1 & H2 & H3 & H4). simpl. unfold st_modify.
  eexists. split; [done|]. rewrite foldl_push. simpl. rewrite <- H2. split.
  - split; try done; simpl.
    + fold q. rewrite H1, app_assoc. f_equiv. f_equiv. by rewrite reverse_Permutation.
    + rewrite H2. apply Forall_take, Forall_forall. intros p Hp. by apply list_elem_of_filter in Hp as [? _].
  - rewrite length_app, length_reverse. pose proof (Permutation_length H1) as HL. rewrite !length_app in HL.
    destruct (decide (length d < n)%nat) as [Hd|Hd]; [|left; lia]. right. rewrite (H4 Hd), app_nil_r.
    apply Forall_forall. intros p Hp. rewrite elem_of_reverse in Hp. by eapply Forall_forall in H3.
Qed.

(** The longest end of a list where [b] holds. *)
Fixpoint prefix_while (b : nat -> bool) (q : list nat) : list nat :=
  match q with [] => [] | p :: q => if b p then p :: prefix_while b q else [] end.
Definition ended_tail (h : History) : list nat := prefix_while (ended_at h) (reverse (command_state_queue h)).

Lemma flush_loop_run q : forall h, (forall p, p ∈ q -> is_Some (states h !! p)) ->
  exists r, flush_loop q h = Some (r, forget h (prefix_while (ended_at h) q)) /\ q = prefix_while (ended_at h) q ++ r /\
    match r with [] => True | p :: _ => ended_at h p = false end.
Proof.
  induction q as [|p q IH]; intros h Hq; simpl.
  { exists []. by destruct h. }
  unfold mbind at 1, ST_bind. rewrite the_state_run by (apply Hq; set_solver).
  assert (active_event (last_event (state_at h p)) = negb (ended_at h p)) as -> by (unfold ended_at; by rewrite negb_involutive).
  destruct (ended_at h p) eqn:Ha; cbn [negb].
  2:{ exists (p :: q). split_and!; [by destruct h|done|done]. }
  set (h1 := set_fast (delete (command_id (state_at h p))) h). unfold mbind, ST_bind, erase, st_modify. fold h1.
  destruct (IH h1) as (r & Hr & Hq1 & Hl); [intros p' Hp'; apply Hq; set_solver|].
  change (ended_at h1) with (ended_at h) in *. exists r. split_and!; [done|simpl; by f_equal|done].
Qed.

Lemma flush_run h :
  history_ok h -> exists h', flushCommandStates h = Some (tt, h') /\ trimmed h h' (ended_tail h) /\
    match last (command_state_queue h') with Some p => ended_at h p = false | None => True end.
Proof.
  intros Hok. unfold flushCommandStates. unfold mbind at 1, ST_bind, st_gets.
  destruct (flush_loop_run (reverse (command_state_queue h)) h) as (r & Hr & Hq & Hl).
  { intros p Hp. apply Hok. by rewrite elem_of_reverse in Hp. }
  unfold mbind, ST_bind. rewrite Hr. eexists. split; [done|]. fold (ended_tail h) in *. simpl. split.
  - split; try done; simpl.
    + rewrite <- (reverse_involutive (command_state_queue h)), Hq, reverse_app. f_equiv. by rewrite reverse_Permutation.
    + unfold ended_tail. generalize (reverse (command_state_queue h)). intros q. induction q as [|p q IH]; simpl; [done|].
      destruct (ended_at h p) eqn:He; [by constructor|constructor].
  - rewrite last_reverse. by destruct r.
Qed.

(** ** The history follows the events *)

Inductive hop := HEvent (id : Z) (e : event) (fault : FaultDescription) | HCap (max : Z) | HFlush.

Definition hexec (o : hop) : HM unit :=
  match o with
  | HEvent id e fault => handleCommandEvent id e fault
  | HCap max => capCommanaQueue max
  | HFlush => flushCommandStates
  end.
Definition hrun (os : list hop) : HM unit := foldr (fun o c => hexec o;; c) (mret tt) os.

Definition hop_ok (o : hop) : Prop := match o with HCap max => 1 <= max | _ => True end.
Definition hop_event (o : hop) : list (Z * event) := match o with HEvent id e _ => [(id, e)] | _ => [] end.
Definition events_of (os : list hop) : list (Z * event) := os ≫= hop_event.

(** The last event of a command. *)
Definition last_of (u : Z) (tr : list (Z * event)) : option event :=
  foldl (fun o x => if decide (x.1 = u) then Some x.2 else o) None tr.

Lemma last_of_snoc u tr v e : last_of u (tr ++ [(v, e)]) = if decide (v = u) then Some e else last_of u tr.
Proof. unfold last_of. by rewrite foldl_app. Qed.

(** The event that leads to a phase. *)
Definition phase_event (ph : phase) (o : option event) : Prop :=
  match ph with
  | New => o = None
  | Queued => o = Some EVT_QUEUED
  | Running => o = Some EVT_RUNNING
  | Paused => o = Some EVT_PAUSED
  | Dead => exists e, o = Some e /\ active_event e = false
  end.

Lemma phase_last u tr ph : phase_of u tr = Some ph -> phase_event ph (last_of u tr).
Proof.
  revert ph. induction tr as [|[v e] tr IH] using rev_ind; intros ph.
  { intros [= <-]. done. }
  rewrite phase_of_snoc, last_of_snoc. case_decide; [|apply IH].
  destruct (phase_of u tr) as [ph0|]; [|done]. simpl. destruct ph0, e; simpl; intros [= <-]; simpl; eauto.
Qed.

Definition lifecycle (tr : list (Z * event)) : Prop := forall u, is_Some (phase_of u tr).

Lemma lifecycle_prefix tr x : lifecycle (tr ++ [x]) -> lifecycle tr.
Proof.
  intros H u. specialize (H u). destruct x as [v e]. rewrite phase_of_snoc in H. case_decide; [|done].
  destruct (phase_of u tr); [done|]. by destruct H.
Qed.

(** The history tells the last event of every command that has not ended. *)
Record reports (tr : list (Z * event)) (h : History) : Prop := {
  rp_ok : history_ok h;
  rp_last : forall u, match last_of u tr with
    | None => command_state_fast_access_map h !! u = None
    | Some e => (active_event e = true -> is_Some (command_state_fast_access_map h !! u)) /\
        forall p, command_state_fast_access_map h !! u = Some p -> last_event (state_at h p) = e
    end;
  rp_length : (length (command_state_queue h) <= length tr)%nat }.

Lemma new_reports : reports [] new_History.
Proof. split; [apply new_History_ok|intros u; simpl; apply lookup_empty|done]. Qed.

Lemma trimmed_reports tr h h' d : reports tr h -> trimmed h h' d -> reports tr h'.
Proof.
  intros [Hok Hl Hn] Ht. pose proof (trimmed_ok h h' d Hok Ht) as Hok'. split; [done| |].
  - intros u. specialize (Hl u). rewrite (tm_fast _ _ _ Ht), forget_lookup. destruct (last_of u tr) as [e|].
    + destruct Hl as [H1 H2]. case_bool_decide as Hu; [|split; [done|intros p Hp; rewrite (trimmed_state _ _ _ p Ht); auto]].
      split; [|done]. intros Ha. destruct (H1 Ha) as [p Hp]. apply list_elem_of_fmap in Hu as (p' & Hu & Hp').
      assert (p' = p) as ->.
      { assert (Some p' = Some p) as [= ->]; [|done]. rewrite <- Hp. symmetry. apply (ho_map _ Hok). split; [|done].
        rewrite (tm_queue _ _ _ Ht). set_solver. }
      pose proof (tm_ended _ _ _ Ht) as He. rewrite Forall_forall in He. specialize (He p Hp'). unfold ended_at in He.
      rewrite (H2 p Hp), Ha in He. done.
    + rewrite Hl. by case_bool_decide.
  - pose proof (Permutation_length (tm_queue _ _ _ Ht)) as HL. rewrite length_app in HL. lia.
Qed.

Lemma state_at_insert (h : History) p q x : state_at (set_states (<[p := x]>) h) q = if decide (p = q) then x else state_at h q.
Proof. unfold state_at. simpl. rewrite lookup_insert. by case_decide. Qed.

(** A new command. *)
Lemma reports_queued tr h u :
  reports tr h -> last_of u tr = None -> exists h', addComamndState u h = Some (tt, h') /\ reports (tr ++ [(u, EVT_QUEUED)]) h'.
Proof.
  intros [[H1 H2 H3 H4] Hl Hn] Hu. pose proof (Hl u) as Hf. rewrite Hu in Hf. unfold addComamndState, st_modify.
  eexists. split; [done|]. rewrite Hf. set (n := next_state h). set (x := mkState u EVT_QUEUED _).
  assert (n ∉ command_state_queue h) as Hnq by (intros Hq%H1%H2; unfold n in Hq; lia).
  assert (forall p, state_at (mkHistory (<[n := x]> (states h)) (command_state_queue h ++ [n])
    (<[u := n]> (command_state_fast_access_map h)) (S n)) p = if decide (n = p) then x else state_at h p) as Hst.
  { intros p. unfold state_at. simpl. rewrite lookup_insert. by case_decide. }
  split; [split; simpl| |].
  - intros p Hp. apply elem_of_app in Hp as [Hp| ->%list_elem_of_singleton]; [|rewrite lookup_insert_eq; eauto].
    rewrite lookup_insert_ne by set_solver. auto.
  - intros p. rewrite lookup_insert. case_decide; [lia|]. intros Hp%H2. unfold n. lia.
  - apply NoDup_app. split_and!; [done|set_solver|apply NoDup_singleton].
  - intros id p. rewrite Hst, lookup_insert. destruct (decide (u = id)) as [<-|Hne].
    + split; [intros [= <-]; rewrite decide_True by done; set_solver|]. intros [Hp Hid]. destruct (decide (n = p)) as [<-|Hnp]; [done|].
      assert (p ∈ command_state_queue h) as Hp' by set_solver.
      rewrite (proj2 (H4 u p)) in Hf by done. done.
    + rewrite H4. destruct (decide (n = p)) as [<-|Hnp]; [simpl; split; [by intros [? _]|by intros [_ ?]]|]. set_solver.
  - intros v. simpl. rewrite last_of_snoc, lookup_insert. case_decide; subst.
    + split; [eauto|]. intros p [= <-]. by rewrite Hst, decide_True.
    + specialize (Hl v). destruct (last_of v tr); [|done]. destruct Hl as [Ha Hp]. split; [done|]. intros p Hv.
      rewrite Hst, decide_False; [auto|]. intros <-. by apply H4 in Hv as [? _].
  - simpl. rewrite !length_app. simpl. lia.
Qed.

(** An event of a command the history knows. *)
Lemma reports_put tr h u p e f :
  reports tr h -> command_state_fast_access_map h !! u = Some p ->
  reports (tr ++ [(u, e)]) (set_states (<[p := mkState (command_id (state_at h p)) e f]>) h).
Proof.
  intros [[H1 H2 H3 H4] Hl Hn] Hp. destruct (proj1 (H4 u p) Hp) as [Hq Hid].
  split; [split; simpl| |].
  - intros q Hq'. rewrite lookup_insert. case_decide; eauto.
  - intros q. rewrite lookup_insert. case_decide; [subst q; intros _; by apply H2, H1|apply H2].
  - done.
  - intros id q. rewrite H4, state_at_insert. by destruct (decide (p = q)) as [<-|].
  - intros v. simpl. rewrite last_of_snoc. case_decide; [subst v|].
    + split; [by eauto|]. intros q Hq'. rewrite Hp in Hq'. injection Hq' as <-. by rewrite state_at_insert, decide_True.
    + specialize (Hl v). destruct (last_of v tr); [|done]. destruct Hl as [Ha Hv]. split; [done|]. intros q Hq'.
      rewrite state_at_insert. destruct (decide (p = q)) as [<-|]; [|auto].
      destruct (proj1 (H4 v p) Hq'). congruence.
  - simpl. rewrite length_app. simpl. lia.
Qed.

Lemma reports_event tr h u e f :
  reports tr h -> lifecycle (tr ++ [(u, e)]) ->
  exists h', handleCommandEvent u e f h = Some (tt, h') /\ reports (tr ++ [(u, e)]) h'.
Proof.
  intros Hr Hl. pose proof (Hl u) as [ph Hph]. rewrite phase_of_snoc, decide_True in Hph by done.
  destruct (phase_of u tr) as [ph0|] eqn:H0; [|done]. simpl in Hph. apply phase_last in H0 as He.
  destruct (decide (e = EVT_QUEUED)) as [->|Hne].
  { destruct ph0; try done. by apply reports_queued. }
  assert (exists p, command_state_fast_access_map h !! u = Some p) as [p Hp].
  { pose proof (rp_last _ _ Hr u) as Hu. destruct ph0; simpl in He; [by destruct e|..|by destruct e]; rewrite He in Hu;
      destruct Hu as [Hu _]; by apply Hu. }
  assert (is_Some (states h !! p)) as Hst by (by apply (rp_ok _ _ Hr), (ho_map _ (rp_ok _ _ Hr) u)).
  assert (exists f', handleCommandEvent u e f h = Some (tt, set_states (<[p := mkState (command_id (state_at h p)) e f']>) h)) as [f' ->].
  { destruct e; try done; simpl; unfold find_state, mbind, ST_bind, st_gets, mret, ST_ret; rewrite Hp, the_state_run by done; by eexists. }
  eexists. split; [done|]. by apply reports_put.
Qed.

Lemma hexec_reports tr h o :
  reports tr h -> hop_ok o -> lifecycle (tr ++ hop_event o) -> Z.of_nat (length tr) < 2 ^ 63 ->
  exists h', hexec o h = Some (tt, h') /\ reports (tr ++ hop_event o) h'.
Proof.
  intros Hr Ho Hl Hn. pose proof (rp_length _ _ Hr) as HL. destruct o as [u e f|max|]; simpl in *.
  - by apply reports_event.
  - destruct (cap_run max h (rp_ok _ _ Hr) Ho) as (h' & E & Ht & _); [lia|]. exists h'. rewrite app_nil_r. split; [done|].
    by eapply trimmed_reports.
  - destruct (flush_run h (rp_ok _ _ Hr)) as (h' & E & Ht & _). exists h'. rewrite app_nil_r. split; [done|].
    by eapply trimmed_reports.
Qed.

Lemma lifecycle_app tr tr' : lifecycle (tr ++ tr') -> lifecycle tr.
Proof.
  induction tr' as [|x tr' IH] using rev_ind; [by rewrite app_nil_r|]. rewrite app_assoc. intros H%lifecycle_prefix. auto.
Qed.

Lemma hrun_reports os : forall tr h,
  reports tr h -> Forall hop_ok os -> lifecycle (tr ++ events_of os) -> Z.of_nat (length tr + length os) < 2 ^ 63 ->
  exists h', hrun os h = Some (tt, h') /\ reports (tr ++ events_of os) h'.
Proof.
  induction os as [|o os IH]; intros tr h Hr Ho Hl Hn; simpl.
  { exists h. by rewrite app_nil_r. }
  apply Forall_cons in Ho as [Ho Hos]. cbn [events_of mbind list_bind] in Hl. fold (events_of os) in Hl.
  rewrite app_assoc in Hl. simpl in Hn.
  destruct (hexec_reports tr h o Hr Ho) as (h1 & E1 & H1); [by eapply lifecycle_app|lia|].
  destruct (IH _ h1 H1 Hos Hl) as (h' & E' & H').
  { rewrite length_app. destruct o; simpl; lia. }
  exists h'. unfold mbind, ST_bind. rewrite E1. split; [done|]. cbn [events_of mbind list_bind]. by rewrite app_assoc.
Qed.


(** [C21] The capper removes the first commands of the queue that have ended, in the order of
    the queue, as many as the queue is too long, and forgets exactly those; afterwards the
    queue has the permitted size, or no command in it has ended.  The order of the queue
    is that of submission only until a round has passed over active commands, which go
    back in reverse order. *)
Theorem capCommanaQueue_removes_first_ended max h :
  history_ok h -> 1 <= max -> Z.of_nat (length (command_state_queue h)) < 2 ^ 63 ->
  exists h', capCommanaQueue max h = Some (tt, h') /\ history_ok h' /\ states h' = states h /\
    command_state_queue h ≡ₚ command_state_queue h' ++ excess max h /\
    (forall id p, command_state_fast_access_map h' !! id = Some p <->
       command_state_fast_access_map h !! id = Some p /\ p ∉ excess max h) /\
    ((length (command_state_queue h') <= Z.to_nat max)%nat \/ Forall (fun p => ended_at h p = false) (command_state_queue h')).
Proof.
  intros Hok Hm Hn. destruct (cap_run max h Hok Hm Hn) as (h' & E & Ht & Hl). pose proof (trimmed_ok _ _ _ Hok Ht) as Hok'.
  exists h'. split_and!; [done|done|apply Ht|apply Ht| |done].
  intros id p. rewrite (ho_map _ Hok'), (ho_map _ Hok), (trimmed_state _ _ _ p Ht), (tm_queue _ _ _ Ht).
  pose proof (ho_nodup _ Hok) as Hd. rewrite (tm_queue _ _ _ Ht) in Hd. apply NoDup_app in Hd as (_ & Hd & _). set_solver.
Qed.

(** *** Scenarios *)

(** Two commands: the first runs to its end, the second waits; the client flushes and the
    capper makes a round. *)
Definition no_fault : FaultDescription := mkFault [] 0 [] [].
Definition two_commands : list hop :=
  [HEvent 1 EVT_QUEUED no_fault; HEvent 1 EVT_RUNNING no_fault; HEvent 2 EVT_QUEUED no_fault; HEvent 1 EVT_COMPLETED no_fault;
   HFlush; HCap 1].

Lemma two_commands_lifecycle : lifecycle (events_of two_commands).
Proof.
  intros u. destruct (decide (u = 1)) as [->|H1]; [by eexists|]. destruct (decide (u = 2)) as [->|H2]; [by eexists|].
  unfold phase_of, event_step. simpl. by rewrite !decide_False by congruence.
Qed.


Definition after_two : History := match hrun (take 4 two_commands) new_History with Some (_, h) => h | None => new_History end.

Lemma after_two_ok : history_ok after_two.
Proof.
  destruct (hrun_reports (take 4 two_commands) [] new_History new_reports) as (h & E & Hr).
  - repeat constructor; done.
  - exact two_commands_lifecycle.
  - by vm_compute.
  - unfold after_two. rewrite E. apply Hr.
Qed.

Lemma capCommanaQueue_removes_first_ended_witness :
  exists h', capCommanaQueue 1 after_two = Some (tt, h') /\ history_ok h' /\
    (command_state_fast_access_map h' !! 2 = Some 1%nat <-> command_state_fast_access_map after_two !! 2 = Some 1%nat /\ 1%nat ∉ excess 1 after_two).
Proof.
  destruct (capCommanaQueue_removes_first_ended 1 after_two) as (h' & E & Hok & _ & _ & Hm & _).
  - exact after_two_ok.
  - done.
  - by vm_compute.
  - exists h'. split_and!; [exact E|exact Hok|apply Hm].
Defined.
