(* ===== verification/BatchExecutor.v ===== *)
(** * The command executor

    Models [chaos/common/batch_command/BatchCommandExecutor.cpp]: the sandboxes of a control
    unit by execution channel, the installed commands, the submission of a command from a
    request, the actions a client can call, and the life cycle that drives the sandboxes
    as services of [Services].  The events of a sandbox reach the history of
    [CommandHistory] when the operation on the sandbox has been made; the two have no
    other state in common.  Requests are containers of [Container].

    The factories of commands are a parameter; so are the fault descriptions, whose texts
    [BatchSandbox] leaves out.  The shared attribute cache, which [SharedCache] models, the
    identification texts and logging are left out. *)

From S2P Require Import Services.
From S2P Require Import Prelude BufBuilder Bson BsonBuilder CDataWrapper Container BatchCommand BatchSandbox CommandHistory.

Local Open Scope Z_scope.

(** ** Keys and constants *)

Definition COMMAND_ALIAS_STR := chars "cmd_alias".
Definition COMMAND_EXECUTION_CHANNEL := chars "cmd_exec_channel".
Definition SUBMISSION_RULE_UI32 := chars "cmd_submssn_rule".
Definition SUBMISSION_PRIORITY_UI32 := chars "cmd_submssn_priority".
Definition SCHEDULER_STEP_TIME_INTERVALL_UI64 := chars "cmd_sched_step_time_int".
Definition SUBMISSION_RETRY_DELAY_UI32 := chars "cmd_submssn_ret_dly".
Definition RPC_GET_COMMAND_STATE_CMD_ID_UI64 := chars "command_id".
Definition RPC_GET_COMMAND_STATE_LAST_EVENT_UI32 := chars "gcs_last_event".
Definition RPC_GET_COMMAND_STATE_ERROR_CODE_UI32 := chars "gcs_error_code".
Definition RPC_GET_COMMAND_STATE_ERROR_DESC_STR := chars "gcs_error_desc".
Definition RPC_GET_COMMAND_STATE_ERROR_DOMAIN_STR := chars "gcs_error_domain".
Definition RPC_SET_COMMAND_FEATURES_SCHEDULER_STEP_WAITH_UI64 := chars "scf_sched_waith_time".
Definition RPC_SET_COMMAND_FEATURES_LOCK_BOOL := chars "scf_lock".

Definition COMMAND_STATE_QUEUE_DEFAULT_SIZE : Z := 50.
Definition COMMAND_BASE_SANDOXX_ID : Z := 1.

(** ** State *)

(** A sandbox has the state machine of its service; [serviceState] is the state of the
    service of the executor.  [mapCommandInstancer] gives the number of a factory. *)
Record Executor := mkExecutor {
  serviceState : svc_state;
  command_sequence_id : Z;
  default_command_alias : list Z;
  default_command_sandbox_instance : Z;
  sandbox_map : gmap Z (svc_state * sandbox);
  command_state_queue_max_size : Z;
  capper_work : bool;
  history : History;
  mapCommandInstancer : gmap (list Z) nat;
  next_command : nat }.

Definition new_BatchCommandExecutor : Executor :=
  mkExecutor Deinitilized 0 [] 1 ∅ COMMAND_STATE_QUEUE_DEFAULT_SIZE false new_History ∅ 0.

Definition set_sequence x (s : Executor) : Executor :=
  mkExecutor (serviceState s) x (default_command_alias s) (default_command_sandbox_instance s) (sandbox_map s)
    (command_state_queue_max_size s) (capper_work s) (history s) (mapCommandInstancer s) (next_command s).
Definition set_default a i (s : Executor) : Executor :=
  mkExecutor (serviceState s) (command_sequence_id s) a i (sandbox_map s)
    (command_state_queue_max_size s) (capper_work s) (history s) (mapCommandInstancer s) (next_command s).
Definition set_sandboxes x (s : Executor) : Executor :=
  mkExecutor (serviceState s) (command_sequence_id s) (default_command_alias s) (default_command_sandbox_instance s) x
    (command_state_queue_max_size s) (capper_work s) (history s) (mapCommandInstancer s) (next_command s).
Definition set_capper x (s : Executor) : Executor :=
  mkExecutor (serviceState s) (command_sequence_id s) (default_command_alias s) (default_command_sandbox_instance s) (sandbox_map s)
    (command_state_queue_max_size s) x (history s) (mapCommandInstancer s) (next_command s).
Definition set_history x (s : Executor) : Executor :=
  mkExecutor (serviceState s) (command_sequence_id s) (default_command_alias s) (default_command_sandbox_instance s) (sandbox_map s)
    (command_state_queue_max_size s) (capper_work s) x (mapCommandInstancer s) (next_command s).
Definition set_instancers x (s : Executor) : Executor :=
  mkExecutor (serviceState s) (command_sequence_id s) (default_command_alias s) (default_command_sandbox_instance s) (sandbox_map s)
    (command_state_queue_max_size s) (capper_work s) (history s) x (next_command s).
Definition set_next_command x (s : Executor) : Executor :=
  mkExecutor (serviceState s) (command_sequence_id s) (default_command_alias s) (default_command_sandbox_instance s) (sandbox_map s)
    (command_state_queue_max_size s) (capper_work s) (history s) (mapCommandInstancer s) x.

Section Executor.

(** What a factory makes at an address, if anything; the fault descriptions of commands. *)
Context (getInstance : nat -> nat -> option BatchCommand) (faults : Z -> FaultDescription).

Notation EM := (DX Executor).

Definition chaos_throw {S A} (code : Z) (msg dom : list Z) : DX S A := dx_throw (Chaos (mkExc code msg dom)).

(** ** Sandboxes and history *)

(** A call on the history; null and dangling pointers crash. *)
Definition hist {A} (c : HM A) : EM A :=
  h ← dx_gets history;
  match c h with Some (a, h) => dx_modify (set_history h);; mret a | None => dx_crash end.

(** The event handler of the sandboxes. *)
Fixpoint deliver (l : list (Z * event)) : EM unit :=
  match l with
  | [] => mret tt
  | (id, e) :: l => hist (handleCommandEvent id e (faults id));; deliver l
  end.

Definition the_sandbox (k : Z) : EM (svc_state * sandbox) := m ← dx_gets sandbox_map; dx_access (m !! k).
Definition put_sandbox (k : Z) x : EM unit := dx_modify (fun s => set_sandboxes (<[k := x]> (sandbox_map s)) s).

Definition on_sandbox {A} (k : Z) (c : SB A) : EM A :=
  '(st, b) ← the_sandbox k;
  match c b with
  | Some (a, b') => put_sandbox k (st, b');; deliver (drop (length (log b)) (log b'));; mret a
  | None => dx_crash
  end.

Definition addNewSandboxInstance : EM unit :=
  dx_modify (fun s =>
    let new_size := u32 (u32 (Z.of_nat (base.size (sandbox_map s))) + COMMAND_BASE_SANDOXX_ID) in
    match sandbox_map s !! new_size with
    | Some _ => s
    | None => set_sandboxes (<[new_size := (Deinitilized, new_sandbox)]> (sandbox_map s)) s
    end).

Fixpoint addSandboxInstance (_sandbox_number : nat) : EM unit :=
  match _sandbox_number with O => mret tt | S n => addNewSandboxInstance;; addSandboxInstance n end.

Definition getNumberOfSandboxInstance (s : Executor) : Z := u32 (Z.of_nat (base.size (sandbox_map s))).

(** The keys of the map in their order. *)
Definition sandbox_ids (s : Executor) : list Z := merge_sort Z.le (elements (dom (sandbox_map s))).

Fixpoint each (f : Z -> EM unit) (l : list Z) : EM unit :=
  match l with [] => mret tt | k :: l => f k;; each f l end.

(** The static methods of [StartableService] on a sandbox, whose methods do not throw. *)
Definition drive (ev : svc_event) (c : SB unit) (msg dom : list Z) (k : Z) : EM unit :=
  '(st, b) ← the_sandbox k;
  let '(st', ok) := process_event ss_table st ev in
  if ok : bool then put_sandbox k (st', b);; on_sandbox k c
  else chaos_throw 0 msg dom.

(** ** Commands *)

Definition installCommand (alias : list Z) (instancer : nat) : EM unit :=
  dx_modify (fun s => match mapCommandInstancer s !! alias with
    | Some _ => s
    | None => set_instancers (<[alias := instancer]> (mapCommandInstancer s)) s
    end).

Definition setDefaultCommand (command_alias : list Z) (sandbox_instance : Z) : EM unit :=
  st ← dx_gets serviceState;
  if decide (st = Started) then
    chaos_throw 1 (chars "The command infrastructure is in running state") (chars "BatchCommandExecutor::setDefaultCommand")
  else dx_modify (set_default command_alias (if sandbox_instance <? 1 then 1 else sandbox_instance)).

(** [instanceCommandInfo(std::string&)] *)
Definition instance_of_alias (commandAlias : list Z) : EM (option BatchCommand) :=
  m ← dx_gets mapCommandInstancer; n ← dx_gets next_command;
  mret (i ← m !! commandAlias; getInstance i n).

Definition next_id : EM Z :=
  n ← dx_gets command_sequence_id;
  let id := u64 (n + 1) in dx_modify (set_sequence id);; mret id.

(** A new queue element for a sandbox. *)
Definition enqueue (k : Z) (c : BatchCommand) (priority : Z) : EM unit :=
  p ← dx_gets next_command;
  dx_modify (set_next_command (S p));;
  on_sandbox k (enqueueCommand true p c priority);; mret tt.

Definition with_uid (c : BatchCommand) (uid : Z) : BatchCommand :=
  mkCmd uid (implementedHandler c) (submissionRule c) (already_setupped c) (command_set_time_usec c)
    (lockFeaturePropertyFlag c) (commandFeatures c) (runningProperty c) (fault_code c).

(** ** Life cycle *)

Definition init : EM unit :=
  dx_modify (set_sequence 0);;
  m ← dx_gets sandbox_map;
  (if decide (m = ∅) then addNewSandboxInstance else mret tt);;
  ids ← dx_gets sandbox_ids;
  each (drive ev_initialize BatchSandbox.init (chars "Service cant be initialized") (chars "BatchCommandExecutor::init")) ids;;
  alias ← dx_gets default_command_alias;
  if decide (alias = []) then mret tt else
  c ← instance_of_alias alias;
  c ← dx_access c;
  id ← next_id;
  k ← dx_gets default_command_sandbox_instance;
  enqueue k (with_uid c id) 50.

Definition start : EM unit :=
  r ← attempt (
    ids ← dx_gets sandbox_ids;
    each (drive ev_start BatchSandbox.start (chars "Service cant be started") (chars "BatchCommandExecutor::start")) ids;;
    dx_modify (set_capper true));
  match r with
  | inl _ => mret tt
  | inr _ => chaos_throw 1000 (chars "Generic Error") (chars "BatchCommandExecutor::start")
  end.

(** Up to the waits for the threads. *)
Definition stop : EM unit :=
  dx_modify (set_capper false);;
  ids ← dx_gets sandbox_ids;
  each (drive ev_stop BatchSandbox.stop (chars "Service cant be stopped") (chars "BatchCommandExecutor::stop")) ids.

Definition deinit : EM unit :=
  ids ← dx_gets sandbox_ids;
  each (drive ev_deinitialize (BatchSandbox.deinit true) (chars "Service cant be deinitialize") (chars "BatchCommandExecutor::deinit")) ids.

(** One round of [capWorker]. *)
Definition capWorker : EM unit :=
  w ← dx_gets capper_work; max ← dx_gets command_state_queue_max_size;
  if w : bool then hist (capCommanaQueue max) else mret tt.

(** ** Requests *)

Section Requests.
Context {W : Type} `{Container W}.
Notation RM := (DX (Executor * W)).

(** A step of the executor, and calls on the request. *)
Definition ex {A} (c : EM A) : RM A := fun '(s, w) => let '(r, s) := c s in (r, (s, w)).
Definition rd {X} (op : W -> outcome (X * W)) : RM X := fun '(s, w) =>
  match op w with Ret (x, w) => (Val x, (s, w)) | Throw _ => (Raise Foreign, (s, w)) | Fault => (Crash, (s, w)) end.
Definition ad (op : W -> outcome W) : RM unit := fun '(s, w) =>
  match op w with Ret w => (Val tt, (s, w)) | Throw _ => (Raise Foreign, (s, w)) | Fault => (Crash, (s, w)) end.

(** [hasKey(key) ? get(key) : def] *)
Definition rd_or {X} (key : list Z) (get : W -> outcome (X * W)) (def : X) : RM X :=
  b ← rd (c_hasKey key); if b : bool then rd get else mret def.

(** A feature given in the request. *)
Definition rd_feature (key : list Z) (get : W -> outcome (Z * W)) (set : Z -> Features -> Features) (f : Features) : RM Features :=
  b ← rd (c_hasKey key); if b : bool then v ← rd get; mret (set v f) else mret f.

Definition set_delay (v : Z) (f : Features) : Features :=
  mkFeatures (Z.lor (featuresFlag f) FF_SET_SCHEDULER_DELAY) (u64 v) (featureSubmissionRetryDelay f) (featureCommandTimeout f).
Definition set_retry (v : Z) (f : Features) : Features :=
  mkFeatures (Z.lor (featuresFlag f) FF_SET_SUBMISSION_RETRY) (featureSchedulerStepsDelay f) (u32 v) (featureCommandTimeout f).

Definition submitted_as (c : BatchCommand) (uid rule : Z) (f : Features) : BatchCommand :=
  mkCmd uid (implementedHandler c) rule (already_setupped c) (command_set_time_usec c)
    (lockFeaturePropertyFlag c) f (runningProperty c) (fault_code c).

Definition instanceCommandInfo : RM (option BatchCommand) :=
  command_alias ← rd (c_getStringValue COMMAND_ALIAS_STR);
  o ← ex (instance_of_alias command_alias);
  match o with
  | None => mret None
  | Some c =>
      rule ← (b ← rd (c_hasKey SUBMISSION_RULE_UI32);
        if b : bool then n ← rd (c_getInt32Value SUBMISSION_RULE_UI32); mret (u8 n) else mret SUBMIT_NORMAL);
      f ← rd_feature SCHEDULER_STEP_TIME_INTERVALL_UI64 (c_getInt64Value SCHEDULER_STEP_TIME_INTERVALL_UI64) set_delay (commandFeatures c);
      f ← rd_feature SUBMISSION_RETRY_DELAY_UI32 (c_getInt32Value SUBMISSION_RETRY_DELAY_UI32) set_retry f;
      uid ← rd (c_getUInt64Value RPC_GET_COMMAND_STATE_CMD_ID_UI64);
      mret (Some (submitted_as c uid rule f))
  end.

(** The body, on a description that is not null. *)
Definition submit_description : RM Z :=
  only_chaos (
    st ← ex (dx_gets serviceState);
    if decide (st <> Started) then
      chaos_throw (-2) (chars "Slow command executor is not started") (chars "BatchCommandExecutor::submitCommand") else
    execution_channel ← rd_or COMMAND_EXECUTION_CHANNEL (c_getUInt32Value COMMAND_EXECUTION_CHANNEL) COMMAND_BASE_SANDOXX_ID;
    m ← ex (dx_gets sandbox_map);
    match m !! execution_channel with
    | None => chaos_throw (-3) (chars "Execution channel not found") (chars "BatchCommandExecutor::submitCommand")
    | Some _ =>
        priority ← rd_or SUBMISSION_PRIORITY_UI32 (c_getUInt32Value SUBMISSION_PRIORITY_UI32) 50;
        id ← ex next_id;
        ad (c_addInt64Value RPC_GET_COMMAND_STATE_CMD_ID_UI64 (s64 id));;
        o ← instanceCommandInfo;
        match o with
        | Some c => ex (enqueue execution_channel c priority);; mret id
        | None => chaos_throw (-4) (chars "Command instantiation failed") (chars "BatchCommandExecutor::submitCommand")
        end
    end).

Definition submitCommand (commandDescription : option W) (s : Executor) : ended Z * Executor * option W :=
  match commandDescription with
  | None => (Raise (Chaos (mkExc (-1) (chars "Invalid parameter") (chars "BatchCommandExecutor::setCommandFeatures"))), s, None)
  | Some w => let '(r, (s, w)) := submit_description (s, w) in (r, s, Some w)
  end.

(** The document of a state. *)
Definition state_document (x : CommandState) : outcome W :=
  w ← c_new;
  w ← c_addInt32Value RPC_GET_COMMAND_STATE_LAST_EVENT_UI32 (event_code (last_event x)) w;
  if decide (last_event x = EVT_FAULT) then
    w ← c_addInt32Value RPC_GET_COMMAND_STATE_ERROR_CODE_UI32 (code (fault_description x)) w;
    w ← c_addStringValue RPC_GET_COMMAND_STATE_ERROR_DESC_STR (description (fault_description x)) w;
    c_addStringValue RPC_GET_COMMAND_STATE_ERROR_DOMAIN_STR (domain (fault_description x)) w
  else mret w.

(** The action [getCommandState]. *)
Definition getCommandState : RM W :=
  only_chaos (
    command_id ← rd (c_getUInt64Value RPC_GET_COMMAND_STATE_CMD_ID_UI64);
    o ← ex (hist (find_state command_id));
    match o with
    | None => chaos_throw 1 (chars "The command requested is not present") (chars "BatchCommandExecutor::getCommandSandboxStatistics")
    | Some p => x ← ex (hist (the_state p)); dx_lift (state_document x)
    end).

(** What a client changes in the current command of a sandbox. *)
Definition lock_features (b : bool) (c : BatchCommand) : BatchCommand :=
  let '(_, b1, b2) := lockFeaturePropertyFlag c in
  mkCmd (unique_id c) (implementedHandler c) (submissionRule c) (already_setupped c) (command_set_time_usec c)
    (b, b1, b2) (commandFeatures c) (runningProperty c) (fault_code c).
Definition steps_delay (v : Z) (c : BatchCommand) : BatchCommand :=
  let f := commandFeatures c in
  with_features c (mkFeatures (featuresFlag f) v (featureSubmissionRetryDelay f) (featureCommandTimeout f)).

(** A feature of the current command, if the request has it. *)
Definition change_field {X} (k : Z) (key : list Z) (get : W -> outcome (X * W)) (f : X -> BatchCommand -> BatchCommand) : RM unit :=
  b ← rd (c_hasKey key); if b : bool then v ← rd get; ex (on_sandbox k (change_current (f v))) else mret tt.

(** The action [setCommandFeatures]; [is_in_wait] is the answer of the semaphore.  A channel
    that does not exist is a null pointer in the map. *)
Definition setCommandFeatures (is_in_wait : bool) : RM unit :=
  only_chaos (
    m ← ex (dx_gets sandbox_map);
    if decide (m = ∅) then chaos_throw (-1) (chars "Invalid parameter") (chars "BatchCommandExecutor::setCommandFeatures") else
    k ← rd_or COMMAND_EXECUTION_CHANNEL (c_getUInt32Value COMMAND_EXECUTION_CHANNEL) COMMAND_BASE_SANDOXX_ID;
    '(_, b) ← ex (the_sandbox k);
    match currentExecutingCommand b with
    | None => chaos_throw 2 (chars "No Current running command") (chars "BatchCommandExecutor::setCommandFeatures")
    | Some _ =>
        change_field k RPC_SET_COMMAND_FEATURES_LOCK_BOOL (c_getBoolValue RPC_SET_COMMAND_FEATURES_LOCK_BOOL) lock_features;;
        change_field k RPC_SET_COMMAND_FEATURES_SCHEDULER_STEP_WAITH_UI64
          (c_getUInt64Value RPC_SET_COMMAND_FEATURES_SCHEDULER_STEP_WAITH_UI64) steps_delay;;
        if is_in_wait then ex (on_sandbox k wake_scheduler) else mret tt
    end).

End Requests.

(** [setCommandFeatures(features::Features)] *)
Definition set_features (flag delay : Z) : EM unit :=
  '(_, b) ← the_sandbox 1;
  match currentExecutingCommand b with
  | None => mret tt
  | Some _ =>
      on_sandbox 1 (change_current (fun c =>
        let f := commandFeatures c in
        with_features c (mkFeatures (Z.lor (featuresFlag f) flag) delay (featureSubmissionRetryDelay f) (featureCommandTimeout f))));;
      on_sandbox 1 wake_scheduler
  end.

(** The actions [killCurrentCommand] and [flushCommandStates]. *)
Definition kill_current : EM unit :=
  '(_, b) ← the_sandbox 1;
  match currentExecutingCommand b with
  | None => mret tt
  | Some _ => on_sandbox 1 killCurrentCommand
  end.

Definition flush_states : EM unit := hist flushCommandStates.

End Executor.
