(* ===== verification/ExecutorSpec.v ===== *)
(** * What the executor promises

    Theorems about [BatchExecutor]: the state a client reads is the place of the command in
    its sandbox; which submissions are refused and what an accepted one does; what a new
    initialisation does to the history. *)

From S2P Require Import Services.
From S2P Require Import Prelude BufBuilder Bson BsonBuilder CDataWrapper Container BatchCommand BatchSandbox CommandHistory BatchExecutor.

Local Open Scope Z_scope.

(** ** Sandboxes only add events *)

Definition grows_log {A} (c : SB A) : Prop := forall b a b', c b = Some (a, b') -> exists l, log b' = log b ++ l.

Lemma grows_ret {A} (a : A) : grows_log (mret a).
Proof. intros b x b' [= <- <-]. exists []. by rewrite app_nil_r. Qed.
Lemma grows_log_bind {A B} (c : SB A) (k : A -> SB B) : grows_log c -> (forall a, grows_log (k a)) -> grows_log (c ≫= k).
Proof.
  intros Hc Hk b x b'. unfold mbind, ST_bind. destruct (c b) as [[a b1]|] eqn:E; [|done]. intros E'.
  destruct (Hc _ _ _ E) as [l1 H1]. destruct (Hk a _ _ _ E') as [l2 H2]. exists (l1 ++ l2). by rewrite H2, H1, app_assoc.
Qed.
Lemma grows_gets {A} (f : sandbox -> A) : grows_log (st_gets f).
Proof. intros b x b' [= <- <-]. exists []. by rewrite app_nil_r. Qed.
Lemma grows_lift {A} (o : option A) : grows_log (st_lift o).
Proof. intros b x b' E. destruct o; [|done]. injection E as <- <-. exists []. by rewrite app_nil_r. Qed.
Lemma grows_modify f : (forall b, exists l, log (f b) = log b ++ l) -> grows_log (st_modify f).
Proof. intros Hf b x b' [= <- <-]. apply Hf. Qed.

Create HintDb logs.
#[local] Hint Resolve grows_ret grows_gets grows_lift : logs.

Ltac grows_go :=
  cbn beta iota;
  lazymatch goal with
  | |- grows_log (mbind _ _) => apply grows_log_bind; [grows_go|intros; grows_go]
  | |- grows_log (st_modify _) => apply grows_modify; intros; first [exists []; by rewrite app_nil_r|simpl; by eexists]
  | |- grows_log (match ?x with _ => _ end) => destruct x; grows_go
  | |- grows_log _ => solve [auto with logs nocore]
  end.

Lemma grows_event h u e : grows_log (BatchSandbox.handleCommandEvent h u e).
Proof. unfold BatchSandbox.handleCommandEvent. grows_go. Qed.
Lemma grows_sandbox_event h e : grows_log (BatchSandbox.handleSandboxEvent h e).
Proof. unfold BatchSandbox.handleSandboxEvent. grows_go. Qed.
Lemma grows_deref p : grows_log (deref p).
Proof. unfold deref. grows_go. Qed.
Lemma grows_store p c : grows_log (store p c).
Proof. unfold store. grows_go. Qed.
#[local] Hint Resolve grows_event grows_sandbox_event grows_deref grows_store : logs.
Lemma grows_delete p : grows_log (delete_command p).
Proof. unfold delete_command. grows_go. Qed.
Lemma grows_install h us now o : grows_log (installHandler h us now o).
Proof. unfold installHandler. grows_go. Qed.
Lemma grows_remove o : grows_log (removeHandler o).
Proof. unfold removeHandler. grows_go. Qed.
Lemma grows_wake : grows_log wake_scheduler.
Proof. unfold wake_scheduler. grows_go. Qed.
Lemma grows_end h c : grows_log (end_event h c).
Proof. unfold end_event. grows_go. Qed.
#[local] Hint Resolve grows_delete grows_install grows_remove grows_wake grows_end : logs.
Lemma grows_drop h n : grows_log (drop_failed h n).
Proof. unfold drop_failed. grows_go. Qed.
Lemma grows_set_only h us now n : grows_log (run_set_only h us now n).
Proof. unfold run_set_only. grows_go. Qed.
#[local] Hint Resolve grows_drop grows_set_only : logs.
Lemma grows_stack h us now c n : grows_log (stack_current h us now c n).
Proof. unfold stack_current. grows_go. Qed.
Lemma grows_replace h us now c n e : grows_log (replace_current h us now c n e).
Proof. unfold replace_current. grows_go. Qed.
#[local] Hint Resolve grows_stack grows_replace : logs.
Lemma grows_submitted h us now c n : grows_log (check_submitted h us now c n).
Proof. unfold check_submitted. grows_go. Qed.
Lemma grows_ended h us now c : grows_log (check_ended h us now c).
Proof. unfold check_ended. grows_go. Qed.
#[local] Hint Resolve grows_submitted grows_ended : logs.
Lemma grows_check h us now pick : grows_log (checkNextCommand h us now pick).
Proof. unfold checkNextCommand. grows_go. Qed.
Lemma grows_functor us o ht : grows_log (call_functor us o ht).
Proof. unfold call_functor. grows_go. Qed.
#[local] Hint Resolve grows_functor : logs.
Lemma grows_run_step h us t1 t2 : grows_log (run_step h us t1 t2).
Proof. unfold run_step. cbv zeta. grows_go. Qed.
Lemma grows_run_after o : grows_log (run_after o).
Proof. unfold run_after, wake_checker. grows_go. Qed.
Lemma grows_change f : grows_log (change_current f).
Proof. unfold change_current. grows_go. Qed.
Lemma grows_enqueue h p c z : grows_log (enqueueCommand h p c z).
Proof. unfold enqueueCommand. grows_go. Qed.
Lemma grows_kill : grows_log killCurrentCommand.
Proof. unfold killCurrentCommand. grows_go. Qed.
#[local] Hint Resolve grows_check grows_run_step grows_run_after grows_change grows_enqueue grows_kill : logs.

(** An operation of a sandbox, as the executor runs it. *)
Definition sandbox_op (o : sop) : SB unit := fun b => (fun b' => (tt, b')) <$> exec o b.

Lemma grows_op o b b' : exec o b = Some b' -> exists l, log b' = log b ++ l.
Proof.
  assert (forall A (c : SB A), grows_log c -> snd <$> c b = Some b' -> exists l, log b' = log b ++ l) as Hc.
  { intros A c Hg E. destruct (c b) as [[a b1]|] eqn:E1; [|done]. injection E as <-. by eapply Hg. }
  destruct o; simpl; try (apply Hc; auto with logs nocore).
  intros [= <-]. exists []. by rewrite app_nil_r.
Qed.

(** ** Calls on a request *)

Section Calls.
Context {W : Type} `{C : !Container W, L : !ContainerLaws W}.

(** A call on the request that only reads: the request still holds its document. *)
Definition runs {A} (c : DX (Executor * W) A) (d : doc) (s : Executor) (r : ended A) (s' : Executor) (d' : doc) : Prop :=
  forall w, c_holds d w -> exists w', c (s, w) = (r, (s', w')) /\ c_holds d' w'.

Lemma runs_ret {A} (a : A) d s : runs (mret a) d s (Val a) s d.
Proof. intros w Hw. by exists w. Qed.

Lemma runs_throw {A} e d s : runs (dx_throw e : DX _ A) d s (Raise e) s d.
Proof. intros w Hw. by exists w. Qed.

Lemma runs_bind {A B} (c : DX _ A) (k : A -> DX _ B) d s a s1 d1 r s2 d2 :
  runs c d s (Val a) s1 d1 -> runs (k a) d1 s1 r s2 d2 -> runs (c ≫= k) d s r s2 d2.
Proof.
  intros Hc Hk w Hw. destruct (Hc w Hw) as (w1 & E1 & H1). destruct (Hk w1 H1) as (w2 & E2 & H2).
  exists w2. by rewrite (dx_bind_val _ _ _ _ _ E1).
Qed.

Lemma runs_only_chaos {A} (c : DX _ A) d s r s' d' :
  runs c d s r s' d' -> r <> Raise Foreign -> runs (only_chaos c) d s r s' d'.
Proof.
  intros Hc Hr w Hw. destruct (Hc w Hw) as (w' & E & Hw'). exists w'. unfold only_chaos. rewrite E.
  by destruct r as [|[|]|].
Qed.

Lemma runs_rd {X} (op : W -> outcome (X * W)) spec d s x : reads op spec -> fits d -> spec d = Ret x -> runs (rd op) d s (Val x) s d.
Proof.
  intros Hr Hf Hs w Hw. destruct (Hr d w Hw Hf) as (w' & Hw' & E). exists w'. unfold rd. rewrite E, Hs. simpl_out. done.
Qed.

Lemma runs_ex {A} (c : DX Executor A) d s r s' : c s = (r, s') -> runs (ex c) d s r s' d.
Proof. intros E w Hw. exists w. unfold ex. by rewrite E. Qed.

Lemma runs_ad (op : W -> outcome W) key v d s :
  adds op key v -> fits (doc_snoc d key v) -> runs (ad op) d s (Val tt) s (doc_snoc d key v).
Proof.
  intros Ha Hf w Hw. destruct (Ha d w Hw (fits_snoc_val _ _ _ Hf) Hf) as (w' & E & Hw'). exists w'. unfold ad. by rewrite E.
Qed.

(** An optional field of a request. *)
Definition field_or {X} (key : list Z) (get : option val -> outcome X) (def : X) (d : doc) : outcome X :=
  if has_field key d then get (doc_find key d) else Ret def.

Lemma runs_rd_or {X} key (op : W -> outcome (X * W)) (get : option val -> outcome X) def d s x :
  reads op (fun d => get (doc_find key d)) -> fits d -> field_or key get def d = Ret x -> runs (rd_or key op def) d s (Val x) s d.
Proof.
  intros Hr Hf Hx. unfold field_or in Hx. eapply runs_bind; [by apply (runs_rd _ _ _ _ (has_field key d) (hasKey_law key))|].
  destruct (has_field key d); [by eapply runs_rd|]. injection Hx as <-. apply runs_ret.
Qed.

Definition as_u32 (o : option val) : outcome Z := n ← as_int 32 o; mret (u32 n).
Definition as_u64 (o : option val) : outcome Z := n ← as_int 64 o; mret (u64 n).

Definition channel_of (d : doc) : outcome Z := field_or COMMAND_EXECUTION_CHANNEL as_u32 COMMAND_BASE_SANDOXX_ID d.
Definition priority_of (d : doc) : outcome Z := field_or SUBMISSION_PRIORITY_UI32 as_u32 50 d.
Definition rule_of (d : doc) : outcome Z := field_or SUBMISSION_RULE_UI32 (fun o => n ← as_int 32 o; mret (u8 n)) SUBMIT_NORMAL d.

End Calls.

(** ** The state of a command *)

Section Reports.
Context (faults : Z -> FaultDescription).
Context {W : Type} `{C : !Container W, L : !ContainerLaws W}.

(** What happens to a started executor: operations of the threads and clients of its
    sandbox, rounds of the capper, requests to flush the history and to set the features
    of the current command, the latter with a document or by a call. *)
Inductive estep :=
  | ESandbox (o : sop) | ECap | EFlush
  | ESetCommandFeatures (is_in_wait : bool) (d : doc) (params : W)
  | ESetFeatures (flag delay : Z).

Definition eexec (x : estep) : DX Executor unit :=
  match x with
  | ESandbox o => on_sandbox faults 1 (sandbox_op o)
  | ECap => capWorker
  | EFlush => flush_states
  | ESetCommandFeatures wait _ w => fun s => let '(r, (s', _)) := setCommandFeatures faults wait (s, w) in (r, s')
  | ESetFeatures flag delay => set_features faults flag delay
  end.

(** The sandbox of the only channel. *)
Definition sandbox_of (s : Executor) : sandbox := default new_sandbox (snd <$> sandbox_map s !! 1).

(** The queue fits the memory; the request holds a document. *)
Definition estep_ok (s : Executor) (x : estep) : Prop :=
  match x with
  | ESandbox o => sop_ok (sandbox_of s) o
  | ECap => Z.of_nat (length (command_state_queue (history s))) < 2 ^ 63
  | EFlush | ESetFeatures _ _ => True
  | ESetCommandFeatures _ d w => c_holds d w /\ fits d
  end.

(** An optional field of a request that is there has its type. *)
Definition typed {X} (key : list Z) (get : option val -> outcome X) (d : doc) : Prop :=
  exists o, field_or key (fun v => x ← get v; mret (Some x)) None d = Ret o.

(** A request for features that is answered, perhaps with an exception: it names the
    channel, and if there is a current command its fields have their types. *)
Definition features_answered (b : sandbox) (d : doc) : Prop :=
  channel_of d = Ret 1 /\ (currentExecutingCommand b <> None ->
    typed RPC_SET_COMMAND_FEATURES_LOCK_BOOL (field_spec as_bool) d /\
    typed RPC_SET_COMMAND_FEATURES_SCHEDULER_STEP_WAITH_UI64 as_u64 d).

(** The steps that crash. *)
Definition edefect (s : Executor) (x : estep) : Prop :=
  match x with
  | ESandbox o => defect (sandbox_of s) o
  | ESetCommandFeatures _ d _ => ~ features_answered (sandbox_of s) d
  | _ => False
  end.

Inductive erun : list estep -> Executor -> Executor -> Prop :=
  | erun_nil s : erun [] s s
  | erun_snoc xs x s s1 s2 r : erun xs s s1 -> estep_ok s1 x -> eexec x s1 = (r, s2) -> r <> Crash -> erun (xs ++ [x]) s s2.

(** An executor whose sandbox has just been started. *)
Definition started_executor : Executor :=
  mkExecutor Started 0 [] 1 {[ 1 := (Started, started) ]} COMMAND_STATE_QUEUE_DEFAULT_SIZE true new_History ∅ 0.

(** The history has seen the events of the sandbox. *)
Record in_step (s : Executor) : Prop := {
  is_sandbox : exists b, sandbox_map s = {[ 1 := (Started, b) ]} /\ inv b;
  is_reports : reports (log (sandbox_of s)) (history s);
  is_size : command_state_queue_max_size s = COMMAND_STATE_QUEUE_DEFAULT_SIZE }.

Lemma hist_run {A} (c : HM A) (s : Executor) a h : c (history s) = Some (a, h) -> hist c s = (Val a, set_history h s).
Proof. intros E. unfold hist, mbind, DX_bind, dx_gets. by rewrite E. Qed.

Lemma set_history_twice h h' s : set_history h (set_history h' s) = set_history h s.
Proof. done. Qed.

Lemma deliver_reports l : forall tr s,
  reports tr (history s) -> lifecycle (tr ++ l) ->
  exists h, deliver faults l s = (Val tt, set_history h s) /\ reports (tr ++ l) h.
Proof.
  induction l as [|[u e] l IH]; intros tr s Hr Hl; simpl.
  { exists (history s). rewrite app_nil_r. split; [by destruct s|done]. }
  change ((u, e) :: l) with ([(u, e)] ++ l) in *. rewrite app_assoc in *.
  destruct (reports_event tr (history s) u e (faults u) Hr) as (h1 & E1 & H1); [by eapply lifecycle_app|].
  destruct (IH _ (set_history h1 s) H1 Hl) as (h & E & Hh). exists h.
  by rewrite (dx_bind_val _ _ _ _ _ (hist_run _ _ _ _ E1)).
Qed.

Lemma inv_lifecycle b : inv b -> lifecycle (log b).
Proof. intros H u. apply H. Qed.

Lemma sandbox_of_eq s b : sandbox_map s = {[ 1 := (Started, b) ]} -> sandbox_of s = b.
Proof. intros Hb. unfold sandbox_of. by rewrite Hb, lookup_singleton_eq. Qed.

(** A call on the sandbox that keeps its invariant. *)
Lemma step_on_sandbox {A} s (c : SB A) a b' :
  in_step s -> grows_log c -> c (sandbox_of s) = Some (a, b') -> inv b' ->
  exists s', on_sandbox faults 1 c s = (Val a, s') /\ in_step s' /\ sandbox_of s' = b'.
Proof.
  intros [(b & Hb & Hi) Hr Hm] Hg E Hi'. rewrite (sandbox_of_eq s b Hb) in *. destruct (Hg _ _ _ E) as [l Hl].
  unfold on_sandbox, the_sandbox. rewrite (dx_bind_val _ _ _ (Started, b) s).
  2:{ unfold mbind, DX_bind, dx_gets. by rewrite Hb, lookup_singleton_eq. }
  rewrite E, Hl, drop_app_length. set (s1 := set_sandboxes (<[1 := (Started, b')]> (sandbox_map s)) s).
  rewrite (dx_bind_val _ _ _ tt s1) by done.
  destruct (deliver_reports l (log b) s1 Hr) as (h & Ed & Hh); [rewrite <- Hl; by apply inv_lifecycle|].
  exists (set_history h s1). rewrite (dx_bind_val _ _ _ _ _ Ed).
  assert (sandbox_map (set_history h s1) = {[1 := (Started, b')]}) as Hmap by (simpl; by rewrite Hb, insert_singleton_eq).
  split; [done|]. split; [|by apply sandbox_of_eq]. split; [by exists b'| |done]. rewrite (sandbox_of_eq _ b' Hmap). by rewrite Hl.
Qed.

Lemma step_sandbox s o :
  in_step s -> sop_ok (sandbox_of s) o -> ~ defect (sandbox_of s) o ->
  exists s', eexec (ESandbox o) s = (Val tt, s') /\ in_step s'.
Proof.
  intros Hs Ho Hd. destruct (is_sandbox _ Hs) as (b & Hb & Hi). pose proof (sandbox_of_eq s b Hb) as Eb.
  rewrite <- Eb in Hi. destruct (exec_ok _ o Hi Ho Hd) as (b' & E & Hi').
  destruct (step_on_sandbox s (sandbox_op o) tt b' Hs) as (s' & Es & Hs' & _); [| |done|eauto].
  - intros b1 x b2. unfold sandbox_op. destruct (exec o b1) as [b3|] eqn:E1; [|done]. intros [= <- <-]. by eapply grows_op.
  - unfold sandbox_op. by rewrite E.
Qed.

Lemma crash_sandbox s o : in_step s -> defect (sandbox_of s) o -> (eexec (ESandbox o) s).1 = Crash.
Proof.
  intros Hs Hd. destruct (is_sandbox _ Hs) as (b & Hb & Hi). pose proof (sandbox_of_eq s b Hb) as Eb. rewrite Eb in Hd.
  simpl. unfold on_sandbox, the_sandbox. rewrite (dx_bind_val _ _ _ (Started, b) s).
  2:{ unfold mbind, DX_bind, dx_gets. by rewrite Hb, lookup_singleton_eq. }
  unfold sandbox_op. by rewrite (exec_defect b o Hi Hd).
Qed.

(** A change of the current command that keeps what the scheduling depends on. *)
Lemma step_change s f :
  in_step s -> currentExecutingCommand (sandbox_of s) <> None -> (forall c, same_cmd c (f c)) ->
  exists s', on_sandbox faults 1 (change_current f) s = (Val tt, s') /\ in_step s' /\
    currentExecutingCommand (sandbox_of s') = currentExecutingCommand (sandbox_of s).
Proof.
  intros Hs Hne Hf. destruct (is_sandbox _ Hs) as (b & Hb & Hi). pose proof (sandbox_of_eq s b Hb) as Eb. rewrite Eb in *.
  pose proof (wp_change_current f b Hi Hne Hf) as Hwp. apply wp_elim in Hwp as ([] & b' & E & Hi').
  destruct (step_on_sandbox s (change_current f) tt b' Hs (grows_change f)) as (s' & Es & Hs' & Hb'); [by rewrite Eb|done|].
  exists s'. rewrite Hb'. split_and!; [done|done|]. unfold change_current, mbind, ST_bind, st_gets, st_lift, deref, store in E.
  destruct (currentExecutingCommand b) eqn:Ec; [|done]. simpl in E. unfold mbind, ST_bind, st_gets in E.
  destruct (cmds b !! n) eqn:En; [|done]. injection E as <-. done.
Qed.

Lemma step_wake s : in_step s -> exists s', on_sandbox faults 1 wake_scheduler s = (Val tt, s') /\ in_step s'.
Proof.
  intros Hs. destruct (is_sandbox _ Hs) as (b & Hb & Hi). pose proof (sandbox_of_eq s b Hb) as Eb.
  destruct (step_on_sandbox s wake_scheduler tt (set_flags (scheduleWorkFlag b) (waithForNextCheck b) true b) Hs grows_wake) as (s' & Es & Hs' & _);
    [by rewrite Eb|by eapply inv_fields|eauto].
Qed.

Lemma in_step_trimmed s h' d : in_step s -> trimmed (history s) h' d -> in_step (set_history h' s).
Proof. intros [Hb Hr Hm] Ht. split; [done| |done]. by eapply trimmed_reports. Qed.

(** *** Requests for features *)

Lemma lock_features_same v c : same_cmd c (lock_features v c).
Proof. unfold lock_features. destruct (lockFeaturePropertyFlag c) as [[b0 b1] b2] eqn:E. split; simpl; try done. by rewrite E. Qed.
Lemma steps_delay_same v c : same_cmd c (steps_delay v c).
Proof. by split. Qed.

(** The sandbox has a current command. *)
Definition busy (s : Executor) : Prop := currentExecutingCommand (sandbox_of s) <> None.

Lemma dx_the_sandbox s b : sandbox_map s = {[ 1 := (Started, b) ]} -> the_sandbox 1 s = (Val (Started, b), s).
Proof. intros Hb. unfold the_sandbox, mbind, DX_bind, dx_gets. by rewrite Hb, lookup_singleton_eq. Qed.

Section Change.
Context {X : Type} (key : list Z) (op : W -> outcome (X * W)) (get : option val -> outcome X) (f : X -> BatchCommand -> BatchCommand).
Context (Hr : reads op (fun d => get (doc_find key d))).

Lemma runs_change_field d s :
  fits d -> typed key get d -> in_step s -> busy s -> (forall x c, same_cmd c (f x c)) ->
  exists s', runs (change_field faults 1 key op f) d s (Val tt) s' d /\ in_step s' /\ busy s'.
Proof using L Hr.
  intros Hf [o Ho] Hs Hb Hsame. unfold field_or in Ho. destruct (has_field key d) eqn:Eh.
  - apply outcome_bind_inv in Ho as (x & Hx & _). destruct (step_change s (f x) Hs Hb (Hsame x)) as (s' & E & Hs' & Hc).
    exists s'. split_and!; [|done|unfold busy; by rewrite Hc].
    eapply runs_bind; [by apply (runs_rd _ _ _ _ true (hasKey_law key)); rewrite ?Eh|].
    eapply runs_bind; [by eapply (runs_rd _ _ _ _ x Hr)|]. by apply runs_ex.
  - exists s. split_and!; [|done|done]. eapply runs_bind; [by apply (runs_rd _ _ _ _ false (hasKey_law key)); rewrite ?Eh|]. apply runs_ret.
Qed.

End Change.

(** A call that ends with a crash once the exceptions of other libraries have left. *)
Definition crashes {A} (c : DX (Executor * W) A) (d : doc) (s : Executor) : Prop :=
  forall w, c_holds d w -> exists s' w' r, c (s, w) = (r, (s', w')) /\ (r = Crash \/ r = Raise Foreign).

Lemma crashes_bind {A B} (c : DX _ A) (k : A -> DX _ B) d s : crashes c d s -> crashes (c ≫= k) d s.
Proof.
  intros Hc w Hw. destruct (Hc w Hw) as (s' & w' & r & E & Hr). unfold mbind, DX_bind. rewrite E.
  destruct Hr as [-> | ->]; eauto 10.
Qed.

Lemma crashes_after {A B} (c : DX _ A) (k : A -> DX _ B) d s a s' : runs c d s (Val a) s' d -> crashes (k a) d s' -> crashes (c ≫= k) d s.
Proof. intros Hc Hk w Hw. destruct (Hc w Hw) as (w' & E & Hw'). rewrite (dx_bind_val _ _ _ _ _ E). by apply Hk. Qed.

Lemma crashes_rd {X} (op : W -> outcome (X * W)) spec d s : reads op spec -> fits d -> (forall x, spec d <> Ret x) -> crashes (rd op) d s.
Proof.
  intros Hr Hf Hs w Hw. destruct (Hr d w Hw Hf) as (w' & Hw' & E). unfold rd. rewrite E.
  destruct (spec d) as [x|e|] eqn:Es; simpl_out; [by specialize (Hs x)|eauto 10..].
Qed.

Lemma crashes_change_field {X} key (op : W -> outcome (X * W)) get f d s :
  reads op (fun d => get (doc_find key d)) -> fits d -> ~ typed key get d -> crashes (change_field faults 1 key op f) d s.
Proof.
  intros Hr Hf Hno. eapply crashes_after; [by apply (runs_rd _ _ _ _ (has_field key d) (hasKey_law key))|].
  unfold typed, field_or in Hno. destruct (has_field key d); [|destruct Hno; by eexists].
  apply crashes_bind. eapply crashes_rd; [exact Hr|done|]. intros x Hx. apply Hno. by rewrite Hx; eexists.
Qed.

Lemma features_step s wait d :
  in_step s -> fits d -> features_answered (sandbox_of s) d ->
  exists r s', runs (setCommandFeatures faults wait) d s r s' d /\ r <> Crash /\ in_step s'.
Proof.
  intros Hs Hf [Hch Hty]. destruct (is_sandbox _ Hs) as (b & Hb & Hi). rewrite (sandbox_of_eq s b Hb) in Hty.
  enough (exists r s', runs (match currentExecutingCommand b with
    | None => chaos_throw 2 (chars "No Current running command") (chars "BatchCommandExecutor::setCommandFeatures")
    | Some _ =>
        change_field faults 1 RPC_SET_COMMAND_FEATURES_LOCK_BOOL (c_getBoolValue RPC_SET_COMMAND_FEATURES_LOCK_BOOL) lock_features;;
        change_field faults 1 RPC_SET_COMMAND_FEATURES_SCHEDULER_STEP_WAITH_UI64
          (c_getUInt64Value RPC_SET_COMMAND_FEATURES_SCHEDULER_STEP_WAITH_UI64) steps_delay;;
        if wait then ex (on_sandbox faults 1 wake_scheduler) else mret tt
    end) d s r s' d /\ r <> Crash /\ r <> Raise Foreign /\ in_step s') as (r & s' & Hrun & Hr1 & Hr2 & Hs').
  { exists r, s'. split_and!; [|done|done]. apply runs_only_chaos; [|done]. eapply runs_bind; [by apply runs_ex|]. cbv beta.
    rewrite decide_False by (rewrite Hb; apply map_non_empty_singleton).
    eapply runs_bind; [by apply (runs_rd_or _ _ as_u32 _ _ _ 1 (getUInt32Value_law _))|].
    eapply runs_bind; [by apply runs_ex, dx_the_sandbox|]. exact Hrun. }
  destruct (currentExecutingCommand b) as [cur|] eqn:Ec; [|by eexists _, s; split; [apply runs_throw|]].
  assert (busy s) as Hbusy by (unfold busy; by rewrite (sandbox_of_eq s b Hb), Ec). destruct (Hty ltac:(done)) as [Hl Hd].
  destruct (runs_change_field _ _ _ lock_features (getBoolValue_law _) d s Hf Hl Hs Hbusy lock_features_same) as (s1 & R1 & Hs1 & Hb1).
  destruct (runs_change_field _ _ _ steps_delay (getUInt64Value_law _) d s1 Hf Hd Hs1 Hb1 steps_delay_same) as (s2 & R2 & Hs2 & Hb2).
  destruct (step_wake s2 Hs2) as (s3 & E & Hs3). exists (Val tt), (if wait then s3 else s2). split_and!; [|done|done|by destruct wait].
  eapply runs_bind; [exact R1|]. eapply runs_bind; [exact R2|]. destruct wait; [by apply runs_ex|apply runs_ret].
Qed.

Lemma typed_dec {X} key (get : option val -> outcome X) d : typed key get d \/ ~ typed key get d.
Proof.
  unfold typed. destruct (field_or _ _ _ d) as [o|e|]; [left; eauto|right; by intros [? ?]..].
Qed.

Lemma features_answered_dec b d : features_answered b d \/ ~ features_answered b d.
Proof.
  unfold features_answered. destruct (channel_of d) as [k|e|]; [|right; by intros [? _]..].
  destruct (decide (k = 1)) as [->|Hk]; [|right; intros [[= ->] _]; done].
  destruct (decide (currentExecutingCommand b = None)) as [Hn|Hn]; [by left|].
  destruct (typed_dec RPC_SET_COMMAND_FEATURES_LOCK_BOOL (field_spec as_bool) d) as [Hl|Hl]; [|right; naive_solver].
  destruct (typed_dec RPC_SET_COMMAND_FEATURES_SCHEDULER_STEP_WAITH_UI64 as_u64 d) as [Hd|Hd]; [left; naive_solver|right; naive_solver].
Qed.

Lemma features_crash s wait d w :
  in_step s -> fits d -> c_holds d w -> ~ features_answered (sandbox_of s) d -> (setCommandFeatures faults wait (s, w)).1 = Crash.
Proof.
  intros Hs Hf Hw Hno. destruct (is_sandbox _ Hs) as (b & Hb & Hi). unfold features_answered in Hno. rewrite (sandbox_of_eq s b Hb) in Hno.
  unfold setCommandFeatures, only_chaos. match goal with |- context [match ?c (s, w) with _ => _ end] => assert (crashes c d s) as Hc end.
  2:{ destruct (Hc w Hw) as (s' & w' & r & -> & [-> | ->]); done. }
  eapply crashes_after; [by apply runs_ex|]. cbv beta. rewrite decide_False by (rewrite Hb; apply map_non_empty_singleton).
  assert ((exists k, channel_of d = Ret k) \/ forall k, channel_of d <> Ret k) as [[k Hk]|Hk]
    by (destruct (channel_of d); [left; eauto|right; done..]).
  2:{ apply crashes_bind. eapply crashes_after; [by apply (runs_rd _ _ _ _ _ (hasKey_law _))|]. unfold channel_of, field_or in Hk.
      destruct (has_field _ d); [|by destruct (Hk COMMAND_BASE_SANDOXX_ID)]. by eapply crashes_rd; [apply getUInt32Value_law|..]. }
  eapply crashes_after; [by apply (runs_rd_or _ _ as_u32 _ _ _ k (getUInt32Value_law _))|].
  destruct (decide (k = 1)) as [->|Hne].
  2:{ apply crashes_bind. intros w1 Hw1. eexists s, w1, Crash. split; [|by left]. unfold ex, the_sandbox, mbind, DX_bind, dx_gets.
      by rewrite Hb, lookup_singleton_ne. }
  eapply crashes_after; [by apply runs_ex, dx_the_sandbox|]. cbv beta iota.
  destruct (currentExecutingCommand b) as [cur|] eqn:Ec; [|destruct Hno; by split].
  assert (busy s) as Hbusy by (unfold busy; by rewrite (sandbox_of_eq s b Hb), Ec).
  destruct (typed_dec RPC_SET_COMMAND_FEATURES_LOCK_BOOL (field_spec as_bool) d) as [Hl|Hl];
    [|by apply crashes_bind, (crashes_change_field _ _ _ _ _ _ (getBoolValue_law _))].
  destruct (runs_change_field _ _ _ lock_features (getBoolValue_law _) d s Hf Hl Hs Hbusy lock_features_same) as (s1 & R1 & Hs1 & Hb1).
  eapply crashes_after; [exact R1|]. apply crashes_bind, (crashes_change_field _ _ as_u64 _ _ _ (getUInt64Value_law _)); [done|].
  intros Hd. destruct Hno. by split.
Qed.

Lemma set_features_step s flag delay : in_step s -> exists s', set_features faults flag delay s = (Val tt, s') /\ in_step s'.
Proof.
  intros Hs. destruct (is_sandbox _ Hs) as (b & Hb & Hi). unfold set_features. rewrite (dx_bind_val _ _ _ _ _ (dx_the_sandbox s b Hb)).
  cbv beta iota. destruct (currentExecutingCommand b) as [cur|] eqn:Ec; [|by exists s].
  destruct (step_change s (fun c => let f := commandFeatures c in
    with_features c (mkFeatures (Z.lor (featuresFlag f) flag) delay (featureSubmissionRetryDelay f) (featureCommandTimeout f))) Hs) as (s1 & E & Hs1 & _);
    [by rewrite (sandbox_of_eq s b Hb), Ec|by split|].
  destruct (step_wake s1 Hs1) as (s2 & E2 & Hs2). exists s2. by rewrite (dx_bind_val _ _ _ _ _ E).
Qed.

Lemma eexec_in_step s x : in_step s -> estep_ok s x -> ~ edefect s x -> exists r s', eexec x s = (r, s') /\ r <> Crash /\ in_step s'.
Proof.
  intros Hs Hx Hd. destruct x as [o| | |wait d w|flag delay]; simpl in Hx, Hd.
  - destruct (step_sandbox s o Hs Hx Hd) as (s' & E & Hs'). by exists (Val tt), s'.
  - pose proof (rp_ok _ _ (is_reports _ Hs)) as Hok. simpl. unfold capWorker, mbind, DX_bind, dx_gets. rewrite (is_size _ Hs).
    destruct (capper_work s); [|by exists (Val tt), s].
    destruct (cap_run COMMAND_STATE_QUEUE_DEFAULT_SIZE (history s) Hok) as (h' & E & Ht & _); [done|done|].
    rewrite (hist_run _ _ _ _ E). eexists _, _. split_and!; [done|done|]. by eapply in_step_trimmed.
  - destruct (flush_run (history s) (rp_ok _ _ (is_reports _ Hs))) as (h' & E & Ht & _). simpl. unfold flush_states.
    rewrite (hist_run _ _ _ _ E). eexists _, _. split_and!; [done|done|]. by eapply in_step_trimmed.
  - destruct Hx as [Hw Hf]. destruct (features_answered_dec (sandbox_of s) d) as [Ha|Ha]; [|done].
    destruct (features_step s wait d Hs Hf Ha) as (r & s' & Hrun & Hr & Hs'). destruct (Hrun w Hw) as (w' & E & _).
    exists r, s'. simpl. by rewrite E.
  - destruct (set_features_step s flag delay Hs) as (s' & E & Hs'). by exists (Val tt), s'.
Qed.

Lemma edefect_crashes s x : in_step s -> estep_ok s x -> edefect s x -> (eexec x s).1 = Crash.
Proof.
  intros Hs Hx Hd. destruct x as [o| | |wait d w|flag delay]; try done; [by apply crash_sandbox|].
  destruct Hx as [Hw Hf]. pose proof (features_crash s wait d w Hs Hf Hw Hd) as E. simpl.
  by destruct (setCommandFeatures faults wait (s, w)) as [r [s' w']].
Qed.

Lemma edefect_dec s x : edefect s x \/ ~ edefect s x.
Proof.
  destruct x as [o| | |wait d w|flag delay]; simpl; try (right; intros []; fail); [apply decide_defect|].
  destruct (features_answered_dec (sandbox_of s) d); [right|left]; naive_solver.
Qed.

Lemma started_in_step : in_step started_executor.
Proof. split; [exists started; split; [done|apply started_inv]|apply new_reports|done]. Qed.

Lemma erun_in_step xs s s' : erun xs s s' -> in_step s -> in_step s'.
Proof.
  intros Hr. induction Hr as [s|xs x s s1 s2 r Hr IH Hx E Hne]; intros Hs; [done|]. specialize (IH Hs).
  destruct (edefect_dec s1 x) as [Hd|Hd]; [pose proof (edefect_crashes s1 x IH Hx Hd) as E'; by rewrite E in E'|].
  destruct (eexec_in_step s1 x IH Hx Hd) as (r' & s3 & E3 & _ & H3). congruence.
Qed.


End Reports.

(** ** Initialising again *)

Section Lifecycle.
Context (getInstance : nat -> nat -> option BatchCommand) (faults : Z -> FaultDescription).

(** The history, the counter and the default command are what they were. *)
Record keeps (s s' : Executor) : Prop := {
  kp_history : history s' = history s;
  kp_sequence : command_sequence_id s' = command_sequence_id s;
  kp_default : default_command_alias s' = default_command_alias s }.

Lemma keeps_refl s : keeps s s.
Proof. by split. Qed.
Lemma keeps_trans s1 s2 s3 : keeps s1 s2 -> keeps s2 s3 -> keeps s1 s3.
Proof. intros [] []. split; congruence. Qed.

(** An operation of a sandbox that reports nothing. *)
Definition silent (c : SB unit) : Prop := forall b, exists b', c b = Some (tt, b') /\ log b' = log b.

Lemma drive_keeps ev c msg dm k s : silent c -> keeps s (drive faults ev c msg dm k s).2.
Proof.
  intros Hc. unfold drive, the_sandbox, mbind, DX_bind, dx_gets, dx_access, mret, DX_ret.
  destruct (sandbox_map s !! k) as [[st b]|]; [|apply keeps_refl]. cbn beta iota.
  destruct (process_event ss_table st ev) as [st' [|]]; [|apply keeps_refl].
  unfold on_sandbox, the_sandbox, put_sandbox, dx_modify, mbind, DX_bind, dx_gets. simpl. rewrite lookup_insert_eq. simpl.
  destruct (Hc b) as (b' & -> & ->). rewrite drop_all. by split.
Qed.

Lemma each_keeps f : (forall k s, keeps s (f k s).2) -> forall l s, keeps s (each f l s).2.
Proof.
  intros Hf l. induction l as [|k l IH]; intros s; simpl; [apply keeps_refl|]. unfold mbind, DX_bind.
  pose proof (Hf k s) as Hk. destruct (f k s) as [[[]|e|] s1]; simpl in *; [|done|done]. by eapply keeps_trans; [|apply IH].
Qed.

Lemma sandbox_init_silent : silent BatchSandbox.init.
Proof. intros b. by eexists. Qed.
Lemma sandbox_start_silent : silent BatchSandbox.start.
Proof. intros b. by eexists. Qed.

(** [init] starts counting again and keeps the history. *)
Lemma init_keeps s s' :
  default_command_alias s = [] -> BatchExecutor.init getInstance faults s = (Val tt, s') ->
  history s' = history s /\ command_sequence_id s' = 0.
Proof.
  intros Hd. unfold BatchExecutor.init. do 2 dx_step. set (s0 := set_sequence 0 s).
  assert (exists s1, (if decide (sandbox_map s0 = ∅) then addNewSandboxInstance else mret tt) s0 = (Val tt, s1) /\ keeps s0 s1) as (s1 & E1 & K1).
  { destruct (decide _); [|exists s0; split; [done|apply keeps_refl]]. eexists. split; [done|].
    unfold addNewSandboxInstance. by destruct (sandbox_map s0 !! _). }
  rewrite (dx_bind_val _ _ _ _ _ E1). dx_step.
  set (f := drive faults ev_initialize BatchSandbox.init _ _).
  pose proof (each_keeps f (fun k s => drive_keeps _ _ _ _ k s sandbox_init_silent) (sandbox_ids s1) s1) as K2.
  unfold mbind at 1, DX_bind. destruct (each f (sandbox_ids s1) s1) as [[[]|e|] s2]; [|done|done]. simpl in K2.
  unfold mbind, DX_bind, dx_gets. rewrite (kp_default _ _ K2), (kp_default _ _ K1). simpl. rewrite Hd. simpl. intros [= <-].
  rewrite (kp_history _ _ K2), (kp_history _ _ K1), (kp_sequence _ _ K2), (kp_sequence _ _ K1). done.
Qed.

Lemma start_keeps s s' : start faults s = (Val tt, s') -> history s' = history s /\ command_sequence_id s' = command_sequence_id s.
Proof.
  unfold start, attempt, mbind, DX_bind, dx_gets. set (f := drive faults ev_start BatchSandbox.start _ _).
  pose proof (each_keeps f (fun k s => drive_keeps _ _ _ _ k s sandbox_start_silent) (sandbox_ids s) s) as K.
  destruct (each f (sandbox_ids s) s) as [[[]|e|] s1]; simpl in *; [|done|done]. intros [= <-]. simpl.
  split; [apply K|apply K].
Qed.

(** What the driver of the service notes after [start]. *)
Definition now_started (s : Executor) : Executor :=
  mkExecutor Started (command_sequence_id s) (default_command_alias s) (default_command_sandbox_instance s) (sandbox_map s)
    (command_state_queue_max_size s) (capper_work s) (history s) (mapCommandInstancer s) (next_command s).

End Lifecycle.

(** ** Submission *)

Section Submission.
Context (getInstance : nat -> nat -> option BatchCommand) (faults : Z -> FaultDescription).
Context {W : Type} `{C : !Container W, L : !ContainerLaws W}.

(** The features a request sets. *)
Definition feature_of (key : list Z) (w : Z) (set : Z -> Features -> Features) (f : Features) (d : doc) : outcome Features :=
  field_or key (fun o => v ← as_int w o; mret (set v f)) f d.
Definition features_of (f : Features) (d : doc) : outcome Features :=
  f ← feature_of SCHEDULER_STEP_TIME_INTERVALL_UI64 64 set_delay f d; feature_of SUBMISSION_RETRY_DELAY_UI32 32 set_retry f d.

(** The command a request makes. *)
Definition instance_spec (s : Executor) (d : doc) : outcome (option BatchCommand) :=
  alias ← field_spec as_string (doc_find COMMAND_ALIAS_STR d);
  match i ← mapCommandInstancer s !! alias; getInstance i (next_command s) with
  | None => mret None
  | Some c =>
      rule ← rule_of d; f ← features_of (commandFeatures c) d;
      uid ← as_u64 (doc_find RPC_GET_COMMAND_STATE_CMD_ID_UI64 d);
      mret (Some (submitted_as c uid rule f))
  end.

Lemma runs_feature key (op : W -> outcome (Z * W)) w set f d s f' :
  reads op (fun d => as_int w (doc_find key d)) -> fits d -> feature_of key w set f d = Ret f' ->
  runs (rd_feature key op set f) d s (Val f') s d.
Proof.
  intros Hr Hf Hx. unfold feature_of, field_or in Hx.
  eapply runs_bind; [by apply (runs_rd _ _ _ _ (has_field key d) (hasKey_law key))|].
  destruct (has_field key d); [|injection Hx as <-; apply runs_ret].
  apply outcome_bind_inv in Hx as (v & Hv & [= <-]). eapply runs_bind; [by eapply runs_rd|]. apply runs_ret.
Qed.

Lemma runs_instance s d o : fits d -> instance_spec s d = Ret o -> runs (instanceCommandInfo getInstance) d s (Val o) s d.
Proof.
  intros Hf Ho. unfold instance_spec in Ho. apply outcome_bind_inv in Ho as (alias & Ha & Ho).
  eapply runs_bind; [by apply (runs_rd _ _ _ _ alias (getStringValue_law COMMAND_ALIAS_STR))|].
  eapply runs_bind; [by apply runs_ex|]. cbv beta.
  destruct (mapCommandInstancer s !! alias ≫= _) as [c|]; [|injection Ho as <-; apply runs_ret].
  apply outcome_bind_inv in Ho as (rule & Hru & Ho). apply outcome_bind_inv in Ho as (f & Hfe & Ho).
  apply outcome_bind_inv in Hfe as (f1 & Hf1 & Hf2). apply outcome_bind_inv in Ho as (uid & Hu & [= <-]).
  eapply (runs_bind _ _ _ _ rule).
  { unfold rule_of, field_or in Hru. eapply runs_bind; [by apply (runs_rd _ _ _ _ (has_field SUBMISSION_RULE_UI32 d) (hasKey_law _))|].
    destruct (has_field SUBMISSION_RULE_UI32 d); [|injection Hru as <-; apply runs_ret].
    apply outcome_bind_inv in Hru as (n & Hn & [= <-]). eapply runs_bind; [by apply (runs_rd _ _ _ _ n (getInt32Value_law _))|]. apply runs_ret. }
  eapply runs_bind; [by apply (runs_feature _ _ 64 _ _ _ _ f1 (getInt64Value_law _))|].
  eapply runs_bind; [by apply (runs_feature _ _ 32 _ _ _ _ f (getInt32Value_law _))|].
  eapply runs_bind; [by apply (runs_rd _ _ _ _ uid (getUInt64Value_law _))|]. apply runs_ret.
Qed.

(** The sandbox with one more command, and the history with its state. *)
Definition enqueued (p : nat) (c : BatchCommand) (priority : Z) (b : sandbox) : sandbox :=
  match enqueueCommand true p c priority b with Some (_, b') => b' | None => b end.
Definition remembered (u : Z) (h : History) : History :=
  match addComamndState u h with Some (_, h') => h' | None => h end.

Definition accepted (s : Executor) (id ch : Z) (st : svc_state) (b : sandbox) (c : BatchCommand) (priority : Z) : Executor :=
  set_history (remembered (unique_id c) (history s))
    (set_sandboxes (<[ch := (st, enqueued (next_command s) c priority b)]> (sandbox_map s))
      (set_next_command (S (next_command s)) (set_sequence id s))).

Definition submit_error (code : Z) (msg : list Z) : ended Z :=
  Raise (Chaos (mkExc code msg (chars "BatchCommandExecutor::submitCommand"))).

(** The result of a submission and the executor after it. *)
Definition submission (s : Executor) (ch priority : Z) (o : option BatchCommand) : ended Z * Executor :=
  let id := u64 (command_sequence_id s + 1) in
  if decide (serviceState s <> Started) then (submit_error (-2) (chars "Slow command executor is not started"), s)
  else match sandbox_map s !! ch with
  | None => (submit_error (-3) (chars "Execution channel not found"), s)
  | Some (st, b) =>
      match o with
      | None => (submit_error (-4) (chars "Command instantiation failed"), set_sequence id s)
      | Some c => (Val id, accepted s id ch st b c priority)
      end
  end.

Lemma executor_enqueue_run s ch st b c priority :
  sandbox_map s !! ch = Some (st, b) -> deinitiated b = false ->
  enqueue faults ch c priority s =
    (Val tt, set_history (remembered (unique_id c) (history s))
      (set_sandboxes (<[ch := (st, enqueued (next_command s) c priority b)]> (sandbox_map s)) (set_next_command (S (next_command s)) s))).
Proof.
  intros Hb Hd. unfold enqueue. do 2 dx_step. unfold on_sandbox, the_sandbox.
  rewrite dx_bind_assoc. rewrite (dx_bind_val _ _ _ (st, b) (set_next_command (S (next_command s)) s)).
  2:{ unfold mbind, DX_bind, dx_gets. simpl. by rewrite Hb. }
  cbn beta iota. unfold enqueued.
  assert (exists b', enqueueCommand true (next_command s) c priority b = Some (true, b') /\ log b' = log b ++ [(unique_id c, EVT_QUEUED)]) as (b' & -> & Hl).
  { unfold enqueueCommand, mbind, ST_bind, st_gets. rewrite Hd. eexists. split; [done|]. done. }
  rewrite Hl, drop_app_length. done.
Qed.

(** The request with the identifier of its command. *)
Definition numbered_request (s : Executor) (d : doc) : doc :=
  doc_snoc d RPC_GET_COMMAND_STATE_CMD_ID_UI64 (VLong (s64 (u64 (command_sequence_id s + 1)))).

Lemma submit_runs s d ch priority o :
  fits d -> fits (numbered_request s d) -> channel_of d = Ret ch -> priority_of d = Ret priority ->
  instance_spec (set_sequence (u64 (command_sequence_id s + 1)) s) (numbered_request s d) = Ret o ->
  (forall st b, sandbox_map s !! ch = Some (st, b) -> deinitiated b = false) ->
  exists d', runs (submit_description getInstance faults) d s (submission s ch priority o).1 (submission s ch priority o).2 d'.
Proof.
  intros Hf Hf' Hch Hpr Ho Hd. unfold submission. destruct (decide (serviceState s <> Started)) as [Hst|Hst].
  { exists d. apply runs_only_chaos; [|done]. eapply runs_bind; [by apply runs_ex|]. cbv beta. rewrite decide_True by done. apply runs_throw. }
  assert (forall r s' d', r <> Raise Foreign -> runs (
    match sandbox_map s !! ch with
    | None => chaos_throw (-3) (chars "Execution channel not found") (chars "BatchCommandExecutor::submitCommand")
    | Some _ =>
        priority ← rd_or SUBMISSION_PRIORITY_UI32 (c_getUInt32Value SUBMISSION_PRIORITY_UI32) 50;
        id ← ex next_id;
        ad (c_addInt64Value RPC_GET_COMMAND_STATE_CMD_ID_UI64 (s64 id));;
        o ← instanceCommandInfo getInstance;
        match o with
        | Some c => ex (enqueue faults ch c priority);; mret id
        | None => chaos_throw (-4) (chars "Command instantiation failed") (chars "BatchCommandExecutor::submitCommand")
        end
    end) d s r s' d' -> runs (submit_description getInstance faults) d s r s' d') as Hbody.
  { intros r s' d' Hr Hrun. apply runs_only_chaos; [|done]. eapply runs_bind; [by apply runs_ex|]. cbv beta. rewrite decide_False by done.
    eapply runs_bind; [by apply (runs_rd_or _ _ as_u32 _ _ _ ch (getUInt32Value_law _))|].
    eapply runs_bind; [by apply runs_ex|]. exact Hrun. }
  destruct (sandbox_map s !! ch) as [[st b]|] eqn:Hb; [|exists d; apply Hbody; [done|]; apply runs_throw].
  exists (numbered_request s d). apply Hbody; [by destruct o|].
  eapply runs_bind; [by apply (runs_rd_or _ _ as_u32 _ _ _ priority (getUInt32Value_law _))|].
  eapply runs_bind; [by apply (runs_ex next_id d s (Val (u64 (command_sequence_id s + 1))) (set_sequence (u64 (command_sequence_id s + 1)) s))|]. eapply runs_bind; [by apply (runs_ad _ _ _ _ _ (addInt64Value_law _ _))|].
  eapply runs_bind; [by apply runs_instance|]. destruct o as [c|]; [|apply runs_throw].
  eapply runs_bind; [|apply runs_ret]. apply runs_ex. by rewrite (executor_enqueue_run _ ch st b); [|done|eapply Hd].
Qed.

(** *** What a request asks for *)

(** An optional integer field of the request. *)
Definition carries (w : Z) (key : list Z) (d : doc) (P : Z -> Prop) (otherwise : Prop) : Prop :=
  match doc_find key d with Some v => exists n, as_int w (Some v) = Ret n /\ P n | None => otherwise end.

(** The command [c] made from [c0] for a request that got the number [id]. *)
Record as_requested (d : doc) (id : Z) (c0 c : BatchCommand) : Prop := {
  ar_id : carries 64 RPC_GET_COMMAND_STATE_CMD_ID_UI64 d (fun n => unique_id c = n mod 2 ^ 64) (unique_id c = id);
  ar_rule : carries 32 SUBMISSION_RULE_UI32 d (fun n => submissionRule c = n mod 2 ^ 8) (submissionRule c = SUBMIT_NORMAL);
  ar_delay : carries 64 SCHEDULER_STEP_TIME_INTERVALL_UI64 d
    (fun n => featureSchedulerStepsDelay (commandFeatures c) = n mod 2 ^ 64)
    (featureSchedulerStepsDelay (commandFeatures c) = featureSchedulerStepsDelay (commandFeatures c0));
  ar_retry : carries 32 SUBMISSION_RETRY_DELAY_UI32 d
    (fun n => featureSubmissionRetryDelay (commandFeatures c) = n mod 2 ^ 32)
    (featureSubmissionRetryDelay (commandFeatures c) = featureSubmissionRetryDelay (commandFeatures c0));
  ar_flags i : Z.testbit (featuresFlag (commandFeatures c)) i =
    (Z.testbit (featuresFlag (commandFeatures c0)) i || (has_field SCHEDULER_STEP_TIME_INTERVALL_UI64 d && (i =? 0)) ||
     (has_field SUBMISSION_RETRY_DELAY_UI32 d && (i =? 1)))%bool;
  ar_timeout : featureCommandTimeout (commandFeatures c) = featureCommandTimeout (commandFeatures c0);
  ar_rest : implementedHandler c = implementedHandler c0 /\ already_setupped c = already_setupped c0 /\
    command_set_time_usec c = command_set_time_usec c0 /\ lockFeaturePropertyFlag c = lockFeaturePropertyFlag c0 /\
    runningProperty c = runningProperty c0 /\ fault_code c = fault_code c0 }.

(** The sandbox [b] with the command [c] at [p], waiting; the checker is woken. *)
Record waits (p : nat) (c : BatchCommand) (priority : Z) (b b' : sandbox) : Prop := {
  wt_command : cmds b' = <[p := c]> (cmds b);
  wt_queue : command_submitted_queue b' = command_submitted_queue b ++ [(s32 priority, p)];
  wt_event : log b' = log b ++ [(unique_id c, EVT_QUEUED)];
  wt_woken : waithForNextCheck b' = true;
  wt_rest : currentExecutingCommand b' = currentExecutingCommand b /\ commandStack b' = commandStack b /\
    acquireHandlerFunctor b' = acquireHandlerFunctor b /\ correlationHandlerFunctor b' = correlationHandlerFunctor b /\
    scheduleWorkFlag b' = scheduleWorkFlag b /\ threadSchedulerPauseCondition b' = threadSchedulerPauseCondition b /\
    stat b' = stat b /\ deinitiated b' = deinitiated b /\ slog b' = slog b }.

(** The history with a new state for [u] at its end; a state with the number is still found
    under it. *)
Record listed (u : Z) (h h' : History) : Prop := {
  ls_queue : command_state_queue h' = command_state_queue h ++ [next_state h];
  ls_state : state_at h' (next_state h) = mkState u EVT_QUEUED (mkFault [] 0 [] []);
  ls_others : forall p, p <> next_state h -> states h' !! p = states h !! p;
  ls_found : command_state_fast_access_map h' !! u =
    Some (default (next_state h) (command_state_fast_access_map h !! u));
  ls_map : forall v, v <> u -> command_state_fast_access_map h' !! v = command_state_fast_access_map h !! v }.

(** The executor after it has accepted [c]. *)
Record taken_in (s s' : Executor) (ch priority : Z) (st : svc_state) (b : sandbox) (c : BatchCommand) : Prop := {
  ti_sandbox : exists b', sandbox_map s' = <[ch := (st, b')]> (sandbox_map s) /\ waits (next_command s) c priority b b';
  ti_history : listed (unique_id c) (history s) (history s');
  ti_counters : command_sequence_id s' = (command_sequence_id s + 1) mod 2 ^ 64 /\ next_command s' = S (next_command s);
  ti_rest : serviceState s' = serviceState s /\ mapCommandInstancer s' = mapCommandInstancer s /\
    default_command_alias s' = default_command_alias s /\ capper_work s' = capper_work s /\
    default_command_sandbox_instance s' = default_command_sandbox_instance s /\
    command_state_queue_max_size s' = command_state_queue_max_size s }.

(** The optional fields of the request have their types. *)
Record well_typed (d : doc) : Prop := {
  wty_rule : typed SUBMISSION_RULE_UI32 (as_int 32) d;
  wty_delay : typed SCHEDULER_STEP_TIME_INTERVALL_UI64 (as_int 64) d;
  wty_retry : typed SUBMISSION_RETRY_DELAY_UI32 (as_int 32) d;
  wty_id : typed RPC_GET_COMMAND_STATE_CMD_ID_UI64 (as_int 64) d }.

Lemma numbered_find s d key :
  key <> RPC_GET_COMMAND_STATE_CMD_ID_UI64 -> doc_find key (numbered_request s d) = doc_find key d.
Proof.
  intros Hk. unfold numbered_request, doc_snoc. rewrite doc_find_app. destruct (doc_find key d); [done|]. cbn [doc_find].
  by rewrite decide_False by congruence.
Qed.

Lemma numbered_find_id s d :
  doc_find RPC_GET_COMMAND_STATE_CMD_ID_UI64 (numbered_request s d) =
    Some (default (VLong (s64 (u64 (command_sequence_id s + 1)))) (doc_find RPC_GET_COMMAND_STATE_CMD_ID_UI64 d)).
Proof.
  unfold numbered_request, doc_snoc. rewrite doc_find_app. destruct (doc_find _ d); [done|]. cbn [doc_find]. by rewrite decide_True.
Qed.

(** An optional field is absent, or there with a value of its type. *)
Lemma typed_cases {X} key (get : option val -> outcome X) s d :
  key <> RPC_GET_COMMAND_STATE_CMD_ID_UI64 -> typed key get d ->
  (doc_find key d = None /\ has_field key d = false /\ forall Y (g : option val -> outcome Y) y, field_or key g y (numbered_request s d) = Ret y) \/
  exists v x, doc_find key d = Some v /\ has_field key d = true /\ get (Some v) = Ret x /\
    forall Y (g : option val -> outcome Y) y, field_or key g y (numbered_request s d) = g (Some v).
Proof.
  intros Hk [o Ho]. unfold field_or, has_field, present in *. rewrite (numbered_find s d key Hk). destruct (doc_find key d) as [v|]; [right|left; done].
  rewrite bool_decide_true in * by eauto. apply outcome_bind_inv in Ho as (x & Hx & _). by exists v, x.
Qed.

Lemma lor_one_testbit n i : Z.testbit (Z.lor n 1) i = (Z.testbit n i || (i =? 0))%bool.
Proof. change 1 with (2 ^ 0) at 1. by rewrite Z.lor_spec, Z.pow2_bits_eqb, (Z.eqb_sym 0) by lia. Qed.
Lemma lor_two_testbit n i : Z.testbit (Z.lor n 2) i = (Z.testbit n i || (i =? 1))%bool.
Proof. change 2 with (2 ^ 1) at 1. by rewrite Z.lor_spec, Z.pow2_bits_eqb, (Z.eqb_sym 1) by lia. Qed.

(** The features of the command are the requested ones. *)
Lemma features_as_requested s d f :
  typed SCHEDULER_STEP_TIME_INTERVALL_UI64 (as_int 64) d -> typed SUBMISSION_RETRY_DELAY_UI32 (as_int 32) d ->
  exists f', features_of f (numbered_request s d) = Ret f' /\
    carries 64 SCHEDULER_STEP_TIME_INTERVALL_UI64 d (fun n => featureSchedulerStepsDelay f' = n mod 2 ^ 64)
      (featureSchedulerStepsDelay f' = featureSchedulerStepsDelay f) /\
    carries 32 SUBMISSION_RETRY_DELAY_UI32 d (fun n => featureSubmissionRetryDelay f' = n mod 2 ^ 32)
      (featureSubmissionRetryDelay f' = featureSubmissionRetryDelay f) /\
    (forall i, Z.testbit (featuresFlag f') i =
      (Z.testbit (featuresFlag f) i || (has_field SCHEDULER_STEP_TIME_INTERVALL_UI64 d && (i =? 0)) ||
       (has_field SUBMISSION_RETRY_DELAY_UI32 d && (i =? 1)))%bool) /\
    featureCommandTimeout f' = featureCommandTimeout f.
Proof.
  intros Hd Hr. unfold features_of, feature_of, carries.
  destruct (typed_cases SCHEDULER_STEP_TIME_INTERVALL_UI64 _ s d ltac:(done) Hd) as [(-> & -> & E1)|(v1 & n1 & -> & -> & En1 & E1)]; rewrite E1;
    destruct (typed_cases SUBMISSION_RETRY_DELAY_UI32 _ s d ltac:(done) Hr) as [(-> & -> & E2)|(v2 & n2 & -> & -> & En2 & E2)];
    rewrite ?En1; simpl_out; rewrite E2, ?En2; simpl_out; eexists; (split; [done|]);
    split_and!; eauto; intros i; unfold set_delay, set_retry; simpl featuresFlag; unfold FF_SET_SCHEDULER_DELAY, FF_SET_SUBMISSION_RETRY;
    rewrite ?lor_two_testbit, ?lor_one_testbit; simpl; by rewrite ?orb_false_r.
Qed.

Lemma id_as_requested s d :
  typed RPC_GET_COMMAND_STATE_CMD_ID_UI64 (as_int 64) d ->
  exists uid, as_u64 (doc_find RPC_GET_COMMAND_STATE_CMD_ID_UI64 (numbered_request s d)) = Ret uid /\
    carries 64 RPC_GET_COMMAND_STATE_CMD_ID_UI64 d (fun n => uid = n mod 2 ^ 64) (uid = u64 (command_sequence_id s + 1)).
Proof.
  intros [o Ho]. rewrite numbered_find_id. unfold carries, field_or, has_field, present in *.
  destruct (doc_find _ d) as [v|]; simpl default.
  - rewrite bool_decide_true in Ho by eauto. apply outcome_bind_inv in Ho as (n & Hn & _). unfold as_u64. rewrite Hn. simpl_out. eauto.
  - eexists. split; [done|]. rewrite !uwrap_swrap by lia. apply uwrap_small, uwrap_range. lia.
Qed.

Lemma instance_as_requested s d alias c0 :
  field_spec as_string (doc_find COMMAND_ALIAS_STR d) = Ret alias -> well_typed d ->
  (i ← mapCommandInstancer s !! alias; getInstance i (next_command s)) = Some c0 ->
  exists c, instance_spec (set_sequence (u64 (command_sequence_id s + 1)) s) (numbered_request s d) = Ret (Some c) /\
    as_requested d (u64 (command_sequence_id s + 1)) c0 c.
Proof.
  intros Ha [Hru Hde Hre Hid] Hc. unfold instance_spec. rewrite (numbered_find s d COMMAND_ALIAS_STR ltac:(done)), Ha. simpl_out. simpl mapCommandInstancer. simpl next_command.
  rewrite Hc. destruct (features_as_requested s d (commandFeatures c0) Hde Hre) as (f & Ef & F1 & F2 & F3 & F4).
  destruct (id_as_requested s d Hid) as (uid & Eu & Hu).
  assert (exists rule, rule_of (numbered_request s d) = Ret rule /\
    carries 32 SUBMISSION_RULE_UI32 d (fun n => rule = n mod 2 ^ 8) (rule = SUBMIT_NORMAL)) as (rule & Er & Hrule).
  { unfold rule_of, carries. destruct (typed_cases SUBMISSION_RULE_UI32 _ s d ltac:(done) Hru) as [(-> & _ & E)|(v & n & -> & _ & En & E)]; rewrite E; [by exists SUBMIT_NORMAL|].
    rewrite En. simpl_out. eauto. }
  rewrite Er. simpl_out. rewrite Ef. simpl_out. rewrite Eu. simpl_out. eexists. split; [done|]. by split.
Qed.

Lemma instance_none s d alias :
  field_spec as_string (doc_find COMMAND_ALIAS_STR d) = Ret alias ->
  (i ← mapCommandInstancer s !! alias; getInstance i (next_command s)) = None ->
  instance_spec (set_sequence (u64 (command_sequence_id s + 1)) s) (numbered_request s d) = Ret None.
Proof.
  intros Ha Hc. unfold instance_spec. rewrite (numbered_find s d COMMAND_ALIAS_STR ltac:(done)), Ha. simpl_out. simpl mapCommandInstancer. simpl next_command. by rewrite Hc.
Qed.

Lemma remembered_listed u h : listed u h (remembered u h).
Proof.
  unfold remembered, addComamndState, st_modify. split; simpl.
  - done.
  - unfold state_at. simpl. by rewrite lookup_insert_eq.
  - intros p Hp. by apply lookup_insert_ne.
  - destruct (command_state_fast_access_map h !! u) eqn:E; [done|]. by rewrite lookup_insert_eq.
  - intros v Hv. destruct (command_state_fast_access_map h !! u); [done|]. by apply lookup_insert_ne.
Qed.

Lemma accepted_taken_in s ch st b c priority :
  deinitiated b = false -> taken_in s (accepted s (u64 (command_sequence_id s + 1)) ch st b c priority) ch priority st b c.
Proof.
  intros Hd. split; [|apply remembered_listed|done|done]. eexists. split; [done|].
  unfold enqueued, enqueueCommand, mbind, ST_bind, st_gets. rewrite Hd. by split.
Qed.

(** [C18] A submission is refused, with the code of the reason and without a change but for
    the counter of numbers, when there is no description, when the executor is not
    started, when the channel does not exist, when the command cannot be made.  Otherwise the
    result is the next number; the command, made by the factory of its alias and with the
    rule, delays and flags the request asks for, is at the end of the queue of the sandbox of
    its channel with the event queued, and a queued state is at the end of the history.
    The number is the identifier of the command unless the request carries a [command_id]
    of its own, which then is.  The fields of the request have their types and the sandbox has
    not been deinitialised. *)
Theorem submitCommand_verdict s d ch priority alias w :
  c_holds d w -> fits d -> fits (numbered_request s d) -> channel_of d = Ret ch -> priority_of d = Ret priority ->
  field_spec as_string (doc_find COMMAND_ALIAS_STR d) = Ret alias -> well_typed d ->
  (forall st b, sandbox_map s !! ch = Some (st, b) -> deinitiated b = false) ->
  submitCommand getInstance faults None s =
    (Raise (Chaos (mkExc (-1) (chars "Invalid parameter") (chars "BatchCommandExecutor::setCommandFeatures"))), s, None) /\
  exists r s' w', submitCommand getInstance faults (Some w) s = (r, s', Some w') /\
    if decide (serviceState s <> Started) then r = submit_error (-2) (chars "Slow command executor is not started") /\ s' = s
    else match sandbox_map s !! ch with
    | None => r = submit_error (-3) (chars "Execution channel not found") /\ s' = s
    | Some (st, b) =>
        match i ← mapCommandInstancer s !! alias; getInstance i (next_command s) with
        | None => r = submit_error (-4) (chars "Command instantiation failed") /\
            s' = set_sequence ((command_sequence_id s + 1) mod 2 ^ 64) s
        | Some c0 => r = Val ((command_sequence_id s + 1) mod 2 ^ 64) /\
            exists c, as_requested d ((command_sequence_id s + 1) mod 2 ^ 64) c0 c /\ taken_in s s' ch priority st b c
        end
    end.
Proof.
  intros Hw Hf Hf' Hch Hpr Ha Hty Hd. split; [done|].
  assert (forall o, instance_spec (set_sequence (u64 (command_sequence_id s + 1)) s) (numbered_request s d) = Ret o ->
    exists w', submitCommand getInstance faults (Some w) s = ((submission s ch priority o).1, (submission s ch priority o).2, Some w')) as Hrun.
  { intros o Ho. destruct (submit_runs s d ch priority o Hf Hf' Hch Hpr Ho Hd) as [d' Hr].
    destruct (Hr w Hw) as (w' & E & _). exists w'. unfold submitCommand. by rewrite E. }
  destruct (i ← mapCommandInstancer s !! alias; getInstance i (next_command s)) as [c0|] eqn:Ec.
  - destruct (instance_as_requested s d alias c0 Ha Hty Ec) as (c & Ei & Hreq). destruct (Hrun _ Ei) as [w' E].
    eexists _, _, w'. split; [exact E|]. unfold submission. case_decide; [done|].
    destruct (sandbox_map s !! ch) as [[st b]|] eqn:Hb; [|done]. split; [done|]. exists c. split; [exact Hreq|].
    apply accepted_taken_in. by eapply Hd.
  - destruct (Hrun _ (instance_none s d alias Ha Ec)) as [w' E]. eexists _, _, w'. split; [exact E|]. unfold submission.
    case_decide; [done|]. by destruct (sandbox_map s !! ch) as [[st b]|].
Qed.

(** ** What a client reads *)

Definition state_doc (x : CommandState) : doc :=
  let d := doc_snoc DNil RPC_GET_COMMAND_STATE_LAST_EVENT_UI32 (VInt (event_code (last_event x))) in
  if decide (last_event x = EVT_FAULT) then
    doc_snoc (doc_snoc (doc_snoc d RPC_GET_COMMAND_STATE_ERROR_CODE_UI32 (VInt (code (fault_description x))))
      RPC_GET_COMMAND_STATE_ERROR_DESC_STR (VString (description (fault_description x))))
      RPC_GET_COMMAND_STATE_ERROR_DOMAIN_STR (VString (domain (fault_description x)))
  else d.

Lemma state_document_holds x : fits (state_doc x) -> exists w : W, state_document x = Ret w /\ c_holds (state_doc x) w.
Proof.
  unfold state_document, state_doc. intros Hf. destruct new_law as (w0 & E0 & H0). rewrite E0. simpl_out.
  destruct (decide (last_event x = EVT_FAULT)).
  - pose proof (fits_before _ _ _ Hf) as Hf3. pose proof (fits_before _ _ _ Hf3) as Hf2. pose proof (fits_before _ _ _ Hf2) as Hf1.
    destruct (add_law _ _ _ _ _ (addInt32Value_law _ _) H0 Hf1) as (w1 & E1 & H1). rewrite E1. simpl_out.
    destruct (add_law _ _ _ _ _ (addInt32Value_law _ _) H1 Hf2) as (w2 & E2 & H2). rewrite E2. simpl_out.
    destruct (add_law _ _ _ _ _ (addStringValue_law _ _) H2 Hf3) as (w3 & E3 & H3). rewrite E3. simpl_out.
    by apply (add_law _ _ _ _ _ (addStringValue_law _ _) H3 Hf).
  - destruct (add_law _ _ _ _ _ (addInt32Value_law _ _) H0 Hf) as (w1 & E1 & H1). rewrite E1. simpl_out. by exists w1.
Qed.

Lemma query_run s q id p x w :
  c_holds q w -> fits q -> as_u64 (doc_find RPC_GET_COMMAND_STATE_CMD_ID_UI64 q) = Ret id ->
  command_state_fast_access_map (history s) !! id = Some p -> states (history s) !! p = Some x -> fits (state_doc x) ->
  exists w' r, getCommandState (s, w) = (Val r, (s, w')) /\ c_holds (state_doc x) r.
Proof.
  intros Hw Hf Hid Hp Hx Hfx. destruct (state_document_holds x Hfx) as (r & Er & Hr).
  destruct (runs_rd _ _ q s id (getUInt64Value_law RPC_GET_COMMAND_STATE_CMD_ID_UI64) Hf Hid w Hw) as (w' & E & Hw').
  exists w', r. split; [|done]. unfold getCommandState, only_chaos. rewrite (dx_bind_val _ _ _ _ _ E).
  assert (ex (hist (find_state id)) (s, w') = (Val (Some p), (s, w'))) as E1.
  { unfold ex. rewrite (hist_run (find_state id) s (Some p) (history s)); [by destruct s|].
    unfold find_state, mbind, ST_bind, st_gets. by rewrite Hp. }
  rewrite (dx_bind_val _ _ _ _ _ E1). assert (ex (hist (the_state p)) (s, w') = (Val x, (s, w'))) as E2.
  { unfold ex. rewrite (hist_run (the_state p) s x (history s)); [by destruct s|].
    unfold the_state, mbind, ST_bind, st_gets. by rewrite Hx. }
  rewrite (dx_bind_val _ _ _ _ _ E2). by rewrite Er.
Qed.

(** The request carries no identifier of its own. *)
Lemma instance_uid s d id c :
  has_field RPC_GET_COMMAND_STATE_CMD_ID_UI64 d = false -> in_u 64 id ->
  instance_spec s (doc_snoc d RPC_GET_COMMAND_STATE_CMD_ID_UI64 (VLong (s64 id))) = Ret (Some c) -> unique_id c = id.
Proof.
  intros Hh Hid. unfold instance_spec. intros (alias & _ & Ho)%outcome_bind_inv.
  destruct (mapCommandInstancer s !! alias ≫= _) as [c0|]; [|done].
  apply outcome_bind_inv in Ho as (rule & _ & Ho). apply outcome_bind_inv in Ho as (f & _ & Ho).
  apply outcome_bind_inv in Ho as (uid & Hu & [= <-]). simpl.
  assert (doc_find RPC_GET_COMMAND_STATE_CMD_ID_UI64 (doc_snoc d RPC_GET_COMMAND_STATE_CMD_ID_UI64 (VLong (s64 id))) = Some (VLong (s64 id))) as Hfind.
  { unfold doc_snoc. rewrite doc_find_app. unfold has_field, present in Hh. destruct (doc_find _ d); [done|]. cbn [doc_find]. by rewrite decide_True. }
  rewrite Hfind in Hu. unfold as_u64 in Hu. cbn [as_int] in Hu. injection Hu as <-.
  rewrite !uwrap_swrap by lia. by apply uwrap_small.
Qed.

(** The state the history has for an identifier after one more command with it. *)
Definition state_after (id : Z) (h : History) : CommandState :=
  match command_state_fast_access_map h !! id with
  | Some p => state_at h p
  | None => mkState id EVT_QUEUED (mkFault [] 0 [] [])
  end.

(** The submission is accepted. *)
Record acceptable (s : Executor) (d : doc) (ch priority : Z) (st : svc_state) (b : sandbox) (c : BatchCommand) : Prop := {
  ac_fits : fits d;
  ac_numbered : fits (numbered_request s d);
  ac_channel : channel_of d = Ret ch;
  ac_priority : priority_of d = Ret priority;
  ac_command : instance_spec (set_sequence (u64 (command_sequence_id s + 1)) s) (numbered_request s d) = Ret (Some c);
  ac_started : serviceState s = Started;
  ac_sandbox : sandbox_map s !! ch = Some (st, b);
  ac_open : deinitiated b = false;
  ac_no_id : has_field RPC_GET_COMMAND_STATE_CMD_ID_UI64 d = false }.

Lemma submit_then_query s d ch priority st b c w :
  acceptable s d ch priority st b c -> c_holds d w -> history_ok (history s) ->
  let id := u64 (command_sequence_id s + 1) in
  fits (state_doc (state_after id (history s))) ->
  exists s' w', submitCommand getInstance faults (Some w) s = (Val id, s', Some w') /\
  forall q wq, c_holds q wq -> fits q -> as_u64 (doc_find RPC_GET_COMMAND_STATE_CMD_ID_UI64 q) = Ret id ->
    exists wq' r, getCommandState (s', wq) = (Val r, (s', wq')) /\ c_holds (state_doc (state_after id (history s))) r.
Proof.
  intros [Hf Hf' Hch Hpr Ho Hst Hsb Hd Hn] Hw Hok id Hfx.
  assert (unique_id c = id) as Huid by (eapply instance_uid; [exact Hn| |exact Ho]; apply uwrap_range; lia).
  destruct (submit_runs s d ch priority (Some c) Hf Hf' Hch Hpr Ho) as [d' Hr].
  { intros st' b' Hb'. rewrite Hsb in Hb'. by injection Hb' as <- <-. }
  destruct (Hr w Hw) as (w' & E & _). unfold submission in E. rewrite decide_False in E by auto. rewrite Hsb in E. simpl in E.
  exists (accepted s id ch st b c priority), w'. split; [unfold submitCommand; by rewrite E|].
  intros q wq Hq Hfq Hid. unfold state_after in *.
  assert (exists p, command_state_fast_access_map (remembered id (history s)) !! id = Some p /\
    states (remembered id (history s)) !! p = Some (state_after id (history s))) as (p & Hp & Hx).
  { unfold remembered, addComamndState, st_modify, state_after. simpl.
    destruct (command_state_fast_access_map (history s) !! id) as [p|] eqn:Hp.
    - exists p. split; [done|]. apply (ho_map _ Hok) in Hp as [Hin _]. pose proof (ho_states _ Hok p Hin) as Hs.
      pose proof (ho_fresh _ Hok p Hs). rewrite lookup_insert_ne by lia. destruct Hs as [x Hx]. unfold state_at. by rewrite Hx.
    - exists (next_state (history s)). by rewrite !lookup_insert_eq. }
  eapply query_run; [exact Hq|exact Hfq|exact Hid| | |exact Hfx]; simpl; rewrite Huid; done.
Qed.

(** A client that submits a command and asks for its state with the identifier it got
    finds it: it is queued. *)
Theorem submitted_command_is_found s d ch priority st b c w :
  acceptable s d ch priority st b c -> c_holds d w -> history_ok (history s) ->
  command_state_fast_access_map (history s) !! u64 (command_sequence_id s + 1) = None ->
  exists s' w', submitCommand getInstance faults (Some w) s = (Val (u64 (command_sequence_id s + 1)), s', Some w') /\
  forall q wq, c_holds q wq -> fits q ->
    as_u64 (doc_find RPC_GET_COMMAND_STATE_CMD_ID_UI64 q) = Ret (u64 (command_sequence_id s + 1)) ->
    exists wq' r, getCommandState (s', wq) = (Val r, (s', wq')) /\
      c_holds (DCons RPC_GET_COMMAND_STATE_LAST_EVENT_UI32 (VInt 0) DNil) r.
Proof.
  intros Ha Hw Hok Hnone. set (id := u64 (command_sequence_id s + 1)) in *.
  assert (state_after id (history s) = mkState id EVT_QUEUED (mkFault [] 0 [] [])) as Hx by (unfold state_after; by rewrite Hnone).
  destruct (submit_then_query s d ch priority st b c w Ha Hw Hok) as (s' & w' & E & Hq).
  { fold id. rewrite Hx. apply (bool_decide_unpack _). by vm_compute. }
  exists s', w'. split; [exact E|]. fold id in Hq. rewrite Hx in Hq. exact Hq.
Qed.

(** An executor that is initialised again numbers its commands from one again but keeps
    the history: a client that asks for the state of the first new command gets that of
    the first old one while the history still has it. *)
Theorem initialised_again_reports_old_command s s1 s2 d ch priority st b c w p :
  default_command_alias s = [] -> history_ok (history s) ->
  command_state_fast_access_map (history s) !! 1 = Some p -> fits (state_doc (state_at (history s) p)) ->
  BatchExecutor.init getInstance faults s = (Val tt, s1) -> start faults s1 = (Val tt, s2) ->
  acceptable (now_started s2) d ch priority st b c -> c_holds d w ->
  exists s' w', submitCommand getInstance faults (Some w) (now_started s2) = (Val 1, s', Some w') /\
  forall q wq, c_holds q wq -> fits q -> as_u64 (doc_find RPC_GET_COMMAND_STATE_CMD_ID_UI64 q) = Ret 1 ->
    exists wq' r, getCommandState (s', wq) = (Val r, (s', wq')) /\ c_holds (state_doc (state_at (history s) p)) r.
Proof.
  intros Hd Hok Hp Hfit Hi Hs Ha Hw. destruct (init_keeps _ _ _ _ Hd Hi) as [Hh1 Hq1]. destruct (start_keeps _ _ _ Hs) as [Hh2 Hq2].
  assert (u64 (command_sequence_id (now_started s2) + 1) = 1) as Hid by (simpl; by rewrite Hq2, Hq1).
  assert (history (now_started s2) = history s) as Hh by (simpl; congruence).
  destruct (submit_then_query (now_started s2) d ch priority st b c w Ha Hw) as (s' & w' & E & Hq).
  { by rewrite Hh. }
  { rewrite Hid, Hh. unfold state_after. by rewrite Hp. }
  rewrite Hid, Hh in *. unfold state_after in Hq. rewrite Hp in Hq. by exists s', w'.
Qed.

End Submission.

(** ** Scenarios *)

Module Witness.

Definition no_faults (u : Z) : FaultDescription := no_fault.

(** One command is submitted and installed, another waits; the capper makes a round. *)
Definition some_steps : list (@estep CDataWrapper) :=
  ESandbox <$> [qsop (QEnqueue 1 cmdA 50); qsop QCheck; qsop (QEnqueue 2 (cmdB SUBMIT_NORMAL) 50)].
Definition steps_end (xs : list (@estep CDataWrapper)) : Executor :=
  foldl (fun s x => (@eexec no_faults _ (wrapper_container 0) x s).2) started_executor xs.

Lemma some_steps_run :
  @erun no_faults _ (wrapper_container 0) (some_steps ++ [ECap]) started_executor (steps_end (some_steps ++ [ECap])).
Proof.
  apply (erun_snoc no_faults some_steps ECap _ (steps_end some_steps) _ (Val tt)); [|by vm_compute|by vm_compute|done].
  apply (erun_snoc no_faults (take 2 some_steps) (ESandbox (qsop (QEnqueue 2 (cmdB SUBMIT_NORMAL) 50))) _ (steps_end (take 2 some_steps)) _ (Val tt));
    [|apply (qokb_ok (sandbox_of (steps_end (take 2 some_steps))) (QEnqueue 2 (cmdB SUBMIT_NORMAL) 50)); by vm_compute|by vm_compute|done].
  apply (erun_snoc no_faults (take 1 some_steps) (ESandbox (qsop QCheck)) _ (steps_end (take 1 some_steps)) _ (Val tt));
    [|apply (qokb_ok (sandbox_of (steps_end (take 1 some_steps))) QCheck); by vm_compute|by vm_compute|done].
  apply (erun_snoc no_faults [] (ESandbox (qsop (QEnqueue 1 cmdA 50))) _ started_executor _ (Val tt));
    [constructor|apply (qokb_ok (sandbox_of started_executor) (QEnqueue 1 cmdA 50)); by vm_compute|by vm_compute|done].
Qed.


(** The factory of every command; an executor with the command [go]. *)
Definition factory (i n : nat) : option BatchCommand := Some (new_BatchCommand 0 6).
Definition with_go (h : History) : Executor :=
  mkExecutor Started 0 [] 1 {[ 1 := (Started, started) ]} COMMAND_STATE_QUEUE_DEFAULT_SIZE true h {[ chars "go" := 3%nat ]} 0.

(** A request for it, and one for the state of the first command. *)
Definition request : doc :=
  DCons COMMAND_ALIAS_STR (VString (chars "go")) (DCons SUBMISSION_PRIORITY_UI32 (VInt 10)
    (DCons SUBMISSION_RULE_UI32 (VInt 1) (DCons SUBMISSION_RETRY_DELAY_UI32 (VInt 70) DNil))).
Definition query : doc := DCons RPC_GET_COMMAND_STATE_CMD_ID_UI64 (VLong 1) DNil.
Definition made : BatchCommand := submitted_as (new_BatchCommand 0 6) 1 1 (set_retry 70 (commandFeatures (new_BatchCommand 0 6))).

Lemma held d : fits d -> exists w, holds d [] w.
Proof. intros Hf. destruct (from_holds 0 d [] Hf) as (w & _ & Hw). by exists w. Qed.

Lemma request_fits : fits request.
Proof. apply (bool_decide_unpack _). by vm_compute. Qed.
Lemma query_fits : fits query.
Proof. apply (bool_decide_unpack _). by vm_compute. Qed.

Lemma acceptable_go h : acceptable factory (with_go h) request 1 10 Started started made.
Proof.
  split; [exact request_fits|apply (bool_decide_unpack _); by vm_compute|by vm_compute..].
Qed.

Lemma request_typed : well_typed request.
Proof. split; by eexists. Qed.

Lemma submitCommand_verdict_witness :
  exists w s' w' c, holds request [] w /\
    @submitCommand factory no_faults _ (wrapper_container 0) (Some w) (with_go new_History) = (Val 1, s', Some w') /\
    unique_id c = 1 /\ submissionRule c = SUBMIT_AND_Kill /\ featureSubmissionRetryDelay (commandFeatures c) = 70 /\
    taken_in (with_go new_History) s' 1 10 Started started c.
Proof.
  destruct (held request request_fits) as [w Hw].
  destruct (@submitCommand_verdict factory no_faults _ (wrapper_container 0) (wrapper_laws 0) (with_go new_History) request 1 10 (chars "go") w Hw)
    as (_ & r & s' & w' & E & Hr).
  - exact request_fits.
  - apply (bool_decide_unpack _). by vm_compute.
  - by vm_compute.
  - by vm_compute.
  - by vm_compute.
  - exact request_typed.
  - intros st b [= <- <-]. done.
  - rewrite decide_False in Hr by (intros H; by apply H). destruct Hr as (-> & c & [Hid Hru Hde Hre _ _ _] & Ht).
    exists w, s', w', c. split_and!; [exact Hw|exact E|exact Hid| | |exact Ht].
    + destruct Hru as (n & [= <-] & Hn). exact Hn.
    + destruct Hre as (n & [= <-] & Hn). exact Hn.
Defined.

Lemma submitted_command_is_found_witness :
  exists w wq s' w' wq' r, @submitCommand factory no_faults _ (wrapper_container 0) (Some w) (with_go new_History) = (Val 1, s', Some w') /\
    @getCommandState _ (wrapper_container 0) (s', wq) = (Val r, (s', wq')) /\
    holds (DCons RPC_GET_COMMAND_STATE_LAST_EVENT_UI32 (VInt 0) DNil) [] r.
Proof.
  destruct (held request request_fits) as [w Hw]. destruct (held query query_fits) as [wq Hwq].
  destruct (@submitted_command_is_found factory no_faults _ (wrapper_container 0) (wrapper_laws 0) (with_go new_History) request 1 10 Started started made w
    (acceptable_go _) Hw new_History_ok) as (s' & w' & E & Hq); [done|].
  destruct (Hq query wq Hwq query_fits) as (wq' & r & Er & Hr); [by vm_compute|].
  exists w, wq, s', w', wq', r. split_and!; [exact E|exact Er|exact Hr].
Defined.

(** The command is submitted, then the executor is stopped, deinitialised, initialised and
    started. *)
Definition first_life : Executor :=
  (deinit no_faults (stop no_faults (accepted (with_go new_History) 1 1 Started started made 10)).2).2.
Definition second_init : Executor := (BatchExecutor.init factory no_faults first_life).2.
Definition second_life : Executor := now_started (start no_faults second_init).2.
Definition second_sandbox : svc_state * sandbox := default (Started, started) (sandbox_map second_life !! 1).

Lemma first_life_ok : history_ok (history first_life).
Proof.
  destruct (hrun_reports [HEvent 1 EVT_QUEUED no_fault] [] new_History new_reports) as (h & E & Hr).
  - by repeat constructor.
  - intros u. unfold phase_of, event_step. simpl. case_decide; by eexists.
  - done.
  - assert (hrun [HEvent 1 EVT_QUEUED no_fault] new_History = Some (tt, history first_life)) as E' by (by vm_compute).
    rewrite E' in E. injection E as <-. apply Hr.
Qed.

Lemma initialised_again_reports_old_command_witness :
  exists (w wq : CDataWrapper) (s' : Executor) (w' wq' r : CDataWrapper),
    @submitCommand factory no_faults _ (wrapper_container 0) (Some w) second_life = (Val 1, s', Some w') /\
    @getCommandState _ (wrapper_container 0) (s', wq) = (Val r, (s', wq')) /\
    holds (state_doc (state_at (history first_life) 0)) [] r.
Proof.
  destruct (held request request_fits) as [w Hw]. destruct (held query query_fits) as [wq Hwq].
  destruct (@initialised_again_reports_old_command factory no_faults _ (wrapper_container 0) (wrapper_laws 0)
    first_life second_init (start no_faults second_init).2 request 1 10 second_sandbox.1 second_sandbox.2 made w 0%nat) as (s' & w' & E & Hq).
  - by vm_compute.
  - exact first_life_ok.
  - by vm_compute.
  - apply (bool_decide_unpack _). by vm_compute.
  - by vm_compute.
  - by vm_compute.
  - split; [exact request_fits|apply (bool_decide_unpack _); by vm_compute|by vm_compute..].
  - exact Hw.
  - destruct (Hq query wq Hwq query_fits) as (wq' & r & Er & Hr); [by vm_compute|].
    exists w, wq, s', w', wq', r. split_and!; [exact E|exact Er|exact Hr].
Defined.

End Witness.
