(* ===== verification/AttributesSetting.v ===== *)
(** * The attribute cache of a control unit

    Models [chaos/common/data/cache/AttributesSetting.h] and [.cpp]: the values of the
    attributes of a device ([ValueSetting]), the sets that hold them with a bitmap of the
    changed ones ([AttributesSetting]) and the four sets a control unit shares with its
    commands ([AttributeValueSharedCache]).  Value objects live in a heap, so that a
    pointer handed out is an address, which a destroyed object does not have any more.  A
    memory block is the list of its bytes.  Locks are left out: an operation is atomic. *)

From S2P Require Import Prelude.

Local Open Scope Z_scope.

Inductive DataType := TYPE_INT32 | TYPE_INT64 | TYPE_DOUBLE | TYPE_STRING | TYPE_BYTEARRAY | TYPE_BOOLEAN.
#[export] Instance DataType_eq_dec : EqDecision DataType.
Proof. solve_decision. Defined.

Record ValueSetting := mkVS {
  vs_name : list Z; vs_index : Z; vs_size : Z; vs_type : DataType; value_buffer : option (list Z) }.

(** The fields of [AttributesSetting], with the heap of the value objects. *)
Record AttributesSetting := mkAS {
  index : Z;
  bitmapChangedAttribute : list bool;
  mapAttributeNameIndex : gmap (list Z) Z;
  mapAttributeIndexSettings : gmap Z nat;
  heap : gmap nat ValueSetting;
  fresh_ptr : nat }.

Definition set_bitmap (b : list bool) (s : AttributesSetting) : AttributesSetting :=
  mkAS (index s) b (mapAttributeNameIndex s) (mapAttributeIndexSettings s) (heap s) (fresh_ptr s).
Definition set_heap (h : gmap nat ValueSetting) (s : AttributesSetting) : AttributesSetting :=
  mkAS (index s) (bitmapChangedAttribute s) (mapAttributeNameIndex s) (mapAttributeIndexSettings s) h (fresh_ptr s).

Notation AM := (EX AttributesSetting).

Definition deref (p : nat) : AM ValueSetting := s ← ex_get; ex_lift (access (heap s !! p)).

(** ** [ValueSetting] *)

(** [memcpy] into a block; copying nothing touches nothing. *)
Definition memcpy (dst : option (list Z)) (src : list Z) (n : Z) : outcome (option (list Z)) :=
  if n =? 0 then Ret dst
  else
    d ← access dst;
    bs ← access (buf_read src 0 (Z.to_nat n));
    d ← access (buf_write d 0 bs);
    mret (Some d).

Definition new_ValueSetting (name : list Z) (idx size : Z) (type : DataType) : ValueSetting :=
  mkVS name idx size type (if size =? 0 then None else Some (replicate (Z.to_nat size) 0)).

(** [dynamic_bitset::set] and [reset]: the position is asserted to be in range. *)
Definition set_bit (i : Z) (b : bool) : AM unit :=
  s ← ex_get;
  if (0 <=? i) && (i <? Z.of_nat (length (bitmapChangedAttribute s)))
  then ex_modify (set_bitmap (<[Z.to_nat i := b]> (bitmapChangedAttribute s)))
  else ex_lift Fault.

Definition markAsChanged (p : nat) : AM unit := v ← deref p; set_bit (vs_index v) true.
Definition markAsUnchanged (p : nat) : AM unit := v ← deref p; set_bit (vs_index v) false.

Definition write_buffer (p : nat) (v : ValueSetting) (size : Z) (b : option (list Z)) : AM unit :=
  ex_modify (fun s => set_heap (<[p := mkVS (vs_name v) (vs_index v) size (vs_type v) b]> (heap s)) s).

Definition setValue (p : nat) (value_ptr : list Z) (value_size : Z) (tag_has_changed : bool) : AM bool :=
  v ← deref p;
  let value_size := if vs_size v <? value_size then vs_size v else value_size in
  b ← ex_lift (memcpy (value_buffer v) value_ptr value_size);
  write_buffer p v (vs_size v) b;;
  (if tag_has_changed then set_bit (vs_index v) true else mret tt);;
  mret true.

Section Realloc.
(** The value of fresh bytes, and whether [realloc] to size zero of a null ([true]) or of
    an allocated block gives null. *)
Context (junk : Z) (zero_null : bool -> bool).

Definition realloc (b : option (list Z)) (n : Z) : option (list Z) :=
  if n =? 0 then if zero_null (bool_decide (b = None)) then None else Some []
  else let old := default [] b in
    Some (take (Z.to_nat n) old ++ replicate (Z.to_nat n - length old) junk).

Definition vs_setNewSize (p : nat) (_new_size : Z) : AM bool :=
  v ← deref p;
  match vs_type v with
  | TYPE_BYTEARRAY | TYPE_STRING =>
      let b := realloc (value_buffer v) _new_size in
      write_buffer p v _new_size b;;
      mret (bool_decide (b <> None))
  | _ => mret true
  end.

(** [operator[]] of the map of settings: a missing index gives a null pointer. *)
Definition setting_at (n : Z) : AM nat := s ← ex_get; ex_lift (access (mapAttributeIndexSettings s !! n)).

Definition setNewSize (attribute_index new_size : Z) : AM bool :=
  p ← setting_at attribute_index; vs_setNewSize p new_size.

End Realloc.

(** ** [AttributesSetting] *)

Definition new_AttributesSetting : AttributesSetting := mkAS 0 [] ∅ ∅ ∅ 0.

Definition init (s : AttributesSetting) : outcome unit * AttributesSetting := (Ret tt, s).
(** [deinit]: the value objects go with the only pointers that own them. *)
Definition deinit : AM unit := ex_modify (fun s => mkAS 0 [] ∅ ∅ ∅ (fresh_ptr s)).

(** The size of a value of a fixed-size type. *)
Definition type_size (type : DataType) (size : Z) : Z :=
  match type with
  | TYPE_BOOLEAN => 1
  | TYPE_DOUBLE => 8
  | TYPE_INT32 => 4
  | TYPE_INT64 => 8
  | _ => size
  end.

(** [insert] leaves an entry that is there; the new value object then dies with its
    pointer. *)
Definition addAttribute (name : list Z) (size : Z) (type : DataType) : AM unit :=
  s ← ex_get;
  match mapAttributeNameIndex s !! name with
  | Some _ => mret tt
  | None =>
      let tmpIndex := index s in
      let size := type_size type size in
      let p := fresh_ptr s in
      let inserted := bool_decide (mapAttributeIndexSettings s !! tmpIndex = None) in
      ex_modify (fun _ => mkAS (u16 (tmpIndex + 1)) (bitmapChangedAttribute s ++ [false])
        (<[name := tmpIndex]> (mapAttributeNameIndex s))
        (if inserted then <[tmpIndex := p]> (mapAttributeIndexSettings s) else mapAttributeIndexSettings s)
        (if inserted then <[p := new_ValueSetting name tmpIndex size type]> (heap s) else heap s)
        (S p))
  end.

(** The order of [std::string]: bytes, lexicographically. *)
Fixpoint str_leb (a b : list Z) : bool :=
  match a, b with
  | [], _ => true
  | _ :: _, [] => false
  | x :: a, y :: b => if x =? y then str_leb a b else x <? y
  end.
Definition str_le (a b : list Z) : Prop := str_leb a b = true.
#[export] Instance str_le_dec : RelDecision str_le.
Proof. intros a b. unfold str_le. apply _. Defined.

(** The names in the order of the map. *)
Definition getAttributeNames : AM (list (list Z)) :=
  ex_gets (fun s => merge_sort str_le (map_to_list (mapAttributeNameIndex s)).*1).

Definition setValueForAttribute (n : Z) (value : list Z) (size : Z) : AM unit :=
  p ← setting_at n; setValue p value size true;; mret tt.

Definition getIndexForName (name : list Z) : AM Z :=
  s ← ex_get;
  match mapAttributeNameIndex s !! name with
  | Some i => mret i
  | None => ex_lift (Throw (-1))
  end.

Definition getValueSettingForIndex (idx : Z) : AM nat :=
  s ← ex_get;
  match mapAttributeIndexSettings s !! idx with
  | Some p => mret p
  | None => ex_lift (Throw (-1))
  end.

Definition getNumberOfAttributes : AM Z := ex_gets index.

(** [find_first] and [find_next] of the bitmap: the first set position from [i] on. *)
Definition find_from (i : nat) (bits : list bool) : option nat :=
  (fun '(k, _) => (i + k)%nat) <$> list_find (fun b => b = true) (drop i bits).

Fixpoint changed_loop (fuel : nat) (i : option nat) (bits : list bool) : option (list Z) :=
  match i with
  | None => Some []
  | Some i =>
      match fuel with
      | O => None
      | S fuel => l ← changed_loop fuel (find_from (S i) bits) bits; Some (u16 (Z.of_nat i) :: l)
      end
  end.

Definition getChangedIndex : AM (list Z) :=
  s ← ex_get;
  let bits := bitmapChangedAttribute s in
  ex_lift (access (changed_loop (length bits) (find_from 0 bits) bits)).

Definition resetChangedIndex : AM unit :=
  ex_modify (fun s => set_bitmap (replicate (length (bitmapChangedAttribute s)) false) s).
Definition markAllAsChanged : AM unit :=
  ex_modify (fun s => set_bitmap (replicate (length (bitmapChangedAttribute s)) true) s).
Definition hasChanged : AM bool := ex_gets (fun s => existsb id (bitmapChangedAttribute s)).

(** ** What a set means

    A set is the list of its attributes, each with the bytes of its value and whether it
    has changed.  [h] lists the addresses of the value objects. *)

Record attr := mkAttr { a_name : list Z; a_type : DataType; a_buf : option (list Z); a_changed : bool }.

Definition a_data (a : attr) : list Z := default [] (a_buf a).
Definition with_buf (b : option (list Z)) (a : attr) : attr := mkAttr (a_name a) (a_type a) b (a_changed a).
Definition with_changed (b : bool) (a : attr) : attr := mkAttr (a_name a) (a_type a) (a_buf a) b.

Record vs_of (i : nat) (a : attr) (v : ValueSetting) : Prop := {
  o_name : vs_name v = a_name a;
  o_index : vs_index v = Z.of_nat i;
  o_size : vs_size v = Z.of_nat (length (a_data a));
  o_type : vs_type v = a_type a;
  o_buf : value_buffer v = a_buf a }.

Record represents (s : AttributesSetting) (l : list attr) (h : list nat) : Prop := {
  r_len : length h = length l;
  r_index : index s = Z.of_nat (length l);
  r_bound : Z.of_nat (length l) < 2 ^ 16;
  r_bits : bitmapChangedAttribute s = a_changed <$> l;
  r_names n i : mapAttributeNameIndex s !! n = Some i <->
    exists k a, i = Z.of_nat k /\ l !! k = Some a /\ a_name a = n;
  r_settings i p : mapAttributeIndexSettings s !! i = Some p <-> exists k, i = Z.of_nat k /\ h !! k = Some p;
  r_objs k p : h !! k = Some p -> exists a v, l !! k = Some a /\ heap s !! p = Some v /\ vs_of k a v;
  r_owned p : is_Some (heap s !! p) -> p ∈ h;
  r_nodup : NoDup h;
  r_fresh p : p ∈ h -> (p < fresh_ptr s)%nat }.

Lemma new_represents : represents new_AttributesSetting [] [].
Proof.
  split; simpl; try done; try lia.
  - intros n i. rewrite lookup_empty. split; [done|]. intros (k & a & _ & H & _). by destruct k.
  - intros i p. rewrite lookup_empty. split; [done|]. intros (k & _ & H). by destruct k.
  - intros p [v H]. by rewrite lookup_empty in H.
  - constructor.
  - intros p H. by apply elem_of_nil in H.
Qed.

Lemma deinit_represents s l h : represents s l h -> exists s', deinit s = (Ret tt, s') /\ represents s' [] [].
Proof.
  intros _. eexists. split; [reflexivity|]. destruct new_represents. split; try done; try apply NoDup_nil_2.
  intros p H. by apply elem_of_nil in H.
Qed.

Lemma handle_at s l h k a : represents s l h -> l !! k = Some a -> exists p, h !! k = Some p.
Proof.
  intros R Ha. apply lookup_lt_Some in Ha. rewrite <- (r_len _ _ _ R) in Ha.
  by destruct (lookup_lt_is_Some_2 _ _ Ha) as [p Hp]; exists p.
Qed.

Lemma deref_at s l h k p a :
  represents s l h -> h !! k = Some p -> l !! k = Some a ->
  exists v, deref p s = (Ret v, s) /\ heap s !! p = Some v /\ vs_of k a v.
Proof.
  intros R Hp Ha. destruct (r_objs _ _ _ R _ _ Hp) as (a' & v & Ha' & Hv & Ho). simplify_eq.
  exists v. split; [|done]. unfold deref, ex_get, ex_lift, mbind, EX_bind. by rewrite Hv.
Qed.

(** Replacing the value object of an attribute. *)
Lemma write_represents s l h k p a b v :
  represents s l h -> h !! k = Some p -> l !! k = Some a -> vs_of k a v ->
  exists s', write_buffer p v (Z.of_nat (length (default [] b))) b s = (Ret tt, s') /\
    represents s' (<[k := with_buf b a]> l) h.
Proof.
  intros R Hp Ha Ho. eexists. split; [reflexivity|].
  pose proof (lookup_lt_Some _ _ _ Ha) as Hk.
  assert (forall j a1, <[k := with_buf b a]> l !! j = Some a1 -> exists a2, l !! j = Some a2 /\ a_name a2 = a_name a1) as Hb.
  { intros j a1 Hj. destruct (decide (j = k)) as [->|Hne].
    - rewrite list_lookup_insert_eq in Hj by done. simplify_eq. eauto.
    - rewrite list_lookup_insert_ne in Hj by done. eauto. }
  split; simpl; rewrite ?length_insert; try by apply R.
  - rewrite (r_bits _ _ _ R), list_fmap_insert. symmetry. apply list_insert_id.
    by rewrite list_lookup_fmap, Ha.
  - intros n i. rewrite (r_names _ _ _ R). split; intros (j & a1 & -> & Hj & Hn); exists j.
    + destruct (decide (j = k)) as [->|Hne]; simplify_eq.
      * eexists. by rewrite list_lookup_insert_eq.
      * eexists. by rewrite list_lookup_insert_ne.
    + destruct (Hb _ _ Hj) as (a2 & H2 & H3). exists a2. by rewrite H3.
  - intros j q Hq. destruct (r_objs _ _ _ R _ _ Hq) as (a1 & v1 & H1 & H2 & H3).
    destruct (decide (q = p)) as [->|Hne].
    + assert (j = k) as -> by (eapply NoDup_lookup; [apply (r_nodup _ _ _ R)|done|done]). simplify_eq.
      eexists _, _. rewrite list_lookup_insert_eq, lookup_insert_eq by done. split_and!; [done|done|].
      destruct Ho. by split.
    + assert (j <> k) by congruence. exists a1, v1. rewrite list_lookup_insert_ne, lookup_insert_ne by done. done.
  - intros q [w Hw]. apply (r_owned _ _ _ R). destruct (decide (q = p)) as [->|Hne].
    + destruct (r_objs _ _ _ R _ _ Hp) as (? & ? & _ & ? & _). eauto.
    + rewrite lookup_insert_ne in Hw by done. eauto.
Qed.

(** Changing the flags of the attributes. *)
Lemma bits_represents s l h f :
  (forall k a, a_name (f k a) = a_name a /\ a_type (f k a) = a_type a /\ a_buf (f k a) = a_buf a) ->
  represents s l h -> represents (set_bitmap (a_changed <$> imap f l) s) (imap f l) h.
Proof.
  intros Hf R. split; simpl; rewrite ?length_imap; try done; try by apply R.
  - intros n i. rewrite (r_names _ _ _ R). split; intros (k & a & -> & Ha & Hn); exists k.
    + exists (f k a). rewrite list_lookup_imap, Ha. destruct (Hf k a) as [-> _]. done.
    + rewrite list_lookup_imap in Ha. destruct (l !! k) as [a1|]; simplify_eq/=.
      exists a1. destruct (Hf k a1) as [-> _]. done.
  - intros k p Hp. destruct (r_objs _ _ _ R _ _ Hp) as (a & v & Ha & Hv & Ho).
    exists (f k a), v. rewrite list_lookup_imap, Ha. split_and!; [done|done|].
    destruct (Hf k a) as (E1 & E2 & E3), Ho. unfold a_data in *. split; unfold a_data; congruence.
Qed.

Definition set_flag (k : nat) (b : bool) (l : list attr) : list attr := alter (with_changed b) k l.

Lemma set_bit_represents s l h k a b :
  represents s l h -> l !! k = Some a ->
  exists s', set_bit (Z.of_nat k) b s = (Ret tt, s') /\ represents s' (set_flag k b l) h.
Proof.
  intros R Ha. pose proof (lookup_lt_Some _ _ _ Ha) as Hk.
  unfold set_bit. ex_step. rewrite (r_bits _ _ _ R), length_fmap.
  rewrite (proj2 (Z.leb_le _ _)), (proj2 (Z.ltb_lt _ _)) by lia. eexists. split; [reflexivity|].
  pose (f := fun j a => if decide (j = k) then with_changed b a else a).
  assert (imap f l = set_flag k b l) as Hi.
  { apply list_eq. intros j. unfold set_flag. rewrite list_lookup_imap. destruct (decide (j = k)) as [->|Hne].
    - rewrite list_lookup_alter_eq. destruct (l !! k); simpl; [|done]. unfold f. by rewrite decide_True.
    - rewrite list_lookup_alter_ne by done. destruct (l !! j); simpl; [|done]. unfold f.
      by rewrite decide_False. }
  assert (<[Z.to_nat (Z.of_nat k) := b]> (a_changed <$> l) = a_changed <$> imap f l) as ->.
  { rewrite Nat2Z.id, Hi. apply list_eq. intros j. unfold set_flag. destruct (decide (j = k)) as [->|Hne].
    - rewrite list_lookup_insert_eq by by rewrite length_fmap.
      by rewrite list_lookup_fmap, list_lookup_alter_eq, Ha.
    - by rewrite list_lookup_insert_ne, !list_lookup_fmap, list_lookup_alter_ne. }
  rewrite <- Hi. apply bits_represents; [|done]. intros j a'. unfold f. by destruct (decide _).
Qed.

Lemma all_bits_represents s l h b :
  represents s l h ->
  represents (set_bitmap (replicate (length (bitmapChangedAttribute s)) b) s) (with_changed b <$> l) h.
Proof.
  intros R. rewrite (r_bits _ _ _ R), length_fmap.
  assert (imap (fun _ => with_changed b) l = with_changed b <$> l) as Hi.
  { apply list_eq. intros j. by rewrite list_lookup_imap, list_lookup_fmap. }
  assert (replicate (length l) b = a_changed <$> imap (fun _ => with_changed b) l) as ->.
  { rewrite Hi, <- list_fmap_compose. clear. induction l as [|a l IH]; simpl; [done|by rewrite IH]. }
  rewrite <- Hi. by apply bits_represents.
Qed.

(** ** The operations on the list of attributes *)

Definition names (l : list attr) : list (list Z) := a_name <$> l.
Definition zeros (n : Z) : option (list Z) := if n =? 0 then None else Some (replicate (Z.to_nat n) 0).

Definition add_attr (name : list Z) (size : Z) (type : DataType) (l : list attr) : list attr :=
  if decide (name ∈ names l) then l else l ++ [mkAttr name type (zeros (type_size type size)) false].

(** The first bytes of the value are replaced, as many as both sides have. *)
Definition overwrite (value : list Z) (n : Z) (a : attr) : outcome attr :=
  let m := Z.to_nat (Z.min n (Z.of_nat (length (a_data a)))) in
  if decide (m = 0%nat) then Ret a
  else if decide (length value < m)%nat then Fault
  else Ret (with_buf (Some (take m value ++ drop m (a_data a))) a).

Lemma name_lookup s l h n i :
  represents s l h -> mapAttributeNameIndex s !! n = Some i ->
  exists k a p, i = Z.of_nat k /\ l !! k = Some a /\ a_name a = n /\ h !! k = Some p.
Proof.
  intros R H. apply (r_names _ _ _ R) in H as (k & a & -> & Ha & Hn).
  destruct (handle_at _ _ _ _ _ R Ha) as [p Hp]. by exists k, a, p.
Qed.

Lemma name_absent s l h n : represents s l h -> mapAttributeNameIndex s !! n = None <-> n ∉ names l.
Proof.
  intros R. unfold names. rewrite list_elem_of_fmap. split.
  - intros H (a & -> & Ha). apply list_elem_of_lookup in Ha as [k Hk].
    assert (mapAttributeNameIndex s !! a_name a = Some (Z.of_nat k)); [|congruence].
    apply (r_names _ _ _ R). eauto.
  - intros H. apply eq_None_not_Some. intros [i Hi]. apply H.
    destruct (name_lookup _ _ _ _ _ R Hi) as (k & a & _ & _ & Ha & <- & _).
    exists a. split; [done|]. by eapply list_elem_of_lookup_2.
Qed.

Lemma setting_absent s l h : represents s l h -> mapAttributeIndexSettings s !! Z.of_nat (length l) = None.
Proof.
  intros R. apply eq_None_not_Some. intros [p Hp]. apply (r_settings _ _ _ R) in Hp as (k & Hk & Hl).
  apply lookup_lt_Some in Hl. rewrite (r_len _ _ _ R) in Hl. lia.
Qed.

Lemma lookup_snoc_inv {A} (l : list A) x k y :
  (l ++ [x]) !! k = Some y -> l !! k = Some y \/ (k = length l /\ x = y).
Proof.
  rewrite lookup_app_Some. intros [H|[Hl H]]; [by left|right].
  apply list_lookup_singleton_Some in H as [H ->]. split; [lia|done].
Qed.

Lemma zeros_length n : 0 <= n -> Z.of_nat (length (default [] (zeros n))) = n.
Proof. intros H. unfold zeros. case_match eqn:E; reflect_bool; simpl; rewrite ?length_replicate; lia. Qed.

Lemma type_size_pos type size : 0 <= size -> 0 <= type_size type size.
Proof. by destruct type. Qed.

Lemma addAttribute_represents s l h name size type :
  represents s l h -> 0 <= size -> Z.of_nat (length l) + 1 < 2 ^ 16 ->
  exists s' h', addAttribute name size type s = (Ret tt, s') /\
    represents s' (add_attr name size type l) (h ++ h').
Proof.
  intros R Hs Hb. unfold addAttribute, add_attr. ex_step. destruct (decide (name ∈ names l)) as [Hin|Hin].
  { destruct (mapAttributeNameIndex s !! name) eqn:E.
    - exists s, []. by rewrite app_nil_r.
    - by apply (name_absent _ _ _ _ R) in E. }
  rewrite (proj2 (name_absent _ _ _ _ R) Hin).
  rewrite bool_decide_eq_true_2 by (rewrite (r_index _ _ _ R); by eapply setting_absent).
  exists (mkAS (u16 (index s + 1)) (bitmapChangedAttribute s ++ [false])
    (<[name := index s]> (mapAttributeNameIndex s)) (<[index s := fresh_ptr s]> (mapAttributeIndexSettings s))
    (<[fresh_ptr s := new_ValueSetting name (index s) (type_size type size) type]> (heap s)) (S (fresh_ptr s))).
  exists [fresh_ptr s]. split; [reflexivity|].
  pose proof (r_index _ _ _ R) as Ei. pose proof (r_len _ _ _ R) as El.
  assert (forall p, p ∈ h -> p <> fresh_ptr s) as Hf by (intros p Hp ->; apply (r_fresh _ _ _ R) in Hp; lia).
  split; simpl; rewrite ?length_app; simpl; try lia.
  - rewrite Ei. rewrite uwrap_small; unfold in_u; lia.
  - by rewrite (r_bits _ _ _ R), fmap_app.
  - intros n i. destruct (decide (n = name)) as [->|Hne].
    + rewrite lookup_insert_eq. split.
      * intros [= <-]. eexists (length l), _. rewrite Ei. split; [done|].
        rewrite lookup_app_r, Nat.sub_diag by lia. done.
      * intros (k & a & -> & Ha & Hn). apply lookup_snoc_inv in Ha as [Ha|[-> <-]]; [|by rewrite Ei].
        exfalso. apply Hin. subst name. apply list_elem_of_fmap. exists a. split; [done|by eapply list_elem_of_lookup_2].
    + rewrite lookup_insert_ne by done. rewrite (r_names _ _ _ R). split; intros (k & a & -> & Ha & Hn); exists k, a.
      * split_and!; try done. by apply lookup_app_l_Some.
      * apply lookup_snoc_inv in Ha as [Ha|[-> <-]]; [done|]. by simplify_eq/=.
  - intros i p. destruct (decide (i = index s)) as [->|Hne].
    + rewrite lookup_insert_eq. split.
      * intros [= <-]. exists (length h). rewrite El. split; [done|].
        rewrite lookup_app_r, El, Nat.sub_diag by lia. done.
      * intros (k & Hk & Hl). apply lookup_snoc_inv in Hl as [Hl|[_ ->]]; [|done].
        apply lookup_lt_Some in Hl. lia.
    + rewrite lookup_insert_ne by done. rewrite (r_settings _ _ _ R). split; intros (k & -> & Hk); exists k.
      * split; [done|]. by apply lookup_app_l_Some.
      * apply lookup_snoc_inv in Hk as [Hk|[-> <-]]; [done|]. exfalso. apply Hne. lia.
  - intros k p Hp. apply lookup_snoc_inv in Hp as [Hp|[-> <-]].
    + destruct (r_objs _ _ _ R _ _ Hp) as (a & v & Ha & Hv & Ho). exists a, v. split_and!; [by apply lookup_app_l_Some| |done].
      rewrite lookup_insert_ne; [done|]. intros Eq. by apply (Hf p); [eapply list_elem_of_lookup_2|].
    + eexists _, _. rewrite lookup_app_r, El, Nat.sub_diag, lookup_insert_eq by lia. split_and!; [done|done|].
      split; simpl; try done. unfold a_data. simpl. by rewrite zeros_length by by apply type_size_pos.
  - intros p [v Hv]. destruct (decide (p = fresh_ptr s)) as [->|Hne]; [set_solver|].
    rewrite lookup_insert_ne in Hv by done. apply elem_of_app. left. apply (r_owned _ _ _ R). eauto.
  - apply NoDup_app. split_and!; [apply R| |apply NoDup_singleton].
    intros p Hp Hp'%list_elem_of_singleton. by apply (Hf p).
  - intros p [Hp|Hp%list_elem_of_singleton]%elem_of_app; [apply (r_fresh _ _ _ R) in Hp|]; lia.
Qed.

Lemma getIndexForName_represents s l h name :
  represents s l h ->
  (name ∉ names l /\ getIndexForName name s = (Throw (-1), s)) \/
  exists k a p, l !! k = Some a /\ a_name a = name /\ h !! k = Some p /\ getIndexForName name s = (Ret (Z.of_nat k), s).
Proof.
  intros R. unfold getIndexForName. ex_step. destruct (mapAttributeNameIndex s !! name) as [i|] eqn:E.
  - right. destruct (name_lookup _ _ _ _ _ R E) as (k & a & p & -> & Ha & Hn & Hp). by exists k, a, p.
  - left. by rewrite <- (name_absent _ _ _ _ R).
Qed.

Lemma settings_at s l h k :
  represents s l h -> mapAttributeIndexSettings s !! Z.of_nat k = h !! k.
Proof.
  intros R. apply option_eq. intros p. rewrite (r_settings _ _ _ R). split; [|by exists k].
  intros (j & Hj & Hp). by replace k with j by lia.
Qed.

Lemma memcpy_spec a value n :
  0 <= n -> let m := if Z.of_nat (length (a_data a)) <? n then Z.of_nat (length (a_data a)) else n in
  memcpy (a_buf a) value m = (a' ← overwrite value n a; mret (a_buf a')).
Proof.
  intros Hn m. assert (m = Z.min n (Z.of_nat (length (a_data a)))) as Em.
  { unfold m. case_match eqn:E; reflect_bool; lia. }
  unfold memcpy, overwrite. rewrite <- Em. clearbody m.
  destruct (m =? 0) eqn:E0; reflect_bool.
  { rewrite decide_True by lia. done. }
  rewrite decide_False by lia. unfold a_data in *. destruct (a_buf a) as [d|] eqn:Ed; simpl in *; [|lia].
  simpl_out. unfold buf_read. case_decide as Hd; simpl.
  - rewrite decide_False by lia. simpl_out. unfold buf_write. rewrite decide_True by (rewrite length_take, length_drop; lia).
    simpl_out. rewrite drop_0. simpl. rewrite length_take, Nat.min_l by lia. done.
  - by rewrite decide_True by lia.
Qed.

Lemma alter_insert {A} (f : A -> A) i x (l : list A) : alter f i (<[i := x]> l) = <[i := f x]> l.
Proof. revert i. induction l as [|y l IH]; intros [|i]; simpl; try done. f_equal. apply IH. Qed.

(** [setValue] through a pointer overwrites the value of its attribute. *)
Lemma setValue_represents s l h k p a value n tag :
  represents s l h -> h !! k = Some p -> l !! k = Some a -> 0 <= n ->
  match overwrite value n a with
  | Ret a' => exists s', setValue p value n tag s = (Ret true, s') /\
      represents s' (<[k := if tag then with_changed true a' else a']> l) h
  | _ => setValue p value n tag s = (Fault, s)
  end.
Proof.
  intros R Hp Ha Hn. destruct (deref_at _ _ _ _ _ _ R Hp Ha) as (v & E & Hv & Ho).
  pose proof (memcpy_spec a value n Hn) as Hm. cbv zeta in Hm. rewrite <- (o_size _ _ _ Ho), <- (o_buf _ _ _ Ho) in Hm.
  assert (match overwrite value n a with Ret a' => exists b, a' = with_buf b a /\ length (default [] b) = length (a_data a)
          | Throw _ => False | Fault => True end) as Hw.
  { unfold overwrite. case_decide; [exists (a_buf a); by destruct a|]. case_decide; [done|].
    eexists. split; [reflexivity|]. simpl. rewrite length_app, length_take, length_drop. lia. }
  destruct (overwrite value n a) as [a'| |]; [|done|]; unfold setValue.
  - destruct Hw as (b & -> & Hl). ex_use E. erewrite ex_bind_ret; [|unfold ex_lift; by rewrite Hm]. cbn beta.
    destruct (write_represents _ _ _ _ _ _ b _ R Hp Ha Ho) as (s1 & E1 & R1).
    erewrite ex_bind_ret; [|rewrite (o_size _ _ _ Ho), <- Hl; exact E1]. cbn beta.
    destruct tag; [|eexists; split; [reflexivity|done]]. rewrite (o_index _ _ _ Ho).
    pose proof (lookup_lt_Some _ _ _ Ha) as Hk.
    destruct (set_bit_represents _ _ _ k _ true R1 (list_lookup_insert_eq _ _ _ Hk)) as (s2 & E2 & R2).
    ex_use E2. exists s2. split; [done|]. unfold set_flag in R2.
    by rewrite alter_insert in R2.
  - ex_use E. erewrite ex_bind_fault; [done|]. unfold ex_lift. by rewrite Hm.
Qed.

(** The changed positions, counted from [i]. *)
Fixpoint changed_from (i : nat) (bits : list bool) : list Z :=
  match bits with
  | [] => []
  | b :: bits => (if b then [Z.of_nat i] else []) ++ changed_from (S i) bits
  end.

Lemma find_from_cons i bits b rest :
  drop i bits = b :: rest -> find_from i bits = if b then Some i else find_from (S i) bits.
Proof.
  intros E. unfold find_from. rewrite E. replace (drop (S i) bits) with rest.
  - destruct b; simpl; [f_equal; lia|]. destruct (list_find _ rest) as [[k x]|]; simpl; [f_equal; lia|done].
  - by rewrite <- Nat.add_1_r, <- drop_drop, E.
Qed.

Lemma changed_loop_spec bits : Z.of_nat (length bits) < 2 ^ 16 -> forall rest i fuel,
  drop i bits = rest -> (length rest <= fuel)%nat ->
  changed_loop fuel (find_from i bits) bits = Some (changed_from i rest).
Proof.
  intros Hb rest. induction rest as [|b rest IH]; intros i fuel E Hf.
  - unfold find_from. rewrite E. by destruct fuel.
  - rewrite (find_from_cons _ _ _ _ E).
    assert (drop (S i) bits = rest) as E' by by rewrite <- Nat.add_1_r, <- drop_drop, E.
    assert (i < length bits)%nat.
    { apply Nat.nle_gt. intros H. rewrite drop_ge in E by done. done. }
    simpl in Hf. destruct b; simpl; [|apply IH; [done|lia]].
    destruct fuel as [|fuel]; [lia|]. simpl. rewrite IH by (done || lia). simpl_opt.
    by rewrite uwrap_small by (unfold in_u; lia).
Qed.

Lemma getChangedIndex_represents s l h :
  represents s l h -> getChangedIndex s = (Ret (changed_from 0 (a_changed <$> l)), s).
Proof.
  intros R. unfold getChangedIndex. ex_step. unfold ex_lift. rewrite (r_bits _ _ _ R).
  pose proof (r_bound _ _ _ R).
  by rewrite (changed_loop_spec _) with (rest := a_changed <$> l) by (rewrite ?length_fmap; done || lia).
Qed.

Lemma hasChanged_represents s l h : represents s l h -> hasChanged s = (Ret (existsb a_changed l), s).
Proof.
  intros R. unfold hasChanged, ex_gets. rewrite (r_bits _ _ _ R). do 2 f_equal. clear.
  induction l as [|a l IH]; [done|]. cbn. f_equal. exact IH.
Qed.

Lemma str_leb_total a b : str_leb a b = true \/ str_leb b a = true.
Proof.
  revert b. induction a as [|x a IH]; intros [|y b]; simpl; auto.
  destruct (x =? y) eqn:E; reflect_bool.
  - subst. rewrite Z.eqb_refl. apply IH.
  - rewrite (proj2 (Z.eqb_neq y x)) by lia. destruct (Z.lt_total x y) as [H|[H|H]]; [left| |right]; try lia; by apply Z.ltb_lt.
Qed.
#[export] Instance str_le_total : Total str_le.
Proof. intros a b. apply str_leb_total. Qed.

Lemma names_nodup s l h : represents s l h -> NoDup (names l).
Proof.
  intros R. apply NoDup_alt. intros i j n Hi Hj. unfold names in *.
  rewrite list_lookup_fmap in Hi, Hj.
  destruct (l !! i) as [a|] eqn:Ea, (l !! j) as [b|] eqn:Eb; simplify_eq/=.
  assert (mapAttributeNameIndex s !! a_name a = Some (Z.of_nat i)) as E1 by (apply (r_names _ _ _ R); eauto).
  assert (mapAttributeNameIndex s !! a_name a = Some (Z.of_nat j)) as E2 by (apply (r_names _ _ _ R); eauto).
  rewrite E1 in E2. simplify_eq. lia.
Qed.

(** The names come sorted. *)
Lemma getAttributeNames_represents s l h :
  represents s l h -> exists ns, getAttributeNames s = (Ret ns, s) /\ Sorted str_le ns /\ ns ≡ₚ names l.
Proof.
  intros R. eexists. split; [reflexivity|]. split; [apply (Sorted_merge_sort _)|].
  rewrite merge_sort_Permutation. apply NoDup_Permutation.
  - apply NoDup_fst_map_to_list.
  - by eapply names_nodup.
  - intros n. split.
    + intros ([n' i] & -> & Hi%elem_of_map_to_list)%list_elem_of_fmap. simpl.
      apply (r_names _ _ _ R) in Hi as (k & a & _ & Ha & <-). apply list_elem_of_fmap. exists a.
      split; [done|by eapply list_elem_of_lookup_2].
    + intros (a & -> & [k Hk]%list_elem_of_lookup)%list_elem_of_fmap.
      apply list_elem_of_fmap. exists (a_name a, Z.of_nat k). split; [done|].
      apply elem_of_map_to_list, (r_names _ _ _ R). eauto.
Qed.

Section Resize.
Context (junk : Z) (zero_null : bool -> bool).

Definition resizes (a : attr) : bool :=
  match a_type a with TYPE_BYTEARRAY | TYPE_STRING => true | _ => false end.
Definition resize (n : Z) (a : attr) : attr :=
  if resizes a then with_buf (realloc junk zero_null (a_buf a) n) a else a.

Lemma realloc_length b n : 0 <= n -> Z.of_nat (length (default [] (realloc junk zero_null b n))) = n.
Proof.
  intros Hn. unfold realloc. destruct (n =? 0) eqn:E; reflect_bool.
  - subst. by destruct (zero_null _).
  - simpl. rewrite length_app, length_take, length_replicate. lia.
Qed.

Lemma setNewSize_represents s l h k a n :
  represents s l h -> l !! k = Some a -> 0 <= n ->
  exists s', setNewSize junk zero_null (Z.of_nat k) n s =
      (Ret (negb (resizes a) || bool_decide (a_buf (resize n a) <> None)), s') /\
    represents s' (<[k := resize n a]> l) h.
Proof.
  intros R Ha Hn. destruct (handle_at _ _ _ _ _ R Ha) as [p Hp].
  destruct (deref_at _ _ _ _ _ _ R Hp Ha) as (v & E & Hv & Ho).
  unfold setNewSize, setting_at. erewrite ex_bind_ret.
  2:{ ex_step. unfold ex_lift. by rewrite (settings_at _ _ _ _ R), Hp. }
  cbn beta. unfold vs_setNewSize. ex_use E. rewrite (o_type _ _ _ Ho), (o_buf _ _ _ Ho).
  destruct (write_represents _ _ _ _ _ _ (realloc junk zero_null (a_buf a) n) _ R Hp Ha Ho) as (s1 & E1 & R1).
  rewrite realloc_length in E1 by done.
  assert (<[k := a]> l = l) as Hid by by apply list_insert_id.
  unfold resize, resizes. destruct (a_type a); try (exists s; by rewrite Hid).
  all: ex_use E1; by exists s1.
Qed.

End Resize.
