(* ===== verification/SharedCache.v ===== *)
(** * The cache a control unit shares with its commands

    Models [AttributeValueSharedCache] of [chaos/common/data/cache/AttributesSetting.cpp],
    the interface [SharedCacheInterface] its clients see, and the view of it that user code
    gets, [chaos/cu_toolkit/ControlManager/AttributeSharedCacheWrapper].  The interface is
    a class; the cache is an instance whose four sets are services of [Services]. *)

From S2P Require Import Services.
From S2P Require Import Prelude AttributesSetting.

Local Open Scope Z_scope.

Inductive SharedVariableDomain := SVD_INPUT | SVD_OUTPUT | SVD_SYSTEM | SVD_CUSTOM.
#[export] Instance SharedVariableDomain_eq_dec : EqDecision SharedVariableDomain.
Proof. solve_decision. Defined.

(** ** The interface

    [getSharedDomain] gives a reference to a set: it is read with it and written with
    [putSharedDomain]. *)
Class SharedCacheInterface (C : Type) := {
  getSharedDomain : SharedVariableDomain -> C -> AttributesSetting;
  putSharedDomain : SharedVariableDomain -> AttributesSetting -> C -> C;
  get_put_same d s c : getSharedDomain d (putSharedDomain d s c) = s;
  get_put_other d d' s c : d <> d' -> getSharedDomain d (putSharedDomain d' s c) = getSharedDomain d c }.

Section Interface.
Context {C : Type} `{SharedCacheInterface C}.

(** Call a method of a set. *)
Definition on_domain {A} (d : SharedVariableDomain) (m : AM A) : EX C A :=
  ex_zoom (getSharedDomain d) (putSharedDomain d) m.

Definition getChangedVariableIndex (d : SharedVariableDomain) : EX C (list Z) := on_domain d getChangedIndex.
Definition getVariableValue_at (d : SharedVariableDomain) (i : Z) : EX C nat :=
  on_domain d (getValueSettingForIndex i).
Definition getVariableValue (d : SharedVariableDomain) (name : list Z) : EX C nat :=
  i ← on_domain d (getIndexForName name); on_domain d (getValueSettingForIndex i).
Definition setVariableValue (d : SharedVariableDomain) (name value : list Z) (size : Z) : EX C unit :=
  i ← on_domain d (getIndexForName name); on_domain d (setValueForAttribute i value size).
Definition setVariableValue_at (d : SharedVariableDomain) (i : Z) (value : list Z) (size : Z) : EX C unit :=
  on_domain d (setValueForAttribute i value size).
Definition getVariableNames (d : SharedVariableDomain) : EX C (list (list Z)) := on_domain d getAttributeNames.
Definition addVariable (d : SharedVariableDomain) (name : list Z) (max_size : Z) (type : DataType) : EX C unit :=
  on_domain d (addAttribute name max_size type).

(** ** [AttributeSharedCacheWrapper] *)

Definition setOutputDomainAsChanged : EX C unit := on_domain SVD_OUTPUT markAllAsChanged.
Definition setOutputAttributeValue : list Z -> list Z -> Z -> EX C unit := setVariableValue SVD_OUTPUT.
Definition setOutputAttributeValue_at : Z -> list Z -> Z -> EX C unit := setVariableValue_at SVD_OUTPUT.
Definition setOutputAttributeNewSize junk zero_null (name : list Z) (new_size : Z) : EX C bool :=
  on_domain SVD_OUTPUT (i ← getIndexForName name; setNewSize junk zero_null i new_size).
Definition setOutputAttributeNewSize_at junk zero_null (i new_size : Z) : EX C bool :=
  on_domain SVD_OUTPUT (setNewSize junk zero_null i new_size).
Definition getChangedInputAttributeIndex : EX C (list Z) := getChangedVariableIndex SVD_INPUT.
Definition resetChangedInputIndex : EX C unit := on_domain SVD_INPUT resetChangedIndex.
Definition addCustomAttribute : list Z -> Z -> DataType -> EX C unit := addVariable SVD_CUSTOM.
Definition setCustomAttributeValue : list Z -> list Z -> Z -> EX C unit := setVariableValue SVD_CUSTOM.
Definition setCustomAttributeValue_at : Z -> list Z -> Z -> EX C unit := setVariableValue_at SVD_CUSTOM.
Definition setCustomDomainAsChanged : EX C unit := on_domain SVD_CUSTOM markAllAsChanged.

(** The pointers: the address of the value object stands for its buffer. *)
Definition getRWPtr (d : SharedVariableDomain) (name : list Z) : EX C nat :=
  match d with
  | SVD_INPUT | SVD_SYSTEM => ex_lift (Throw (-1))
  | _ => getVariableValue d name
  end.
Definition getROPtr (d : SharedVariableDomain) (name : list Z) : EX C nat := getVariableValue d name.
(** A value of [n] bytes. *)
Definition getValue (n : nat) (d : SharedVariableDomain) (name : list Z) : EX C (list Z) :=
  p ← getVariableValue d name;
  v ← on_domain d (deref p);
  b ← ex_lift (access (value_buffer v));
  ex_lift (access (buf_read b 0 n)).

Lemma on_domain_eq {A} d (m : AM A) c r s :
  m (getSharedDomain d c) = (r, s) -> on_domain d m c = (r, putSharedDomain d s c).
Proof. unfold on_domain, ex_zoom. by intros ->. Qed.

End Interface.

(** ** [AttributeValueSharedCache] *)

Record AttributeValueSharedCache := mkCache {
  input_set : service AttributesSetting;
  output_set : service AttributesSetting;
  system_set : service AttributesSetting;
  custom_set : service AttributesSetting }.

Definition the_set (d : SharedVariableDomain) (c : AttributeValueSharedCache) : service AttributesSetting :=
  match d with
  | SVD_INPUT => input_set c
  | SVD_OUTPUT => output_set c
  | SVD_SYSTEM => system_set c
  | SVD_CUSTOM => custom_set c
  end.
Definition put_set (d : SharedVariableDomain) (s : service AttributesSetting) (c : AttributeValueSharedCache) :
    AttributeValueSharedCache :=
  match d with
  | SVD_INPUT => mkCache s (output_set c) (system_set c) (custom_set c)
  | SVD_OUTPUT => mkCache (input_set c) s (system_set c) (custom_set c)
  | SVD_SYSTEM => mkCache (input_set c) (output_set c) s (custom_set c)
  | SVD_CUSTOM => mkCache (input_set c) (output_set c) (system_set c) s
  end.

Lemma the_set_put d d' s c : the_set d (put_set d' s c) = if decide (d = d') then s else the_set d c.
Proof. by destruct d, d'. Qed.

#[export] Instance AttributeValueSharedCache_interface : SharedCacheInterface AttributeValueSharedCache.
Proof.
  refine {| getSharedDomain d c := priv (the_set d c);
            putSharedDomain d s c := put_set d (with_priv (the_set d c) s) c |}.
  - intros d s c. by rewrite the_set_put, decide_True.
  - intros d d' s c Hd. by rewrite the_set_put, decide_False.
Defined.

Section Life.
(** The numbers of the states of a service. *)
Context (state_id : svc_state -> Z) (IS_DEINTIATED : Z).

Definition set_methods : service_methods AttributesSetting unit := {|
  m_init s := ((init s).2, None);
  m_deinit s := ((deinit s).2, None);
  m_start s := (s, None);
  m_stop s := (s, None) |}.

(** A driver of [InizializableService] on a set. *)
Definition drive (f : option (service AttributesSetting) -> option (service AttributesSetting) * Services.outcome unit)
    (d : SharedVariableDomain) : EX AttributeValueSharedCache unit := fun c =>
  match f (Some (the_set d c)) with
  | (Some s, Services.Ret _) => (Ret tt, put_set d s c)
  | (Some s, _) => (Throw 0, put_set d s c)
  | (None, _) => (Fault, c)
  end.

Definition cache_init : EX AttributeValueSharedCache unit :=
  let f := drive (is_initImplementation state_id set_methods) in
  f SVD_INPUT;; f SVD_OUTPUT;; f SVD_SYSTEM;; f SVD_CUSTOM.
Definition cache_deinit : EX AttributeValueSharedCache unit :=
  let f := drive (is_deinitImplementation state_id set_methods) in
  f SVD_INPUT;; f SVD_OUTPUT;; f SVD_SYSTEM;; f SVD_CUSTOM.

Definition new_AttributeValueSharedCache : AttributeValueSharedCache :=
  let s := new_service new_AttributesSetting IS_DEINTIATED in mkCache s s s s.

End Life.

(** ** What a set promises

    [sim m f l]: on a set that represents the attributes [l], the method [m] does what [f]
    does on [l], and the value objects keep their addresses. *)

Definition sim {A} (m : AM A) (f : EX (list attr) A) (l : list attr) : Prop :=
  forall s h, represents s l h -> exists s', m s = ((f l).1, s') /\
    ((f l).1 <> Fault -> exists h', represents s' (f l).2 (h ++ h')).

(** The operations on the attributes. *)
Definition attr_at (k : nat) : EX (list attr) attr := l ← ex_get; ex_lift (access (l !! k)).
Definition find_name (name : list Z) : EX (list attr) nat :=
  l ← ex_get;
  match list_find (fun a => a_name a = name) l with
  | Some (k, _) => mret k
  | None => ex_lift (Throw (-1))
  end.
Definition put_attr (k : nat) (a : attr) : EX (list attr) unit := ex_modify <[k := a]>.
Definition set_at (k : nat) (value : list Z) (n : Z) : EX (list attr) unit :=
  a ← attr_at k; a ← ex_lift (overwrite value n a); put_attr k (with_changed true a).
Definition resize_at junk zero_null (k : nat) (n : Z) : EX (list attr) bool :=
  a ← attr_at k; put_attr k (resize junk zero_null n a);;
  mret (negb (resizes a) || bool_decide (a_buf (resize junk zero_null n a) <> None)).

Lemma represents_eq s l h : represents s l h -> represents s l (h ++ []).
Proof. by rewrite app_nil_r. Qed.
#[local] Hint Resolve represents_eq : chaos.

Lemma sim_ret {A} (a : A) l : sim (mret a) (mret a) l.
Proof. intros s h R. exists s. split; [done|]. intros _. exists []. by apply represents_eq. Qed.

Lemma sim_bind {A B} (m : AM A) (k : A -> AM B) f g l :
  sim m f l -> (forall a l', f l = (Ret a, l') -> sim (k a) (g a) l') -> sim (m ≫= k) (f ≫= g) l.
Proof.
  intros Hm Hk s h R. destruct (Hm s h R) as (s1 & E1 & R1). unfold mbind, EX_bind. rewrite E1.
  destruct (f l) as [r l1] eqn:Ef. simpl in *. destruct r as [a|e|].
  - destruct R1 as [h1 R1]; [done|]. destruct (Hk a l1 eq_refl s1 _ R1) as (s2 & E2 & R2). exists s2.
    split; [done|]. intros Hne. destruct (R2 Hne) as [h2 R3]. exists (h1 ++ h2). by rewrite app_assoc.
  - eauto.
  - exists s1. done.
Qed.

(** A method that only reads. *)
Lemma sim_read {A} (m : AM A) (f : EX (list attr) A) l :
  (forall s h, represents s l h -> m s = ((f l).1, s)) -> (f l).2 = l -> sim m f l.
Proof. intros Hm Hl s h R. exists s. split; [eauto|]. intros _. exists []. rewrite Hl. by apply represents_eq. Qed.

Lemma find_name_spec name l :
  (name ∉ names l /\ find_name name l = (Throw (-1), l)) \/
  exists k a, l !! k = Some a /\ a_name a = name /\ find_name name l = (Ret k, l) /\
    forall j b, l !! j = Some b -> (j < k)%nat -> a_name b <> name.
Proof.
  unfold find_name. destruct (list_find (fun a => a_name a = name) l) as [[k a]|] eqn:E.
  - right. exists k, a. pose proof E as E'. apply list_find_Some in E as (Hk & Hn & Hf).
    split_and!; try done. ex_step. by rewrite E'.
  - left. split; [|ex_step; by rewrite E]. apply list_find_None in E. rewrite Forall_forall in E.
    intros (a & -> & Ha)%list_elem_of_fmap. by apply (E a).
Qed.

Lemma name_index_unique s l h k a k' a' :
  represents s l h -> l !! k = Some a -> l !! k' = Some a' -> a_name a = a_name a' -> k = k'.
Proof.
  intros R Hk Hk' Hn. eapply (NoDup_lookup (names l)); [by eapply names_nodup| |];
    unfold names; rewrite list_lookup_fmap; [by rewrite Hk|by rewrite Hk', Hn].
Qed.

Lemma sim_index name l : sim (getIndexForName name) (k ← find_name name; mret (Z.of_nat k)) l.
Proof.
  apply sim_read.
  - intros s h R. destruct (getIndexForName_represents s l h name R) as [[Hn E]|(k & a & p & Ha & Hn & Hp & E)];
      destruct (find_name_spec name l) as [[Hn' E']|(k' & a' & Ha' & Hn' & E' & _)]; rewrite E.
    + by rewrite (ex_bind_throw _ _ _ _ _ E').
    + exfalso. apply Hn. subst. apply list_elem_of_fmap. exists a'. split; [done|by eapply list_elem_of_lookup_2].
    + exfalso. apply Hn'. subst. apply list_elem_of_fmap. exists a. split; [done|by eapply list_elem_of_lookup_2].
    + rewrite (ex_bind_ret _ _ _ _ _ E'). simpl.
      assert (k = k') as -> by (eapply name_index_unique; try done; congruence). done.
  - destruct (find_name_spec name l) as [[_ E']|(k' & a' & _ & _ & E' & _)].
    + by rewrite (ex_bind_throw _ _ _ _ _ E').
    + by rewrite (ex_bind_ret _ _ _ _ _ E').
Qed.

Lemma overwrite_no_throw value n a e : overwrite value n a <> Throw e.
Proof. unfold overwrite. by repeat case_decide. Qed.

Lemma no_handle s l h k : represents s l h -> l !! k = None -> h !! k = None.
Proof. intros R H. apply lookup_ge_None. rewrite (r_len _ _ _ R). by apply lookup_ge_None. Qed.

(** [operator[]] on the settings. *)
Lemma setting_at_spec s l h k :
  represents s l h -> setting_at (Z.of_nat k) s = (access (h !! k), s).
Proof. intros R. unfold setting_at. ex_step. unfold ex_lift. by rewrite (settings_at _ _ _ _ R). Qed.

Lemma attr_at_spec k l : attr_at k l = (access (l !! k), l).
Proof. done. Qed.

(** A method that goes through [operator[]]. *)
Lemma sim_at {A} (m : nat -> AM A) (f : attr -> EX (list attr) A) k l :
  (forall s h p a, represents s l h -> h !! k = Some p -> l !! k = Some a ->
     exists s', m p s = ((f a l).1, s') /\ ((f a l).1 <> Fault -> exists h', represents s' (f a l).2 (h ++ h'))) ->
  sim (p ← setting_at (Z.of_nat k); m p) (a ← attr_at k; f a) l.
Proof.
  intros Hm s h R. unfold mbind, EX_bind. rewrite (setting_at_spec _ _ _ _ R), attr_at_spec.
  destruct (l !! k) as [a|] eqn:Ha.
  - destruct (handle_at _ _ _ _ _ R Ha) as [p Hp]. rewrite Hp. by apply Hm.
  - rewrite (no_handle _ _ _ _ R Ha). by exists s.
Qed.

Lemma sim_set k value n l : 0 <= n -> sim (setValueForAttribute (Z.of_nat k) value n) (set_at k value n) l.
Proof.
  intros Hn. apply sim_at. intros s h p a R Hp Ha.
  pose proof (setValue_represents s l h k p a value n true R Hp Ha Hn) as Hs.
  destruct (overwrite value n a) as [a'|e|] eqn:Ho.
  - destruct Hs as (s' & E & R'). ex_use E. exists s'. split; [done|]. intros _. exists []. by apply represents_eq.
  - by apply overwrite_no_throw in Ho.
  - erewrite ex_bind_fault by exact Hs. by exists s.
Qed.

Lemma sim_resize junk zero_null k n l :
  0 <= n -> sim (setNewSize junk zero_null (Z.of_nat k) n) (resize_at junk zero_null k n) l.
Proof.
  intros Hn. apply sim_at. intros s h p a R Hp Ha.
  destruct (setNewSize_represents junk zero_null s l h k a n R Ha Hn) as (s' & E & R').
  exists s'. split; [|intros _; exists []; by apply represents_eq].
  unfold setNewSize in E. erewrite ex_bind_ret in E by (rewrite (setting_at_spec _ _ _ _ R), Hp; reflexivity). done.
Qed.

Lemma sim_add name size type l :
  0 <= size -> Z.of_nat (length l) + 1 < 2 ^ 16 -> sim (addAttribute name size type) (ex_modify (add_attr name size type)) l.
Proof.
  intros Hs Hl s h R. destruct (addAttribute_represents s l h name size type R Hs Hl) as (s' & h' & E & R').
  eauto.
Qed.

Lemma sim_all (b : bool) l : sim (if b then markAllAsChanged else resetChangedIndex) (ex_modify (fmap (with_changed b))) l.
Proof.
  intros s h R. pose proof (all_bits_represents s l h b R) as R'.
  destruct b; (eexists; split; [reflexivity|]); intros _; exists []; by apply represents_eq.
Qed.

(** Looking up a value object by its name and reading it. *)
Definition read_attr (name : list Z) : EX (list attr) (DataType * option (list Z)) :=
  k ← find_name name; a ← attr_at k; mret (a_type a, a_buf a).

Lemma getValueSetting_spec s l h k p :
  represents s l h -> h !! k = Some p -> getValueSettingForIndex (Z.of_nat k) s = (Ret p, s).
Proof. intros R Hp. unfold getValueSettingForIndex. ex_step. by rewrite (settings_at _ _ _ _ R), Hp. Qed.

Lemma getIndex_find s l h name k :
  represents s l h -> find_name name l = (Ret k, l) -> getIndexForName name s = (Ret (Z.of_nat k), s).
Proof.
  intros R E. destruct (sim_index name l s h R) as (s' & E' & _). rewrite (ex_bind_ret _ _ _ _ _ E) in E'.
  destruct (getIndexForName_represents s l h name R) as [[_ E2]|(j & a & p & _ & _ & _ & E2)];
    rewrite E2 in E' |- *; by simplify_eq/=.
Qed.

Lemma sim_read_attr name l :
  sim (i ← getIndexForName name; p ← getValueSettingForIndex i; v ← deref p; mret (vs_type v, value_buffer v))
    (read_attr name) l.
Proof.
  apply sim_read; unfold read_attr.
  - intros s h R. destruct (find_name_spec name l) as [[Hn E]|(k & a & Ha & Hn & E & _)].
    + rewrite (ex_bind_throw _ _ _ _ _ E). apply ex_bind_throw.
      destruct (getIndexForName_represents s l h name R) as [[_ E2]|(j & b & p & Hb & Hb' & _)]; [done|].
      exfalso. apply Hn. subst. apply list_elem_of_fmap. exists b. split; [done|by eapply list_elem_of_lookup_2].
    + destruct (handle_at _ _ _ _ _ R Ha) as [p Hp]. destruct (deref_at _ _ _ _ _ _ R Hp Ha) as (v & Ev & _ & Ho).
      rewrite (ex_bind_ret _ _ _ _ _ (getIndex_find _ _ _ _ _ R E)). cbn beta.
      rewrite (ex_bind_ret _ _ _ _ _ (getValueSetting_spec _ _ _ _ _ R Hp)). cbn beta.
      rewrite (ex_bind_ret _ _ _ _ _ Ev), (ex_bind_ret _ _ _ _ _ E). unfold mbind, EX_bind.
      rewrite attr_at_spec, Ha, (o_type _ _ _ Ho), (o_buf _ _ _ Ho). done.
  - destruct (find_name_spec name l) as [[Hn E]|(k & a & Ha & Hn & E & _)].
    + by rewrite (ex_bind_throw _ _ _ _ _ E).
    + rewrite (ex_bind_ret _ _ _ _ _ E). unfold mbind, EX_bind. by rewrite attr_at_spec, Ha.
Qed.

(** A method that looks up an index by name first. *)
Lemma sim_by_name {X} name (k : Z -> AM X) (g : nat -> EX (list attr) X) l :
  (forall n l, sim (k (Z.of_nat n)) (g n) l) -> sim (getIndexForName name ≫= k) (find_name name ≫= g) l.
Proof.
  intros Hk s h R. destruct (sim_index name l s h R) as (s1 & E1 & R1).
  destruct (find_name_spec name l) as [[_ E]|(k0 & a & _ & _ & E & _)].
  - rewrite (ex_bind_throw _ _ _ _ _ E) in E1, R1. rewrite (ex_bind_throw _ _ _ _ _ E1), (ex_bind_throw _ _ _ _ _ E).
    eauto.
  - rewrite (ex_bind_ret _ _ _ _ _ E) in E1, R1. rewrite (ex_bind_ret _ _ _ _ _ E1), (ex_bind_ret _ _ _ _ _ E).
    destruct R1 as (h1 & R1); [done|]. destruct (Hk k0 l s1 _ R1) as (s2 & E2 & R2). exists s2. split; [done|].
    intros Hne. destruct (R2 Hne) as (h2 & R3). exists (h1 ++ h2). by rewrite app_assoc.
Qed.

#[export] Instance str_le_trans : Transitive str_le.
Proof.
  unfold str_le. intros a. induction a as [|x a IH]; intros [|y b] [|z c]; simpl; try done.
  destruct (x =? y) eqn:E1, (y =? z) eqn:E2; reflect_bool; subst.
  - rewrite Z.eqb_refl. apply IH.
  - rewrite (proj2 (Z.eqb_neq _ _)) by done. done.
  - rewrite (proj2 (Z.eqb_neq x z)) by done. done.
  - intros H1 H2. reflect_bool. rewrite (proj2 (Z.eqb_neq x z)) by lia. apply Z.ltb_lt. lia.
Qed.

#[export] Instance str_le_antisymm : AntiSymm (=) str_le.
Proof.
  unfold str_le. intros a. induction a as [|x a IH]; intros [|y b]; simpl; try done.
  destruct (x =? y) eqn:E; reflect_bool.
  - subst. rewrite Z.eqb_refl. intros H1 H2. f_equal. by apply IH.
  - rewrite (proj2 (Z.eqb_neq y x)) by lia. intros H1 H2. reflect_bool. lia.
Qed.

Lemma sim_names l : sim getAttributeNames (ex_gets (fun l => merge_sort str_le (names l))) l.
Proof.
  apply sim_read; [|done]. intros s h R.
  destruct (getAttributeNames_represents s l h R) as (ns & -> & Hs & Hp). f_equal. simpl. f_equal.
  apply (Sorted_unique str_le); [done|apply (Sorted_merge_sort _)|].
  by rewrite Hp, merge_sort_Permutation.
Qed.

Lemma sim_changed l : sim getChangedIndex (ex_gets (fun l => changed_from 0 (a_changed <$> l))) l.
Proof. apply sim_read; [|done]. intros s h R. by apply (getChangedIndex_represents s l h). Qed.
Lemma sim_has l : sim hasChanged (ex_gets (existsb a_changed)) l.
Proof. apply sim_read; [|done]. intros s h R. by apply (hasChanged_represents s l h). Qed.
Lemma sim_count l : sim getNumberOfAttributes (ex_gets (fun l => Z.of_nat (length l))) l.
Proof. apply sim_read; [|done]. intros s h R. unfold getNumberOfAttributes, ex_gets. by rewrite (r_index _ _ _ R). Qed.

(** ** The four domains *)

Definition astate : Type := SharedVariableDomain -> list attr.
Definition upd {X} (d : SharedVariableDomain) (x : X) (A : SharedVariableDomain -> X) : SharedVariableDomain -> X :=
  fun d' => if decide (d' = d) then x else A d'.
Definition on_attrs {X} (d : SharedVariableDomain) (f : EX (list attr) X) : EX astate X :=
  ex_zoom (fun A => A d) (upd d) f.

Section Domains.
Context {C : Type} `{SharedCacheInterface C}.

(** The cache holds the attributes [A]; [H] are the addresses of the value objects. *)
Definition agree (c : C) (A : astate) (H : SharedVariableDomain -> list nat) : Prop :=
  forall d, represents (getSharedDomain d c) (A d) (H d).
Definition extends (H H' : SharedVariableDomain -> list nat) : Prop := forall d, H d `prefix_of` H' d.

#[export] Instance extends_preorder : PreOrder extends.
Proof. split; [by intros H0 d|]. intros H1 H2 H3 H12 H23 d. exact (transitivity (H12 d) (H23 d)). Qed.

Definition simC {X} (m : EX C X) (f : EX astate X) (A : astate) : Prop :=
  forall c H, agree c A H -> exists c', m c = ((f A).1, c') /\
    ((f A).1 <> Fault -> exists H', agree c' (f A).2 H' /\ extends H H').

Lemma on_domain_simC {X} d (m : AM X) f A : sim m f (A d) -> simC (on_domain d m) (on_attrs d f) A.
Proof.
  intros Hm c H0 Ha. destruct (Hm _ _ (Ha d)) as (s' & E & R). exists (putSharedDomain d s' c).
  unfold on_attrs, ex_zoom. destruct (f (A d)) as [r l'] eqn:Ef. simpl in *.
  split; [by apply on_domain_eq|]. intros Hr. destruct (R Hr) as [h' R']. exists (upd d (H0 d ++ h') H0). split.
  - intros d'. unfold upd. destruct (decide (d' = d)) as [->|Hne].
    + by rewrite get_put_same.
    + by rewrite get_put_other.
  - intros d'. unfold upd. destruct (decide (d' = d)) as [->|Hne]; [by apply prefix_app_r|done].
Qed.

Lemma simC_bind {X Y} (m : EX C X) (k : X -> EX C Y) f g A :
  simC m f A -> (forall x A', f A = (Ret x, A') -> simC (k x) (g x) A') -> simC (m ≫= k) (f ≫= g) A.
Proof.
  intros Hm Hk c H0 Ha. destruct (Hm c H0 Ha) as (c1 & E1 & R1). unfold mbind, EX_bind. rewrite E1.
  destruct (f A) as [r A1] eqn:Ef. simpl in *. destruct r as [x|e|].
  - destruct R1 as (H1 & Ha1 & He1); [done|]. destruct (Hk x A1 eq_refl c1 H1 Ha1) as (c2 & E2 & R2). exists c2.
    split; [done|]. intros Hne. destruct (R2 Hne) as (H2 & Ha2 & He2). exists H2. split; [done|by etrans].
  - eauto.
  - by exists c1.
Qed.

Lemma simC_ret {X} (x : X) A : simC (mret x) (mret x) A.
Proof. intros c H0 Ha. exists c. split; [done|]. intros _. by exists H0. Qed.

(** A method that looks up an index by name first. *)
Lemma simC_index {X} d name (k : Z -> EX C X) (g : nat -> EX astate X) A :
  (forall n A, simC (k (Z.of_nat n)) (g n) A) ->
  simC (on_domain d (getIndexForName name) ≫= k) (on_attrs d (find_name name) ≫= g) A.
Proof.
  intros Hk c H0 Ha.
  destruct (on_domain_simC d _ _ A (sim_index name (A d)) c H0 Ha) as (c1 & E1 & R1).
  unfold on_attrs, ex_zoom in E1, R1 |- *.
  destruct (find_name_spec name (A d)) as [[_ E]|(k0 & a & _ & _ & E & _)].
  - rewrite (ex_bind_throw _ _ _ _ _ E) in E1, R1. rewrite (ex_bind_throw _ _ _ _ _ E1).
    erewrite ex_bind_throw by by rewrite E. eauto.
  - rewrite (ex_bind_ret _ _ _ _ _ E) in E1, R1. rewrite (ex_bind_ret _ _ _ _ _ E1).
    erewrite ex_bind_ret by by rewrite E. destruct R1 as (H1 & Ha1 & He1); [done|].
    destruct (Hk k0 _ c1 H1 Ha1) as (c2 & E2 & R2). exists c2. split; [done|].
    intros Hne. destruct (R2 Hne) as (H2 & Ha2 & He2). exists H2. split; [done|by etrans].
Qed.

(** Reading leaves the sets as they are. *)
Definition same_sets (c c' : C) : Prop := forall d, getSharedDomain d c' = getSharedDomain d c.

Lemma agree_same c c' A H0 : agree c A H0 -> same_sets c c' -> agree c' A H0.
Proof. intros Ha Hs d. by rewrite Hs. Qed.

Lemma on_domain_read {X} d (m : AM X) c r :
  m (getSharedDomain d c) = (r, getSharedDomain d c) -> exists c', on_domain d m c = (r, c') /\ same_sets c c'.
Proof.
  intros E. eexists. split; [by apply on_domain_eq|]. intros d'. destruct (decide (d' = d)) as [->|Hne].
  - by rewrite get_put_same.
  - by rewrite get_put_other.
Qed.

(** [getVariableValue] gives the address of the value object. *)
Lemma getVariableValue_spec d name A c H0 :
  agree c A H0 ->
  (name ∉ names (A d) /\ exists c', getVariableValue d name c = (Throw (-1), c') /\ same_sets c c') \/
  exists k a p c', A d !! k = Some a /\ a_name a = name /\ H0 d !! k = Some p /\
    find_name name (A d) = (Ret k, A d) /\ getVariableValue d name c = (Ret p, c') /\ same_sets c c'.
Proof.
  intros Ha. pose proof (Ha d) as R. unfold getVariableValue.
  destruct (find_name_spec name (A d)) as [[Hn E]|(k & a & Hk & Hn & E & _)].
  - left. split; [done|].
    destruct (getIndexForName_represents _ _ _ name R) as [[_ E2]|(j & b & p & Hb & Hb' & _)].
    + destruct (on_domain_read _ _ _ _ E2) as (c' & E' & Hs). exists c'. by rewrite (ex_bind_throw _ _ _ _ _ E').
    + exfalso. apply Hn. subst. apply list_elem_of_fmap. exists b. split; [done|by eapply list_elem_of_lookup_2].
  - right. destruct (handle_at _ _ _ _ _ R Hk) as [p Hp].
    destruct (on_domain_read _ _ _ _ (getIndex_find _ _ _ _ _ R E)) as (c1 & E1 & Hs1).
    pose proof (getValueSetting_spec _ _ _ _ _ R Hp) as Eg. rewrite <- (Hs1 d) in Eg.
    destruct (on_domain_read _ _ _ _ Eg) as (c2 & E2 & Hs2).
    exists k, a, p, c2. split_and!; try done.
    + by rewrite (ex_bind_ret _ _ _ _ _ E1).
    + intros d'. by rewrite Hs2, Hs1.
Qed.

Lemma deref_spec d A c H0 k p a :
  agree c A H0 -> H0 d !! k = Some p -> A d !! k = Some a ->
  exists v c', on_domain d (deref p) c = (Ret v, c') /\ same_sets c c' /\ vs_of k a v.
Proof.
  intros Ha Hp Hk. destruct (deref_at _ _ _ _ _ _ (Ha d) Hp Hk) as (v & E & _ & Ho).
  destruct (on_domain_read _ _ _ _ E) as (c' & E' & Hs). by exists v, c'.
Qed.

End Domains.

(** ** Histories *)

Inductive cop :=
  | CInit | CDeinit
  | CAdd (d : SharedVariableDomain) (name : list Z) (size : Z) (type : DataType)
  | CSet (d : SharedVariableDomain) (name value : list Z) (n : Z)
  | CSetAt (d : SharedVariableDomain) (i : nat) (value : list Z) (n : Z)
  | CNewSize (name : list Z) (n : Z)
  | CNewSizeAt (i : nat) (n : Z)
  | CMark (d : SharedVariableDomain) (b : bool)
  | CGet (d : SharedVariableDomain) (name : list Z)
  | CChanged (d : SharedVariableDomain)
  | CHasChanged (d : SharedVariableDomain)
  | CNames (d : SharedVariableDomain)
  | CCount (d : SharedVariableDomain).

#[export] Instance cop_eq_dec : EqDecision cop.
Proof. solve_decision. Defined.

Inductive cres :=
  | RUnit | RBool (b : bool) | RNum (n : Z) | RIndexes (l : list Z) | RNames (l : list (list Z))
  | RValue (type : DataType) (b : option (list Z)).

Section History.
Context (junk : Z) (zero_null : bool -> bool) (state_id : svc_state -> Z) (IS_DEINTIATED : Z).

(** Looking up a value object and reading it. *)
Definition read_value (d : SharedVariableDomain) (name : list Z) : EX AttributeValueSharedCache (DataType * option (list Z)) :=
  p ← getVariableValue d name; v ← on_domain d (deref p); mret (vs_type v, value_buffer v).

Definition call (o : cop) : EX AttributeValueSharedCache cres :=
  match o with
  | CInit => cache_init state_id;; mret RUnit
  | CDeinit => cache_deinit state_id;; mret RUnit
  | CAdd d name size type => addVariable d name size type;; mret RUnit
  | CSet d name value n => setVariableValue d name value n;; mret RUnit
  | CSetAt d i value n => setVariableValue_at d (Z.of_nat i) value n;; mret RUnit
  | CNewSize name n => b ← setOutputAttributeNewSize junk zero_null name n; mret (RBool b)
  | CNewSizeAt i n => b ← setOutputAttributeNewSize_at junk zero_null (Z.of_nat i) n; mret (RBool b)
  | CMark d b => on_domain d (if b then markAllAsChanged else resetChangedIndex);; mret RUnit
  | CGet d name => '(t, b) ← read_value d name; mret (RValue t b)
  | CChanged d => l ← getChangedVariableIndex d; mret (RIndexes l)
  | CHasChanged d => b ← on_domain d hasChanged; mret (RBool b)
  | CNames d => l ← getVariableNames d; mret (RNames l)
  | CCount d => n ← on_domain d getNumberOfAttributes; mret (RNum n)
  end.

(** The abstract cache: which sets are initialised, and the attributes. *)
Definition cstate : Type := (SharedVariableDomain -> bool) * astate.

Definition a_init (d : SharedVariableDomain) : EX cstate unit := fun '(F, A) =>
  if F d : bool then (Throw 0, (upd d false F, A)) else (Ret tt, (upd d true F, A)).
Definition a_deinit (d : SharedVariableDomain) : EX cstate unit := fun '(F, A) =>
  if F d : bool then (Ret tt, (upd d false F, upd d [] A)) else (Throw 0, (F, A)).

Definition acall_attrs (o : cop) : EX astate cres :=
  match o with
  | CInit | CDeinit => mret RUnit
  | CAdd d name size type => on_attrs d (ex_modify (add_attr name size type));; mret RUnit
  | CSet d name value n => (k ← on_attrs d (find_name name); on_attrs d (set_at k value n));; mret RUnit
  | CSetAt d i value n => on_attrs d (set_at i value n);; mret RUnit
  | CNewSize name n => b ← on_attrs SVD_OUTPUT (k ← find_name name; resize_at junk zero_null k n); mret (RBool b)
  | CNewSizeAt i n => b ← on_attrs SVD_OUTPUT (resize_at junk zero_null i n); mret (RBool b)
  | CMark d b => on_attrs d (ex_modify (fmap (with_changed b)));; mret RUnit
  | CGet d name => '(t, b) ← on_attrs d (read_attr name); mret (RValue t b)
  | CChanged d => l ← on_attrs d (ex_gets (fun l => changed_from 0 (a_changed <$> l))); mret (RIndexes l)
  | CHasChanged d => b ← on_attrs d (ex_gets (existsb a_changed)); mret (RBool b)
  | CNames d => l ← on_attrs d (ex_gets (fun l => merge_sort str_le (names l))); mret (RNames l)
  | CCount d => n ← on_attrs d (ex_gets (fun l => Z.of_nat (length l))); mret (RNum n)
  end.

Definition acall (o : cop) : EX cstate cres :=
  match o with
  | CInit => (a_init SVD_INPUT;; a_init SVD_OUTPUT;; a_init SVD_SYSTEM;; a_init SVD_CUSTOM);; mret RUnit
  | CDeinit => (a_deinit SVD_INPUT;; a_deinit SVD_OUTPUT;; a_deinit SVD_SYSTEM;; a_deinit SVD_CUSTOM);; mret RUnit
  | o => ex_zoom snd (fun A S => (S.1, A)) (acall_attrs o)
  end.

(** The calls of a history in order; a call that throws is caught by its caller. *)
Fixpoint run {S} (f : cop -> EX S cres) (ops : list cop) (s : S) : list (outcome cres) * S :=
  match ops with
  | [] => ([], s)
  | o :: ops =>
      let '(r, s1) := f o s in
      match r with
      | Fault => ([Fault], s1)
      | _ => let '(rs, s2) := run f ops s1 in (r :: rs, s2)
      end
  end.

(** Sizes are unsigned. *)
Definition cop_ok (o : cop) : Prop :=
  match o with
  | CAdd _ _ n _ | CSet _ _ _ n | CSetAt _ _ _ n | CNewSize _ n | CNewSizeAt _ n => 0 <= n
  | _ => True
  end.

Lemma read_value_simC d name A : simC (read_value d name) (on_attrs d (read_attr name)) A.
Proof.
  intros c H0 Ha. unfold read_value, on_attrs, ex_zoom.
  assert (forall c', same_sets c c' -> agree c' (upd d (A d) A) H0) as Hsame.
  { intros c' Hs d'. unfold upd. destruct (decide (d' = d)) as [->|]; by eapply agree_same. }
  destruct (getVariableValue_spec d name A c H0 Ha) as [(Hn & c1 & E1 & Hs)|(k & a & p & c1 & Hk & Hn & Hp & Ef & E1 & Hs)].
  - rewrite (ex_bind_throw _ _ _ _ _ E1). destruct (find_name_spec name (A d)) as [[_ E]|(k & a & Hk & <- & _)].
    + unfold read_attr. rewrite (ex_bind_throw _ _ _ _ _ E). exists c1. split; [done|]. intros _. exists H0. by split; [apply Hsame|].
    + exfalso. apply Hn, list_elem_of_fmap. exists a. split; [done|by eapply list_elem_of_lookup_2].
  - rewrite (ex_bind_ret _ _ _ _ _ E1). pose proof (agree_same _ _ _ _ Ha Hs) as Ha1.
    destruct (deref_spec d A c1 H0 k p a Ha1 Hp Hk) as (v & c2 & E2 & Hs2 & Ho).
    rewrite (ex_bind_ret _ _ _ _ _ E2). unfold read_attr. rewrite (ex_bind_ret _ _ _ _ _ Ef).
    unfold mbind, EX_bind. rewrite attr_at_spec, Hk. exists c2. simpl.
    rewrite (o_type _ _ _ Ho), (o_buf _ _ _ Ho). split; [done|]. intros _. exists H0. split; [|done].
    apply Hsame. intros d'. by rewrite Hs2, Hs.
Qed.

(** Every call on the attributes. *)
Lemma call_simC o A :
  o <> CInit -> o <> CDeinit -> cop_ok o -> (forall d, Z.of_nat (length (A d)) + 1 < 2 ^ 16) ->
  simC (call o) (acall_attrs o) A.
Proof.
  intros H1 H2 Hok Hl. destruct o; try done; cbn [call acall_attrs]; simpl in Hok;
    (apply simC_bind; [|intros; repeat case_match; apply simC_ret]); try apply on_domain_simC.
  - by apply sim_add.
  - apply simC_index. intros k A'. by apply on_domain_simC, sim_set.
  - by apply sim_set.
  - apply sim_by_name. intros k l. by apply sim_resize.
  - by apply sim_resize.
  - apply sim_all.
  - apply read_value_simC.
  - apply sim_changed.
  - apply sim_has.
  - apply sim_names.
  - apply sim_count.
Qed.

(** *** The life cycle of the sets *)

Definition machine_of (b : bool) : svc_state := if b then Initialized else Deinitilized.

Definition agrees (c : AttributeValueSharedCache) (S : cstate) (H : SharedVariableDomain -> list nat) : Prop :=
  agree c S.2 H /\ forall d, base_machine (the_set d c) = machine_of (S.1 d).

Definition simF (keep : bool) {X} (m : EX AttributeValueSharedCache X) (f : EX cstate X) (S : cstate) : Prop :=
  forall c H, agrees c S H -> exists c', m c = ((f S).1, c') /\
    ((f S).1 <> Fault -> exists H', agrees c' (f S).2 H' /\ (keep = true -> extends H H')).

Lemma simF_bind keep {X Y} (m : EX AttributeValueSharedCache X) (k : X -> EX _ Y) f g S :
  simF keep m f S -> (forall x S', simF keep (k x) (g x) S') -> simF keep (m ≫= k) (f ≫= g) S.
Proof.
  intros Hm Hk c H0 Ha. destruct (Hm c H0 Ha) as (c1 & E1 & R1). unfold mbind, EX_bind. rewrite E1.
  destruct (f S) as [r S1]. simpl in *. destruct r as [x|e|]; [|by eauto|by exists c1].
  destruct R1 as (H1 & Ha1 & He1); [done|]. destruct (Hk x S1 c1 H1 Ha1) as (c2 & E2 & R2). exists c2.
  split; [done|]. intros Hne. destruct (R2 Hne) as (H2 & Ha2 & He2). exists H2. split; [done|].
  intros Hkeep. etrans; eauto.
Qed.

Lemma simF_ret keep {X} (x : X) S : simF keep (mret x) (mret x) S.
Proof. intros c H Ha. exists c. split; [done|]. intros _. by exists H. Qed.

Lemma agrees_put c F A H d s F' A' H' :
  agrees c (F, A) H -> base_machine s = machine_of (F' d) -> represents (priv s) (A' d) (H' d) ->
  (forall d', d' <> d -> F' d' = F d' /\ A' d' = A d' /\ H' d' = H d') -> agrees (put_set d s c) (F', A') H'.
Proof.
  intros [Ha Hb] Hs R Ho. split; intros d'; cbn [fst snd]; [change (getSharedDomain d' (put_set d s c)) with (priv (the_set d' (put_set d s c)))|];
    rewrite the_set_put; destruct (decide (d' = d)) as [->|Hne]; try done; destruct (Ho d' Hne) as (E1 & E2 & E3).
  - rewrite E2, E3. apply Ha.
  - rewrite E1. apply Hb.
Qed.

Lemma upd_eq {X} d (x : X) f : upd d x f d = x.
Proof. unfold upd. by rewrite decide_True. Qed.
Lemma upd_ne {X} d d' (x : X) f : d' <> d -> upd d x f d' = f d'.
Proof. intros Hd. unfold upd. by rewrite decide_False. Qed.

Lemma init_simF d S : simF true (drive (is_initImplementation state_id set_methods) d) (a_init d) S.
Proof.
  destruct S as [F A]. intros c H Ha. pose proof Ha as [Hr Hb]. unfold drive, is_initImplementation, is_event.
  rewrite Hb. simpl. destruct (F d) eqn:EF; (eexists; split; [reflexivity|]); intros _; exists H; (split; [|done]);
    (eapply agrees_put; [exact Ha|by rewrite upd_eq|apply Hr|intros d' Hd; by rewrite upd_ne]).
Qed.

Lemma deinit_simF d S : simF false (drive (is_deinitImplementation state_id set_methods) d) (a_deinit d) S.
Proof.
  destruct S as [F A]. intros c H Ha. pose proof Ha as [Hr Hb]. unfold drive, is_deinitImplementation, is_event.
  rewrite Hb. simpl. destruct (F d) eqn:EF; (eexists; split; [reflexivity|]); intros _.
  - exists (upd d [] H). split; [|done].
    eapply agrees_put; [exact Ha|by rewrite upd_eq| |intros d' Hd; by rewrite !upd_ne].
    rewrite !upd_eq. destruct (deinit_represents _ _ _ (Hr d)) as (s' & E & R). unfold deinit, ex_modify in E. injection E as <-. exact R.
  - exists H. split; [|done]. eapply agrees_put; [exact Ha|by rewrite EF|apply Hr|done].
Qed.

(** The other calls leave the machines alone. *)
Definition keeps_machines {X} (m : EX AttributeValueSharedCache X) : Prop :=
  forall c d, base_machine (the_set d (m c).2) = base_machine (the_set d c).

Lemma keeps_domain {X} d (m : AM X) : keeps_machines (on_domain d m).
Proof.
  intros c d'. unfold on_domain, ex_zoom. destruct (m _) as [r s]. cbn [snd].
  change (putSharedDomain d s c) with (put_set d (with_priv (the_set d c) s) c).
  rewrite the_set_put. by destruct (decide (d' = d)) as [->|Hne].
Qed.
Lemma keeps_bind {X Y} (m : EX AttributeValueSharedCache X) (k : X -> EX _ Y) :
  keeps_machines m -> (forall x, keeps_machines (k x)) -> keeps_machines (m ≫= k).
Proof.
  intros Hm Hk c d. unfold mbind, EX_bind. rewrite <- (Hm c d). destruct (m c) as [[x|e|] c1]; [|done|done].
  apply Hk.
Qed.
Lemma keeps_ret {X} (x : X) : keeps_machines (mret x).
Proof. by intros c d. Qed.

Lemma keeps_call o : o <> CInit -> o <> CDeinit -> keeps_machines (call o).
Proof.
  intros H1 H2. destruct o; try done; cbn [call];
    repeat (first [apply keeps_bind|apply keeps_domain|apply keeps_ret|intros; repeat case_match]).
Qed.

(** A call that does not destroy value objects. *)
Definition keeps (o : cop) : bool := match o with CDeinit => false | _ => true end.

Lemma call_simF o S :
  cop_ok o -> (forall d, Z.of_nat (length (S.2 d)) + 1 < 2 ^ 16) -> simF (keeps o) (call o) (acall o) S.
Proof.
  intros Hok Hl.
  assert (o = CInit \/ o = CDeinit \/ (o <> CInit /\ o <> CDeinit)) as [->|[->|[H1 H2]]] by (destruct o; auto; right; right; done).
  - cbn [call acall]. unfold cache_init. repeat first [apply init_simF|apply simF_ret|apply simF_bind; [|intros]].
  - cbn [call acall]. unfold cache_deinit. repeat first [apply deinit_simF|apply simF_ret|apply simF_bind; [|intros]].
  - destruct S as [F A]. intros c H [Ha Hb]. destruct (call_simC o A H1 H2 Hok Hl c H Ha) as (c' & E & R).
    assert (acall o (F, A) = ((acall_attrs o A).1, (F, (acall_attrs o A).2))) as ->.
    { destruct o; try done; cbn [acall]; unfold ex_zoom; cbn [snd fst]; by destruct (acall_attrs _ A). }
    exists c'. split; [done|]. intros Hne. destruct (R Hne) as (H' & Ha' & He). exists H'. split; [|done].
    split; [done|]. intros d. cbn [fst]. pose proof (keeps_call o H1 H2 c d) as Hk. by rewrite E, Hb in Hk.
Qed.

(** The number of attributes grows by at most one per call. *)
Definition grows {T X} (f : T -> nat) (n : nat) (m : EX T X) : Prop := forall t, (f (m t).2 <= n + f t)%nat.

Lemma grows_bind {T X Y} (f : T -> nat) a b (m : EX T X) (k : X -> EX T Y) :
  grows f a m -> (forall x, grows f b (k x)) -> grows f (a + b) (m ≫= k).
Proof.
  intros Hm Hk t. specialize (Hm t). unfold mbind, EX_bind. destruct (m t) as [[x|e|] t1]; simpl in *; [|lia|lia].
  specialize (Hk x t1). lia.
Qed.
Lemma grows_bind0 {T X Y} (f : T -> nat) n (m : EX T X) (k : X -> EX T Y) :
  grows f n m -> (forall x, grows f 0 (k x)) -> grows f n (m ≫= k).
Proof. intros Hm Hk. rewrite <- (Nat.add_0_r n). by apply grows_bind. Qed.
Lemma grows_same {T X} (f : T -> nat) (m : EX T X) : (forall t, f (m t).2 = f t) -> grows f 0 m.
Proof. intros E t. by rewrite E. Qed.

Lemma grows_mono {T X} (f : T -> nat) a b (m : EX T X) : (a <= b)%nat -> grows f a m -> grows f b m.
Proof. intros Hab Hm t. specialize (Hm t). lia. Qed.

Lemma grows_attrs {X} d d' n (f : EX (list attr) X) : grows length n f -> grows (fun A : astate => length (A d')) n (on_attrs d f).
Proof.
  intros Hf A. specialize (Hf (A d)). unfold on_attrs, ex_zoom. destruct (f (A d)) as [r l]. simpl in *.
  unfold upd. destruct (decide (d' = d)) as [->|]; lia.
Qed.

Lemma grows_find name : grows length 0 (find_name name).
Proof. apply grows_same. intros l. unfold find_name. ex_step. by destruct (list_find _ l) as [[]|]. Qed.
Lemma grows_set k value n : grows length 0 (set_at k value n).
Proof.
  repeat apply grows_bind0; intros; try apply grows_bind0; intros; apply grows_same; intros l; try done.
  apply length_insert.
Qed.
Lemma grows_resize k n : grows length 0 (resize_at junk zero_null k n).
Proof.
  repeat apply grows_bind0; intros; try apply grows_bind0; intros; apply grows_same; intros l; try done.
  apply length_insert.
Qed.
Lemma grows_add name size type : grows length 1 (ex_modify (add_attr name size type)).
Proof. intros l. simpl. unfold add_attr. case_decide; rewrite ?length_app; simpl; lia. Qed.

Lemma acall_grows o d : grows (fun T : cstate => length (T.2 d)) 1 (acall o).
Proof.
  assert (forall d', grows (fun T : cstate => length (T.2 d)) 0 (a_init d')) as Hi.
  { intros d' [F A]. simpl. destruct (F d'); simpl; lia. }
  assert (forall d', grows (fun T : cstate => length (T.2 d)) 0 (a_deinit d')) as Hd.
  { intros d' [F A]. simpl. destruct (F d'); simpl; [|lia]. unfold upd. case_decide; simpl; lia. }
  assert (forall o, o <> CInit -> o <> CDeinit -> grows (fun A : astate => length (A d)) 1 (acall_attrs o)) as Ha.
  { intros o' H1 H2.
    destruct o'; try done; cbn [acall_attrs]; apply grows_bind0; intros; try case_match;
      try (apply grows_same; intros; done);
      first [apply grows_attrs|apply (grows_mono _ 0); [lia|apply grows_bind0; intros; apply grows_attrs]];
      first [apply grows_add|apply (grows_mono _ 0); [lia|]]; try apply grows_find; try apply grows_set.
    - apply grows_bind0; [apply grows_find|intros; apply grows_resize].
    - apply grows_resize.
    - apply grows_same. intros l. apply length_fmap.
    - apply grows_bind0; [apply grows_find|intros; apply grows_bind0; [by intros l|by intros; intros l]].
    - by intros l.
    - by intros l.
    - by intros l.
    - by intros l. }
  destruct o.
  1,2: apply (grows_mono _ 0); [lia|]; repeat first [apply Hi|apply Hd|by intros []|apply grows_bind0; [|intros]].
  all: intros [F A]; cbn [acall]; unfold ex_zoom; cbn [snd fst];
    match goal with |- context [acall_attrs ?o A] => specialize (Ha o ltac:(done) ltac:(done) A); destruct (acall_attrs o A) end; done.
Qed.

(** *** Whole histories *)

Lemma run_simF ops : forall c S H,
  agrees c S H -> Forall cop_ok ops -> (forall d, Z.of_nat (length (S.2 d) + length ops) < 2 ^ 16) ->
  (run call ops c).1 = (run acall ops S).1 /\
  (Fault ∉ (run call ops c).1 -> exists H', agrees (run call ops c).2 (run acall ops S).2 H' /\
    (forallb keeps ops = true -> extends H H')).
Proof.
  induction ops as [|o ops IH]; intros c S H Ha Hok Hl.
  { split; [done|]. intros _. by exists H. }
  apply Forall_cons in Hok as [Ho Hok]. cbn [length] in Hl.
  destruct (call_simF o S Ho) with (c := c) (H := H) as (c1 & E & R); [intros d; specialize (Hl d); unfold cstate, astate in *; lia|done|].
  assert (forall d, Z.of_nat (length ((acall o S).2.2 d) + length ops) < 2 ^ 16) as Hl'.
  { intros d. pose proof (acall_grows o d S) as Hg. specialize (Hl d). simpl in Hg. lia. }
  cbn [run]. rewrite E. destruct (acall o S) as [r S1]. cbn [fst snd] in *.
  destruct r as [x|e|]; [| |split; [done|]; intros Hf; exfalso; apply Hf; constructor].
  all: destruct R as (H1 & Ha1 & He1); [done|]; destruct (IH c1 S1 H1 Ha1 Hok Hl') as [E2 R2];
    destruct (run call ops c1) as [rs c2], (run acall ops S1) as [rs' S2]; cbn [fst snd] in *; subst rs';
    (split; [done|]); intros Hf; (destruct R2 as (H2 & Ha2 & He2); [set_solver|]); exists H2; (split; [done|]);
    simpl; intros [Hk1 Hk2]%andb_prop; etrans; eauto.
Qed.

Definition fresh_cstate : cstate := (fun _ => false, fun _ => []).

Lemma fresh_agrees : agrees (new_AttributeValueSharedCache IS_DEINTIATED) fresh_cstate (fun _ => []).
Proof. split; intros d; destruct d; try done; apply new_represents. Qed.

(** The names of the attributes, in order, are kept. *)
Definition names_kept (A A' : astate) : Prop := forall d, names (A d) `prefix_of` names (A' d).

Lemma names_insert k a a' l : l !! k = Some a -> a_name a' = a_name a -> names (<[k := a']> l) = names l.
Proof.
  intros Hk Hn. unfold names. rewrite list_fmap_insert, Hn. apply list_insert_id. by rewrite list_lookup_fmap, Hk.
Qed.

Lemma set_at_names k value n l : names (set_at k value n l).2 = names l.
Proof.
  unfold set_at, mbind, EX_bind. rewrite attr_at_spec. destruct (l !! k) as [a|] eqn:Ha; [|done]. simpl.
  destruct (overwrite value n a) as [a'|e|] eqn:Ho; try done. eapply names_insert; [done|]. simpl.
  unfold overwrite in Ho. repeat case_decide; by simplify_eq.
Qed.
Lemma resize_at_names k n l : names (resize_at junk zero_null k n l).2 = names l.
Proof.
  unfold resize_at, mbind, EX_bind. rewrite attr_at_spec. destruct (l !! k) as [a|] eqn:Ha; [|done]. simpl.
  eapply names_insert; [done|]. unfold resize. by destruct (resizes a).
Qed.
Lemma find_name_state name l : (find_name name l).2 = l.
Proof. by destruct (find_name_spec name l) as [[_ ->]|(k & a & _ & _ & -> & _)]. Qed.

Lemma on_attrs_names {X} d (f : EX (list attr) X) A :
  names (A d) `prefix_of` names (f (A d)).2 -> names_kept A (on_attrs d f A).2.
Proof.
  intros Hf d'. unfold on_attrs, ex_zoom, upd. destruct (f (A d)). simpl in *. by case_decide; subst.
Qed.

Lemma bind_state {T X Y} (R : T -> T -> Prop) (m : EX T X) (k : X -> EX T Y) t :
  Transitive R -> R t (m t).2 -> (forall x t, R t (k x t).2) -> R t ((m ≫= k) t).2.
Proof.
  intros HR Hm Hk. unfold mbind, EX_bind. destruct (m t) as [[x|e|] t1]; simpl in *; [|done|done].
  etrans; [exact Hm|apply Hk].
Qed.

#[local] Instance names_kept_trans : Transitive names_kept.
Proof. intros A B C HAB HBC d. exact (transitivity (HAB d) (HBC d)). Qed.
#[local] Instance names_kept_refl : Reflexive names_kept.
Proof. by intros A d. Qed.

Lemma acall_attrs_names o A : o <> CInit -> o <> CDeinit -> names_kept A (acall_attrs o A).2.
Proof.
  assert (forall k n l, names l `prefix_of` names (resize_at junk zero_null k n l).2) as Hrs
    by (intros; by rewrite resize_at_names).
  intros H1 H2. destruct o; try done; cbn [acall_attrs]; (apply bind_state; [apply _| |intros; by repeat case_match]).
  - apply on_attrs_names. simpl. unfold add_attr. case_decide; [done|]. unfold names. rewrite fmap_app. by apply prefix_app_r.
  - apply bind_state; [apply _| |intros k A'].
    + apply on_attrs_names. by rewrite find_name_state.
    + apply on_attrs_names. by rewrite set_at_names.
  - apply on_attrs_names. by rewrite set_at_names.
  - apply on_attrs_names. unfold mbind, EX_bind. pose proof (find_name_state name (A SVD_OUTPUT)) as E.
    destruct (find_name name (A SVD_OUTPUT)) as [[k|e|] l]; simpl in *; subst; [apply Hrs|done|done].
  - apply on_attrs_names, Hrs.
  - apply on_attrs_names. simpl. unfold names. rewrite <- list_fmap_compose. done.
  - apply on_attrs_names. destruct (find_name_spec name (A d)) as [[_ E]|(k & a & Hk & _ & E & _)]; unfold read_attr.
    + by rewrite (ex_bind_throw _ _ _ _ _ E).
    + rewrite (ex_bind_ret _ _ _ _ _ E). unfold mbind, EX_bind. by rewrite attr_at_spec, Hk.
  - by apply on_attrs_names.
  - by apply on_attrs_names.
  - by apply on_attrs_names.
  - by apply on_attrs_names.
Qed.

Lemma acall_names o T : keeps o = true -> names_kept T.2 (acall o T).2.2.
Proof.
  intros Hk. destruct (decide (o = CInit)) as [->|Hi].
  - pose (R := fun T T' : cstate => names_kept T.2 T'.2).
    assert (Transitive R) by (intros T1 T2 T3 H1 H2; unfold R in *; by etrans).
    assert (forall d T, R T (a_init d T).2) as Ha by (intros d [F A]; unfold R; simpl; by destruct (F d)).
    change (R T (acall CInit T).2). cbn [acall].
    repeat first [apply Ha|apply bind_state; [done| |intros _ ?]]. unfold R. done.
  - destruct T as [F A]. pose proof (acall_attrs_names o A Hi) as Hn.
    destruct o; try done; cbn [acall]; unfold ex_zoom; cbn [snd fst]; specialize (Hn ltac:(done));
      by destruct (acall_attrs _ A).
Qed.

Lemma run_names ops : forall T, forallb keeps ops = true -> names_kept T.2 (run acall ops T).2.2.
Proof.
  induction ops as [|o ops IH]; intros T Hk; [done|]. simpl in Hk. apply andb_prop in Hk as [Hk Hks].
  pose proof (acall_names o T Hk) as Hn. cbn [run]. destruct (acall o T) as [r T1]. cbn [snd] in Hn.
  specialize (IH T1 Hks). destruct r; try done; destruct (run acall ops T1); cbn [snd] in *; by etrans.
Qed.

Lemma run_grows ops d : forall T, (length ((run acall ops T).2.2 d) <= length ops + length (T.2 d))%nat.
Proof.
  induction ops as [|o ops IH]; intros T; [done|]. pose proof (acall_grows o d T) as Hg. cbn [run length].
  destruct (acall o T) as [r T1]. cbn [snd] in Hg. specialize (IH T1).
  destruct r; try (destruct (run acall ops T1); cbn [snd] in * ); cbn [snd]; lia.
Qed.

(** [C11] The cache is four lists of attributes: whatever sequence of calls is made on a fresh
    cache, life cycle calls and calls that throw included, every result is the one the
    lists of attributes give, up to the first call that touches invalid memory, which is
    the same in both.  Fewer than 65536 calls keep the 16-bit index from wrapping. *)
Theorem cache_refines_domains ops :
  Forall cop_ok ops -> Z.of_nat (length ops) < 2 ^ 16 ->
  (run call ops (new_AttributeValueSharedCache IS_DEINTIATED)).1 = (run acall ops fresh_cstate).1.
Proof. intros Hok Hl. by apply (run_simF ops _ _ _ fresh_agrees Hok). Qed.

(** Pointers stay valid: a value object found by name after any history is still there, for
    the same attribute and at the same address, after any further calls but [deinit]. *)
Theorem value_pointers_stay ops ops' d name p c :
  Forall cop_ok (ops ++ ops') -> Z.of_nat (length (ops ++ ops')) < 2 ^ 16 -> forallb keeps ops' = true ->
  let c1 := (run call ops (new_AttributeValueSharedCache IS_DEINTIATED)).2 in
  Fault ∉ (run call ops (new_AttributeValueSharedCache IS_DEINTIATED)).1 ->
  getVariableValue d name c1 = (Ret p, c) -> Fault ∉ (run call ops' c).1 ->
  let c2 := (run call ops' c).2 in
  (exists c3, getVariableValue d name c2 = (Ret p, c3)) /\
  exists v, heap (getSharedDomain d c2) !! p = Some v /\ vs_name v = name.
Proof.
  intros [Hok1 Hok2]%Forall_app Hl Hk c1 Hf1 E Hf2 c2. rewrite length_app in Hl.
  destruct (run_simF ops _ _ _ fresh_agrees Hok1) as [_ R1]; [simpl; lia|].
  destruct (R1 Hf1) as (H1 & [Ha1 Hb1] & _). set (T1 := (run acall ops fresh_cstate).2) in *.
  destruct (getVariableValue_spec d name _ _ _ Ha1) as [(_ & c' & E' & _)|(k & a & p' & c' & Hka & Hn & Hp & _ & E' & Hs)];
    fold c1 in E'; rewrite E in E'; [done|]. injection E' as <- <-. subst name.
  assert (agrees c T1 H1) as Ha.
  { split; [by eapply agree_same|]. intros d'. rewrite <- Hb1. fold c1.
    replace c with (getVariableValue d (a_name a) c1).2 by by rewrite E.
    apply keeps_bind; [apply keeps_domain|intros; apply keeps_domain]. }
  destruct (run_simF ops' c T1 H1 Ha Hok2) as [_ R2].
  { intros d'. pose proof (run_grows ops d' fresh_cstate) as Hg. fold T1 in Hg. simpl in Hg. lia. }
  destruct (R2 Hf2) as (H2 & [Ha2 _] & He). fold c2 in Ha2. specialize (He Hk d).
  pose proof (run_names ops' T1 Hk d) as Hnames. set (T2 := (run acall ops' T1).2) in *.
  pose proof (prefix_lookup_Some _ _ _ _ Hp He) as Hp2.
  assert (names (T1.2 d) !! k = Some (a_name a)) as Hnk by (unfold names; by rewrite list_lookup_fmap, Hka).
  pose proof (prefix_lookup_Some _ _ _ _ Hnk Hnames) as Hnk2. unfold names in Hnk2.
  rewrite list_lookup_fmap in Hnk2. destruct (T2.2 d !! k) as [a2|] eqn:Ha2k; [|done]. simplify_eq/=.
  split.
  - destruct (getVariableValue_spec d (a_name a) _ _ _ Ha2) as [(Hn & _)|(k' & a' & p2 & c3 & Hk' & Hn' & Hp' & _ & E3 & _)].
    + exfalso. apply Hn, list_elem_of_fmap. exists a2. split; [done|by eapply list_elem_of_lookup_2].
    + assert (k' = k) as -> by (eapply (name_index_unique _ _ _ k' a' k a2 (Ha2 d)); try done; congruence).
      simplify_eq. eauto.
  - destruct (r_objs _ _ _ (Ha2 d) _ _ Hp2) as (a' & v & Hk' & Hv & Ho). simplify_eq. exists v. split; [done|].
    rewrite (o_name _ _ _ Ho). congruence.
Qed.

End History.

(** ** Witnesses *)

Definition demo_ops : list cop :=
  [CInit; CAdd SVD_INPUT [98] 0 TYPE_INT32; CAdd SVD_INPUT [97] 2 TYPE_STRING;
   CSet SVD_INPUT [98] [1; 2; 3; 4] 4; CSet SVD_INPUT [99] [1] 1; CSet SVD_INPUT [97] [104; 105; 106] 3].
Definition demo_more : list cop :=
  [CAdd SVD_OUTPUT [97] 8 TYPE_BYTEARRAY; CNewSize [97] 9; CNames SVD_INPUT; CChanged SVD_INPUT; CGet SVD_INPUT [97]].

Lemma cache_refines_domains_witness :
  (run (call 7 negb (fun _ => 0)) (demo_ops ++ demo_more ++ [CDeinit; CCount SVD_INPUT; CSetAt SVD_INPUT 0 [1] 1])
    (new_AttributeValueSharedCache 0)).1 =
  [Ret RUnit; Ret RUnit; Ret RUnit; Ret RUnit; Throw (-1); Ret RUnit;
   Ret RUnit; Ret (RBool true); Ret (RNames [[97]; [98]]); Ret (RIndexes [0; 1]);
   Ret (RValue TYPE_STRING (Some [104; 105])); Ret RUnit; Ret (RNum 0); Fault].
Proof.
  rewrite (cache_refines_domains 7 negb (fun _ => 0) 0).
  - vm_compute. reflexivity.
  - repeat constructor; simpl; lia.
  - vm_compute. reflexivity.
Defined.

Lemma value_pointers_stay_witness :
  exists c, getVariableValue SVD_INPUT [97]
      (run (call 7 negb (fun _ => 0)) demo_ops (new_AttributeValueSharedCache 0)).2 = (Ret 1%nat, c) /\
    exists v, heap (getSharedDomain SVD_INPUT (run (call 7 negb (fun _ => 0)) demo_more c).2) !! 1%nat = Some v /\
      vs_name v = [97].
Proof.
  eexists. split; [vm_compute; reflexivity|].
  eapply (value_pointers_stay 7 negb (fun _ => 0) 0 demo_ops demo_more SVD_INPUT [97] 1%nat).
  - repeat constructor; simpl; lia.
  - vm_compute. reflexivity.
  - reflexivity.
  - vm_compute. intros H. repeat (apply elem_of_cons in H as [H|H]; [discriminate|]). by apply elem_of_nil in H.
  - vm_compute. reflexivity.
  - vm_compute. intros H. repeat (apply elem_of_cons in H as [H|H]; [discriminate|]). by apply elem_of_nil in H.
Defined.
