(* ===== verification/ControlUnit.v ===== *)
(** * The data sets of a control unit

    Models the part of [chaos/cu_toolkit/ControlManager/AbstractControlUnit.cpp] that moves
    data: filling the shared cache from the description of the device, serving a request to
    set input attributes, and publishing the four data sets through
    [chaos/cu_toolkit/DataManager/KeyDataStorage.cpp] and
    [chaos/common/io/IODataDriver.cpp].  It composes the shared cache ([SharedCache]) and the
    data container ([CDataWrapper]).  [Throw] is a [CException] with its code; [Fault] is an
    invalid memory access, or an exception of another class (of the BSON library or of
    [boost::lexical_cast]): no handler of this code catches it, and it violates the
    exception specification of the request handler.  Locks and logging are left out. *)

From S2P Require Import Prelude BufBuilder Bson BsonBuilder CDataWrapper AttributesSetting SharedCache.

Local Open Scope Z_scope.

(** ** Names of the fields *)

Definition DPCK_DEVICE_ID := chars "dpck_device_id".
Definition DPCK_TIMESTAMP := chars "dpck_ts".
Definition DPCK_DATASET_TYPE := chars "dpck_ds_type".
Definition DPCK_DATASET_TYPE_OUTPUT : Z := 0.
Definition DPCK_DATASET_TYPE_INPUT : Z := 1.
Definition DPCK_DATASET_TYPE_CUSTOM : Z := 2.
Definition DPCK_DATASET_TYPE_SYSTEM : Z := 3.
Definition OUTPUT_DATASE_PREFIX := chars "_o".
Definition INPUT_DATASE_PREFIX := chars "_i".
Definition CUSTOM_DATASE_PREFIX := chars "_c".
Definition SYSTEM_DATASE_PREFIX := chars "_s".
Definition DP_SYS_HEARTBEAT := chars "dp_sys_hp".
Definition DP_SYS_UNIT_TYPE := chars "dp_sys_unit_type".
Definition DP_SYS_LAST_ERROR := chars "dp_sys_lerr".
Definition DP_SYS_LAST_ERROR_MESSAGE := chars "dp_sys_lerr_msg".
Definition DP_SYS_LAST_ERROR_DOMAIN := chars "dp_sys_lerr_domain".
Definition DEVICE_ID := chars "ds_attr_dom".

(** ** The description of the device: [CUSchemaDB] *)

Record RangeValueInfo := mkInfo {
  maxSize : Z; maxRange : list Z; minRange : list Z; defaultValue : list Z; valueType : DataType }.

(** [RangeValueInfo::reset]. *)
Definition reset_info : RangeValueInfo := mkInfo 0 [] [] [] TYPE_INT32.

(** The value of a key in the entity database. *)
Inductive key_value := KNum (n : Z) | KDouble (bits : Z) | KStr (s : list Z).

(** The properties of an attribute that [getDeviceAttributeRangeValueInfo] asks for. *)
Inductive property :=
  | PMaxSize (n : Z)
  | PMaxRange (s : list Z)
  | PMinRange (s : list Z)
  | PType (t : DataType)
  | PDefault (v : key_value).

(** The order of [double]s, on their bits: not-a-numbers are incomparable. *)
Definition is_nan (b : Z) : bool := 0x7FF0000000000000 <? b mod 2 ^ 63.
Definition double_key (b : Z) : Z := if b <? 2 ^ 63 then b else 2 ^ 63 - b.
Definition double_ltb (a b : Z) : bool := negb (is_nan a) && negb (is_nan b) && (double_key a <? double_key b).

(** [std::numeric_limits<double>::max()] and [min()]. *)
Definition DBL_MAX : Z := 0x7FEFFFFFFFFFFFFF.
Definition DBL_MIN : Z := 0x0010000000000000.

Definition str_ltb (a b : list Z) : bool := negb (str_leb b a).

Section ControlUnit.
Context {C : Type} `{SharedCacheInterface C}.
(** The value of fresh bytes. *)
Context (junk : Z).
(** [boost::lexical_cast] to a type (integers as they are, doubles as bits, booleans as
    0 and 1) and from numbers; the properties in the entity database. *)
Context (lexical_cast : DataType -> list Z -> option Z) (lex_of_num lex_of_double : Z -> list Z).
Context (props : list Z -> list property).
(** The names of the attributes by direction, the key of the storage, the type of the unit. *)
Context (input_names output_names : list (list Z)) (key control_unit_type : list Z).

Definition apply_prop (info : RangeValueInfo) (p : property) : RangeValueInfo :=
  match p with
  | PMaxSize n => mkInfo (u32 n) (maxRange info) (minRange info) (defaultValue info) (valueType info)
  | PMaxRange s => mkInfo (maxSize info) s (minRange info) (defaultValue info) (valueType info)
  | PMinRange s => mkInfo (maxSize info) (maxRange info) s (defaultValue info) (valueType info)
  | PType t => mkInfo (maxSize info) (maxRange info) (minRange info) (defaultValue info) t
  | PDefault v => mkInfo (maxSize info) (maxRange info) (minRange info)
      (match v with KDouble b => lex_of_double b | KNum n => lex_of_num n | KStr s => s end) (valueType info)
  end.

(** Fields the attribute has no property for are left as they are. *)
Definition getAttributeRangeValueInfo (name : list Z) (rangeInfo : RangeValueInfo) : RangeValueInfo :=
  fold_left apply_prop (props name) rangeInfo.

(** ** State *)

Record ControlUnit := mkCU {
  attribute_value_shared_cache : C;
  timestamp_acq_cached_value : option nat;
  cache_output_attribute_vector : list nat;
  cache_input_attribute_vector : list nat;
  cache_custom_attribute_vector : list nat;
  cache_system_attribute_vector : list nat;
  pushed : list (list Z * option (list Z)) }.

Notation CU := (EX ControlUnit).

Definition set_cache (c : C) (u : ControlUnit) : ControlUnit :=
  mkCU c (timestamp_acq_cached_value u) (cache_output_attribute_vector u) (cache_input_attribute_vector u)
    (cache_custom_attribute_vector u) (cache_system_attribute_vector u) (pushed u).
Definition on_cache {A} (m : EX C A) : CU A := ex_zoom attribute_value_shared_cache set_cache m.

(** Code that throws exceptions of another class. *)
Definition foreign {A} (o : outcome A) : CU A :=
  ex_lift (match o with Ret a => Ret a | _ => Fault end).

(** ** Publishing *)

(** [*getValuePtr<T>()] for a [T] of [n] bytes. *)
Definition load_value (n : nat) (v : ValueSetting) : outcome Z :=
  b ← access (value_buffer v); bs ← access (buf_read b 0 n); mret (le_val bs).

(** The [switch] that adds a cached value to a data set. *)
Definition add_cached (v : ValueSetting) (W : CDataWrapper) : outcome CDataWrapper :=
  match vs_type v with
  | TYPE_BOOLEAN => b ← load_value 1 v; addBoolValue junk (vs_name v) (negb (b =? 0)) W
  | TYPE_INT32 => n ← load_value 4 v; addInt32Value junk (vs_name v) (s32 n) W
  | TYPE_INT64 => n ← load_value 8 v; addInt64Value junk (vs_name v) (s64 n) W
  | TYPE_DOUBLE => n ← load_value 8 v; addDoubleValue junk (vs_name v) n W
  | TYPE_STRING => b ← access (value_buffer v); s ← c_str b; addStringValue junk (vs_name v) s W
  | TYPE_BYTEARRAY => addBinaryValue junk (vs_name v) (default [] (value_buffer v)) (s32 (vs_size v)) W
  end.

Definition add_pointed (d : SharedVariableDomain) (p : nat) (W : CDataWrapper) : CU CDataWrapper :=
  v ← on_cache (on_domain d (deref p)); foreign (add_cached v W).

Fixpoint fillCDatawrapperWithCachedValue (d : SharedVariableDomain) (cached_attributes : list nat)
    (dataset : CDataWrapper) : CU CDataWrapper :=
  match cached_attributes with
  | [] => mret dataset
  | p :: ps => dataset ← add_pointed d p dataset; fillCDatawrapperWithCachedValue d ps dataset
  end.

Definition getNewOutputAttributeDataWrapper : outcome CDataWrapper :=
  W ← new_CDataWrapper junk; addStringValue junk DPCK_DEVICE_ID key W.

(** [pushDataSet] and [storeData]: the serialisation goes to the driver. *)
Definition pushDataSet (prefix : list Z) (dataset : CDataWrapper) : CU unit :=
  '(serialization, _) ← foreign (getBSONData junk dataset);
  ex_modify (fun u => mkCU (attribute_value_shared_cache u) (timestamp_acq_cached_value u)
    (cache_output_attribute_vector u) (cache_input_attribute_vector u)
    (cache_custom_attribute_vector u) (cache_system_attribute_vector u)
    (pushed u ++ [(key ++ prefix, serialization)])).

(** All output values but the last; the bound [size() - 1] is unsigned. *)
Fixpoint output_loop (fuel : nat) (idx : nat) (vec : list nat) (dataset : CDataWrapper) : CU CDataWrapper :=
  if Z.of_nat idx <? u64 (Z.of_nat (length vec) - 1) then
    match fuel with
    | O => ex_lift Fault
    | S fuel =>
        p ← ex_lift (access (vec !! idx));
        dataset ← add_pointed SVD_OUTPUT p dataset;
        output_loop fuel (S idx) vec dataset
    end
  else mret dataset.

Definition pushOutputDataset : CU unit :=
  b ← on_cache (on_domain SVD_OUTPUT hasChanged);
  if negb b then mret tt
  else
    W ← foreign getNewOutputAttributeDataWrapper;
    u ← ex_get;
    t ← ex_lift (access (timestamp_acq_cached_value u));
    v ← on_cache (on_domain SVD_OUTPUT (deref t));
    ts ← foreign (load_value 8 v);
    W ← foreign (addInt64Value junk (vs_name v) (s64 ts) W);
    W ← foreign (addInt32Value_u junk DPCK_DATASET_TYPE DPCK_DATASET_TYPE_OUTPUT W);
    W ← output_loop (S (length (cache_output_attribute_vector u))) 0 (cache_output_attribute_vector u) W;
    pushDataSet OUTPUT_DATASE_PREFIX W;;
    on_cache (on_domain SVD_OUTPUT resetChangedIndex).

(** What the other three share: [now] is the time stamp. *)
Definition push_dataset (d : SharedVariableDomain) (vec : ControlUnit -> list nat) (type : Z) (prefix : list Z)
    (now : Z) : CU unit :=
  W ← foreign getNewOutputAttributeDataWrapper;
  W ← foreign (addInt64Value_u junk DPCK_TIMESTAMP now W);
  W ← foreign (addInt32Value_u junk DPCK_DATASET_TYPE type W);
  u ← ex_get;
  W ← fillCDatawrapperWithCachedValue d (vec u) W;
  pushDataSet prefix W.

Definition pushInputDataset (now : Z) : CU unit :=
  b ← on_cache (on_domain SVD_INPUT hasChanged);
  if negb b then mret tt
  else push_dataset SVD_INPUT cache_input_attribute_vector DPCK_DATASET_TYPE_INPUT INPUT_DATASE_PREFIX now.
Definition pushCustomDataset (now : Z) : CU unit :=
  b ← on_cache (on_domain SVD_CUSTOM hasChanged);
  if negb b then mret tt
  else push_dataset SVD_CUSTOM cache_custom_attribute_vector DPCK_DATASET_TYPE_CUSTOM CUSTOM_DATASE_PREFIX now.
Definition pushSystemDataset (now : Z) : CU unit :=
  b ← on_cache (on_domain SVD_SYSTEM hasChanged);
  if negb b then mret tt
  else
    push_dataset SVD_SYSTEM cache_system_attribute_vector DPCK_DATASET_TYPE_SYSTEM SYSTEM_DATASE_PREFIX now;;
    on_cache (on_domain SVD_SYSTEM resetChangedIndex).

(** [*getValuePtr<uint64_t>() = n]: a store into the buffer, which marks nothing. *)
Definition poke_u64 (p : nat) (n : Z) : AM unit :=
  v ← deref p;
  b ← ex_lift (access (value_buffer v));
  b ← ex_lift (access (buf_write b 0 (le_bytes 8 n)));
  write_buffer p v (vs_size v) (Some b).

(** [AbstractControlUnit::start]; [now k] is the [k]-th time stamp taken. *)
Definition start (now : nat -> Z) : CU unit :=
  u ← ex_get;
  t ← ex_lift (access (timestamp_acq_cached_value u));
  on_cache (on_domain SVD_OUTPUT (poke_u64 t (now 0%nat)));;
  on_cache (on_domain SVD_OUTPUT markAllAsChanged);; pushOutputDataset;;
  on_cache (on_domain SVD_INPUT markAllAsChanged);; pushInputDataset (now 1%nat);;
  on_cache (on_domain SVD_CUSTOM markAllAsChanged);; pushCustomDataset (now 2%nat);;
  on_cache (on_domain SVD_SYSTEM markAllAsChanged);; pushSystemDataset (now 3%nat).

(** ** Filling the cache *)

(** The bytes of a default value, as the [switch] writes them. *)
Definition default_bytes (info : RangeValueInfo) : outcome (option (list Z * Z)) :=
  let cast n f := match lexical_cast (valueType info) (defaultValue info) with
    | Some x => Ret (Some (f x, n)) | None => Fault end in
  match valueType info with
  | TYPE_BOOLEAN => cast 1 (le_bytes 1)
  | TYPE_DOUBLE => cast 8 (le_bytes 8)
  | TYPE_INT32 => cast 4 (le_bytes 4)
  | TYPE_INT64 => cast 8 (le_bytes 8)
  | TYPE_STRING => Ret (Some (defaultValue info ++ [0], u32 (Z.of_nat (length (defaultValue info)))))
  | TYPE_BYTEARRAY => Ret None
  end.

Definition set_default (d : SharedVariableDomain) (attributeInfo : RangeValueInfo) (idx : Z) : CU unit :=
  if decide (defaultValue attributeInfo = []) then mret tt
  else
    b ← foreign (default_bytes attributeInfo);
    match b with
    | Some (val, n) => on_cache (on_domain d (setValueForAttribute idx val n))
    | None => mret tt
    end.

Fixpoint init_attributes (d : SharedVariableDomain) (idx : Z) (attribute_names : list (list Z)) : CU unit :=
  match attribute_names with
  | [] => mret tt
  | name :: rest =>
      let attributeInfo := getAttributeRangeValueInfo name reset_info in
      on_cache (on_domain d (addAttribute name (maxSize attributeInfo) (valueType attributeInfo)));;
      set_default d attributeInfo idx;;
      init_attributes d (idx + 1) rest
  end.
Definition initAttributeOnSharedAttributeCache (d : SharedVariableDomain) (attribute_names : list (list Z)) : CU unit :=
  init_attributes d 0 attribute_names.

Definition completeOutputAttribute : CU unit :=
  on_cache (on_domain SVD_OUTPUT (addAttribute DPCK_TIMESTAMP 8 TYPE_INT64));;
  p ← on_cache (on_domain SVD_OUTPUT (i ← getIndexForName DPCK_TIMESTAMP; getValueSettingForIndex i));
  ex_modify (fun u => mkCU (attribute_value_shared_cache u) (Some p) (cache_output_attribute_vector u)
    (cache_input_attribute_vector u) (cache_custom_attribute_vector u) (cache_system_attribute_vector u) (pushed u)).

Definition completeInputAttribute : CU unit := mret tt.

Definition initSystemAttributeOnSharedAttributeCache : CU unit :=
  let size := u32 (Z.of_nat (length control_unit_type)) in
  on_cache (on_domain SVD_SYSTEM (
    addAttribute DP_SYS_HEARTBEAT 0 TYPE_INT64;;
    addAttribute DP_SYS_UNIT_TYPE size TYPE_STRING;;
    n ← getNumberOfAttributes;
    setValueForAttribute (u16 (n - 1)) (control_unit_type ++ [0]) size;;
    addAttribute DP_SYS_LAST_ERROR 0 TYPE_INT32;;
    addAttribute DP_SYS_LAST_ERROR_MESSAGE 255 TYPE_STRING;;
    addAttribute DP_SYS_LAST_ERROR_DOMAIN 255 TYPE_STRING)).

(** [n] pointers from index [idx] on. *)
Fixpoint pointers_from (n : nat) (idx : Z) : AM (list nat) :=
  match n with
  | O => mret []
  | S n => p ← getValueSettingForIndex idx; ps ← pointers_from n (idx + 1); mret (p :: ps)
  end.
Definition fillCachedValueVector (d : SharedVariableDomain) : CU (list nat) :=
  on_cache (on_domain d (n ← getNumberOfAttributes; pointers_from (Z.to_nat n) 0)).

(** The part of [_init] that populates the cache; [unitDefineCustomAttribute] is virtual. *)
Definition init_shared_cache (unitDefineCustomAttribute : CU unit) : CU unit :=
  initAttributeOnSharedAttributeCache SVD_INPUT input_names;;
  initAttributeOnSharedAttributeCache SVD_OUTPUT output_names;;
  completeOutputAttribute;;
  completeInputAttribute;;
  initSystemAttributeOnSharedAttributeCache;;
  unitDefineCustomAttribute;;
  o ← fillCachedValueVector SVD_OUTPUT;
  i ← fillCachedValueVector SVD_INPUT;
  s ← fillCachedValueVector SVD_SYSTEM;
  c ← fillCachedValueVector SVD_CUSTOM;
  ex_modify (fun u => mkCU (attribute_value_shared_cache u) (timestamp_acq_cached_value u)
    (cache_output_attribute_vector u ++ o) (cache_input_attribute_vector u ++ i)
    (cache_custom_attribute_vector u ++ c) (cache_system_attribute_vector u ++ s) (pushed u)).

(** ** Serving a request *)

(** [CHECK_FOR_RANGE_VALUE]: whether [maxRange] is set decides about both bounds. *)
Definition check_range (ltb : Z -> Z -> bool) (lo hi : Z) (t : DataType) (v : Z) (info : RangeValueInfo) : outcome unit :=
  let bound s other := if decide (maxRange info = []) then Ret other
    else match lexical_cast t s with Some x => Ret x | None => Fault end in
  max ← bound (maxRange info) hi;
  min ← bound (minRange info) lo;
  if ltb v min || ltb max v then Throw (-1) else Ret tt.

(** [CHECK_FOR_STRING_RANGE_VALUE]. *)
Definition check_string_range (v : list Z) (info : RangeValueInfo) : outcome unit :=
  if negb (bool_decide (minRange info = [])) && str_ltb v (minRange info) then Throw (-1)
  else if negb (bool_decide (maxRange info = [])) && str_ltb (maxRange info) v then Throw (-1)
  else Ret tt.

(** The value of an attribute in a request, checked: its bytes and its size. *)
Definition request_value (t : DataType) (name : list Z) (info : RangeValueInfo) (W : CDataWrapper) :
    CU (list Z * Z * CDataWrapper) :=
  match t with
  | TYPE_BOOLEAN =>
      '(b, W) ← foreign (getBoolValue junk name W); mret ([if (b : bool) then 1 else 0], 1, W)
  | TYPE_INT32 =>
      '(n, W) ← foreign (getInt32Value junk name W);
      ex_lift (check_range Z.ltb (- 2 ^ 31) (2 ^ 31 - 1) t n info);; mret (le_bytes 4 n, 4, W)
  | TYPE_INT64 =>
      '(n, W) ← foreign (getInt64Value junk name W);
      ex_lift (check_range Z.ltb (- 2 ^ 63) (2 ^ 63 - 1) t n info);; mret (le_bytes 8 n, 8, W)
  | TYPE_DOUBLE =>
      '(n, W) ← foreign (getDoubleValue junk name W);
      ex_lift (check_range double_ltb DBL_MIN DBL_MAX t n info);; mret (le_bytes 8 n, 8, W)
  | TYPE_STRING =>
      '(s, W) ← foreign (getStringValue junk name W);
      ex_lift (check_string_range s info);; mret (s ++ [0], u32 (Z.of_nat (length s)), W)
  | TYPE_BYTEARRAY =>
      '(b, W) ← foreign (getBinaryValue junk name W);
      mret (default [] b, u32 (Z.of_nat (length (default [] b))), W)
  end.

(** The loop over the input attributes; [info] is not reset between two of them. *)
Fixpoint set_attributes (in_attribute_name : list (list Z)) (info : RangeValueInfo) (W : CDataWrapper) : CU unit :=
  match in_attribute_name with
  | [] => mret tt
  | name :: rest =>
      '(b, W) ← foreign (hasKey junk name W);
      if b : bool then
        p ← on_cache (getVariableValue SVD_INPUT name);
        let info := getAttributeRangeValueInfo name info in
        v ← on_cache (on_domain SVD_INPUT (deref p));
        '(bs, n, W) ← request_value (vs_type v) name info W;
        on_cache (on_domain SVD_INPUT (setValue p bs n true));;
        set_attributes rest info W
      else set_attributes rest info W
  end.

Section Request.
(** The virtual handlers [unitInputAttributePreChangeHandler] and
    [unitInputAttributeChangedHandler], and the uninitialised [RangeValueInfo]. *)
Context (pre changed : CU unit) (uninit : Z * DataType).

Definition setDatasetAttribute (now : Z) (dataset_attribute_values : CDataWrapper) : CU unit :=
  ex_catch (
    pre;;
    '(b, W) ← foreign (hasKey junk DEVICE_ID dataset_attribute_values);
    (if b : bool then
       '(_, W) ← foreign (getStringValue junk DEVICE_ID W);
       set_attributes input_names (mkInfo uninit.1 [] [] [] uninit.2) W;;
       pushInputDataset now
     else mret tt);;
    changed)
  (fun e => changed;; ex_lift (Throw e)).

(** [_setDatasetAttribute], the action; the wrapper is absent when the pointer is null. *)
Definition setDatasetAttribute_action (now serviceState DEINIT : Z) (values : option CDataWrapper) : CU unit :=
  match values with
  | None => ex_lift (Throw (-1))
  | Some W =>
      '(b, W) ← foreign (hasKey junk DEVICE_ID W);
      if b : bool then
        '(_, W) ← foreign (getStringValue junk DEVICE_ID W);
        if serviceState =? DEINIT then ex_lift (Throw (-3)) else setDatasetAttribute now W
      else ex_lift (Throw (-2))
  end.

End Request.

End ControlUnit.

(** ** What is published *)

Definition load_attr (n : nat) (a : attr) : option Z := b ← a_buf a; le_val <$> buf_read b 0 n.

(** The value an attribute is published with; a string ends at its first zero byte, and
    without one there is none. *)
Definition attr_val (a : attr) : option val :=
  match a_type a with
  | TYPE_BOOLEAN => n ← load_attr 1 a; Some (VBool (negb (n =? 0)))
  | TYPE_INT32 => n ← load_attr 4 a; Some (VInt (s32 n))
  | TYPE_INT64 => n ← load_attr 8 a; Some (VLong (s64 n))
  | TYPE_DOUBLE => n ← load_attr 8 a; Some (VDouble n)
  | TYPE_STRING => b ← a_buf a; match c_str b with Ret s => Some (VString s) | _ => None end
  | TYPE_BYTEARRAY => Some (VBinData 0 (a_data a))
  end.

Fixpoint fields (l : list attr) : option doc :=
  match l with
  | [] => Some DNil
  | a :: l => v ← attr_val a; d ← fields l; Some (DCons (a_name a) v d)
  end.

Definition header (key : list Z) (ts_name : list Z) (ts type : Z) : doc :=
  DCons DPCK_DEVICE_ID (VString key) (DCons ts_name (VLong (s64 ts)) (DCons DPCK_DATASET_TYPE (VInt type) DNil)).

Lemma doc_ok_app_inv d d' : doc_ok (doc_app d d') -> doc_ok d /\ doc_ok d'.
Proof. induction d as [|n v d IH]; simpl; [done|]. intros (? & ? & H). naive_solver. Qed.

Lemma fits_prefix d d' : fits (doc_app d d') -> fits d.
Proof.
  intros [Hok Hl]. split; [exact (proj1 (doc_ok_app_inv _ _ Hok))|].
  pose proof (enc_doc_length d). pose proof (enc_doc_length (doc_app d d')) as H'. rewrite enc_elems_app, length_app in H'. lia.
Qed.

Section Published.
Context (junk : Z).

Lemma load_value_spec n v a k : vs_of k a v -> load_value n v = access (load_attr n a).
Proof.
  intros Ho. unfold load_value, load_attr. rewrite (o_buf _ _ _ Ho). destruct (a_buf a) as [b|]; [|done]. simpl.
  by destruct (buf_read b 0 n).
Qed.

Lemma c_str_no_throw b e : c_str b <> Throw e.
Proof.
  unfold c_str. assert (strlen b <> Throw e) as Hs.
  { induction b as [|x b IH]; simpl; [done|]. case_match; [done|]. destruct (strlen b); simpl; congruence. }
  destruct (strlen b); simpl; [done| |done]. intros [= ->]. by apply Hs.
Qed.

(** Adding the cached value of an attribute to a data set. *)
Lemma add_cached_spec k a v W :
  vs_of k a v -> (a_type a = TYPE_BYTEARRAY -> Z.of_nat (length (a_data a)) < 2 ^ 31) ->
  add_cached junk v W = match attr_val a with Some x => on_obj (put junk (a_name a) x) W | None => Fault end.
Proof.
  intros Ho Hl. unfold add_cached, attr_val. rewrite (o_type _ _ _ Ho), (o_name _ _ _ Ho).
  destruct (a_type a); rewrite ?(load_value_spec _ _ _ _ Ho); try (by destruct (load_attr _ a)).
  - rewrite (o_buf _ _ _ Ho). destruct (a_buf a) as [b|]; [|done]. simpl. destruct (c_str b) eqn:E; try done.
    exfalso. by apply c_str_no_throw in E.
  - rewrite (o_buf _ _ _ Ho), (o_size _ _ _ Ho), swrap_small; [done|lia|unfold in_s; specialize (Hl eq_refl); lia].
Qed.

Context {C : Type} `{SharedCacheInterface C} (key : list Z).

Lemma on_cache_eq {X} (m : EX C X) u r c :
  m (attribute_value_shared_cache u) = (r, c) -> on_cache m u = (r, set_cache c u).
Proof. unfold on_cache, ex_zoom. by intros ->. Qed.

Lemma set_cache_id (u : @ControlUnit C) : set_cache (attribute_value_shared_cache u) u = u.
Proof. by destruct u. Qed.

Lemma same_sets_trans (c1 c2 c3 : C) : same_sets c1 c2 -> same_sets c2 c3 -> same_sets c1 c3.
Proof. intros H1 H2 d. by rewrite H2, H1. Qed.

(** Pointers to attributes, in the same order. *)
Definition aligned (A : astate) (Hs : SharedVariableDomain -> list nat) (d : SharedVariableDomain) : list nat -> list attr -> Prop :=
  Forall2 (fun p a => exists k, Hs d !! k = Some p /\ A d !! k = Some a).

Lemma aligned_all (c : C) A Hs d : agree c A Hs -> aligned A Hs d (Hs d) (A d).
Proof.
  intros Ha. apply Forall2_same_length_lookup_2; [apply (r_len _ _ _ (Ha d))|]. intros i p a Hp Hk. eauto.
Qed.

Lemma bytearray_fits a v d : a_type a = TYPE_BYTEARRAY -> attr_val a = Some v -> fits (doc_app d (DCons (a_name a) v DNil)) ->
  Z.of_nat (length (a_data a)) < 2 ^ 31.
Proof.
  intros Ht Hv Hf. unfold attr_val in Hv. rewrite Ht in Hv. simplify_eq. apply fits_31 in Hf.
  rewrite enc_doc_length, enc_elems_app, enc_elems_cons, !length_app in Hf.
  pose proof (enc_elem_length (a_name a) (VBinData 0 (a_data a))) as HL. cbn [enc_val] in HL.
  rewrite (length_app (enc_int _)) in HL. cbn [length] in HL. lia.
Qed.

Lemma add_pointed_spec u A Hs d p k a v d0 vs W :
  agree (attribute_value_shared_cache u) A Hs -> Hs d !! k = Some p -> A d !! k = Some a ->
  attr_val a = Some v -> holds d0 vs W -> fits (doc_app d0 (DCons (a_name a) v DNil)) ->
  exists c W', add_pointed junk d p W u = (Ret W', set_cache c u) /\ same_sets (attribute_value_shared_cache u) c /\
    holds (doc_app d0 (DCons (a_name a) v DNil)) vs W'.
Proof.
  intros Ha Hp Hk Hv HW Hf. destruct (deref_spec d _ _ _ _ _ _ Ha Hp Hk) as (vs' & c & E & Hsame & Ho).
  unfold add_pointed. rewrite (ex_bind_ret _ _ _ _ _ (on_cache_eq _ _ _ _ E)). unfold foreign.
  rewrite (add_cached_spec _ _ _ _ Ho), Hv by (intros Ht; by eapply bytearray_fits).
  assert (val_ok v) as Hok.
  { destruct Hf as [Hf _]. by apply doc_ok_app_inv in Hf as [_ (_ & ? & _)]. }
  destruct (add_holds junk d0 vs W (a_name a) v HW Hf Hok) as (W' & E' & HW'). rewrite E'. by exists c, W'.
Qed.

(** Filling a data set with the values of attributes. *)
Lemma fill_document d A Hs vs l : forall ps fd d0 u W,
  agree (attribute_value_shared_cache u) A Hs -> aligned A Hs d ps l -> fields l = Some fd ->
  holds d0 vs W -> fits (doc_app d0 fd) ->
  exists c W', fillCDatawrapperWithCachedValue junk d ps W u = (Ret W', set_cache c u) /\
    same_sets (attribute_value_shared_cache u) c /\ holds (doc_app d0 fd) vs W'.
Proof.
  induction l as [|a l IH]; intros ps fd d0 u W Ha Hal Hfd HW Hf.
  - apply Forall2_nil_inv_r in Hal as ->. simplify_eq/=. exists (attribute_value_shared_cache u), W.
    rewrite set_cache_id, doc_app_nil. split; [done|]. by split.
  - apply Forall2_cons_inv_r in Hal as (p & ps' & (k & Hp & Hk) & Hal & ->). simpl in Hfd.
    destruct (attr_val a) as [v|] eqn:Ev; [|done]. destruct (fields l) as [fd'|] eqn:El; [|done]. simplify_eq/=.
    assert (doc_app d0 (DCons (a_name a) v fd') = doc_app (doc_app d0 (DCons (a_name a) v DNil)) fd') as Eq
      by by rewrite doc_app_assoc.
    rewrite Eq in Hf |- *.
    destruct (add_pointed_spec u A Hs d p k a v d0 vs W Ha Hp Hk Ev HW (fits_prefix _ _ Hf)) as (c & W1 & E1 & Hs1 & HW1).
    rewrite (ex_bind_ret _ _ _ _ _ E1).
    destruct (IH ps' fd' (doc_app d0 (DCons (a_name a) v DNil)) (set_cache c u) W1) as (c2 & W2 & E2 & Hs2 & HW2); try done; [by eapply agree_same|].
    exists c2, W2. split; [done|]. split; [|done]. by eapply same_sets_trans.
Qed.

(** The data set reaches the driver. *)
Definition with_pushed (x : list Z * option (list Z)) (u : @ControlUnit C) : ControlUnit :=
  mkCU (attribute_value_shared_cache u) (timestamp_acq_cached_value u) (cache_output_attribute_vector u)
    (cache_input_attribute_vector u) (cache_custom_attribute_vector u) (cache_system_attribute_vector u) (pushed u ++ [x]).

Lemma getBSONData_spec d vs W : holds d vs W -> fits d -> exists W', getBSONData junk W = Ret (Some (enc_doc d), W').
Proof.
  intros HW Hf. destruct (getter_refines junk GetBSON d vs W HW Hf) as (W' & _ & E); [done|done|].
  simpl in E. exists W'. destruct (getBSONData junk W) as [[x W1]|e|]; simpl in E; by simplify_eq.
Qed.

Lemma pushDataSet_spec prefix d vs W u :
  holds d vs W -> fits d -> pushDataSet junk key prefix W u = (Ret tt, with_pushed (key ++ prefix, Some (enc_doc d)) u).
Proof.
  intros HW Hf. destruct (getBSONData_spec d vs W HW Hf) as [W' E]. unfold pushDataSet, foreign. by rewrite E.
Qed.

(** A field of the header. *)
Lemma add_header d vs W k v : holds d vs W -> fits (doc_app d (DCons k v DNil)) ->
  exists W', on_obj (put junk k v) W = Ret W' /\ holds (doc_app d (DCons k v DNil)) vs W'.
Proof. intros HW Hf. apply add_holds; [done|done|]. destruct Hf as [Hf _]. by apply doc_ok_app_inv in Hf as [_ (_ & ? & _)]. Qed.

Lemma new_dataset : fits (DCons DPCK_DEVICE_ID (VString key) DNil) ->
  exists W, getNewOutputAttributeDataWrapper junk key = Ret W /\ holds (DCons DPCK_DEVICE_ID (VString key) DNil) [] W.
Proof.
  intros Hf. destruct (new_CDataWrapper_holds junk) as (W & E & HW). unfold getNewOutputAttributeDataWrapper. rewrite E.
  exact (add_header DNil [] W DPCK_DEVICE_ID (VString key) HW Hf).
Qed.

(** The header of a data set: [ts] names and gives the time stamp. *)
Lemma header_spec ts_name ts type rest :
  in_s 32 type -> fits (doc_app (header key ts_name ts type) rest) ->
  exists W1 W2 W3, getNewOutputAttributeDataWrapper junk key = Ret W1 /\
    addInt64Value junk ts_name (s64 ts) W1 = Ret W2 /\ addInt32Value_u junk DPCK_DATASET_TYPE type W2 = Ret W3 /\
    holds (header key ts_name ts type) [] W3.
Proof.
  intros Ht Hf. apply fits_prefix in Hf. unfold header in Hf |- *.
  pose (d1 := DCons DPCK_DEVICE_ID (VString key) DNil). pose (d2 := doc_app d1 (DCons ts_name (VLong (s64 ts)) DNil)).
  change (DCons DPCK_DEVICE_ID (VString key) (DCons ts_name (VLong (s64 ts)) (DCons DPCK_DATASET_TYPE (VInt type) DNil)))
    with (doc_app d2 (DCons DPCK_DATASET_TYPE (VInt type) DNil)) in Hf |- *.
  pose proof (fits_prefix _ _ Hf) as Hf2. pose proof (fits_prefix _ _ Hf2) as Hf1.
  destruct (new_dataset Hf1) as (W1 & E1 & HW1).
  destruct (add_header d1 [] W1 ts_name (VLong (s64 ts)) HW1 Hf2) as (W2 & E2 & HW2).
  destruct (add_header d2 [] W2 DPCK_DATASET_TYPE (VInt type) HW2 Hf) as (W3 & E3 & HW3).
  exists W1, W2, W3. split_and!; try done. unfold addInt32Value_u. by rewrite swrap_small by (done || lia).
Qed.

Lemma push_dataset_spec u A Hs d vec type prefix now fd :
  agree (attribute_value_shared_cache u) A Hs -> vec u = Hs d ->
  in_s 32 type -> fields (A d) = Some fd -> fits (doc_app (header key DPCK_TIMESTAMP now type) fd) ->
  exists c, push_dataset junk key d vec type prefix now u =
      (Ret tt, with_pushed (key ++ prefix, Some (enc_doc (doc_app (header key DPCK_TIMESTAMP now type) fd))) (set_cache c u)) /\
    same_sets (attribute_value_shared_cache u) c.
Proof.
  intros Ha Hv Ht Hfd Hf.
  destruct (header_spec _ _ _ _ Ht Hf) as (W1 & W2 & W3 & E1 & E2 & E3 & HW).
  destruct (fill_document d A Hs [] (A d) (Hs d) fd _ u W3 Ha (aligned_all _ _ _ d Ha) Hfd HW Hf) as (c & W4 & E4 & Hsame & HW4).
  unfold push_dataset, foreign. rewrite E1. ex_step. unfold addInt64Value_u. unfold addInt64Value in E2. rewrite E2.
  ex_step. rewrite E3. do 2 ex_step. rewrite Hv, (ex_bind_ret _ _ _ _ _ E4).
  exists c. split; [|done]. by apply (pushDataSet_spec _ _ []).
Qed.

(** A unit whose cache holds the attributes [A] and whose vectors point to all of them; the
    time stamp of the output data set is the last output attribute. *)
Record ready (u : @ControlUnit C) (A : astate) (Hs : SharedVariableDomain -> list nat) : Prop := {
  y_cache : agree (attribute_value_shared_cache u) A Hs;
  y_output : cache_output_attribute_vector u = Hs SVD_OUTPUT;
  y_input : cache_input_attribute_vector u = Hs SVD_INPUT;
  y_custom : cache_custom_attribute_vector u = Hs SVD_CUSTOM;
  y_system : cache_system_attribute_vector u = Hs SVD_SYSTEM;
  y_stamp : exists l a p, A SVD_OUTPUT = l ++ [a] /\ a_name a = DPCK_TIMESTAMP /\ a_type a = TYPE_INT64 /\
    Hs SVD_OUTPUT !! length l = Some p /\ timestamp_acq_cached_value u = Some p }.

Lemma ready_cache u A Hs c A' :
  ready u A Hs -> agree c A' Hs ->
  (exists l a, A' SVD_OUTPUT = l ++ [a] /\ length (A' SVD_OUTPUT) = length (A SVD_OUTPUT) /\
     a_name a = DPCK_TIMESTAMP /\ a_type a = TYPE_INT64) -> ready (set_cache c u) A' Hs.
Proof.
  intros [] Ha (l' & a' & El & Hl & Hn & Ht). split; try done. destruct y_stamp0 as (l & a & p & E & _ & _ & Hp & Et).
  exists l', a', p. rewrite El, E, !length_app in Hl. simpl in Hl. replace (length l') with (length l) by lia. done.
Qed.

Lemma ready_same_sets u A Hs c : ready u A Hs -> same_sets (attribute_value_shared_cache u) c -> ready (set_cache c u) A Hs.
Proof.
  intros Hr Hsame. apply (ready_cache _ A); [done|eapply agree_same; [apply Hr|done]|].
  destruct (y_stamp _ _ _ Hr) as (l & a & p & E & Hn & Ht & _). by exists l, a.
Qed.

Lemma ready_pushed u A Hs x : ready u A Hs -> ready (with_pushed x u) A Hs.
Proof. intros []. by split. Qed.

(** The loop over the output values is the one over all but the last. *)
Lemma output_loop_fill vec : (0 < length vec)%nat -> Z.of_nat (length vec) < 2 ^ 63 -> forall fuel idx W u,
  (idx < length vec)%nat -> (length vec <= fuel + idx)%nat ->
  output_loop junk fuel idx vec W u =
    fillCDatawrapperWithCachedValue junk SVD_OUTPUT (drop idx (take (length vec - 1) vec)) W u.
Proof.
  intros Hpos Hmax fuel. assert (u64 (Z.of_nat (length vec) - 1) = Z.of_nat (length vec - 1)) as Eb.
  { rewrite uwrap_small; [lia|unfold in_u; lia]. }
  induction fuel as [|fuel IH]; intros idx W u Hi Hf; [lia|]. cbn [output_loop]. rewrite Eb.
  destruct (decide (idx < length vec - 1)%nat) as [Hlt|Hge].
  - rewrite (proj2 (Z.ltb_lt _ _)) by lia. destruct (lookup_lt_is_Some_2 vec idx Hi) as [p Hp].
    rewrite (drop_S (take (length vec - 1) vec) p idx) by (rewrite lookup_take_lt by lia; done). rewrite Hp.
    cbn [fillCDatawrapperWithCachedValue]. ex_step. unfold mbind, EX_bind.
    destruct (add_pointed junk SVD_OUTPUT p W u) as [[W'|e|] u']; [|done|done]. apply IH; lia.
  - rewrite (proj2 (Z.ltb_ge _ _)) by lia. rewrite drop_ge by (rewrite length_take; lia). done.
Qed.

Lemma hasChanged_spec u A Hs d :
  agree (attribute_value_shared_cache u) A Hs -> exists c,
    on_cache (on_domain d hasChanged) u = (Ret (existsb a_changed (A d)), set_cache c u) /\
    same_sets (attribute_value_shared_cache u) c.
Proof.
  intros Ha. destruct (on_domain_read d hasChanged (attribute_value_shared_cache u) _ (hasChanged_represents _ _ _ (Ha d))) as (c & E & Hsame).
  exists c. split; [by apply on_cache_eq|done].
Qed.

Lemma reset_spec (c : C) A Hs d b :
  agree c A Hs -> exists c', on_domain d (if b : bool then markAllAsChanged else resetChangedIndex) c = (Ret tt, c') /\
    agree c' (upd d (with_changed b <$> A d) A) Hs.
Proof.
  intros Ha. pose proof (all_bits_represents _ _ _ b (Ha d)) as R. eexists. split.
  - apply on_domain_eq. by destruct b.
  - intros d'. unfold upd. destruct (decide (d' = d)) as [->|Hne].
    + by rewrite get_put_same.
    + rewrite get_put_other by done. apply Ha.
Qed.

Lemma upd_stamp u A Hs b : ready u A Hs -> exists l a,
  upd SVD_OUTPUT (with_changed b <$> A SVD_OUTPUT) A SVD_OUTPUT = l ++ [a] /\
  length (upd SVD_OUTPUT (with_changed b <$> A SVD_OUTPUT) A SVD_OUTPUT) = length (A SVD_OUTPUT) /\
  a_name a = DPCK_TIMESTAMP /\ a_type a = TYPE_INT64.
Proof.
  intros Hr. destruct (y_stamp _ _ _ Hr) as (l & a & p & E & Hn & Ht & _).
  exists (with_changed b <$> l), (with_changed b a). by rewrite upd_eq, length_fmap, E, fmap_app.
Qed.

Lemma aligned_firsts u A Hs l a :
  ready u A Hs -> A SVD_OUTPUT = l ++ [a] ->
  aligned A Hs SVD_OUTPUT (drop 0 (take (length (Hs SVD_OUTPUT) - 1) (Hs SVD_OUTPUT))) l.
Proof.
  intros Hr E. pose proof (y_cache _ _ _ Hr SVD_OUTPUT) as R. pose proof (r_len _ _ _ R) as El.
  rewrite E, length_app in El. simpl in El. rewrite drop_0. apply Forall2_same_length_lookup_2.
  - rewrite length_take. lia.
  - intros i p b Hp Hb. apply lookup_take_Some in Hp as [Hp _]. exists i. split; [done|].
    rewrite E. by apply lookup_app_l_Some.
Qed.

Lemma stamp_value k a v ts :
  vs_of k a v -> a_type a = TYPE_INT64 -> attr_val a = Some (VLong ts) ->
  exists n, load_value 8 v = Ret n /\ s64 n = s64 ts.
Proof.
  intros Ho Ht Hv. rewrite (load_value_spec _ _ _ _ Ho). unfold attr_val in Hv. rewrite Ht in Hv.
  destruct (load_attr 8 a) as [n|]; simplify_eq/=. exists n. split; [done|].
  rewrite (swrap_small 64 (s64 n)); [done|lia|apply swrap_range; lia].
Qed.

Lemma vector_bound u A Hs d : ready u A Hs -> Z.of_nat (length (Hs d)) < 2 ^ 63.
Proof.
  intros Hr. pose proof (y_cache _ _ _ Hr d) as R. pose proof (r_len _ _ _ R). pose proof (r_bound _ _ _ R). lia.
Qed.

(** [C28] Publishing the output: when an output attribute has changed, the driver gets, under the
    output key, the serialised document of the device, the time stamp, the type of the
    data set and the current value of every output attribute in order, and the attributes
    are unchanged afterwards; otherwise nothing is sent.  The values are what is published
    when every string is terminated and the document is not too large. *)
Theorem output_is_published u A Hs l stamp ts fd :
  ready u A Hs -> A SVD_OUTPUT = l ++ [stamp] -> attr_val stamp = Some (VLong ts) -> fields l = Some fd ->
  fits (doc_app (header key DPCK_TIMESTAMP ts DPCK_DATASET_TYPE_OUTPUT) fd) ->
  exists u', pushOutputDataset junk key u = (Ret tt, u') /\
    if existsb a_changed (A SVD_OUTPUT) then
      pushed u' = pushed u ++ [(key ++ OUTPUT_DATASE_PREFIX,
        Some (enc_doc (doc_app (header key DPCK_TIMESTAMP ts DPCK_DATASET_TYPE_OUTPUT) fd)))] /\
      ready u' (upd SVD_OUTPUT (with_changed false <$> A SVD_OUTPUT) A) Hs
    else pushed u' = pushed u /\ ready u' A Hs.
Proof.
  intros Hr El Hts Hfd Hf. destruct (y_stamp _ _ _ Hr) as (l0 & a0 & p & El0 & Hn & Hty & Hp & Et).
  rewrite El in El0. apply app_inj_tail in El0 as [<- <-].
  destruct (hasChanged_spec u A Hs SVD_OUTPUT (y_cache _ _ _ Hr)) as (c1 & E1 & Hs1).
  unfold pushOutputDataset. rewrite (ex_bind_ret _ _ _ _ _ E1).
  destruct (existsb a_changed (A SVD_OUTPUT)) eqn:Ech; cbn [negb].
  2:{ eexists. split; [reflexivity|]. split; [done|by apply ready_same_sets]. }
  pose proof (ready_same_sets _ _ _ _ Hr Hs1) as Hr1. set (u1 := set_cache c1 u) in *.
  destruct (header_spec DPCK_TIMESTAMP ts DPCK_DATASET_TYPE_OUTPUT fd) as (W1 & W2 & W3 & F1 & F2 & F3 & HW); [by vm_compute|done|].
  assert (A SVD_OUTPUT !! length l = Some stamp) as Hk by (rewrite El; by apply list_lookup_middle).
  destruct (deref_spec SVD_OUTPUT _ _ _ _ _ _ (y_cache _ _ _ Hr1) Hp Hk) as (v & c2 & E2 & Hs2 & Ho).
  pose proof (ready_same_sets _ _ _ _ Hr1 Hs2) as Hr2.
  destruct (fill_document SVD_OUTPUT A Hs [] l _ fd _ (set_cache c2 u1) W3 (y_cache _ _ _ Hr2) (aligned_firsts _ _ _ _ _ Hr2 El) Hfd HW Hf)
    as (c3 & W4 & E4 & Hs3 & HW4).
  pose proof (ready_same_sets _ _ _ _ Hr2 Hs3) as Hr3. set (u3 := set_cache c3 (set_cache c2 u1)) in *.
  destruct (reset_spec (attribute_value_shared_cache u3) A Hs SVD_OUTPUT false (y_cache _ _ _ Hr3)) as (c4 & E5 & Ha5).
  destruct (stamp_value _ _ _ _ Ho Hty Hts) as (n & Ln & Ls).
  unfold foreign. rewrite F1. do 2 ex_step. change (timestamp_acq_cached_value u1) with (timestamp_acq_cached_value u).
  rewrite Et. ex_step. rewrite (ex_bind_ret _ _ _ _ _ (on_cache_eq _ _ _ _ E2)). rewrite Ln. ex_step.
  rewrite (o_name _ _ _ Ho), Hn, Ls, F2. ex_step. rewrite F3. ex_step.
  change (cache_output_attribute_vector u1) with (cache_output_attribute_vector u). rewrite (y_output _ _ _ Hr).
  pose proof (vector_bound _ _ _ SVD_OUTPUT Hr) as Hb. pose proof (lookup_lt_Some _ _ _ Hp) as Hlt.
  rewrite (ex_bind_ret _ _ _ W4 u3) by (rewrite output_loop_fill by lia; exact E4).
  rewrite (ex_bind_ret _ _ _ _ _ (pushDataSet_spec OUTPUT_DATASE_PREFIX _ [] W4 u3 HW4 Hf)).
  eexists. split; [apply on_cache_eq; exact E5|]. split; [done|].
  apply (ready_cache _ A); [by apply ready_pushed|done|by eapply upd_stamp].
Qed.

End Published.

(** ** What a request does *)

(** An exception of the BSON library is not caught. *)
Definition strict {A} (o : outcome A) : outcome A := match o with Ret a => Ret a | _ => Fault end.

Section Requests.
Context (junk : Z) (lexical_cast : DataType -> list Z -> option Z) (lex_of_num lex_of_double : Z -> list Z).
Context (props : list Z -> list property).

(** *** The range of an attribute, by the properties read so far *)

(** The last property of a kind. *)
Definition last_prop {X} (kind : property -> option X) (ps : list property) : option X := last (omap kind ps).
Definition max_of (ps : list property) : list Z :=
  default [] (last_prop (fun p => match p with PMaxRange s => Some s | _ => None end) ps).
Definition min_of (ps : list property) : list Z :=
  default [] (last_prop (fun p => match p with PMinRange s => Some s | _ => None end) ps).

(** The limits of a number: those of its type, unless there is an upper bound. *)
Definition limits (t : DataType) (ps : list property) : outcome (Z * Z) :=
  if decide (max_of ps = []) then
    Ret match t with TYPE_INT32 => (- 2 ^ 31, 2 ^ 31 - 1) | TYPE_INT64 => (- 2 ^ 63, 2 ^ 63 - 1) | _ => (DBL_MIN, DBL_MAX) end
  else match lexical_cast t (min_of ps), lexical_cast t (max_of ps) with Some lo, Some hi => Ret (lo, hi) | _, _ => Fault end.

Definition admitted (t : DataType) (v lo hi : Z) : bool :=
  match t with
  | TYPE_DOUBLE => negb (double_ltb v lo) && negb (double_ltb hi v)
  | _ => (lo <=? v) && (v <=? hi)
  end.

Definition number_checked (t : DataType) (v : Z) (ps : list property) : outcome unit :=
  '(lo, hi) ← limits t ps; if admitted t v lo hi then Ret tt else Throw (-1).
Definition string_checked (v : list Z) (ps : list property) : outcome unit :=
  if str_leb (min_of ps) v && (bool_decide (max_of ps = []) || str_leb v (max_of ps)) then Ret tt else Throw (-1).

(** The bytes of the value a document has for an attribute, checked. *)
Definition doc_value (t : DataType) (name : list Z) (ps : list property) (d : doc) : outcome (list Z * Z) :=
  match t with
  | TYPE_BOOLEAN => b ← strict (field_spec as_bool (doc_find name d)); mret ([if (b : bool) then 1 else 0], 1)
  | TYPE_INT32 => n ← strict (as_int 32 (doc_find name d)); number_checked t n ps;; mret (le_bytes 4 n, 4)
  | TYPE_INT64 => n ← strict (as_int 64 (doc_find name d)); number_checked t n ps;; mret (le_bytes 8 n, 8)
  | TYPE_DOUBLE => n ← strict (field_spec as_double (doc_find name d)); number_checked t n ps;; mret (le_bytes 8 n, 8)
  | TYPE_STRING =>
      s ← strict (field_spec as_string (doc_find name d)); string_checked s ps;;
      mret (s ++ [0], u32 (Z.of_nat (length s)))
  | TYPE_BYTEARRAY =>
      let b := default [] (as_binary (doc_find name d)) in mret (b, u32 (Z.of_nat (length b)))
  end.

(** The request on the list of input attributes, one after the other; [ps] are the
    properties of the attributes it has named so far. *)
Fixpoint apply_request (names : list (list Z)) (ps : list property) (d : doc) : EX (list attr) unit :=
  match names with
  | [] => mret tt
  | name :: rest =>
      if decide (is_Some (doc_find name d)) then
        k ← find_name name;
        a ← attr_at k;
        '(bs, n) ← ex_lift (doc_value (a_type a) name (ps ++ props name) d);
        a ← ex_lift (overwrite bs n a);
        put_attr k (with_changed true a);;
        apply_request rest (ps ++ props name) d
      else apply_request rest ps d
  end.

(** The description that [setDatasetAttribute] keeps has the bounds of these properties. *)
Definition bounds_of (ps : list property) (info : RangeValueInfo) : Prop := maxRange info = max_of ps /\ minRange info = min_of ps.

Lemma last_prop_app {X} (kind : property -> option X) (x : X) ps p :
  default x (last_prop kind (ps ++ [p])) = match kind p with Some y => y | None => default x (last_prop kind ps) end.
Proof. unfold last_prop. rewrite omap_app. simpl. destruct (kind p); [by rewrite last_snoc|by rewrite app_nil_r]. Qed.

Lemma bounds_of_read name ps info :
  bounds_of ps info -> bounds_of (ps ++ props name) (getAttributeRangeValueInfo lex_of_num lex_of_double props name info).
Proof.
  unfold getAttributeRangeValueInfo. generalize (props name). intros qs. revert ps info.
  induction qs as [|q qs IH]; intros ps info Hb; [by rewrite app_nil_r|]. rewrite cons_middle, app_assoc. apply IH.
  destruct Hb as [H1 H2]. unfold bounds_of, max_of, min_of. rewrite !last_prop_app. by destruct q.
Qed.

Lemma check_range_spec ltb lo hi t v ps info :
  bounds_of ps info -> limits t [] = Ret (lo, hi) -> (forall a b, admitted t v a b = negb (ltb v a || ltb b v)) ->
  check_range lexical_cast ltb lo hi t v info = number_checked t v ps.
Proof.
  intros [H1 H2] Hl Ha. unfold check_range, number_checked, limits in *. cbv zeta. rewrite H1, H2. rewrite decide_True in Hl by done.
  destruct (decide (max_of ps = [])).
  - rewrite Hl. simpl_out. rewrite Ha. by destruct (_ || _).
  - destruct (lexical_cast t (max_of ps)), (lexical_cast t (min_of ps)); simpl_out; try done. rewrite Ha. by destruct (_ || _).
Qed.

Lemma admitted_int v a b : (a <=? v) && (v <=? b) = negb ((v <? a) || (b <? v)).
Proof. by rewrite negb_orb, !Z.leb_antisym. Qed.

Lemma check_string_range_spec v ps info : bounds_of ps info -> check_string_range v info = string_checked v ps.
Proof.
  intros [H1 H2]. unfold check_string_range, string_checked, str_ltb. rewrite H1, H2.
  assert (str_leb [] v = true) as Hnil by (by destruct v).
  destruct (bool_decide_reflect (min_of ps = [])) as [->|_]; destruct (bool_decide_reflect (max_of ps = [])); rewrite ?Hnil; simpl; try done.
  - by destruct (str_leb v (max_of ps)).
  - by destruct (str_leb (min_of ps) v).
  - by destruct (str_leb (min_of ps) v), (str_leb v (max_of ps)).
Qed.

Lemma getter_inj {X} (f : X -> wres) (c : outcome (X * CDataWrapper)) (o : outcome X) W' :
  (forall x y, f x = f y -> x = y) ->
  res f c = (x ← (x ← o; mret (f x)); mret (x, W')) -> c = (x ← o; mret (x, W')).
Proof.
  intros Hf E. destruct c as [[x W]|e|], o as [y|e'|]; simpl in *; try done; try (by simplify_eq).
  injection E as E1 E2. apply Hf in E1. by subst.
Qed.

Context {C : Type} `{SharedCacheInterface C}.

Lemma foreign_bind {X Y} (c : outcome (X * CDataWrapper)) (o : outcome X) W' (k : X * CDataWrapper -> EX (@ControlUnit C) Y) u :
  c = (x ← o; mret (x, W')) ->
  (foreign c ≫= k) u = match strict o with Ret x => k (x, W') u | _ => (Fault, u) end.
Proof. intros ->. by destruct o. Qed.

Lemma getter_spec {X} (o : wop) (f : X -> wres) c (r : outcome X) d vs W :
  holds d vs W -> fits d -> add_of o = None -> o <> Reset -> (forall x y, f x = f y -> x = y) ->
  exec junk o W = res f c -> result o d = (x ← r; mret (f x)) ->
  exists W', holds d vs W' /\ c = (x ← r; mret (x, W')).
Proof.
  intros HW Hf Ho Hr Hinj He Hs. destruct (getter_refines junk o d vs W HW Hf Ho Hr) as (W' & HW' & E).
  exists W'. split; [done|]. apply (getter_inj f); [done|]. by rewrite <- He, E, Hs.
Qed.

(** Read a field with a getter: [r] is what the document gives. *)
Ltac use_getter o f c r :=
  match goal with HW : holds ?d ?vs ?W, Hf : fits ?d |- _ =>
    let W' := fresh "W'" in let HW' := fresh "HW'" in let E := fresh "E" in
    destruct (getter_spec o f c r d vs W HW Hf) as (W' & HW' & E); try done; [by intros ?? [=]|];
    exists W'; split; [done|]; rewrite (foreign_bind _ _ _ _ _ E)
  end.

Lemma request_value_spec t name ps info d vs W (u : @ControlUnit C) :
  bounds_of ps info -> holds d vs W -> fits d -> exists W', holds d vs W' /\
    request_value junk lexical_cast t name info W u =
      match doc_value t name ps d with
      | Ret (bs, n) => (Ret (bs, n, W'), u)
      | Throw e => (Throw e, u)
      | Fault => (Fault, u)
      end.
Proof.
  intros Hb HW Hf. destruct t; unfold request_value, doc_value.
  - use_getter (GetInt32 name) RInt (getInt32Value junk name W) (as_int 32 (doc_find name d)).
    destruct (as_int 32 (doc_find name d)) as [n| |]; try done. unfold ex_lift, mbind, EX_bind. simpl.
    rewrite (check_range_spec Z.ltb _ _ TYPE_INT32 n ps info); [|exact Hb|reflexivity|intros a b; apply admitted_int]. by destruct (number_checked _ _ _).
  - use_getter (GetInt64 name) RInt (getInt64Value junk name W) (as_int 64 (doc_find name d)).
    destruct (as_int 64 (doc_find name d)) as [n| |]; try done. unfold ex_lift, mbind, EX_bind. simpl.
    rewrite (check_range_spec Z.ltb _ _ TYPE_INT64 n ps info); [|exact Hb|reflexivity|intros a b; apply admitted_int]. by destruct (number_checked _ _ _).
  - use_getter (GetDouble name) RInt (getDoubleValue junk name W) (field_spec as_double (doc_find name d)).
    destruct (field_spec as_double (doc_find name d)) as [n| |]; try done. unfold ex_lift, mbind, EX_bind. simpl.
    rewrite (check_range_spec double_ltb _ _ TYPE_DOUBLE n ps info); [|exact Hb|reflexivity|intros a b; symmetry; apply negb_orb]. by destruct (number_checked _ _ _).
  - use_getter (GetString name) RBytes (getStringValue junk name W) (field_spec as_string (doc_find name d)).
    destruct (field_spec as_string (doc_find name d)); try done. unfold ex_lift, mbind, EX_bind. simpl.
    rewrite (check_string_range_spec _ ps) by done. by destruct (string_checked _ _).
  - use_getter (GetBinary name) RBin (getBinaryValue junk name W) (Ret (as_binary (doc_find name d))). done.
  - use_getter (GetBool name) CDataWrapper.RBool (getBoolValue junk name W) (field_spec as_bool (doc_find name d)).
    by destruct (field_spec as_bool (doc_find name d)).
Qed.

Lemma doc_value_pos t name ps d bs n : doc_value t name ps d = Ret (bs, n) -> 0 <= n.
Proof.
  assert (forall z, 0 <= u32 z) as Hu by (intros z; apply (uwrap_range 32 z); lia).
  intros E. destruct t; cbn [doc_value] in E; repeat (apply outcome_bind_inv in E as (? & _ & E));
    unfold mret, outcome_ret in E; injection E as _ <-; first [lia|apply Hu].
Qed.

Lemma agree_upd_id (c : C) A Hs d : agree c A Hs -> agree c (upd d (A d) A) Hs.
Proof. intros Ha d'. unfold upd. case_decide; subst; apply Ha. Qed.
Lemma agree_upd_upd (c : C) A Hs d l l' : agree c (upd d l' (upd d l A)) Hs -> agree c (upd d l' A) Hs.
Proof. intros Ha d'. specialize (Ha d'). unfold upd in *. by case_decide. Qed.

Lemma setValue_spec (c : C) A Hs d k p a bs n :
  agree c A Hs -> Hs d !! k = Some p -> A d !! k = Some a -> 0 <= n ->
  match overwrite bs n a with
  | Ret a' => exists c', on_domain d (setValue p bs n true) c = (Ret true, c') /\
      agree c' (upd d (<[k := with_changed true a']> (A d)) A) Hs
  | _ => exists c', on_domain d (setValue p bs n true) c = (Fault, c')
  end.
Proof.
  intros Ha Hp Hk Hn. pose proof (setValue_represents _ _ _ k p a bs n true (Ha d) Hp Hk Hn) as Hv.
  destruct (overwrite bs n a) as [a'|e|].
  - destruct Hv as (s' & E & R). eexists. split; [by apply on_domain_eq|]. intros d'. unfold upd.
    destruct (decide (d' = d)) as [->|Hne]; [by rewrite get_put_same|]. rewrite get_put_other by done. apply Ha.
  - eexists. by apply on_domain_eq.
  - eexists. by apply on_domain_eq.
Qed.

(** The loop does to the cache what the request does to the attributes. *)
Lemma set_attributes_spec names : forall ps info (u : @ControlUnit C) A Hs d vs W,
  bounds_of ps info -> agree (attribute_value_shared_cache u) A Hs -> holds d vs W -> fits d ->
  exists c, set_attributes junk lexical_cast lex_of_num lex_of_double props names info W u =
      ((apply_request names ps d (A SVD_INPUT)).1, set_cache c u) /\
    ((apply_request names ps d (A SVD_INPUT)).1 <> Fault ->
       agree c (upd SVD_INPUT (apply_request names ps d (A SVD_INPUT)).2 A) Hs).
Proof.
  induction names as [|name names IH]; intros ps info u A Hs d vs W Hb Ha HW Hf.
  { exists (attribute_value_shared_cache u). rewrite set_cache_id. split; [done|]. intros _. by apply agree_upd_id. }
  cbn [set_attributes apply_request].
  destruct (getter_spec (HasKey name) CDataWrapper.RBool (hasKey junk name W) (Ret (bool_decide (is_Some (doc_find name d)))) d vs W HW Hf)
    as (W1 & HW1 & E1); try done; [by intros ?? [=]|].
  rewrite (foreign_bind _ _ _ _ _ E1). cbn [strict]. destruct (decide (is_Some (doc_find name d))) as [Hk|Hk].
  2:{ rewrite bool_decide_eq_false_2 by done. by eapply IH. }
  rewrite bool_decide_eq_true_2 by done.
  destruct (getVariableValue_spec SVD_INPUT name A _ Hs Ha) as [(Hn & c1 & E2 & Hs1)|(k & a & p & c1 & Hka & Hna & Hp & Ef & E2 & Hs1)].
  { rewrite (ex_bind_throw _ _ _ _ _ (on_cache_eq _ _ _ _ E2)).
    destruct (find_name_spec name (A SVD_INPUT)) as [[_ E]|(k & a & Hka & <- & _)].
    - rewrite (ex_bind_throw _ _ _ _ _ E). exists c1. split; [done|]. intros _. apply agree_upd_id. by eapply agree_same.
    - exfalso. apply Hn, list_elem_of_fmap. exists a. split; [done|by eapply list_elem_of_lookup_2]. }
  rewrite (ex_bind_ret _ _ _ _ _ (on_cache_eq _ _ _ _ E2)), (ex_bind_ret _ _ _ _ _ Ef).
  pose proof (agree_same _ _ _ _ Ha Hs1) as Ha1.
  destruct (deref_spec SVD_INPUT A c1 Hs k p a Ha1 Hp Hka) as (v & c2 & E3 & Hs2 & Ho).
  pose proof (agree_same _ _ _ _ Ha1 Hs2) as Ha2.
  erewrite (ex_bind_ret (on_cache _)) by (apply on_cache_eq; exact E3). rewrite (o_type _ _ _ Ho).
  erewrite (ex_bind_ret (attr_at k)) by (rewrite attr_at_spec, Hka; reflexivity).
  pose proof (bounds_of_read name ps info Hb) as Hb1.
  destruct (request_value_spec (a_type a) name _ _ d vs W1 (set_cache c2 (set_cache c1 u)) Hb1 HW1 Hf) as (W2 & HW2 & E4).
  destruct (doc_value _ _ _ d) as [[bs n]|e|] eqn:Ev.
  2:{ rewrite (ex_bind_throw _ _ _ _ _ E4). exists c2. split; [done|]. intros _. by apply agree_upd_id. }
  2:{ rewrite (ex_bind_fault _ _ _ _ E4). by exists c2. }
  rewrite (ex_bind_ret _ _ _ _ _ E4), (ex_bind_ret (ex_lift (Ret (bs, n))) _ _ _ _ eq_refl).
  pose proof (setValue_spec c2 A Hs SVD_INPUT k p a bs n Ha2 Hp Hka (doc_value_pos _ _ _ _ _ _ Ev)) as Hv.
  destruct (overwrite bs n a) as [a'|e|] eqn:Eo; [|by apply overwrite_no_throw in Eo|].
  - destruct Hv as (c3 & E5 & Ha3). erewrite (ex_bind_ret (on_cache _)) by (apply on_cache_eq; exact E5).
    rewrite (ex_bind_ret (ex_lift (Ret a')) _ _ _ _ eq_refl). erewrite (ex_bind_ret (put_attr _ _)) by reflexivity.
    destruct (IH _ _
      (set_cache c3 (set_cache c2 (set_cache c1 u))) _ Hs d vs W2 Hb1 Ha3 HW2 Hf) as (c4 & E6 & Ha4).
    rewrite upd_eq in E6, Ha4. exists c4. split; [exact E6|]. intros Hne. eapply agree_upd_upd, Ha4, Hne.
  - destruct Hv as (c3 & E5). erewrite (ex_bind_fault (on_cache _)) by (apply on_cache_eq; exact E5). by exists c3.
Qed.

(** The handlers of the base class do nothing. *)
Definition unitInputAttributeHandler : EX (@ControlUnit C) unit := mret tt.

Context (key : list Z).

Lemma ready_input u A Hs c l' :
  ready u A Hs -> agree c (upd SVD_INPUT l' A) Hs -> ready (set_cache c u) (upd SVD_INPUT l' A) Hs.
Proof.
  intros Hr Ha. apply (ready_cache _ A); [done|done|]. destruct (y_stamp _ _ _ Hr) as (l & a & p & E & Hn & Ht & _).
  exists l, a. by rewrite !upd_ne.
Qed.

Lemma pushInput_spec u A Hs now fd :
  ready u A Hs -> fields (A SVD_INPUT) = Some fd ->
  fits (doc_app (header key DPCK_TIMESTAMP now DPCK_DATASET_TYPE_INPUT) fd) ->
  exists u', pushInputDataset junk key now u = (Ret tt, u') /\ ready u' A Hs /\
    pushed u' = pushed u ++ if existsb a_changed (A SVD_INPUT) then
      [(key ++ INPUT_DATASE_PREFIX, Some (enc_doc (doc_app (header key DPCK_TIMESTAMP now DPCK_DATASET_TYPE_INPUT) fd)))] else [].
Proof.
  intros Hr Hfd Hf. destruct (hasChanged_spec u A Hs SVD_INPUT (y_cache _ _ _ Hr)) as (c1 & E1 & Hs1).
  unfold pushInputDataset. rewrite (ex_bind_ret _ _ _ _ _ E1). pose proof (ready_same_sets _ _ _ _ Hr Hs1) as Hr1.
  destruct (existsb a_changed (A SVD_INPUT)); cbn [negb].
  - destruct (push_dataset_spec junk key (set_cache c1 u) A Hs SVD_INPUT cache_input_attribute_vector DPCK_DATASET_TYPE_INPUT
      INPUT_DATASE_PREFIX now fd) as (c2 & E2 & Hs2); try done; [apply Hr1|apply Hr1|].
    eexists. split; [exact E2|]. split; [|done]. by apply ready_pushed, ready_same_sets.
  - eexists. split; [reflexivity|]. split; [done|]. by rewrite app_nil_r.
Qed.

(** [C3] Serving a request, with the handlers of the base class, which do nothing: the input
    attributes become what the request makes of them, taken in the order of the
    description and checked against the bounds of the properties read so far (those of the
    attributes named before it included), and if every text among them is terminated within
    its buffer and the document fits its limit, the new input data set is published.  When a
    value is rejected the exception reaches the caller, nothing is published, and the
    attributes before the rejected one keep their new values.  A value or bound that is
    not of its type is no [CException] and ends the process. *)
Theorem request_is_served input_names uninit u A Hs d vs W now dev :
  ready u A Hs -> holds d vs W -> fits d -> doc_find DEVICE_ID d = Some (VString dev) ->
  let serve := setDatasetAttribute junk lexical_cast lex_of_num lex_of_double props input_names key
    unitInputAttributeHandler unitInputAttributeHandler uninit now W u in
  match apply_request input_names [] d (A SVD_INPUT) with
  | (Ret _, l') => forall fd, fields l' = Some fd ->
      fits (doc_app (header key DPCK_TIMESTAMP now DPCK_DATASET_TYPE_INPUT) fd) ->
      exists u', serve = (Ret tt, u') /\ ready u' (upd SVD_INPUT l' A) Hs /\
        pushed u' = pushed u ++ if existsb a_changed l' then
          [(key ++ INPUT_DATASE_PREFIX, Some (enc_doc (doc_app (header key DPCK_TIMESTAMP now DPCK_DATASET_TYPE_INPUT) fd)))] else []
  | (Throw e, l') => exists u', serve = (Throw e, u') /\ ready u' (upd SVD_INPUT l' A) Hs /\ pushed u' = pushed u
  | (Fault, _) => exists u', serve = (Fault, u')
  end.
Proof.
  intros Hr HW Hf Hd serve.
  destruct (getter_spec (HasKey DEVICE_ID) CDataWrapper.RBool (hasKey junk DEVICE_ID W) (Ret (bool_decide (is_Some (doc_find DEVICE_ID d)))) d vs W HW Hf)
    as (W1 & HW1 & E1); try done; [by intros ?? [=]|].
  destruct (getter_spec (GetString DEVICE_ID) RBytes (getStringValue junk DEVICE_ID W1) (field_spec as_string (doc_find DEVICE_ID d)) d vs W1 HW1 Hf)
    as (W2 & HW2 & E2); try done; [by intros ?? [=]|].
  destruct (set_attributes_spec input_names [] (mkInfo uninit.1 [] [] [] uninit.2) u A Hs d vs W2 ltac:(done) (y_cache _ _ _ Hr) HW2 Hf) as (c & E3 & Ha).
  assert (serve = ex_catch ((set_attributes junk lexical_cast lex_of_num lex_of_double props input_names
      (mkInfo uninit.1 [] [] [] uninit.2) W2;; pushInputDataset junk key now);; unitInputAttributeHandler)
      (fun e => unitInputAttributeHandler;; ex_lift (Throw e)) u) as ->.
  { unfold serve, setDatasetAttribute, ex_catch. erewrite (ex_bind_ret unitInputAttributeHandler) by reflexivity.
    rewrite (foreign_bind _ _ _ _ _ E1). rewrite Hd. cbn [strict]. rewrite bool_decide_eq_true_2 by eauto.
    unfold mbind at 1, EX_bind at 1. rewrite (foreign_bind _ _ _ _ _ E2). rewrite Hd. done. }
  destruct (apply_request input_names _ d (A SVD_INPUT)) as [r l']. cbn [fst snd] in E3, Ha. unfold ex_catch.
  destruct r as [x|e|].
  - intros fd Hfd Hfit. pose proof (ready_input _ _ _ _ _ Hr (Ha ltac:(done))) as Hr'.
    destruct (pushInput_spec _ _ Hs now fd Hr') as (u' & E4 & Hr4 & Hp4); [by rewrite upd_eq|done|].
    rewrite upd_eq in Hp4. erewrite (ex_bind_ret (_ ;; _)) by (rewrite (ex_bind_ret _ _ _ _ _ E3); exact E4).
    by exists u'.
  - erewrite (ex_bind_throw (_ ;; _)) by (rewrite (ex_bind_throw _ _ _ _ _ E3); reflexivity).
    eexists. split; [reflexivity|]. split; [|done]. apply ready_input; [done|by apply Ha].
  - erewrite (ex_bind_fault (_ ;; _)) by (rewrite (ex_bind_fault _ _ _ _ E3); reflexivity). eauto.
Qed.

End Requests.

(** ** What the initialisation leaves in the cache *)

Section Initialisation.
Context (lexical_cast : DataType -> list Z -> option Z) (lex_of_num lex_of_double : Z -> list Z).
Context (props : list Z -> list property).
Context {C : Type} `{SharedCacheInterface C}.

Notation info_of name := (getAttributeRangeValueInfo lex_of_num lex_of_double props name reset_info).

(** An attribute with its default value. *)
Definition init_attr (name : list Z) : outcome attr :=
  let info := info_of name in
  let a := mkAttr name (valueType info) (zeros (type_size (valueType info) (maxSize info))) false in
  if decide (defaultValue info = []) then Ret a
  else
    b ← strict (default_bytes lexical_cast info);
    match b with
    | Some (val, n) => a ← overwrite val n a; mret (with_changed true a)
    | None => mret a
    end.

Fixpoint init_list (attribute_names : list (list Z)) : outcome (list attr) :=
  match attribute_names with
  | [] => mret []
  | name :: rest => a ← init_attr name; l ← init_list rest; mret (a :: l)
  end.

Lemma maxSize_pos name : 0 <= maxSize (info_of name).
Proof.
  assert (forall ps info, 0 <= maxSize info -> 0 <= maxSize (fold_left (apply_prop lex_of_num lex_of_double) ps info)) as Hf.
  { intros ps. induction ps as [|p ps IH]; intros info Hi; [done|]. simpl. apply IH. destruct p; simpl; try done.
    apply (uwrap_range 32 n). lia. }
  by apply Hf.
Qed.

Lemma default_bytes_pos info bs n : default_bytes lexical_cast info = Ret (Some (bs, n)) -> 0 <= n.
Proof.
  unfold default_bytes. intros E. destruct (valueType info); repeat case_match; simplify_eq; try lia.
  apply (uwrap_range 32). lia.
Qed.

(** A call on a set that gives no value. *)
Lemma on_cache_sim {X} d (m : AM X) f (u : @ControlUnit C) A Hs x l' :
  agree (attribute_value_shared_cache u) A Hs -> sim m f (A d) -> f (A d) = (Ret x, l') ->
  exists c Hs', on_cache (on_domain d m) u = (Ret x, set_cache c u) /\ agree c (upd d l' A) Hs' /\ extends Hs Hs'.
Proof.
  intros Ha Hm Ef. destruct (on_domain_simC d m f A Hm _ Hs Ha) as (c & E & R).
  unfold on_attrs, ex_zoom in E, R. rewrite Ef in E, R. simpl in E, R. destruct R as (Hs' & Ha' & He); [done|].
  exists c, Hs'. split; [by apply on_cache_eq|done].
Qed.

Lemma add_attr_new name size type l :
  name ∉ names l -> add_attr name size type l = l ++ [mkAttr name type (zeros (type_size type size)) false].
Proof. intros Hn. unfold add_attr. by rewrite decide_False. Qed.

Lemma set_at_last val n l a a' : overwrite val n a = Ret a' ->
  set_at (length l) val n (l ++ [a]) = (Ret tt, l ++ [with_changed true a']).
Proof.
  intros Ho. unfold set_at, mbind, EX_bind. rewrite attr_at_spec, list_lookup_middle by done. simpl. rewrite Ho. simpl.
  unfold put_attr, ex_modify. by rewrite insert_app_r_alt, Nat.sub_diag.
Qed.

Lemma overwrite_name val n a a' : overwrite val n a = Ret a' -> a_name a' = a_name a.
Proof. unfold overwrite. intros E. repeat case_decide; by simplify_eq. Qed.

Lemma init_attr_name name a : init_attr name = Ret a -> a_name a = name.
Proof.
  unfold init_attr. intros Hi. case_decide; [by simplify_eq|]. apply outcome_bind_inv in Hi as ([[val n]|] & _ & Hi);
    [|unfold mret, outcome_ret in Hi; by simplify_eq].
  apply outcome_bind_inv in Hi as (a' & Ho & Hi). apply overwrite_name in Ho. unfold mret, outcome_ret in Hi. by simplify_eq/=.
Qed.

Lemma set_default_spec d name (u : @ControlUnit C) A Hs l a :
  let info := info_of name in
  agree (attribute_value_shared_cache u) A Hs -> init_attr name = Ret a ->
  A d = l ++ [mkAttr name (valueType info) (zeros (type_size (valueType info) (maxSize info))) false] ->
  exists c Hs', set_default lexical_cast d info (Z.of_nat (length l)) u = (Ret tt, set_cache c u) /\
    agree c (upd d (l ++ [a]) A) Hs' /\ extends Hs Hs'.
Proof.
  intros info Ha Hi El. unfold init_attr in Hi. fold info in Hi. unfold set_default.
  assert (forall a', a' = mkAttr name (valueType info) (zeros (type_size (valueType info) (maxSize info))) false ->
    exists c Hs', @mret _ (EX_ret ControlUnit) unit tt u = (Ret tt, set_cache c u) /\
      agree c (upd d (l ++ [a']) A) Hs' /\ extends Hs Hs') as Hsame.
  { intros a' ->. rewrite <- El. exists (attribute_value_shared_cache u), Hs. rewrite set_cache_id.
    split; [done|]. split; [|done]. by apply agree_upd_id. }
  destruct (decide (defaultValue info = [])) as [_|_]; [apply Hsame; by simplify_eq|].
  apply outcome_bind_inv in Hi as (b & Eb & Hi). unfold foreign.
  destruct (default_bytes lexical_cast info) as [b0|e|] eqn:Ed; simplify_eq/=. ex_step. destruct b as [[val n]|].
  - destruct (overwrite val n _) as [a'|e|] eqn:Eo; cbn in Hi; unfold mret, outcome_ret in Hi; simplify_eq.
    eapply (on_cache_sim d); [done| |].
    + apply sim_set. by eapply default_bytes_pos.
    + rewrite El. by apply set_at_last.
  - apply Hsame. unfold mret, outcome_ret in Hi. by simplify_eq.
Qed.

(** Declaring the attributes of a domain. *)
Lemma init_attributes_spec d ns : forall (u : @ControlUnit C) A Hs l',
  agree (attribute_value_shared_cache u) A Hs -> NoDup ns -> (forall n, n ∈ ns -> n ∉ names (A d)) ->
  Z.of_nat (length (A d) + length ns) < 2 ^ 16 -> init_list ns = Ret l' ->
  exists c Hs', init_attributes lexical_cast lex_of_num lex_of_double props d (Z.of_nat (length (A d))) ns u = (Ret tt, set_cache c u) /\
    agree c (upd d (A d ++ l') A) Hs' /\ extends Hs Hs'.
Proof.
  induction ns as [|name ns IH]; intros u A Hs l' Ha Hnd Hfresh Hl Hi.
  { simpl in Hi. injection Hi as <-. exists (attribute_value_shared_cache u), Hs. rewrite set_cache_id, app_nil_r.
    split; [done|]. split; [|done]. by apply agree_upd_id. }
  cbn [init_list] in Hi. apply outcome_bind_inv in Hi as (a & Hia & Hi). apply outcome_bind_inv in Hi as (l1 & Hil & Hi).
  injection Hi as <-. apply NoDup_cons in Hnd as [Hni Hnd]. simpl in Hl.
  cbn [init_attributes]. set (info := info_of name) in *.
  assert (name ∉ names (A d)) as Hn by (apply Hfresh; constructor).
  pose (a0 := mkAttr name (valueType info) (zeros (type_size (valueType info) (maxSize info))) false).
  destruct (on_cache_sim d _ _ u A Hs tt (A d ++ [a0]) Ha (sim_add name (maxSize info) (valueType info) (A d) (maxSize_pos name) ltac:(lia)))
    as (c1 & Hs1 & E1 & Ha1 & He1).
  { unfold ex_modify. by rewrite add_attr_new. }
  rewrite (ex_bind_ret _ _ _ _ _ E1).
  destruct (set_default_spec d name (set_cache c1 u) _ Hs1 (A d) a Ha1 Hia) as (c2 & Hs2 & E2 & Ha2 & He2); [by rewrite upd_eq|].
  rewrite (ex_bind_ret _ _ _ _ _ E2). apply agree_upd_upd in Ha2.
  assert (a_name a = name) as Ean by by eapply init_attr_name.
  destruct (IH (set_cache c2 (set_cache c1 u)) _ Hs2 l1 Ha2 Hnd) as (c3 & Hs3 & E3 & Ha3 & He3).
  - intros n Hn1. rewrite upd_eq. unfold names. rewrite fmap_app, elem_of_app. simpl. rewrite Ean, list_elem_of_singleton.
    intros [Hx| ->]; [|done]. apply (Hfresh n); [by constructor|done].
  - rewrite upd_eq, length_app. simpl. lia.
  - done.
  - rewrite upd_eq in E3, Ha3. rewrite length_app, Nat2Z.inj_add in E3. exists c3, Hs3. split; [exact E3|].
    rewrite <- app_assoc in Ha3. split; [by apply agree_upd_upd in Ha3|]. etrans; [done|]. by etrans.
Qed.

Definition stamp_attr : attr := mkAttr DPCK_TIMESTAMP TYPE_INT64 (zeros 8) false.
Definition with_stamp (p : nat) (u : @ControlUnit C) : ControlUnit :=
  mkCU (attribute_value_shared_cache u) (Some p) (cache_output_attribute_vector u)
    (cache_input_attribute_vector u) (cache_custom_attribute_vector u) (cache_system_attribute_vector u) (pushed u).

Lemma find_name_last name l a : name ∉ names l -> a_name a = name -> find_name name (l ++ [a]) = (Ret (length l), l ++ [a]).
Proof.
  intros Hn Ha. destruct (find_name_spec name (l ++ [a])) as [[Hx _]|(k & b & Hk & Hb & E & _)].
  - exfalso. apply Hx. unfold names. rewrite fmap_app, elem_of_app. right. simpl. rewrite Ha. by constructor.
  - apply lookup_snoc_inv in Hk as [Hk|[-> _]]; [|done]. exfalso. apply Hn, list_elem_of_fmap. exists b.
    split; [done|by eapply list_elem_of_lookup_2].
Qed.

Lemma completeOutput_spec (u : @ControlUnit C) A Hs :
  agree (attribute_value_shared_cache u) A Hs -> DPCK_TIMESTAMP ∉ names (A SVD_OUTPUT) ->
  Z.of_nat (length (A SVD_OUTPUT)) + 1 < 2 ^ 16 ->
  exists c Hs' p, completeOutputAttribute u = (Ret tt, with_stamp p (set_cache c u)) /\
    agree c (upd SVD_OUTPUT (A SVD_OUTPUT ++ [stamp_attr]) A) Hs' /\ Hs' SVD_OUTPUT !! length (A SVD_OUTPUT) = Some p /\ extends Hs Hs'.
Proof.
  intros Ha Hn Hl. unfold completeOutputAttribute.
  destruct (on_cache_sim SVD_OUTPUT _ _ u A Hs tt (A SVD_OUTPUT ++ [stamp_attr]) Ha (sim_add DPCK_TIMESTAMP 8 TYPE_INT64 _ ltac:(lia) Hl))
    as (c1 & Hs1 & E1 & Ha1 & He1).
  { unfold ex_modify. by rewrite add_attr_new. }
  rewrite (ex_bind_ret _ _ _ _ _ E1). pose proof (Ha1 SVD_OUTPUT) as R. rewrite upd_eq in R.
  pose proof (find_name_last DPCK_TIMESTAMP (A SVD_OUTPUT) stamp_attr Hn eq_refl) as Ef.
  assert ((A SVD_OUTPUT ++ [stamp_attr]) !! length (A SVD_OUTPUT) = Some stamp_attr) as Hk by by apply list_lookup_middle.
  destruct (handle_at _ _ _ _ _ R Hk) as [p Hp].
  destruct (on_domain_read SVD_OUTPUT (i ← getIndexForName DPCK_TIMESTAMP; getValueSettingForIndex i) c1 (Ret p)) as (c2 & E2 & Hs2).
  { rewrite (ex_bind_ret _ _ _ _ _ (getIndex_find _ _ _ _ _ R Ef)). by apply (getValueSetting_spec _ _ _ _ _ R). }
  erewrite ex_bind_ret by (apply on_cache_eq; exact E2). exists c2, Hs1, p. split; [reflexivity|].
  split; [by eapply agree_same|]. done.
Qed.

(** The attributes of the system data set; the buffer of the unit type is as long as the text. *)
Definition unit_type_attr (control_unit_type : list Z) : attr :=
  mkAttr DP_SYS_UNIT_TYPE TYPE_STRING (if decide (control_unit_type = []) then None else Some control_unit_type) true.
Definition system_attrs (control_unit_type : list Z) : list attr :=
  [ mkAttr DP_SYS_HEARTBEAT TYPE_INT64 (zeros 8) false; unit_type_attr control_unit_type;
    mkAttr DP_SYS_LAST_ERROR TYPE_INT32 (zeros 4) false;
    mkAttr DP_SYS_LAST_ERROR_MESSAGE TYPE_STRING (zeros 255) false;
    mkAttr DP_SYS_LAST_ERROR_DOMAIN TYPE_STRING (zeros 255) false ].

Lemma overwrite_unit_type t name :
  overwrite (t ++ [0]) (Z.of_nat (length t)) (mkAttr name TYPE_STRING (zeros (Z.of_nat (length t))) false) =
    Ret (mkAttr name TYPE_STRING (if decide (t = []) then None else Some t) false).
Proof.
  unfold overwrite. pose proof (zeros_length (Z.of_nat (length t)) ltac:(lia)) as Hz. unfold a_data. cbn [a_buf]. rewrite Hz.
  rewrite Z.min_id, Nat2Z.id. destruct t as [|x t]; [done|]. rewrite !decide_False by (rewrite ?length_app; simpl; done || lia).
  unfold with_buf. simpl. rewrite take_app_length. do 4 f_equal. rewrite drop_ge; [by rewrite app_nil_r|].
  rewrite length_replicate. lia.
Qed.

Lemma add_step name size type (s : AttributesSetting) l h :
  represents s l h -> 0 <= size -> Z.of_nat (length l) + 1 < 2 ^ 16 -> name ∉ names l ->
  exists s' h', addAttribute name size type s = (Ret tt, s') /\
    represents s' (l ++ [mkAttr name type (zeros (type_size type size)) false]) h'.
Proof.
  intros R Hs Hl Hn. destruct (addAttribute_represents s l h name size type R Hs Hl) as (s' & h' & E & R').
  rewrite add_attr_new in R' by done. eauto.
Qed.

Lemma system_spec control_unit_type (u : @ControlUnit C) A Hs :
  agree (attribute_value_shared_cache u) A Hs -> A SVD_SYSTEM = [] -> Z.of_nat (length control_unit_type) < 2 ^ 32 ->
  exists c Hs', initSystemAttributeOnSharedAttributeCache control_unit_type u = (Ret tt, set_cache c u) /\
    agree c (upd SVD_SYSTEM (system_attrs control_unit_type) A) Hs' /\
    (forall d, d <> SVD_SYSTEM -> Hs' d = Hs d).
Proof.
  intros Ha El Ht. pose proof (Ha SVD_SYSTEM) as R. rewrite El in R.
  assert (forall l n, bool_decide (n ∉ names l) = true -> n ∉ names l) as Hdec by (intros l n; apply bool_decide_eq_true).
  destruct (add_step DP_SYS_HEARTBEAT 0 TYPE_INT64 _ _ _ R) as (s1 & h1 & E1 & R1); [lia|simpl; lia|by apply Hdec|].
  destruct (add_step DP_SYS_UNIT_TYPE (Z.of_nat (length control_unit_type)) TYPE_STRING _ _ _ R1) as (s2 & h2 & E2 & R2);
    [lia|simpl; lia|by apply Hdec|].
  destruct (sim_set 1 (control_unit_type ++ [0]) (Z.of_nat (length control_unit_type)) _ ltac:(lia) _ _ R2) as (s3 & E3 & R3).
  pose proof (set_at_last _ _ [mkAttr DP_SYS_HEARTBEAT TYPE_INT64 (zeros 8) false] _ _ (overwrite_unit_type control_unit_type DP_SYS_UNIT_TYPE)) as Es.
  cbn [app length] in Es. cbn [app type_size] in E3, R3. rewrite Es in E3, R3. destruct R3 as [h3 R3]; [done|].
  destruct (add_step DP_SYS_LAST_ERROR 0 TYPE_INT32 _ _ _ R3) as (s4 & h4 & E4 & R4); [lia|simpl; lia|by apply Hdec|].
  destruct (add_step DP_SYS_LAST_ERROR_MESSAGE 255 TYPE_STRING _ _ _ R4) as (s5 & h5 & E5 & R5); [lia|simpl; lia|by apply Hdec|].
  destruct (add_step DP_SYS_LAST_ERROR_DOMAIN 255 TYPE_STRING _ _ _ R5) as (s6 & h6 & E6 & R6); [lia|simpl; lia|by apply Hdec|].
  unfold initSystemAttributeOnSharedAttributeCache. rewrite uwrap_small by (unfold in_u; lia).
  exists (putSharedDomain SVD_SYSTEM s6 (attribute_value_shared_cache u)), (upd SVD_SYSTEM h6 Hs). split.
  - apply on_cache_eq, on_domain_eq. rewrite (ex_bind_ret _ _ _ _ _ E1), (ex_bind_ret _ _ _ _ _ E2).
    erewrite ex_bind_ret by reflexivity. rewrite (r_index _ _ _ R2).
    change (u16 (Z.of_nat (length ([_; _] : list attr)) - 1)) with (Z.of_nat 1).
    rewrite (ex_bind_ret _ _ _ _ _ E3), (ex_bind_ret _ _ _ _ _ E4), (ex_bind_ret _ _ _ _ _ E5). exact E6.
  - split; [|intros d Hd; by rewrite upd_ne]. intros d. unfold upd. destruct (decide (d = SVD_SYSTEM)) as [->|Hne].
    + rewrite get_put_same. exact R6.
    + rewrite get_put_other by done. apply Ha.
Qed.

Lemma pointers_from_spec s l h : represents s l h -> forall n idx, (idx + n <= length h)%nat ->
  pointers_from n (Z.of_nat idx) s = (Ret (take n (drop idx h)), s).
Proof.
  intros R n. induction n as [|n IH]; intros idx Hn; [done|]. cbn [pointers_from].
  destruct (lookup_lt_is_Some_2 h idx) as [p Hp]; [lia|].
  rewrite (ex_bind_ret _ _ _ _ _ (getValueSetting_spec _ _ _ _ _ R Hp)).
  replace (Z.of_nat idx + 1) with (Z.of_nat (S idx)) by lia. rewrite (ex_bind_ret _ _ _ _ _ (IH (S idx) ltac:(lia))).
  by rewrite (drop_S h p idx Hp).
Qed.

Lemma fill_vector_spec d (u : @ControlUnit C) A Hs :
  agree (attribute_value_shared_cache u) A Hs -> exists c,
    fillCachedValueVector d u = (Ret (Hs d), set_cache c u) /\ same_sets (attribute_value_shared_cache u) c.
Proof.
  intros Ha. pose proof (Ha d) as R. destruct (on_domain_read d (n ← getNumberOfAttributes; pointers_from (Z.to_nat n) 0)
    (attribute_value_shared_cache u) (Ret (Hs d))) as (c & E & Hsame).
  - unfold getNumberOfAttributes. ex_step. rewrite (r_index _ _ _ R), Nat2Z.id, <- (r_len _ _ _ R).
    change 0 with (Z.of_nat 0). rewrite (pointers_from_spec _ _ _ R) by lia. by rewrite drop_0, firstn_all.
  - exists c. split; [by apply on_cache_eq|done].
Qed.

Lemma init_list_names ns l : init_list ns = Ret l -> names l = ns.
Proof.
  revert l. induction ns as [|n ns IH]; intros l Hi; cbn [init_list] in Hi.
  - unfold mret, outcome_ret in Hi. by simplify_eq.
  - apply outcome_bind_inv in Hi as (a & Ha & Hi). apply outcome_bind_inv in Hi as (l1 & Hl & Hi).
    unfold mret, outcome_ret in Hi. simplify_eq. unfold names. simpl. f_equal; [by apply init_attr_name|]. by apply IH.
Qed.

Lemma agree_ext (c : C) A A' Hs : agree c A Hs -> (forall d, A d = A' d) -> agree c A' Hs.
Proof. intros Ha E d. rewrite <- E. apply Ha. Qed.

(** The attributes after the initialisation. *)
Definition initial_attrs (li lo : list attr) (control_unit_type : list Z) : astate := fun d =>
  match d with
  | SVD_INPUT => li
  | SVD_OUTPUT => lo ++ [stamp_attr]
  | SVD_SYSTEM => system_attrs control_unit_type
  | SVD_CUSTOM => []
  end.

(** A unit before its initialisation. *)
Record blank (u : @ControlUnit C) : Prop := {
  b_cache : agree (attribute_value_shared_cache u) (fun _ => []) (fun _ => []);
  b_output : cache_output_attribute_vector u = [];
  b_input : cache_input_attribute_vector u = [];
  b_custom : cache_custom_attribute_vector u = [];
  b_system : cache_system_attribute_vector u = [] }.

Section Populate.
Context (input_names output_names : list (list Z)) (control_unit_type : list Z) (li lo : list attr).
Context (Hin : NoDup input_names) (Hout : NoDup output_names) (Hts : DPCK_TIMESTAMP ∉ output_names).
Context (Hli : Z.of_nat (length input_names) < 2 ^ 16) (Hlo : Z.of_nat (length output_names) + 1 < 2 ^ 16).
Context (Hui : init_list input_names = Ret li) (Huo : init_list output_names = Ret lo).
Context (Hty : Z.of_nat (length control_unit_type) < 2 ^ 32).

(** Declaring all attributes, and what follows. *)
Lemma declare_spec (u : @ControlUnit C) : blank u -> exists c Hs p, forall k : EX ControlUnit unit,
  (initAttributeOnSharedAttributeCache lexical_cast lex_of_num lex_of_double props SVD_INPUT input_names;;
   initAttributeOnSharedAttributeCache lexical_cast lex_of_num lex_of_double props SVD_OUTPUT output_names;;
   completeOutputAttribute;; completeInputAttribute;;
   initSystemAttributeOnSharedAttributeCache control_unit_type;; k) u = k (with_stamp p (set_cache c u)) /\
  agree c (initial_attrs li lo control_unit_type) Hs /\ Hs SVD_OUTPUT !! length lo = Some p.
Proof.
  intros Hb. unfold initAttributeOnSharedAttributeCache.
  destruct (init_attributes_spec SVD_INPUT input_names u _ _ li (b_cache _ Hb) Hin) as (c1 & Hs1 & E1 & Ha1 & _); [set_solver|done|done|].
  destruct (init_attributes_spec SVD_OUTPUT output_names (set_cache c1 u) _ _ lo Ha1 Hout) as (c2 & Hs2 & E2 & Ha2 & _);
    [rewrite upd_ne by done; set_solver|rewrite upd_ne by done; simpl; lia|done|].
  rewrite (upd_ne SVD_INPUT SVD_OUTPUT) in Ha2 by done. cbn [app] in Ha2.
  pose proof (f_equal length (init_list_names _ _ Huo)) as Hlen. unfold names in Hlen. rewrite length_fmap in Hlen.
  destruct (completeOutput_spec (set_cache c2 (set_cache c1 u)) _ _ Ha2) as (c3 & Hs3 & p & E3 & Ha3 & Hp & _);
    [rewrite upd_eq; by rewrite (init_list_names _ _ Huo)|rewrite upd_eq; lia|].
  rewrite upd_eq in Ha3, Hp.
  destruct (system_spec control_unit_type (with_stamp p (set_cache c3 (set_cache c2 (set_cache c1 u)))) _ Hs3 Ha3) as (c4 & Hs4 & E4 & Ha4 & Ho);
    [by rewrite !upd_ne|done|].
  exists c4, Hs4, p. intros k. split; [|split; [|by rewrite Ho]].
  { rewrite (ex_bind_ret _ _ _ _ _ E1), (ex_bind_ret _ _ _ _ _ E2), (ex_bind_ret _ _ _ _ _ E3).
    erewrite (ex_bind_ret completeInputAttribute) by reflexivity. by rewrite (ex_bind_ret _ _ _ _ _ E4). }
  eapply agree_ext; [exact Ha4|]. by intros [].
Qed.

Lemma init_ready (u : @ControlUnit C) : blank u -> exists u' Hs,
  init_shared_cache lexical_cast lex_of_num lex_of_double props input_names output_names control_unit_type (mret tt) u = (Ret tt, u') /\
  ready u' (initial_attrs li lo control_unit_type) Hs /\ pushed u' = pushed u.
Proof.
  intros Hb. destruct (declare_spec u Hb) as (c & Hs & p & Hk). destruct (Hk (mret tt)) as (_ & Ha & Hp).
  unfold init_shared_cache. rewrite (proj1 (Hk _)). erewrite (ex_bind_ret (mret tt)) by reflexivity.
  set (u0 := with_stamp p (set_cache c u)).
  destruct (fill_vector_spec SVD_OUTPUT u0 _ Hs Ha) as (c1 & E1 & Hs1). pose proof (agree_same _ _ _ _ Ha Hs1) as Ha1.
  destruct (fill_vector_spec SVD_INPUT (set_cache c1 u0) _ Hs Ha1) as (c2 & E2 & Hs2). pose proof (agree_same _ _ _ _ Ha1 Hs2) as Ha2.
  destruct (fill_vector_spec SVD_SYSTEM (set_cache c2 (set_cache c1 u0)) _ Hs Ha2) as (c3 & E3 & Hs3). pose proof (agree_same _ _ _ _ Ha2 Hs3) as Ha3.
  destruct (fill_vector_spec SVD_CUSTOM (set_cache c3 (set_cache c2 (set_cache c1 u0))) _ Hs Ha3) as (c4 & E4 & Hs4).
  rewrite (ex_bind_ret _ _ _ _ _ E1), (ex_bind_ret _ _ _ _ _ E2), (ex_bind_ret _ _ _ _ _ E3), (ex_bind_ret _ _ _ _ _ E4).
  eexists _, Hs. split; [reflexivity|]. destruct Hb as [_ Eo Ei Ec Es]. split; [|done]. split; simpl.
  - by eapply agree_same.
  - by rewrite Eo.
  - by rewrite Ei.
  - by rewrite Ec.
  - by rewrite Es.
  - exists lo, stamp_attr, p. done.
Qed.

(** *** The system data set *)

Lemma c_str_unterminated b : 0 ∉ b -> c_str b = Fault.
Proof.
  intros Hb. unfold c_str. assert (strlen b = Fault) as ->; [|done].
  induction b as [|x b IH]; [done|]. simpl. apply not_elem_of_cons in Hb as [Hx Hb].
  rewrite (proj2 (Z.eqb_neq x 0)) by done. by rewrite IH.
Qed.

Lemma add_pointed_fault junk (u : @ControlUnit C) A Hs d p k a W :
  agree (attribute_value_shared_cache u) A Hs -> Hs d !! k = Some p -> A d !! k = Some a ->
  a_type a = TYPE_STRING -> attr_val a = None -> exists c, add_pointed junk d p W u = (Fault, set_cache c u).
Proof.
  intros Ha Hp Hk Ht Hv. destruct (deref_spec d _ _ _ _ _ _ Ha Hp Hk) as (v & c & E & _ & Ho). exists c.
  unfold add_pointed. rewrite (ex_bind_ret _ _ _ _ _ (on_cache_eq _ _ _ _ E)). unfold foreign.
  rewrite (add_cached_spec _ _ _ _ _ Ho), Hv by (by rewrite Ht). done.
Qed.

Lemma system_push_fault junk key now (u : @ControlUnit C) A Hs :
  ready u A Hs -> A SVD_SYSTEM = system_attrs control_unit_type -> control_unit_type <> [] -> 0 ∉ control_unit_type ->
  fits (doc_app (header key DPCK_TIMESTAMP now DPCK_DATASET_TYPE_SYSTEM) (DCons DP_SYS_HEARTBEAT (VLong 0) DNil)) ->
  exists u', pushSystemDataset junk key now u = (Fault, u').
Proof.
  intros Hr El Hne Hz Hf. destruct (hasChanged_spec u A Hs SVD_SYSTEM (y_cache _ _ _ Hr)) as (c1 & E1 & Hs1).
  unfold pushSystemDataset. rewrite (ex_bind_ret _ _ _ _ _ E1). rewrite El. cbn [existsb system_attrs a_changed unit_type_attr orb negb].
  pose proof (ready_same_sets _ _ _ _ Hr Hs1) as Hr1.
  destruct (header_spec junk key DPCK_TIMESTAMP now DPCK_DATASET_TYPE_SYSTEM _ ltac:(by vm_compute) Hf) as (W1 & W2 & W3 & F1 & F2 & F3 & HW).
  pose proof (y_cache _ _ _ Hr1 SVD_SYSTEM) as R. pose proof (r_len _ _ _ R) as Hlen. rewrite El in Hlen.
  destruct (Hs SVD_SYSTEM) as [|p0 [|p1 ps]] eqn:EH; [done|done|].
  destruct (add_pointed_spec junk (set_cache c1 u) A Hs SVD_SYSTEM p0 0 (mkAttr DP_SYS_HEARTBEAT TYPE_INT64 (zeros 8) false) (VLong 0)
      (header key DPCK_TIMESTAMP now DPCK_DATASET_TYPE_SYSTEM) [] W3 (y_cache _ _ _ Hr1))
    as (c2 & W4 & E2 & Hs2 & HW4); [by rewrite EH|by rewrite El|done|done|done|].
  pose proof (ready_same_sets _ _ _ _ Hr1 Hs2) as Hr2.
  destruct (add_pointed_fault junk (set_cache c2 (set_cache c1 u)) A Hs SVD_SYSTEM p1 1 (unit_type_attr control_unit_type) W4 (y_cache _ _ _ Hr2))
    as (c3 & E3); [by rewrite EH|by rewrite El|done| |].
  { unfold attr_val, unit_type_attr. simpl. rewrite decide_False by done. simpl. by rewrite c_str_unterminated. }
  eexists. apply ex_bind_fault. unfold push_dataset, foreign. rewrite F1. ex_step.
  unfold addInt64Value_u. unfold addInt64Value in F2. rewrite F2. ex_step. rewrite F3. do 2 ex_step.
  rewrite (y_system _ _ _ Hr1), EH. apply ex_bind_fault. cbn [fillCDatawrapperWithCachedValue].
  rewrite (ex_bind_ret _ _ _ _ _ E2). apply ex_bind_fault. exact E3.
Qed.

(** The system data set of every unit is read past its end: the buffer of the unit type is
    as long as the text and not terminated, and publishing reads it as a C string. *)
Theorem system_dataset_overrun junk key now (u : @ControlUnit C) :
  blank u -> control_unit_type <> [] -> 0 ∉ control_unit_type ->
  fits (doc_app (header key DPCK_TIMESTAMP now DPCK_DATASET_TYPE_SYSTEM) (DCons DP_SYS_HEARTBEAT (VLong 0) DNil)) ->
  exists u1 u2,
    init_shared_cache lexical_cast lex_of_num lex_of_double props input_names output_names control_unit_type (mret tt) u = (Ret tt, u1) /\
    pushSystemDataset junk key now u1 = (Fault, u2).
Proof.
  intros Hb Hne Hz Hf. destruct (init_ready u Hb) as (u1 & Hs & E & Hr & _). exists u1.
  destruct (system_push_fault junk key now u1 _ Hs Hr eq_refl Hne Hz Hf) as [u2 E2]. by exists u2.
Qed.

End Populate.

(** *** The attributes the description asks for *)

Definition type_of (name : list Z) : DataType :=
  default TYPE_INT32 (last_prop (fun p => match p with PType t => Some t | _ => None end) (props name)).
Definition size_of (name : list Z) : Z :=
  default 0 (last_prop (fun p => match p with PMaxSize n => Some (n mod 2 ^ 32) | _ => None end) (props name)).
Definition default_of (name : list Z) : list Z :=
  default [] (last_prop (fun p => match p with
    | PDefault (KNum n) => Some (lex_of_num n) | PDefault (KDouble b) => Some (lex_of_double b) | PDefault (KStr s) => Some s
    | _ => None end) (props name)).

(** The value of a number with its default, in [n] bytes. *)
Definition number_data (name : list Z) (n : nat) (a : attr) : Prop :=
  if decide (default_of name = []) then a_data a = replicate n 0 /\ a_changed a = false
  else exists x, lexical_cast (type_of name) (default_of name) = Some x /\ a_data a = le_bytes n x /\ a_changed a = true.

(** A text is cut to its buffer or padded with zeros; a byte array has no default. *)
Definition described (name : list Z) (a : attr) : Prop :=
  a_name a = name /\ a_type a = type_of name /\ (a_buf a = None <-> a_data a = []) /\
  match type_of name with
  | TYPE_BOOLEAN => number_data name 1 a
  | TYPE_INT32 => number_data name 4 a
  | TYPE_INT64 | TYPE_DOUBLE => number_data name 8 a
  | TYPE_STRING => Z.of_nat (length (default_of name)) < 2 ^ 32 /\
      a_data a = take (Z.to_nat (size_of name)) (default_of name) ++ replicate (Z.to_nat (size_of name) - length (default_of name)) 0 /\
      a_changed a = negb (bool_decide (default_of name = []))
  | TYPE_BYTEARRAY => a_data a = replicate (Z.to_nat (size_of name)) 0 /\ a_changed a = false
  end.

Lemma info_of_spec name :
  valueType (info_of name) = type_of name /\ maxSize (info_of name) = size_of name /\ defaultValue (info_of name) = default_of name.
Proof.
  unfold getAttributeRangeValueInfo, type_of, size_of, default_of. generalize (props name). intros ps.
  induction ps as [|p ps IH] using rev_ind; [done|]. rewrite fold_left_app, !last_prop_app. destruct IH as (I1 & I2 & I3).
  by destruct p as [| | | |[]].
Qed.

Lemma size_of_pos name : 0 <= size_of name.
Proof. destruct (info_of_spec name) as (_ & <- & _). apply maxSize_pos. Qed.

Lemma zeros_eq n b : 0 <= n -> (b = None <-> default [] b = []) -> default [] b = replicate (Z.to_nat n) 0 -> b = zeros n.
Proof.
  intros Hn Hb Hd. unfold zeros. destruct (n =? 0) eqn:E; reflect_bool.
  - subst n. by apply Hb.
  - destruct b as [b|]; [simpl in Hd; by subst|]. simpl in Hd. destruct (Z.to_nat n) eqn:En; [lia|done].
Qed.

(** Overwriting a fresh value. *)
Lemma overwrite_fresh sz val m a :
  0 <= sz -> 0 <= m <= Z.of_nat (length val) -> (a_buf a = None <-> a_data a = []) -> a_changed a = true ->
  a_data a = take (Z.to_nat m) (take (Z.to_nat sz) val) ++ replicate (Z.to_nat sz - Z.to_nat m) 0 ->
  (a' ← overwrite val m (mkAttr (a_name a) (a_type a) (zeros sz) false); mret (with_changed true a')) = Ret a.
Proof.
  intros Hsz Hm Hb Hc Hd. unfold overwrite.
  assert (a_data (mkAttr (a_name a) (a_type a) (zeros sz) false) = replicate (Z.to_nat sz) 0) as ->.
  { unfold a_data, zeros. simpl. destruct (sz =? 0) eqn:E; reflect_bool; [by subst|done]. }
  rewrite length_replicate. set (k := Z.to_nat (Z.min m (Z.of_nat (Z.to_nat sz)))).
  assert (a_data a = take k val ++ replicate (Z.to_nat sz - k) 0) as Hd'.
  { rewrite Hd, take_take. f_equal; f_equal; unfold k; lia. }
  destruct (decide (k = 0%nat)) as [Hk|Hk].
  - simpl_out. rewrite Hk, take_0, Nat.sub_0_r in Hd'. destruct a as [n ty b c]. simpl in *. subst c.
    by rewrite <- (zeros_eq sz b Hsz Hb Hd').
  - rewrite decide_False by (unfold k; lia). simpl_out. rewrite drop_replicate. destruct a as [n ty b c]. unfold a_data in *. simpl in *. subst c.
    unfold with_changed, with_buf. simpl. rewrite <- Hd'. destruct b as [b|]; [done|]. simpl in Hd'. symmetry in Hd'. apply app_nil in Hd' as [Hd' _].
    apply (f_equal length) in Hd'. rewrite length_take in Hd'. simpl in Hd'. unfold k in *. lia.
Qed.

Lemma fresh_attr a sz : 0 <= sz -> (a_buf a = None <-> a_data a = []) -> a_data a = replicate (Z.to_nat sz) 0 -> a_changed a = false ->
  mkAttr (a_name a) (a_type a) (zeros sz) false = a.
Proof. intros Hs Hb Hd Hc. destruct a as [n ty b c]. simpl in *. subst c. f_equal. symmetry. by apply zeros_eq. Qed.

Lemma init_number name n a :
  a_name a = name -> a_type a = type_of name -> (a_buf a = None <-> a_data a = []) -> number_data name n a ->
  (forall s, type_size (type_of name) s = Z.of_nat n) ->
  (forall x, lexical_cast (type_of name) (default_of name) = Some x -> default_bytes lexical_cast (info_of name) = Ret (Some (le_bytes n x, Z.of_nat n))) ->
  init_attr name = Ret a.
Proof.
  intros Hn Ht Hb Hd Hsz Hx. unfold init_attr. destruct (info_of_spec name) as (I1 & I2 & I3). rewrite I1, I2, I3, Hsz.
  rewrite <- Ht. unfold number_data in Hd. destruct (decide (default_of name = [])).
  - destruct Hd as [Hd Hc]. rewrite <- Hn. f_equal. apply fresh_attr; [lia|done|by rewrite Nat2Z.id|done].
  - destruct Hd as (x & Ex & Hd & Hc). rewrite (Hx x Ex). simpl_out. rewrite <- Hn. apply overwrite_fresh; [lia|rewrite le_bytes_length; lia|done|done|].
    rewrite !Nat2Z.id, take_take, Nat.sub_diag, app_nil_r. rewrite take_ge; [done|]. rewrite le_bytes_length. lia.
Qed.

Lemma init_attr_described name a : described name a -> init_attr name = Ret a.
Proof.
  intros (Hn & Ht & Hb & Hd). destruct (info_of_spec name) as (I1 & I2 & I3). pose proof (size_of_pos name) as Hs.
  destruct (type_of name) eqn:Ety.
  1-3, 6: eapply init_number; rewrite ?Ety; try done; intros x Ex; unfold default_bytes; rewrite I1, I3; by rewrite Ex.
  - destruct Hd as (Hl & Hd & Hc). unfold init_attr. rewrite I1, I2, I3. cbn [type_size]. subst name. rewrite <- Ht.
    set (txt := default_of (a_name a)) in *. set (sz := size_of (a_name a)) in *. destruct (decide (txt = [])) as [E|E].
    + f_equal. apply fresh_attr; [done|done| |by rewrite Hc, bool_decide_eq_true_2].
      by rewrite Hd, E, take_nil, Nat.sub_0_r.
    + unfold default_bytes. rewrite I1, I3. simpl_out. rewrite uwrap_small by (unfold in_u; lia).
      apply overwrite_fresh; [done|rewrite length_app; simpl; lia|done|by rewrite Hc, bool_decide_eq_false_2|].
      rewrite Hd, Nat2Z.id, take_take. f_equal. destruct (decide (length txt <= Z.to_nat sz)%nat).
      * rewrite Nat.min_l by done. by rewrite take_app_length, take_ge.
      * rewrite Nat.min_r by lia. by rewrite take_app_le by lia.
  - destruct Hd as (Hd & Hc). unfold init_attr. rewrite I1, I2, I3. cbn [type_size]. subst name. rewrite <- Ht.
    rewrite (fresh_attr a (size_of (a_name a))) by done.
    destruct (decide _); [done|]. unfold default_bytes. by rewrite I1.
Qed.

Lemma init_list_described ns l : Forall2 described ns l -> init_list ns = Ret l.
Proof.
  induction 1 as [|name a ns l Ha _ IH]; [done|]. cbn [init_list]. by rewrite (init_attr_described _ _ Ha), IH.
Qed.

(** [C29] Initialisation, with the [unitDefineCustomAttribute] of the base class, which does
    nothing: after [_init] has populated the cache of a new unit, its sets hold exactly the
    described attributes in order, of their types and sizes, with the bytes of their default
    values and marked as changed if they have one, the time stamp as last output attribute
    and the system attributes, and the vectors used for publishing point to all of them. *)
Theorem init_populates_cache input_names output_names control_unit_type li lo (u : @ControlUnit C) :
  NoDup input_names -> NoDup output_names -> DPCK_TIMESTAMP ∉ output_names ->
  Z.of_nat (length input_names) < 2 ^ 16 -> Z.of_nat (length output_names) + 1 < 2 ^ 16 ->
  Forall2 described input_names li -> Forall2 described output_names lo -> Z.of_nat (length control_unit_type) < 2 ^ 32 ->
  blank u -> exists u' Hs,
  init_shared_cache lexical_cast lex_of_num lex_of_double props input_names output_names control_unit_type (mret tt) u = (Ret tt, u') /\
  ready u' (initial_attrs li lo control_unit_type) Hs /\ pushed u' = pushed u.
Proof.
  intros Hin Hout Hts Hli Hlo Hui%init_list_described Huo%init_list_described Hty. by apply init_ready.
Qed.

End Initialisation.

(** ** Ranges *)

(** Without a range in the description, a [double] attribute accepts no number that is zero
    or negative: the lower bound is the smallest positive normal number. *)
Theorem nonpositive_double_rejected {C : Type} `{SharedCacheInterface C} junk lexical_cast name info d vs W v (u : @ControlUnit C) :
  holds d vs W -> fits d -> doc_find name d = Some (VDouble v) -> maxRange info = [] ->
  is_nan v = false -> double_key v <= 0 ->
  request_value junk lexical_cast TYPE_DOUBLE name info W u = (Throw (-1), u).
Proof.
  intros HW Hf Hd Hm Hn Hk. assert (bounds_of [PMinRange (minRange info)] info) as Hb by (split; [exact Hm|done]).
  destruct (request_value_spec junk lexical_cast TYPE_DOUBLE name _ info d vs W u Hb HW Hf) as (W' & _ & ->).
  assert (double_ltb v DBL_MIN = true) as Hlt.
  { unfold double_ltb. rewrite Hn. change (is_nan DBL_MIN) with false. apply Z.ltb_lt.
    change (double_key DBL_MIN) with DBL_MIN. unfold DBL_MIN. lia. }
  assert (number_checked lexical_cast TYPE_DOUBLE v [PMinRange (minRange info)] = Throw (-1)) as Hc.
  { unfold number_checked, limits. rewrite decide_True by done. simpl_out. unfold admitted. by rewrite Hlt. }
  cbn [doc_value]. rewrite Hd. unfold field_spec. simpl_opt. cbn [as_double strict]. simpl_out. by rewrite Hc.
Qed.

(** ** A small device

    Two integer inputs, of which only the first has a range, a text and an output. *)

Module Demo.

(** Decimal digits. *)
Definition digits (t : DataType) (s : list Z) : option Z :=
  if decide (s = []) then None
  else foldl (fun r c => n ← r; if (48 <=? c) && (c <=? 57) then Some (10 * n + (c - 48)) else None) (Some 0) s.

Definition props (name : list Z) : list property :=
  if decide (name = chars "a") then [PType TYPE_INT32; PMinRange (chars "0"); PMaxRange (chars "10"); PDefault (KStr (chars "5"))]
  else if decide (name = chars "b") then [PType TYPE_INT32]
  else if decide (name = chars "s") then [PType TYPE_STRING; PMaxSize 8; PDefault (KStr (chars "on"))]
  else [PType TYPE_DOUBLE; PDefault (KStr (chars "3"))].

Definition no_text (n : Z) : list Z := [].
Definition inputs : list (list Z) := [chars "a"; chars "b"; chars "s"].
Definition outputs : list (list Z) := [chars "x"].
Definition blank_unit : @ControlUnit AttributeValueSharedCache := mkCU (new_AttributeValueSharedCache 0) None [] [] [] [] [].
Definition demo_unit : ControlUnit :=
  (init_shared_cache digits no_text no_text props inputs outputs (chars "rtcu") (mret tt) blank_unit).2.

Fixpoint add_all (l : list (list Z * val)) (W : CDataWrapper) : outcome CDataWrapper :=
  match l with [] => mret W | (k, v) :: l => W ← on_obj (put 0 k v) W; add_all l W end.

(** Send a request with these fields and give its outcome. *)
Definition send (l : list (list Z * val)) : outcome (outcome unit) :=
  W ← new_CDataWrapper 0;
  W ← add_all ((DEVICE_ID, VString (chars "dev")) :: l) W;
  mret (setDatasetAttribute 0 digits no_text no_text props inputs (chars "dev")
    unitInputAttributeHandler unitInputAttributeHandler (0, TYPE_INT32) 7 W demo_unit).1.

(** The range of an attribute is applied to the ones after it that have none: the same value
    is accepted when it comes alone and rejected when it follows a value of the first
    attribute. *)
Theorem range_of_previous_attribute :
  send [(chars "b", VInt 50)] = Ret (Ret tt) /\
  send [(chars "a", VInt 5); (chars "b", VInt 50)] = Ret (Throw (-1)).
Proof. split; vm_compute; reflexivity. Qed.

(** *** Witnesses *)

Definition attrs_of (o : outcome (list attr)) : list attr := match o with Ret l => l | _ => [] end.
Definition li : list attr := attrs_of (init_list digits no_text no_text props inputs).
Definition lo : list attr := attrs_of (init_list digits no_text no_text props outputs).

Lemma blank_unit_blank : blank blank_unit.
Proof. split; try done. exact (proj1 (fresh_agrees 0)). Qed.

Ltac by_decide := refine (bool_decide_unpack _ _); vm_compute; exact I.

Lemma demo_ready : exists Hs, ready demo_unit (initial_attrs li lo (chars "rtcu")) Hs.
Proof.
  destruct (init_ready digits no_text no_text props inputs outputs (chars "rtcu") li lo) with (u := blank_unit)
    as (u' & Hs & E & Hr & _); try (vm_compute; reflexivity); try by_decide.
  - apply blank_unit_blank.
  - exists Hs. unfold demo_unit. by rewrite E.
Qed.

(** Deciding that a flat document can be serialised. *)
Definition byteb (b : Z) : bool := (0 <=? b) && (b <? 256).
Definition flat_okb (v : val) : bool :=
  match v with
  | VString s => forallb byteb s
  | VInt n => (- 2 ^ 31 <=? n) && (n <? 2 ^ 31)
  | VLong n => (- 2 ^ 63 <=? n) && (n <? 2 ^ 63)
  | VDouble n => (0 <=? n) && (n <? 2 ^ 64)
  | _ => false
  end.
Fixpoint docb (d : doc) : bool :=
  match d with
  | DNil => true
  | DCons n v d => forallb byteb n && negb (existsb (Z.eqb 0) n) && flat_okb v && docb d
  end.

Lemma byteb_ok s : forallb byteb s = true -> bytes s.
Proof.
  intros Hs. apply Forall_forall. intros b Hb. rewrite forallb_forall in Hs. specialize (Hs b (proj1 (list_elem_of_In _ _) Hb)).
  unfold byteb in Hs. reflect_bool. unfold is_byte. lia.
Qed.

Lemma docb_ok d : docb d = true -> doc_ok d.
Proof.
  induction d as [|n v d IH]; [done|]. cbn [docb doc_ok]. intros Hd. reflect_bool. split_and!; [split| |auto].
  - by apply byteb_ok.
  - intros Hin0. assert (existsb (Z.eqb 0) n = true); [|congruence]. apply existsb_exists. exists 0.
    split; [by apply list_elem_of_In|done].
  - destruct v; try done; simpl in *; [unfold in_u|by apply byteb_ok|unfold in_s|unfold in_s]; reflect_bool; lia.
Qed.

Lemma fits_dec d : docb d = true -> (Z.of_nat (length (enc_doc d)) <=? BSONObjMaxInternalSize) = true -> fits d.
Proof. intros H1 H2. split; [by apply docb_ok|by apply Z.leb_le]. Qed.

(** The attributes are as described. *)
Ltac describe := split; [vm_compute; reflexivity|split; [vm_compute; reflexivity|split; [split; vm_compute; discriminate|]]].
Lemma inputs_described : Forall2 (described digits no_text no_text props) inputs li.
Proof.
  assert (li = [mkAttr (chars "a") TYPE_INT32 (Some [5; 0; 0; 0]) true; mkAttr (chars "b") TYPE_INT32 (Some [0; 0; 0; 0]) false;
    mkAttr (chars "s") TYPE_STRING (Some (chars "on" ++ replicate 6 0)) true]) as -> by (vm_compute; reflexivity).
  constructor; [describe; hnf; exists 5; split_and!; vm_compute; reflexivity|].
  constructor; [describe; hnf; split; vm_compute; reflexivity|].
  constructor; [describe; hnf; split_and!; vm_compute; reflexivity|constructor].
Qed.
Lemma outputs_described : Forall2 (described digits no_text no_text props) outputs lo.
Proof.
  assert (lo = [mkAttr (chars "x") TYPE_DOUBLE (Some [3; 0; 0; 0; 0; 0; 0; 0]) true]) as -> by (vm_compute; reflexivity).
  constructor; [describe; hnf; exists 3; split_and!; vm_compute; reflexivity|constructor].
Qed.

Lemma init_populates_cache_witness : exists u' Hs,
  init_shared_cache digits no_text no_text props inputs outputs (chars "rtcu") (mret tt) blank_unit = (Ret tt, u') /\
  ready u' (initial_attrs li lo (chars "rtcu")) Hs /\ pushed u' = [].
Proof.
  apply (init_populates_cache digits no_text no_text props inputs outputs (chars "rtcu") li lo blank_unit);
    [by_decide|by_decide|by_decide|by_decide|by_decide|exact inputs_described|exact outputs_described|by_decide|exact blank_unit_blank].
Defined.

Lemma system_dataset_overrun_witness : exists u1 u2,
  init_shared_cache digits no_text no_text props inputs outputs (chars "rtcu") (mret tt) blank_unit = (Ret tt, u1) /\
  pushSystemDataset 0 (chars "dev") 7 u1 = (Fault, u2).
Proof.
  apply (system_dataset_overrun digits no_text no_text props inputs outputs (chars "rtcu") li lo);
    try (vm_compute; reflexivity); try by_decide.
  apply blank_unit_blank.
Defined.

Definition the_doc (l : list attr) : doc := default DNil (fields l).

Lemma output_is_published_witness : exists u', pushOutputDataset 0 (chars "dev") demo_unit = (Ret tt, u') /\
  fst <$> pushed u' = [chars "dev_o"] /\ existsb a_changed lo = true.
Proof.
  destruct demo_ready as [Hs Hr].
  destruct (output_is_published 0 (chars "dev") demo_unit _ Hs lo stamp_attr 0 (the_doc lo) Hr) as (u' & E & Hp & _).
  - reflexivity.
  - reflexivity.
  - vm_compute. reflexivity.
  - apply fits_dec; vm_compute; reflexivity.
  - exists u'. split; [exact E|]. split; [rewrite Hp|]; vm_compute; reflexivity.
Defined.

Definition demo_doc : doc := DCons DEVICE_ID (VString (chars "dev")) (DCons (chars "a") (VInt 7) DNil).

Lemma demo_request : exists W, holds demo_doc [] W.
Proof.
  destruct (new_CDataWrapper_holds 0) as (W0 & _ & H0).
  destruct (add_header 0 DNil [] W0 DEVICE_ID (VString (chars "dev")) H0) as (W1 & _ & H1); [apply fits_dec; vm_compute; reflexivity|].
  destruct (add_header 0 _ [] W1 (chars "a") (VInt 7) H1) as (W2 & _ & H2); [apply fits_dec; vm_compute; reflexivity|].
  by exists W2.
Qed.

Definition served : list attr := (apply_request digits props inputs [] demo_doc li).2.

Lemma request_is_served_witness : exists W u', holds demo_doc [] W /\
  setDatasetAttribute 0 digits no_text no_text props inputs (chars "dev")
    unitInputAttributeHandler unitInputAttributeHandler (0, TYPE_INT32) 7 W demo_unit = (Ret tt, u') /\
  pushed u' = [(chars "dev_i", Some (enc_doc (doc_app (header (chars "dev") DPCK_TIMESTAMP 7 DPCK_DATASET_TYPE_INPUT)
    (DCons (chars "a") (VInt 7) (DCons (chars "b") (VInt 0) (DCons (chars "s") (VString (chars "on")) DNil))))))].
Proof.
  destruct demo_ready as [Hs Hr]. destruct demo_request as [W HW]. exists W.
  assert (apply_request digits props inputs [] demo_doc li = (Ret tt, served)) as Ea
    by (vm_compute; reflexivity).
  pose proof (request_is_served 0 digits no_text no_text props (chars "dev") inputs (0, TYPE_INT32) demo_unit _ Hs demo_doc [] W 7
    (chars "dev") Hr HW ltac:(apply fits_dec; vm_compute; reflexivity) ltac:(vm_compute; reflexivity)) as Hreq.
  cbv zeta in Hreq. change (initial_attrs li lo (chars "rtcu") SVD_INPUT) with li in Hreq. cbn [fst snd] in Hreq. rewrite Ea in Hreq.
  destruct (Hreq (the_doc served)) as (u' & E & _ & Hp).
  - vm_compute. reflexivity.
  - apply fits_dec; vm_compute; reflexivity.
  - exists u'. split; [exact HW|]. split; [exact E|]. rewrite Hp. vm_compute. reflexivity.
Defined.

Lemma nonpositive_double_rejected_witness : exists W, holds (DCons (chars "x") (VDouble 0) DNil) [] W /\
  request_value 0 digits TYPE_DOUBLE (chars "x") (mkInfo 0 [] [] [] TYPE_DOUBLE) W demo_unit = (Throw (-1), demo_unit).
Proof.
  destruct (new_CDataWrapper_holds 0) as (W0 & _ & H0).
  destruct (add_header 0 DNil [] W0 (chars "x") (VDouble 0) H0) as (W1 & _ & H1); [apply fits_dec; vm_compute; reflexivity|].
  exists W1. split; [exact H1|].
  apply (nonpositive_double_rejected 0 digits (chars "x") (mkInfo 0 [] [] [] TYPE_DOUBLE) (DCons (chars "x") (VDouble 0) DNil) [] W1 0).
  - exact H1.
  - apply fits_dec; vm_compute; reflexivity.
  - reflexivity.
  - reflexivity.
  - reflexivity.
  - vm_compute. discriminate.
Defined.

End Demo.
