(* ===== verification/ServiceFeeder.v ===== *)
(** * Service selection

    Models [chaos/common/network/URLServiceFeeder.cpp]: a feeder gives its client one of
    several equivalent services, by turns or keeping one until it fails.  The heap of the
    online services is [boost::heap::priority_queue]: an interface with its documented
    behaviour, which holds as long as the priorities of the elements in the queue do not
    change.  The handler that makes and disposes of services is outside; what it returns is
    an argument and what it is told is recorded.  A service object is the number of its
    place in [service_list], whose elements are allocated once and do not move. *)

From S2P Require Import Prelude.

(** ** The queue of online services *)

(** Priorities are read when elements are compared. *)
Class OnlineQueue (Q : Type) := {
  q_new : Q;
  q_size : Q -> nat;
  q_top : Q -> option nat;
  q_push : (nat -> Z) -> nat -> Q -> Q;
  q_pop : (nat -> Z) -> Q -> Q;
  q_merge : (nat -> Z) -> Q -> Q -> Q }.

(** The elements in some order; [q_ordered] means that every comparison so far is still
    right. *)
Class OnlineQueueLaws (Q : Type) `{OnlineQueue Q} := {
  q_bag : Q -> list nat;
  q_ordered : (nat -> Z) -> Q -> Prop;
  bag_new : q_bag q_new = [];
  bag_size q : q_size q = length (q_bag q);
  bag_top q : q_top q = None -> q_bag q = [];
  bag_push pr x q : q_bag (q_push pr x q) ≡ₚ x :: q_bag q;
  bag_pop pr x q : q_top q = Some x -> q_bag q ≡ₚ x :: q_bag (q_pop pr q);
  bag_merge pr q q' : q_bag (q_merge pr q q') ≡ₚ q_bag q ++ q_bag q';
  ordered_new pr : q_ordered pr q_new;
  ordered_push pr x q : q_ordered pr q -> q_ordered pr (q_push pr x q);
  ordered_pop pr q : q_ordered pr q -> q_ordered pr (q_pop pr q);
  ordered_merge pr q q' : q_ordered pr q -> q_ordered pr q' -> q_ordered pr (q_merge pr q q');
  top_max pr x y q : q_ordered pr q -> q_top q = Some x -> y ∈ q_bag q -> (pr y <= pr x)%Z }.

(** ** State *)

Inductive URLServiceFeedMode := URLServiceFeedModeFailOver | URLServiceFeedModeRoundRobin.

#[export] Instance URLServiceFeedMode_eq_dec : EqDecision URLServiceFeedMode.
Proof. solve_decision. Defined.

(** A service is the address of an object of the handler. *)
Record URLService := mkService { index : nat; priority : Z; online : bool; url : list Z; service : option nat }.

Record Feeder (Q : Type) := mkFeeder {
  list_size : Z;
  current_service : option nat;
  service_list : list URLService;
  online_urls : Q;
  offline_urls : gset nat;
  available_url : gset nat;
  feed_mode : URLServiceFeedMode;
  disposed : list (option nat) }.
Arguments mkFeeder {Q}.
Arguments list_size {Q}.
Arguments current_service {Q}.
Arguments service_list {Q}.
Arguments online_urls {Q}.
Arguments offline_urls {Q}.
Arguments available_url {Q}.
Arguments feed_mode {Q}.
Arguments disposed {Q}.

(** [*set.begin()] *)
Definition least (X : gset nat) : option nat :=
  foldr (fun x o => Some (match o with Some y => min x y | None => x end)) None (elements X).

Lemma least_spec X : match least X with Some i => i ∈ X /\ forall j, j ∈ X -> (i <= j)%nat | None => X = ∅ end.
Proof.
  unfold least. assert (forall l : list nat, match foldr (fun x o => Some (match o with Some y => min x y | None => x end)) None l with
    | Some i => i ∈ l /\ forall j, j ∈ l -> (i <= j)%nat | None => l = [] end) as H.
  { induction l as [|x l IH]; [done|]. simpl. destruct (foldr _ None l) as [y|].
    - destruct IH as [Hy Hl]. split; [destruct (Nat.min_spec x y) as [[_ ->]|[_ ->]]; set_solver|].
      intros j [->|Hj]%elem_of_cons; [lia|]. specialize (Hl j Hj). lia.
    - subst l. split; [set_solver|]. intros j [->|Hj]%elem_of_cons; [done|by apply elem_of_nil in Hj]. }
  specialize (H (elements X)). destruct (foldr _ None (elements X)) as [i|].
  - destruct H as [Hi Hl]. split; [by apply elem_of_elements|]. intros j Hj. by apply Hl, elem_of_elements.
  - by apply leibniz_equiv, elements_empty_iff.
Qed.

Lemma lookup_inserted {A} (l : list A) i y j z :
  (i < length l)%nat -> <[i := y]> l !! j = Some z -> (j = i /\ z = y) \/ (j <> i /\ l !! j = Some z).
Proof.
  intros Hi Hz. destruct (decide (j = i)) as [->|Hne]; [left; rewrite list_lookup_insert_eq in Hz by done; naive_solver|].
  right. by rewrite list_lookup_insert_ne in Hz by done.
Qed.

Section Feeder.
Context {Q : Type} `{!OnlineQueue Q}.
(** The size of the structure, the unit of [list_size]. *)
Context (sizeof_URLService : Z).

Notation Feeder := (Feeder Q).
Notation FM := (ST Feeder).

Definition new_Feeder : Feeder := mkFeeder 0 None [] q_new ∅ ∅ URLServiceFeedModeRoundRobin [].

Definition set_online q (s : Feeder) : Feeder :=
  mkFeeder (list_size s) (current_service s) (service_list s) q (offline_urls s) (available_url s) (feed_mode s) (disposed s).
Definition set_offline x (s : Feeder) : Feeder :=
  mkFeeder (list_size s) (current_service s) (service_list s) (online_urls s) x (available_url s) (feed_mode s) (disposed s).
Definition set_available x (s : Feeder) : Feeder :=
  mkFeeder (list_size s) (current_service s) (service_list s) (online_urls s) (offline_urls s) x (feed_mode s) (disposed s).
Definition set_current c (s : Feeder) : Feeder :=
  mkFeeder (list_size s) c (service_list s) (online_urls s) (offline_urls s) (available_url s) (feed_mode s) (disposed s).
Definition set_list n l (s : Feeder) : Feeder :=
  mkFeeder n (current_service s) l (online_urls s) (offline_urls s) (available_url s) (feed_mode s) (disposed s).
Definition set_mode m (s : Feeder) : Feeder :=
  mkFeeder (list_size s) (current_service s) (service_list s) (online_urls s) (offline_urls s) (available_url s) m (disposed s).
Definition tell_disposed p (s : Feeder) : Feeder :=
  mkFeeder (list_size s) (current_service s) (service_list s) (online_urls s) (offline_urls s) (available_url s) (feed_mode s) (disposed s ++ [p]).

(** ** Operations *)

(** [list_size/sizeof(URLService)] *)
Definition count (s : Feeder) : nat := Z.to_nat (list_size s / sizeof_URLService).

Definition prio_of (l : list URLService) (i : nat) : Z := default 0%Z (priority <$> l !! i).

(** Elements of the list; there is nothing behind its end. *)
Definition the_service (i : nat) : FM URLService := l ← st_gets service_list; st_lift (l !! i).
Definition change_service (i : nat) (f : URLService -> URLService) : FM unit :=
  x ← the_service i; st_modify (fun s => set_list (list_size s) (<[i := f x]> (service_list s)) s).

Definition push_online (i : nat) : FM unit :=
  st_modify (fun s => set_online (q_push (prio_of (service_list s)) i (online_urls s)) s).
Definition pop_online : FM unit :=
  st_modify (fun s => set_online (q_pop (prio_of (service_list s)) (online_urls s)) s).
Definition disposeService (p : option nat) : FM unit := st_modify (tell_disposed p).

Definition set_flag (b : bool) (x : URLService) : URLService := mkService (index x) (priority x) b (url x) (service x).
Definition emptied (x : URLService) : URLService := mkService (index x) 0 (online x) (url x) None.
Definition filled (new_url : list Z) (p : Z) (made : option nat) (x : URLService) : URLService :=
  mkService (index x) p true new_url made.

(** The body of the loop of [clear]. *)
Definition clear_one (dispose_service : bool) (idx : nat) : FM unit :=
  x ← the_service idx;
  (match service x with Some p => if dispose_service then disposeService (Some p) else mret tt | None => mret tt end);;
  change_service idx emptied;;
  st_modify (fun s => set_offline (offline_urls s ∖ {[idx]}) (set_available ({[idx]} ∪ available_url s) s)).

Fixpoint clear_loop (dispose_service : bool) (l : list nat) : FM unit :=
  match l with [] => mret tt | idx :: l => clear_one dispose_service idx;; clear_loop dispose_service l end.

Definition clear (dispose_service : bool) : FM unit :=
  st_modify (set_online q_new);;
  n ← st_gets count; clear_loop dispose_service (seq 0 n).

(** Pops every element and keeps the others in [work_queue]. *)
Fixpoint remove_loop (fuel : nat) (url_index : nat) (work_queue : Q) : FM Q :=
  q ← st_gets online_urls;
  match q_top q, fuel with
  | None, _ => mret work_queue
  | _, O => st_fail
  | Some p, S fuel =>
      pop_online;;
      x ← the_service p;
      l ← st_gets service_list;
      remove_loop fuel url_index (if decide (index x = url_index) then work_queue else q_push (prio_of l) p work_queue)
  end.

Definition removeFromOnlineQueue (url_index : nat) : FM unit :=
  q ← st_gets online_urls;
  w ← remove_loop (q_size q) url_index q_new;
  st_modify (fun s => set_online (q_merge (prio_of (service_list s)) q_new w) s).

Definition new_URLService (idx : nat) : URLService := mkService idx (Z.of_nat idx) false [] None.

Definition grow : FM unit :=
  a ← st_gets available_url;
  if decide (a = ∅) then
    old_element_num ← st_gets count;
    st_modify (fun s =>
      let s := set_list (u32 (list_size s + sizeof_URLService * 10)) (service_list s) s in
      let fresh := seq old_element_num (count s - old_element_num) in
      set_available (list_to_set fresh ∪ available_url s)
        (set_list (list_size s) (take (count s) (service_list s) ++ (new_URLService <$> fresh)) s))
  else mret tt.

(** [made] is what the handler returns for the URL. *)
Definition addURL (new_url : list Z) (p : Z) (made : option nat) : FM nat :=
  grow;;
  a ← st_gets available_url;
  service_index ← st_lift (least a);
  the_service service_index;;
  push_online service_index;;
  st_modify (fun s => set_available (available_url s ∖ {[service_index]}) s);;
  change_service service_index (filled new_url p made);;
  mret service_index.

Fixpoint next_loop (fuel : nat) : FM (option nat) :=
  q ← st_gets online_urls;
  match q_top q, fuel with
  | None, _ => mret None
  | _, O => st_fail
  | Some p, S fuel =>
      x ← the_service p;
      if online x then pop_online;; mret (Some p)
      else st_modify (fun s => set_offline ({[index x]} ∪ offline_urls s) s);; pop_online;; next_loop fuel
  end.

Definition getNext : FM (option nat) := q ← st_gets online_urls; next_loop (q_size q).

Definition getService : FM (option nat) :=
  c ← st_gets current_service;
  m ← st_gets feed_mode;
  match c with
  | None =>
      o ← getNext;
      st_modify (set_current o);;
      match o with None => mret None | Some p => x ← the_service p; mret (service x) end
  | Some last_service =>
      (if decide (m = URLServiceFeedModeRoundRobin) then
         o ← getNext;
         match o with
         | Some p => st_modify (set_current (Some p));; push_online last_service
         | None => mret tt
         end
       else mret tt);;
      c ← st_gets current_service; p ← st_lift c; x ← the_service p; mret (service x)
  end.

(** The test that the index is in range. *)
Definition in_range (idx : nat) (c : FM unit) : FM unit :=
  n ← st_gets count; if decide (n < idx)%nat then mret tt else c.

Definition setURLOffline (idx : nat) : FM unit := in_range idx (
  c ← st_gets current_service;
  (match c with
   | Some p => x ← the_service p; if decide (index x = idx) then st_modify (set_current None) else mret tt
   | None => mret tt
   end);;
  change_service idx (set_flag false);;
  st_modify (fun s => set_offline ({[idx]} ∪ offline_urls s) s)).

Definition setURLOnline (idx : nat) : FM unit := in_range idx (
  st_modify (fun s => set_offline (offline_urls s ∖ {[idx]}) s);;
  change_service idx (set_flag true);;
  push_online idx).

Definition removeURL (idx : nat) (deallocate_service : bool) : FM unit := in_range idx (
  x ← the_service idx;
  (if deallocate_service then disposeService (service x) else mret tt);;
  removeFromOnlineQueue idx;;
  st_modify (fun s => set_available ({[idx]} ∪ available_url s) s)).

Definition setFeedMode (new_feed_mode : URLServiceFeedMode) : FM unit := st_modify (set_mode new_feed_mode).

Definition delete_URLServiceFeeder : FM unit := clear true;; st_modify (fun s => set_list 0 [] s).

(** ** Invariant *)

Context `{!OnlineQueueLaws Q}.
Context (sizeof_ok : (0 < sizeof_URLService)%Z).

(** No pointer is stale, the current service is online, and a URL in use that is online is
    in the queue or is the current one. *)
Record feeder_ok (s : Feeder) : Prop := {
  fo_size : list_size s = (sizeof_URLService * Z.of_nat (length (service_list s)))%Z;
  fo_index : forall i x, service_list s !! i = Some x -> index x = i;
  fo_queue : forall i, i ∈ q_bag (online_urls s) -> (i < length (service_list s))%nat;
  fo_available : forall i, i ∈ available_url s -> (i < length (service_list s))%nat;
  fo_current : forall i, current_service s = Some i -> exists x, service_list s !! i = Some x /\ online x = true;
  fo_kept : forall i x, service_list s !! i = Some x -> online x = true -> i ∉ available_url s ->
    i ∈ q_bag (online_urls s) \/ current_service s = Some i }.

Lemma count_ok s : feeder_ok s -> count s = length (service_list s).
Proof. intros H. unfold count. rewrite (fo_size _ H), Z.mul_comm, Z.div_mul by lia. lia. Qed.

Lemma new_Feeder_ok : feeder_ok new_Feeder.
Proof.
  split; simpl; [lia|..]; try done; intros i; rewrite ?bag_new; set_solver.
Qed.

Lemma wp_service i x (P : URLService -> Feeder -> Prop) s : service_list s !! i = Some x -> P x s -> wp (the_service i) P s.
Proof. intros Hx HP. unfold the_service. wp_steps. by eapply wp_lift. Qed.

Lemma wp_change i f x (P : unit -> Feeder -> Prop) s :
  service_list s !! i = Some x -> P tt (set_list (list_size s) (<[i := f x]> (service_list s)) s) -> wp (change_service i f) P s.
Proof. intros Hx HP. unfold change_service. wp_steps. eapply wp_service; [done|]. by wp_steps. Qed.

Definition is_online (s : Feeder) (i : nat) : bool := match service_list s !! i with Some x => online x | None => false end.

(** What [getNext] takes out. *)
Record taken (s s' : Feeder) (o : option nat) : Prop := {
  tk_frame : exists q off, s' = set_online q (set_offline off s);
  tk_bag : match o with
    | Some i => is_online s i = true /\ exists skipped, q_bag (online_urls s) ≡ₚ skipped ++ i :: q_bag (online_urls s') /\
        Forall (fun j => is_online s j = false) skipped
    | None => q_bag (online_urls s') = [] /\ Forall (fun j => is_online s j = false) (q_bag (online_urls s))
    end;
  tk_prio : q_ordered (prio_of (service_list s)) (online_urls s) ->
    q_ordered (prio_of (service_list s)) (online_urls s') /\
    forall i j, o = Some i -> j ∈ q_bag (online_urls s) -> is_online s j = true ->
      (prio_of (service_list s) j <= prio_of (service_list s) i)%Z }.

Lemma next_loop_taken fuel : forall s,
  feeder_ok s -> (q_size (online_urls s) <= fuel)%nat -> wp (next_loop fuel) (fun o s' => taken s s' o) s.
Proof.
  induction fuel as [|fuel IH]; intros s Hok Hf; simpl; wp_steps; destruct (q_top (online_urls s)) as [p|] eqn:Hp.
  - rewrite bag_size in Hf. pose proof (bag_pop (fun _ => 0%Z) p _ Hp) as Hb. apply Permutation_length in Hb. simpl in Hb. lia.
  - wp_steps. apply bag_top in Hp. split; [exists (online_urls s), (offline_urls s); by destruct s|by rewrite Hp|done].
  - set (pr := prio_of (service_list s)). pose proof (bag_pop pr p _ Hp) as Hb.
    destruct (lookup_lt_is_Some_2 (service_list s) p) as [x Hx]; [apply (fo_queue _ Hok); rewrite Hb; set_solver|].
    wp_steps. eapply wp_service; [exact Hx|]. destruct (online x) eqn:Hon.
    + unfold pop_online. wp_steps. fold pr. split; [by exists (q_pop pr (online_urls s)), (offline_urls s)| |].
      * split; [unfold is_online; by rewrite Hx|]. exists []. by split.
      * intros Ho. split; [by apply ordered_pop|]. intros i j [= <-] Hj _. by eapply top_max.
    + unfold pop_online. wp_steps. simpl. fold pr.
      set (s1 := set_online _ _). assert (feeder_ok s1) as Hok1.
      { destruct Hok as [H1 H2 H3 H4 H5 H6]. split; try done; simpl.
        - intros i Hi. apply H3. rewrite Hb. set_solver.
        - intros i y Hy Ho Ha. destruct (H6 i y Hy Ho Ha) as [Hi|Hi]; [|by right]. rewrite Hb in Hi.
          apply elem_of_cons in Hi as [->|Hi]; [congruence|by left]. }
      assert (q_size (online_urls s1) <= fuel)%nat as Hf1.
      { rewrite bag_size in *. apply Permutation_length in Hb. simpl in *. lia. }
      assert (is_online s p = false) as Hoff by (unfold is_online; by rewrite Hx).
      eapply wp_mono; [by apply IH|]. intros o s' [(q & off & ->) Hbag Hpr]. split.
      * by exists q, off.
      * destruct o as [i|].
        -- destruct Hbag as (Hi & sk & Hsk & Hall). split; [done|]. exists (p :: sk). split; [|by constructor].
           rewrite Hb. simpl. by rewrite <- Hsk.
        -- destruct Hbag as [-> Hall]. split; [done|]. rewrite Hb. by constructor.
      * intros Ho. destruct Hpr as [Ho' Hmax]; [by apply ordered_pop|]. split; [done|].
        intros i j Hi Hj Hjo. rewrite Hb in Hj. apply elem_of_cons in Hj as [->|Hj]; [congruence|by apply (Hmax i j)].
  - wp_steps. apply bag_top in Hp. split; [exists (online_urls s), (offline_urls s); by destruct s|by rewrite Hp|done].
Qed.

Lemma getNext_taken s : feeder_ok s -> wp getNext (fun o s' => taken s s' o) s.
Proof. intros Hok. unfold getNext. wp_steps. by apply next_loop_taken. Qed.

Lemma is_online_true s i : is_online s i = true <-> exists x, service_list s !! i = Some x /\ online x = true.
Proof. unfold is_online. destruct (service_list s !! i) as [x|]; split; [eauto|naive_solver|done|naive_solver]. Qed.

(** The queue after [getNext]: what is online and still wanted is in it or has been taken. *)
Lemma taken_bag s s' o i :
  taken s s' o -> i ∈ q_bag (online_urls s) -> is_online s i = true -> i ∈ q_bag (online_urls s') \/ o = Some i.
Proof.
  intros Ht Hi Ho. pose proof (tk_bag _ _ _ Ht) as Hb. destruct o as [p|].
  - destruct Hb as (_ & sk & Hsk & Hall). rewrite Hsk in Hi. apply elem_of_app in Hi as [Hi|Hi].
    + rewrite Forall_forall in Hall. specialize (Hall i Hi). congruence.
    + apply elem_of_cons in Hi as [->|Hi]; auto.
  - destruct Hb as [_ Hall]. rewrite Forall_forall in Hall. specialize (Hall i Hi). congruence.
Qed.

Lemma taken_sub s s' o i : taken s s' o -> i ∈ q_bag (online_urls s') -> i ∈ q_bag (online_urls s).
Proof.
  intros Ht Hi. pose proof (tk_bag _ _ _ Ht) as Hb. destruct o as [p|].
  - destruct Hb as (_ & sk & -> & _). set_solver.
  - destruct Hb as [Hb _]. rewrite Hb in Hi. by apply elem_of_nil in Hi.
Qed.

Lemma taken_from s s' i : taken s s' (Some i) -> i ∈ q_bag (online_urls s).
Proof. intros Ht. destruct (tk_bag _ _ _ Ht) as (_ & sk & -> & _). set_solver. Qed.

(** The URLs the feeder can still give to a client, and the condition that none of them is
    the free place of a removed URL. *)
Definition servable (s : Feeder) (i : nat) : Prop := i ∈ q_bag (online_urls s) \/ current_service s = Some i.
Definition in_use (s : Feeder) : Prop := forall i, servable s i -> i ∉ available_url s.

Lemma in_use_mono s s' :
  (forall i, servable s' i -> servable s i) -> available_url s' = available_url s -> in_use s -> in_use s'.
Proof. intros Hs Ha Hu i Hi. rewrite Ha. by apply Hu, Hs. Qed.

(** The feeder with the queue of [s'] and a current service. *)
Lemma taken_ok s s' o q c :
  feeder_ok s -> taken s s' o ->
  (forall i, i ∈ q_bag q <-> i ∈ q_bag (online_urls s') \/ (exists p, o = Some p /\ current_service s = Some i)) ->
  c = match o with Some p => Some p | None => current_service s end ->
  feeder_ok (set_online q (set_current c s')).
Proof.
  intros Hok Ht Hq ->. destruct (tk_frame _ _ _ Ht) as (q' & off & E). pose proof (tk_bag _ _ _ Ht) as Hb.
  pose proof (fun i => taken_bag _ _ _ i Ht) as Hkeep. pose proof (fun i => taken_sub _ _ _ i Ht) as Hsub. subst s'. simpl in *.
  destruct Hok as [H1 H2 H3 H4 H5 H6]. split; simpl; try done.
  - intros i Hi. apply Hq in Hi as [Hi|[p [_ Hc]]]; [by apply H3, Hsub|]. destruct (H5 i Hc) as (x & Hx & _). by apply lookup_lt_Some in Hx.
  - intros i Hi. destruct o as [p|]; [|by apply H5]. injection Hi as <-. by apply is_online_true, Hb.
  - intros i x Hx Ho Ha. destruct (H6 i x Hx Ho Ha) as [Hi|Hi].
    + destruct (Hkeep i Hi) as [Hi'| ->]; [apply is_online_true; eauto|left; apply Hq; by left|by right].
    + destruct o as [p|]; [|by right]. left. apply Hq. right. by exists p.
Qed.

(** ** Choosing a service *)

(** What the client gets: the service of a URL that was added and not removed since, and is
    online; nothing if there is none. *)
Definition served (s : Feeder) (r : option nat) (s' : Feeder) : Prop :=
  match current_service s' with
  | Some i => exists x, service_list s' !! i = Some x /\ i ∉ available_url s' /\ online x = true /\ r = service x
  | None => r = None /\ forall i x, service_list s !! i = Some x -> i ∉ available_url s -> online x = false
  end.

Lemma served_current s s' i x r :
  in_use s' -> current_service s' = Some i -> service_list s' !! i = Some x -> online x = true -> r = service x -> served s r s'.
Proof. intros Hu Hc Hx Ho Hr. unfold served. rewrite Hc. exists x. split_and!; [done|apply Hu; by right|done|done]. Qed.

Lemma getService_wp s :
  feeder_ok s -> wp getService (fun r s' => feeder_ok s' /\ service_list s' = service_list s /\
    (in_use s -> in_use s' /\ served s r s')) s.
Proof.
  intros Hok. unfold getService. wp_steps. destruct (current_service s) as [c|] eqn:Hc.
  - destruct (fo_current _ Hok c Hc) as (xc & Hxc & Honc). destruct (decide _) as [Hm|Hm].
    + wp_steps. eapply wp_mono; [by apply getNext_taken|]. intros o s' Ht.
      destruct (tk_frame _ _ _ Ht) as (q' & off & E). destruct o as [p|].
      * unfold push_online. wp_steps. pose proof (tk_bag _ _ _ Ht) as [Hp _]. apply is_online_true in Hp as (x & Hx & Ho).
        eapply wp_lift; [done|]. wp_steps. eapply wp_service; [subst s'; exact Hx|]. wp_steps.
        split; [|split; [by subst s'|]].
        -- eapply (taken_ok s s' (Some p)); [done|done| |done]. intros i. rewrite bag_push, elem_of_cons. subst s'. simpl.
           rewrite Hc. naive_solver.
        -- intros Hu. set (s2 := set_online _ _). assert (in_use s2) as Hu2.
           { apply (in_use_mono s); [|by subst s'|done]. unfold servable, s2. simpl. intros i. rewrite bag_push, elem_of_cons.
             intros [[->|Hi]|[= <-]]; [by right|left; by eapply taken_sub|left; by eapply taken_from]. }
           split; [done|]. eapply served_current; [done|done|subst s'; exact Hx|done|done].
      * wp_steps. rewrite E. simpl. eapply wp_lift; [exact Hc|]. wp_steps. eapply wp_service; [exact Hxc|]. wp_steps.
        split; [|split; [done|]].
        -- change (feeder_ok (set_online q' (set_current (current_service s) (set_online q' (set_offline off s))))). rewrite <- E.
           eapply (taken_ok s s' None); [done|done|subst s'; naive_solver|done].
        -- intros Hu. rewrite <- E. assert (in_use s') as Hu2.
           { apply (in_use_mono s); [|by rewrite E|done]. intros i [Hi|Hi]; [left; by eapply taken_sub|right; by rewrite E in Hi]. }
           split; [done|]. eapply served_current; [done|by rewrite E|rewrite E; exact Hxc|done|done].
    + wp_steps. eapply wp_lift; [exact Hc|]. wp_steps. eapply wp_service; [exact Hxc|]. wp_steps.
      split_and!; [done|done|]. intros Hu. split; [done|]. by eapply served_current.
  - wp_steps. eapply wp_mono; [by apply getNext_taken|]. intros o s' Ht. destruct (tk_frame _ _ _ Ht) as (q' & off & E).
    assert (feeder_ok (set_current o s')) as Hok'.
    { assert (set_current o s' = set_online (online_urls s') (set_current o s')) as -> by (by destruct s').
      apply (taken_ok s s' o); [done|done|naive_solver|rewrite Hc; by destruct o]. }
    assert (in_use s -> in_use (set_current o s')) as Hu.
    { apply in_use_mono; [|by rewrite E]. unfold servable. simpl. intros i [Hi|Hi]; left; [exact (taken_sub _ _ _ _ Ht Hi)|]. subst o. exact (taken_from _ _ _ Ht). }
    pose proof (tk_bag _ _ _ Ht) as Hb. wp_steps. destruct o as [p|].
    + destruct Hb as [Hp _]. apply is_online_true in Hp as (x & Hx & Ho). wp_steps. eapply wp_service; [subst s'; exact Hx|].
      wp_steps. split; [done|]. split; [by subst s'|]. intros Hus. split; [by apply Hu|].
      eapply served_current; [by apply Hu|done|subst s'; exact Hx|done|done].
    + wp_steps. split; [done|]. split; [by subst s'|]. intros Hus. split; [by apply Hu|]. unfold served. simpl. split; [done|]. intros i x Hx Ha.
      destruct (online x) eqn:Hon; [|done]. destruct (fo_kept _ Hok i x Hx Hon Ha) as [Hi|Hi]; [|congruence].
      destruct Hb as [_ Hall]. rewrite Forall_forall in Hall. specialize (Hall i Hi). unfold is_online in Hall. rewrite Hx in Hall. congruence.
Qed.

(** ** Adding and removing *)

Ltac fields := cbn [list_size current_service service_list online_urls offline_urls available_url
  set_list set_available set_online set_offline set_current].

Lemma grow_wp s :
  feeder_ok s -> (available_url s <> ∅ \/ (list_size s + sizeof_URLService * 10 < 2 ^ 32)%Z) ->
  wp grow (fun _ s' => feeder_ok s' /\ available_url s' <> ∅ /\ (in_use s -> in_use s')) s.
Proof.
  intros Hok Hfit. unfold grow. wp_steps. destruct (decide (available_url s = ∅)) as [He|He]; [|wp_steps; by split_and!].
  destruct Hfit as [?|Hfit]; [done|]. wp_steps. pose proof (count_ok s Hok) as Hn. rewrite Hn.
  destruct Hok as [H1 H2 H3 H4 H5 H6]. rewrite H1 in Hfit. set (l := service_list s) in *. rewrite H1.
  rewrite (uwrap_small 32) by (unfold in_u; lia). unfold count. fields.
  replace (sizeof_URLService * Z.of_nat (length l) + sizeof_URLService * 10)%Z
    with (sizeof_URLService * Z.of_nat (length l + 10))%Z by lia.
  assert (Z.to_nat (sizeof_URLService * Z.of_nat (length l + 10) / sizeof_URLService) = length l + 10)%nat as ->
    by (rewrite Z.mul_comm, Z.div_mul by lia; lia).
  replace (length l + 10 - length l)%nat with 10%nat by lia. rewrite take_ge by lia.
  set (fresh := seq (length l) 10). assert (length (l ++ (new_URLService <$> fresh)) = length l + 10)%nat as Hl
    by (unfold fresh; by rewrite length_app, length_fmap, length_seq). fold l.
  assert (forall i x, (l ++ (new_URLService <$> fresh)) !! i = Some x -> l !! i = Some x \/ x = new_URLService i) as Hx.
  { intros i x [Hi|[Hi Hx]]%lookup_app_Some; [by left|]. right. rewrite list_lookup_fmap in Hx.
    apply fmap_Some in Hx as (k & Hk & ->). apply lookup_seq in Hk as [-> _]. f_equal. lia. }
  split; [split|split]; fields; fold l.
  - by rewrite Hl.
  - intros i x [Hi| ->]%Hx; [by apply H2|done].
  - intros i Hi%H3. rewrite Hl. lia.
  - intros i [Hi%elem_of_list_to_set|Hi]%elem_of_union; [|rewrite He in Hi; set_solver]. apply elem_of_seq in Hi. lia.
  - intros i (x & Hi & Ho)%H5. exists x. split; [|done]. by apply lookup_app_l_Some.
  - intros i x Hi Ho Ha. destruct (Hx i x Hi) as [Hi'| ->]; [|done]. by apply (H6 i x); [| |rewrite He; set_solver].
  - intros Hemp. assert (length l ∈ (∅ : gset nat)); [|set_solver]. rewrite <- Hemp. apply elem_of_union_l, elem_of_list_to_set, elem_of_seq. lia.
  - intros _ i Hi. assert (i < length l)%nat as Hlt.
    { destruct Hi as [Hi|Hi]; [by apply H3|]. destruct (H5 i Hi) as (x & Hix & _). by apply lookup_lt_Some in Hix. }
    fields. rewrite He, elem_of_union, elem_of_list_to_set. unfold fresh. rewrite elem_of_seq. intros [?|?%elem_of_empty]; [lia|done].
Qed.

(** A change of one service object that keeps its number. *)
Lemma change_ok s i x y :
  feeder_ok s -> service_list s !! i = Some x -> index y = index x ->
  (online y = true -> i ∈ q_bag (online_urls s)) -> (current_service s = Some i -> online y = true) ->
  feeder_ok (set_list (list_size s) (<[i := y]> (service_list s)) s).
Proof.
  intros [H1 H2 H3 H4 H5 H6] Hx Hi Ho Hc. assert (i < length (service_list s))%nat as Hlt by (by eapply lookup_lt_Some).
  pose proof (fun j z => lookup_inserted (service_list s) i y j z Hlt) as Hz.
  split; simpl; rewrite ?length_insert; try done.
  - intros j z [[-> ->]|[_ Hj]]%Hz; [rewrite Hi; by apply H2|by apply H2].
  - intros j Hj. destruct (decide (j = i)) as [->|Hne]; [exists y; split; [by apply list_lookup_insert_eq|by apply Hc]|].
    destruct (H5 j Hj) as (z & Hjz & Hoz). exists z. by rewrite list_lookup_insert_ne.
  - intros j z [[-> ->]|[_ Hj]]%Hz Hoz Ha; [left; by apply Ho|by eapply H6].
Qed.

(** More in the queue, less available. *)
Lemma pushed_ok s i q av :
  feeder_ok s -> (i < length (service_list s))%nat -> q_bag q ≡ₚ i :: q_bag (online_urls s) ->
  (forall j, j ∈ av -> (j < length (service_list s))%nat) -> (forall j, j ∈ available_url s -> j ∈ av \/ j = i) ->
  feeder_ok (set_available av (set_online q s)).
Proof.
  intros [H1 H2 H3 H4 H5 H6] Hi Hq Hav Hsub. split; simpl; try done.
  - intros j Hj. rewrite Hq in Hj. apply elem_of_cons in Hj as [->|Hj]; [done|by apply H3].
  - intros j x Hx Ho Ha. rewrite Hq. destruct (decide (j = i)) as [->|Hne]; [left; set_solver|].
    destruct (H6 j x Hx Ho) as [Hj|Hj]; [|left; set_solver|by right]. intros Hj. by destruct (Hsub j Hj).
Qed.

Lemma addURL_ok new_url p made s :
  feeder_ok s -> (available_url s <> ∅ \/ (list_size s + sizeof_URLService * 10 < 2 ^ 32)%Z) ->
  wp (addURL new_url p made) (fun i s' => feeder_ok s' /\ exists x, service_list s' !! i = Some x /\ service x = made /\ url x = new_url /\
    online x = true /\ priority x = p /\ i ∉ available_url s' /\ (in_use s -> in_use s')) s.
Proof.
  intros Hok Hfit. unfold addURL. wp_steps. eapply wp_mono; [by apply grow_wp|]. intros _ s1 (Hok1 & He & Hu). wp_steps.
  pose proof (least_spec (available_url s1)) as Hl. destruct (least (available_url s1)) as [i|] eqn:Hle; [|done].
  eapply wp_lift; [done|]. destruct Hl as [Hi _]. pose proof (fo_available _ Hok1 i Hi) as Hlt.
  destruct (lookup_lt_is_Some_2 (service_list s1) i Hlt) as [x Hx]. wp_steps. eapply wp_service; [exact Hx|].
  unfold push_online. wp_steps. set (q := q_push _ _ _). set (s2 := set_available _ _).
  assert (feeder_ok s2) as Hok2.
  { apply (pushed_ok s1 i); [done|done|apply bag_push| |simpl; intros j Hj; destruct (decide (j = i)); set_solver]. intros j Hj. apply (fo_available _ Hok1). simpl in Hj. set_solver. }
  eapply wp_change; [exact Hx|]. wp_steps. split.
  - eapply change_ok; [done|exact Hx|done| |done]. intros _. simpl. unfold q. rewrite bag_push. set_solver.
  - eexists. split; [by apply list_lookup_insert_eq|]. simpl. split_and!; try done; [set_solver|].
    intros Hs%Hu j Hj. unfold servable in Hj. simpl in *. unfold q in Hj. rewrite bag_push, elem_of_cons in Hj.
    destruct Hj as [[->|Hj]|Hj]; [set_solver|..]; [pose proof (Hs j (or_introl Hj))|pose proof (Hs j (or_intror Hj))]; set_solver.
Qed.

Lemma remove_loop_wp fuel i : forall w s,
  feeder_ok s -> (forall j, j ∈ q_bag (online_urls s) -> (j < length (service_list s))%nat) ->
  (q_size (online_urls s) <= fuel)%nat ->
  wp (remove_loop fuel i w) (fun w' s' => (exists q, s' = set_online q s) /\
    forall j, j ∈ q_bag w' <-> j ∈ q_bag w \/ (j ∈ q_bag (online_urls s) /\ j <> i)) s.
Proof.
  intros w s Hok Hq. pose proof (fo_index _ Hok) as Hidx. clear Hok. revert w s Hq Hidx.
  induction fuel as [|fuel IH]; intros w s Hq Hidx Hf; simpl; wp_steps; destruct (q_top (online_urls s)) as [p|] eqn:Hp.
  - rewrite bag_size in Hf. pose proof (bag_pop (fun _ => 0%Z) p _ Hp) as Hb. apply Permutation_length in Hb. simpl in Hb. lia.
  - wp_steps. split; [exists (online_urls s); by destruct s|]. apply bag_top in Hp. rewrite Hp. set_solver.
  - set (pr := prio_of (service_list s)). pose proof (bag_pop pr p _ Hp) as Hb.
    destruct (lookup_lt_is_Some_2 (service_list s) p) as [x Hx]; [apply Hq; rewrite Hb; set_solver|].
    unfold pop_online. wp_steps. eapply wp_service; [exact Hx|]. wp_steps. fold pr. rewrite (Hidx p x Hx).
    set (s1 := set_online _ s). eapply wp_mono; [apply IH|].
    + intros j Hj. apply Hq. rewrite Hb. set_solver.
    + exact Hidx.
    + rewrite bag_size in *. apply Permutation_length in Hb. simpl in *. fold pr. lia.
    + intros w' s' [[q ->] Hw]. split; [by exists q|]. intros j. rewrite Hw. simpl. fold pr. rewrite Hb.
      destruct (decide (p = i)) as [->|Hne]; [set_solver|]. rewrite bag_push. set_solver.
  - wp_steps. split; [exists (online_urls s); by destruct s|]. apply bag_top in Hp. rewrite Hp. set_solver.
Qed.

Lemma wp_in_range i (c : FM unit) P s :
  feeder_ok s -> (i < length (service_list s))%nat -> wp c P s -> wp (in_range i c) P s.
Proof. intros Hok Hi Hc. unfold in_range. wp_steps. rewrite (count_ok s Hok), decide_False by lia. done. Qed.

Lemma removeURL_ok i b s :
  feeder_ok s -> (i < length (service_list s))%nat ->
  wp (removeURL i b) (fun _ s' => feeder_ok s' /\ service_list s' = service_list s /\ current_service s' = current_service s /\
    feed_mode s' = feed_mode s /\ (current_service s <> Some i -> in_use s -> in_use s') /\
    (b = true -> exists x, service_list s !! i = Some x /\ disposed s' = disposed s ++ [service x])) s.
Proof.
  intros Hok Hi. destruct (lookup_lt_is_Some_2 (service_list s) i Hi) as [x Hx]. apply wp_in_range; [done|done|].
  wp_steps. eapply wp_service; [exact Hx|]. set (s1 := if b then tell_disposed (service x) s else s).
  assert (feeder_ok s1 /\ service_list s1 = service_list s /\ current_service s1 = current_service s /\ feed_mode s1 = feed_mode s /\
    (online_urls s1 = online_urls s /\ available_url s1 = available_url s) /\ (b = true -> disposed s1 = disposed s ++ [service x])) as (Hok1 & Hl & Hc & Hm & [Hq Ha1] & Hd).
  { unfold s1. destruct b; [|done]. split_and!; try done. destruct Hok. by split. }
  apply wp_bind. apply (wp_intro _ _ _ tt s1); [unfold s1; by destruct b|]. unfold removeFromOnlineQueue. wp_steps.
  eapply wp_mono; [apply (remove_loop_wp _ i); [done|apply (fo_queue _ Hok1)|done]|].
  intros w s' [[q ->] Hw]. wp_steps. simpl. set (q2 := q_merge _ _ _).
  assert (forall j, j ∈ q_bag q2 <-> j ∈ q_bag (online_urls s1) /\ j <> i) as Hq2.
  { intros j. unfold q2. rewrite bag_merge, bag_new. simpl. rewrite Hw, bag_new. set_solver. }
  split_and!; try done.
  - destruct Hok1 as [H1 H2 H3 H4 H5 H6]. split; simpl; try done.
    + intros j Hj. by apply H3, Hq2.
    + intros j [->%elem_of_singleton|Hj]%elem_of_union; [by rewrite Hl|by apply H4].
    + intros j y Hy Ho Ha. destruct (H6 j y Hy Ho) as [Hj|Hj]; [set_solver|left; apply Hq2; set_solver|by right].
  - intros Hci Hu j Hj. unfold servable in Hj. simpl in *. rewrite Hq2, Hq, Hc in Hj. rewrite Ha1.
    assert (j <> i) by naive_solver. assert (j ∉ available_url s) by (apply Hu; unfold servable; tauto). set_solver.
  - intros Hb. exists x. by split; [|apply Hd].
Qed.

Lemma setURLOnline_ok i s :
  feeder_ok s -> (i < length (service_list s))%nat -> wp (setURLOnline i) (fun _ s' => feeder_ok s' /\ (i ∉ available_url s -> in_use s -> in_use s')) s.
Proof.
  intros Hok Hi. destruct (lookup_lt_is_Some_2 (service_list s) i Hi) as [x Hx]. apply wp_in_range; [done|done|]. wp_steps.
  eapply wp_change; [exact Hx|]. unfold push_online. wp_steps. simpl. set (q := q_push _ _ _).
  set (s1 := set_available (available_url s) (set_online q s)).
  assert (feeder_ok s1) as Hok1 by (apply (pushed_ok s i); [done|done|apply bag_push|apply (fo_available _ Hok)|by left]).
  pose proof (change_ok s1 i x (set_flag true x) Hok1 Hx eq_refl) as Hok2.
  split.
  - destruct Hok2 as [H1 H2 H3 H4 H5 H6]; [intros _; simpl; unfold q; rewrite bag_push; set_solver|done|]. by split.
  - intros Hi' Hu j. unfold servable. simpl. unfold q. rewrite bag_push, elem_of_cons. intros [[->|Hj]|Hj]; [done|apply Hu; by left|apply Hu; by right].
Qed.

Lemma setURLOffline_ok i s :
  feeder_ok s -> (i < length (service_list s))%nat ->
  wp (setURLOffline i) (fun _ s' => feeder_ok s' /\ is_online s' i = false /\ current_service s' <> Some i /\ (in_use s -> in_use s')) s.
Proof.
  intros Hok Hi. destruct (lookup_lt_is_Some_2 (service_list s) i Hi) as [x Hx]. apply wp_in_range; [done|done|]. wp_steps.
  set (c := if decide (current_service s = Some i) then None else current_service s).
  apply (wp_intro _ _ _ tt (set_current c s)).
  { unfold c. destruct (current_service s) as [p|] eqn:Hc; [|by destruct s; simpl in *; subst].
    destruct (fo_current _ Hok p Hc) as (y & Hy & _). unfold the_service, mbind, ST_bind, st_gets, st_lift. rewrite Hy.
    rewrite (fo_index _ Hok p y Hy). destruct (decide (p = i)) as [->|Hne]; [by rewrite decide_True|].
    rewrite decide_False by congruence. destruct s; simpl in *. by subst. }
  assert (c <> Some i) as Hci by (unfold c; by case_decide).
  wp_steps. eapply wp_change; [exact Hx|]. wp_steps. split_and!; [|by unfold is_online; simpl; rewrite list_lookup_insert_eq|done|].
  2: { apply in_use_mono; [|done]. unfold servable, c. simpl. intros j [Hj|Hj]; [by left|right]. by case_decide. }
  pose proof (fun j z => lookup_inserted (service_list s) i (set_flag false x) j z Hi) as Hz.
  destruct Hok as [H1 H2 H3 H4 H5 H6]. split; simpl; rewrite ?length_insert; try done.
  - intros j z [[-> ->]|[_ Hj]]%Hz; [by apply (H2 i x)|by apply H2].
  - intros j Hj. assert (j <> i) as Hne by (intros ->; done). destruct (H5 j) as (z & Hjz & Hoz); [unfold c in Hj; by case_decide|].
    exists z. by rewrite list_lookup_insert_ne.
  - intros j z [[-> ->]|[Hne Hj]]%Hz Hoz Ha; [done|]. destruct (H6 j z Hj Hoz Ha) as [?|Hcj]; [by left|right].
    unfold c. rewrite decide_False; [done|congruence].
Qed.

(** The same objects with the same flags. *)
Definition same_flags (l l' : list URLService) : Prop := Forall2 (fun x x' => index x' = index x /\ online x' = online x) l l'.

Lemma same_flags_refl l : same_flags l l.
Proof. apply Forall_Forall2_diag, Forall_true. by intros. Qed.

Lemma same_flags_lookup l l' i x' : same_flags l l' -> l' !! i = Some x' -> exists x, l !! i = Some x /\ index x' = index x /\ online x' = online x.
Proof. intros H Hx. by destruct (Forall2_lookup_r _ _ _ _ _ H Hx) as (x & ? & ?); eauto. Qed.

Lemma same_flags_insert l i x y :
  l !! i = Some x -> index y = index x -> online y = online x -> same_flags l (<[i := y]> l).
Proof.
  intros Hx H1 H2. rewrite <- (list_insert_id l i x Hx) at 1. apply Forall2_insert; [apply same_flags_refl|done].
Qed.

Lemma same_flags_trans l1 l2 l3 : same_flags l1 l2 -> same_flags l2 l3 -> same_flags l1 l3.
Proof. apply Forall2_trans. intros x y z [? ?] [? ?]. split; congruence. Qed.

Lemma clear_loop_wp b l : forall s, (forall i, i ∈ l -> (i < length (service_list s))%nat) ->
  wp (clear_loop b l) (fun _ s' => same_flags (service_list s) (service_list s') /\ list_size s' = list_size s /\
    current_service s' = current_service s /\ online_urls s' = online_urls s /\ available_url s' = list_to_set l ∪ available_url s) s.
Proof.
  induction l as [|i l IH]; intros s Hl; simpl.
  { wp_steps. split_and!; try done; [apply same_flags_refl|set_solver]. }
  destruct (lookup_lt_is_Some_2 (service_list s) i) as [x Hx]; [apply Hl; set_solver|].
  unfold clear_one. wp_steps. eapply wp_service; [exact Hx|].
  set (s1 := match service x with Some p => if b then tell_disposed (Some p) s else s | None => s end).
  apply wp_bind. apply (wp_intro _ _ _ tt s1); [unfold s1; destruct (service x); [by destruct b|done]|].
  assert (service_list s1 = service_list s /\ list_size s1 = list_size s /\ current_service s1 = current_service s /\
    online_urls s1 = online_urls s /\ available_url s1 = available_url s) as (H1 & H2 & H3 & H4 & H5)
    by (unfold s1; destruct (service x); [destruct b|]; done).
  wp_steps. eapply wp_change; [by rewrite H1|]. wp_steps. eapply wp_mono; [apply IH|].
  - intros j Hj. simpl. rewrite length_insert, H1. apply Hl. set_solver.
  - simpl. intros _ s' (Hf & E1 & E2 & E3 & E4). split_and!; try congruence.
    + rewrite H1 in Hf. eapply same_flags_trans; [by apply (same_flags_insert _ i x (emptied x))|done].
    + rewrite E4, H5. set_solver.
Qed.

Lemma clear_ok b s : feeder_ok s -> wp (clear b) (fun _ s' => feeder_ok s' /\ (current_service s = None -> in_use s')) s.
Proof.
  intros Hok. unfold clear. wp_steps. assert (count (set_online q_new s) = length (service_list s)) as -> by apply (count_ok s Hok).
  eapply wp_mono; [apply clear_loop_wp; simpl; intros i Hi%elem_of_seq; lia|]. simpl.
  intros _ s' (Hf & E1 & E2 & E3 & E4). pose proof (Forall2_length _ _ _ Hf) as Hlen.
  assert (forall i, i ∈ available_url s' <-> (i < length (service_list s))%nat) as Hav.
  { intros i. rewrite E4, elem_of_union, elem_of_list_to_set, elem_of_seq. split; [|naive_solver lia].
    intros [?|?]; [lia|by apply (fo_available _ Hok)]. }
  split; [|intros Hc i; unfold servable; rewrite E2, E3, bag_new, Hc; by intros [?%elem_of_nil|?]].
  destruct Hok as [H1 H2 H3 H4 H5 H6]. split.
  - by rewrite E1, <- Hlen.
  - intros i x Hx. destruct (same_flags_lookup _ _ _ _ Hf Hx) as (y & Hy & -> & _). by apply H2.
  - intros i. rewrite E3, bag_new. by intros ?%elem_of_nil.
  - intros i. rewrite <- Hlen. apply Hav.
  - intros i. rewrite E2. intros (x & Hx & Ho)%H5. destruct (Forall2_lookup_l _ _ _ _ _ Hf Hx) as (x' & Hx' & _ & Ho'). exists x'. by rewrite Ho'.
  - intros i x Hx _ Ha. destruct Ha. apply Hav. rewrite Hlen. by eapply lookup_lt_Some.
Qed.

(** ** Runs *)

Inductive fop :=
  | FAdd (new_url : list Z) (p : Z) (made : option nat) | FRemove (idx : nat) (deallocate : bool)
  | FOffline (idx : nat) | FOnline (idx : nat) | FClear (dispose : bool) | FMode (m : URLServiceFeedMode) | FGet.

Definition fexec (o : fop) : FM unit :=
  match o with
  | FAdd u p made => addURL u p made;; mret tt
  | FRemove i b => removeURL i b
  | FOffline i => setURLOffline i
  | FOnline i => setURLOnline i
  | FClear b => clear b
  | FMode m => setFeedMode m
  | FGet => getService;; mret tt
  end.

(** The index was given out, and the size of the list does not overflow. *)
Definition fop_ok (s : Feeder) (o : fop) : Prop :=
  match o with
  | FAdd _ _ _ => available_url s <> ∅ \/ (list_size s + sizeof_URLService * 10 < 2 ^ 32)%Z
  | FRemove i _ | FOffline i | FOnline i => (i < length (service_list s))%nat
  | _ => True
  end.

(** What a client has to respect to be served only URLs in use: it takes the current URL
    offline before it removes it, and before it clears the feeder, and sets only URLs in use
    online.  The code tests none of this. *)
Definition respects (s : Feeder) (o : fop) : Prop :=
  match o with
  | FRemove i _ => current_service s <> Some i
  | FClear _ => current_service s = None
  | FOnline i => i ∉ available_url s
  | _ => True
  end.

Definition fstep (s s' : Feeder) : Prop := exists o, fop_ok s o /\ fexec o s = Some (tt, s').
Definition respectful_step (s s' : Feeder) : Prop := exists o, fop_ok s o /\ respects s o /\ fexec o s = Some (tt, s').

Lemma fexec_ok o s :
  feeder_ok s -> fop_ok s o -> wp (fexec o) (fun _ s' => feeder_ok s' /\ (respects s o -> in_use s -> in_use s')) s.
Proof.
  intros Hok Ho. destruct o as [u p made|i b|i|i|b|m|]; simpl in *.
  - wp_steps. eapply wp_mono; [by apply addURL_ok|]. intros i s' (H & x & Hx). wp_steps. naive_solver.
  - eapply wp_mono; [by apply removeURL_ok|]. naive_solver.
  - eapply wp_mono; [by apply setURLOffline_ok|]. naive_solver.
  - by apply setURLOnline_ok.
  - eapply wp_mono; [by apply clear_ok|]. naive_solver.
  - unfold setFeedMode. wp_steps. split; [destruct Hok; by split|done].
  - wp_steps. eapply wp_mono; [by apply getService_wp|]. intros r s' (H & _ & Hu). wp_steps. naive_solver.
Qed.

Lemma reachable_ok s : rtc fstep new_Feeder s -> feeder_ok s.
Proof.
  revert s. refine (rtc_ind_r (fun s => feeder_ok s) new_Feeder new_Feeder_ok _).
  intros s1 s2 _ (o & Ho & E) Hok. pose proof (fexec_ok o s1 Hok Ho) as H. unfold wp in H. rewrite E in H. apply H.
Qed.

Lemma respectful_ok s : rtc respectful_step new_Feeder s -> feeder_ok s /\ in_use s.
Proof.
  revert s. refine (rtc_ind_r (fun s => feeder_ok s /\ in_use s) new_Feeder _ _).
  - split; [apply new_Feeder_ok|]. intros i. unfold servable. simpl. rewrite bag_new. set_solver.
  - intros s1 s2 _ (o & Ho & Hr & E) [Hok Hu]. pose proof (fexec_ok o s1 Hok Ho) as H. unfold wp in H. rewrite E in H. naive_solver.
Qed.


(** The feeder still serves a service after it was told to dispose of it: [removeURL]
    forgets neither the current service nor that it is online, so a client in fail-over mode
    gets the disposed object. *)
Theorem removed_service_is_served s i x :
  rtc fstep new_Feeder s -> current_service s = Some i -> service_list s !! i = Some x ->
  feed_mode s = URLServiceFeedModeFailOver ->
  exists s1, removeURL i true s = Some (tt, s1) /\ disposed s1 = disposed s ++ [service x] /\
    getService s1 = Some (service x, s1).
Proof.
  intros Hok%reachable_ok Hc Hx Hm. destruct (wp_elim _ _ _ (removeURL_ok i true s Hok (lookup_lt_Some _ _ _ Hx)))
    as ([] & s1 & E & _ & Hl & Hc1 & Hm1 & _ & Hd). exists s1. split; [exact E|].
  destruct (Hd eq_refl) as (y & Hy & Hdis). rewrite Hx in Hy. injection Hy as <-. split; [done|].
  unfold getService, the_service, mbind, ST_bind, st_gets. rewrite Hc1, Hc, Hm1, Hm. simpl. unfold st_lift. rewrite Hc1, Hc. simpl.
  by rewrite Hl, Hx.
Qed.

(** A free place whose old priority is higher than those in the queue puts the URL that gets
    it first, whatever priority it is added with. *)
Lemma stale_priority_decides s u p made i x :
  feeder_ok s -> q_ordered (prio_of (service_list s)) (online_urls s) -> current_service s = None ->
  least (available_url s) = Some i -> service_list s !! i = Some x ->
  (forall j, j ∈ q_bag (online_urls s) -> (prio_of (service_list s) j < priority x)%Z) ->
  exists s1 s2, addURL u p made s = Some (i, s1) /\ getService s1 = Some (made, s2).
Proof.
  intros Hok Ho Hc Hl Hx Hlow. assert (available_url s <> ∅) as Hne.
  { intros He. pose proof (least_spec (available_url s)) as H. rewrite Hl, He in H. set_solver. }
  set (q := q_push (prio_of (service_list s)) i (online_urls s)).
  set (s1 := set_list (list_size s) (<[i := filled u p made x]> (service_list s)) (set_available (available_url s ∖ {[i]}) (set_online q s))).
  assert (addURL u p made s = Some (i, s1)) as E1.
  { assert (wp (addURL u p made) (fun j s' => j = i /\ s' = s1) s) as (j & s' & E & -> & ->)%wp_elim; [|done].
    unfold addURL, grow. wp_steps. rewrite decide_False by done. wp_steps. eapply wp_lift; [exact Hl|]. wp_steps.
    eapply wp_service; [exact Hx|]. unfold push_online. wp_steps. eapply wp_change; [exact Hx|]. by wp_steps. }
  assert (q_top q = Some i) as Ht.
  { destruct (q_top q) as [t|] eqn:Ht; [|by apply bag_top in Ht; pose proof (bag_push (prio_of (service_list s)) i (online_urls s)) as Hb;
      fold q in Hb; rewrite Ht in Hb; apply Permutation_nil_cons in Hb].
    assert (prio_of (service_list s) i <= prio_of (service_list s) t)%Z as Hmax.
    { eapply top_max; [apply ordered_push, Ho|exact Ht|]. rewrite bag_push. set_solver. }
    pose proof (bag_pop (prio_of (service_list s)) t _ Ht) as Hb. unfold q in Hb at 1. rewrite bag_push in Hb.
    assert (t ∈ i :: q_bag (online_urls s)) as Hin by (rewrite Hb; set_solver).
    apply elem_of_cons in Hin as [->|Hin]; [done|]. specialize (Hlow t Hin). unfold prio_of at 1 in Hmax. rewrite Hx in Hmax. simpl in Hmax. lia. }
  assert (exists n, q_size q = S n) as [n Hn] by (rewrite bag_size; unfold q; rewrite (Permutation_length (bag_push _ _ _)); by eexists).
  assert (service_list s1 !! i = Some (filled u p made x)) as Hi by (by apply list_lookup_insert_eq; eapply lookup_lt_Some).
  assert (wp getService (fun r _ => r = made) s1) as (r & s2 & E & ->)%wp_elim; [|by exists s1, s2].
  unfold getService. wp_steps. change (current_service s1) with (current_service s). rewrite Hc. unfold getNext. wp_steps.
  change (online_urls s1) with q. rewrite Hn. simpl. wp_steps. change (online_urls s1) with q. rewrite Ht.
  wp_steps. eapply wp_service; [exact Hi|]. simpl. unfold pop_online. wp_steps. by eapply wp_service.
Qed.

End Feeder.

(** ** A queue that meets the interface *)

Module ListQueue.

(** The elements by decreasing priority. *)
Fixpoint insert (pr : nat -> Z) (x : nat) (q : list nat) : list nat :=
  match q with
  | [] => [x]
  | y :: q' => if (pr y <? pr x)%Z then x :: q else y :: insert pr x q'
  end.

#[export] Instance list_queue : OnlineQueue (list nat) := {
  q_new := []; q_size := length; q_top := head; q_push := insert; q_pop := fun _ q => tail q;
  q_merge := fun pr q q' => foldr (insert pr) q q' }.

Definition higher (pr : nat -> Z) (x y : nat) : Prop := (pr y <= pr x)%Z.

Lemma insert_perm pr x q : insert pr x q ≡ₚ x :: q.
Proof. induction q as [|y q IH]; simpl; [done|]. destruct (_ <? _)%Z; [done|]. rewrite IH. by constructor. Qed.

Lemma insert_ordered pr x q : StronglySorted (higher pr) q -> StronglySorted (higher pr) (insert pr x q).
Proof.
  intros H. induction H as [|y q Hq IH Hy]; simpl; [by repeat constructor|]. destruct (Z.ltb_spec (pr y) (pr x)).
  - constructor; [by constructor|]. constructor; [unfold higher; lia|]. eapply Forall_impl; [exact Hy|]. unfold higher. lia.
  - constructor; [done|]. rewrite insert_perm. by constructor.
Qed.

#[export] Instance list_queue_laws : OnlineQueueLaws (list nat).
Proof.
  refine {| q_bag := fun q => q; q_ordered := fun pr q => StronglySorted (higher pr) q |}; simpl.
  - done.
  - done.
  - by intros [|].
  - apply insert_perm.
  - by intros pr x [|y q] [= ->].
  - intros pr q q'. induction q' as [|x q' IH]; simpl; [by rewrite app_nil_r|]. rewrite insert_perm, IH. by rewrite Permutation_middle.
  - constructor.
  - apply insert_ordered.
  - intros pr q H. destruct H; [constructor|done].
  - intros pr q q' Hq _. induction q' as [|x q' IH]; simpl; [done|]. by apply insert_ordered.
  - intros pr x y q H Hx Hy. destruct H as [|z q Hq Hz]; [done|]. injection Hx as ->.
    apply elem_of_cons in Hy as [->|Hy]; [done|]. by eapply Forall_forall in Hz.
Defined.

(** *** Scenarios *)

Definition go (os : list fop) : option (Feeder (list nat)) :=
  foldl (fun s o => s ← s; snd <$> fexec 96 o s) (Some new_Feeder) os.
Definition went (os : list fop) : Feeder (list nat) := default new_Feeder (go os).

(** Two services; the first is current, goes offline, and the mode is fail-over. *)
Definition two : list fop :=
  [FAdd (chars "a:1") 5 (Some 10%nat); FAdd (chars "b:1") 3 (Some 11%nat); FMode URLServiceFeedModeFailOver; FGet].

Definition okb (s : Feeder (list nat)) (o : fop) : bool :=
  match o with
  | FAdd _ _ _ => bool_decide (available_url s <> ∅) || (list_size s + 960 <? 2 ^ 32)%Z
  | FRemove i _ | FOffline i | FOnline i => (i <? length (service_list s))%nat
  | _ => true
  end.

Definition respectsb (s : Feeder (list nat)) (o : fop) : bool :=
  match o with
  | FRemove i _ => bool_decide (current_service s <> Some i)
  | FClear _ => bool_decide (current_service s = None)
  | FOnline i => bool_decide (i ∉ available_url s)
  | _ => true
  end.

Fixpoint checked (os : list fop) (s : Feeder (list nat)) : option (Feeder (list nat)) :=
  match os with
  | [] => Some s
  | o :: os => if (okb s o && respectsb s o)%bool then s ← snd <$> fexec 96 o s; checked os s else None
  end.

Lemma checked_rtc os : forall s s', checked os s = Some s' -> rtc (respectful_step 96) s s'.
Proof.
  induction os as [|o os IH]; intros s s'; simpl; [by intros [= ->]|]. destruct (_ && _)%bool eqn:H; [|done].
  apply andb_true_iff in H as [Ho Hr].
  destruct (fexec 96 o s) as [[[] s1]|] eqn:E; [|done]. simpl. intros H. eapply rtc_l; [|by apply IH].
  exists o. split_and!; [| |done].
  - destruct o; simpl in *; try done; try (by apply Nat.ltb_lt).
    apply orb_true_iff in Ho as [Ho|Ho]; [left; by apply bool_decide_eq_true in Ho|right; by apply Z.ltb_lt in Ho].
  - destruct o; simpl in *; try done; by apply bool_decide_eq_true in Hr.
Qed.


Lemma removed_service_is_served_witness :
  exists s1, removeURL 96 0 true (went two) = Some (tt, s1) /\ disposed s1 = [Some 10%nat] /\ getService s1 = Some (Some 10%nat, s1).
Proof.
  apply (removed_service_is_served 96 eq_refl (went two) 0%nat (mkService 0 5 true (chars "a:1") (Some 10%nat))).
  - eapply rtc_subrel; [|apply (checked_rtc two); by vm_compute]. intros ? ? (o & Ho & _ & E). by exists o.
  - by vm_compute.
  - by vm_compute.
  - by vm_compute.
Defined.

End ListQueue.
