(* ===== verification/DirectIO.v ===== *)
(** * Direct I/O messages

    Models the path of a data message from the device channel of a client to the handler
    of a server: [chaos/common/direct_io/DirectIODataPack.h], the headers and operations of
    [channel/DirectIODevice*Channel], the frames [impl/ZMQDirectIOClientConnection] and
    [impl/ZMQDirectIOServer] put on the wire, and the endpoints of [DirectIODispatcher] and
    [DirectIOServerEndpoint].  Allocated blocks are lists of bytes and every access is
    bounded.  The host and its layout of structures are those of x86-64, as in [Events].

    ZeroMQ is outside: whether a send succeeds and which frames a receive gets are
    arguments.  So are the handler of a channel, fresh memory, the ports of the client and
    the identifiers of queries. *)

From S2P Require Import Prelude Endian Events BufBuilder Bson BsonBuilder CDataWrapper.

Local Open Scope Z_scope.

(** ** The pack *)

Definition DIRECT_IO_HEADER_SIZE : nat := 16.
Definition DIRECT_IO_CHANNEL_PART_EMPTY : Z := 0.
Definition DIRECT_IO_CHANNEL_PART_HEADER_ONLY : Z := 1.
Definition DIRECT_IO_CHANNEL_PART_DATA_ONLY : Z := 2.
Definition DIRECT_IO_CHANNEL_PART_HEADER_DATA : Z := 3.
Definition DIODataset_Channel_Index : Z := 2.

(** The view of the 64-bit union as bit-fields. *)
Record dispatcher_header := mkFields {
  route_addr : Z; synchronous_answer : Z; unused : Z; channel_idx : Z; channel_part : Z;
  channel_opcode : Z; channel_specified_tag : Z }.

Definition raw_data (f : dispatcher_header) : Z :=
  Z.lor (Z.lor (Z.lor (Z.lor (Z.lor (Z.lor
    (Z.land (route_addr f) 0xffff)
    (Z.shiftl (Z.land (synchronous_answer f) 0x1) 16))
    (Z.shiftl (Z.land (unused f) 0x7fff) 17))
    (Z.shiftl (Z.land (channel_idx f) 0xff) 32))
    (Z.shiftl (Z.land (channel_part f) 0xff) 40))
    (Z.shiftl (Z.land (channel_opcode f) 0xff) 48))
    (Z.shiftl (Z.land (channel_specified_tag f) 0xff) 56).

Definition fields_of (w : Z) : dispatcher_header :=
  mkFields (Z.land w 0xffff) (Z.land (Z.shiftr w 16) 0x1) (Z.land (Z.shiftr w 17) 0x7fff) (Z.land (Z.shiftr w 32) 0xff)
    (Z.land (Z.shiftr w 40) 0xff) (Z.land (Z.shiftr w 48) 0xff) (Z.land (Z.shiftr w 56) 0xff).

(** Null pointers are [None]. *)
Record DirectIODataPack := mkPack {
  fields : dispatcher_header;
  channel_header_size : Z;
  channel_data_size : Z;
  channel_header_data : option (list Z);
  channel_data : option (list Z) }.

(** [calloc] *)
Definition new_pack : DirectIODataPack := mkPack (mkFields 0 0 0 0 0 0 0) 0 0 None None.

Definition set_fields f (p : DirectIODataPack) : DirectIODataPack :=
  mkPack f (channel_header_size p) (channel_data_size p) (channel_header_data p) (channel_data p).
Definition set_route x f := mkFields (u16 x) (synchronous_answer f) (unused f) (channel_idx f) (channel_part f) (channel_opcode f) (channel_specified_tag f).
Definition set_synchronous (b : bool) f := mkFields (route_addr f) (if b then 1 else 0) (unused f) (channel_idx f) (channel_part f) (channel_opcode f) (channel_specified_tag f).
Definition set_idx x f := mkFields (route_addr f) (synchronous_answer f) (unused f) (u8 x) (channel_part f) (channel_opcode f) (channel_specified_tag f).
Definition set_part x f := mkFields (route_addr f) (synchronous_answer f) (unused f) (channel_idx f) (u8 x) (channel_opcode f) (channel_specified_tag f).
Definition set_opcode x f := mkFields (route_addr f) (synchronous_answer f) (unused f) (channel_idx f) (channel_part f) (u8 x) (channel_specified_tag f).

(** [TO_LITTE_ENDNS_NUM] and [FROM_LITTLE_ENDNS_NUM] *)
Definition to_le (sz : nat) (v : Z) : outcome Z := access (byte_swap host_endian little_endian sz v).
Definition from_le (sz : nat) (v : Z) : outcome Z := access (byte_swap little_endian host_endian sz v).

Definition DIRECT_IO_SET_CHANNEL_HEADER (p : DirectIODataPack) (h_ptr : list Z) (h_size : Z) : outcome DirectIODataPack :=
  let p := set_fields (set_part (channel_part (fields p) + DIRECT_IO_CHANNEL_PART_HEADER_ONLY) (fields p)) p in
  n ← to_le 4 (u32 h_size);
  mret (mkPack (fields p) n (channel_data_size p) (Some h_ptr) (channel_data p)).

(** The three statements of the macro; the first one may be guarded by an [if] before it. *)
Definition data_part (p : DirectIODataPack) : DirectIODataPack :=
  set_fields (set_part (channel_part (fields p) + DIRECT_IO_CHANNEL_PART_DATA_ONLY) (fields p)) p.
Definition data_block (p : DirectIODataPack) (d_ptr : list Z) (d_size : Z) : outcome DirectIODataPack :=
  n ← to_le 4 (u32 d_size);
  mret (mkPack (fields p) (channel_header_size p) n (channel_header_data p) (Some d_ptr)).
Definition DIRECT_IO_SET_CHANNEL_DATA (p : DirectIODataPack) (d_ptr : list Z) (d_size : Z) : outcome DirectIODataPack :=
  data_block (data_part p) d_ptr d_size.

(** ** Headers of the device channel *)

Definition DeviceChannelOpcodePutOutput : Z := 1.
Definition DeviceChannelOpcodeGetLastOutput : Z := 2.
Definition DeviceChannelOpcodeQueryDataCloud : Z := 4.
Definition DeviceChannelOpcodeQueryDataCloudStartResult : Z := 8.
Definition DeviceChannelOpcodeQueryDataCloudResult : Z := 16.
Definition DeviceChannelOpcodeQueryDataCloudEndResult : Z := 24.

Definition QUERY_PARAM_STAR_TS_I64 := chars "qp_data_cloud_start_ts".
Definition QUERY_PARAM_END_TS_I64 := chars "qp_data_cloud_end_ts".
Definition QUERY_PARAM_SEARCH_KEY_STRING := chars "qp_data_cloud_key".

(** Sizes: a union is as large as its largest member, rounded to its alignment. *)
Definition GET_PUT_OPCODE_FIXED_PART_LEN : nat := 2.
Definition sizeof_GetOpcode : nat := 16.
Definition QUERY_DATA_CLOUD_OPCODE_HEADER_LEN : nat := 24.
Definition QUERY_DATA_CLOUD_START_RESULT_OPCODE_HEADER_LEN : nat := 16.
Definition QUERY_DATA_CLOUD_RESULT_OPCODE_HEADER_LEN : nat := 24.
Definition QUERY_DATA_CLOUD_END_RESULT_OPCODE_HEADER_LEN : nat := 24.

(** Members: offset and size. *)
Definition off_tag : nat := 0.
Definition off_key_len : nat := 1.
Definition off_endpoint : nat := 0.
Definition off_p_port : nat := 2.
Definition off_s_port : nat := 4.
Definition off_address : nat := 8.
Definition off_query_id : nat := 16.
Definition off_result_id : nat := 0.
Definition off_number : nat := 8.
Definition off_error : nat := 8.
Definition off_error_length : nat := 12.

(** Load and store of an unsigned member in host order. *)
Definition load (h : list Z) (off sz : nat) : outcome Z := bs ← access (buf_read h off sz); mret (host_val host_endian bs).
Definition store (h : list Z) (off sz : nat) (v : Z) : outcome (list Z) := access (buf_write h off (host_bytes host_endian sz v)).

(** [field = TO_LITTE_ENDNS_NUM(type, v)], and back with a conversion at width [w]. *)
Definition put_le (h : list Z) (off sz : nat) (v : Z) : outcome (list Z) := v ← to_le sz v; store h off sz v.
Definition fix_le (w : nat) (off sz : nat) (h : list Z) : outcome (list Z) :=
  v ← load h off sz; v ← from_le w v; store h off sz (uwrap (8 * Z.of_nat sz) v).

(** Bytes of a C string, and [strncpy]. *)
Fixpoint c_str (s : list Z) : list Z := match s with [] => [] | c :: s => if c =? 0 then [] else c :: c_str s end.
Definition strncpy (h : list Z) (off : nat) (s : list Z) (n : nat) : outcome (list Z) :=
  access (buf_write h off (take n (c_str s ++ replicate n 0))).

(** ** The client *)

Record AnswerServerInfo := mkInfo { p_server_port : Z; s_server_port : Z; answer_endpoint : Z; ip : Z }.

(** Where the answers to a request go. *)
Definition put_info (i : AnswerServerInfo) (h : list Z) : outcome (list Z) :=
  h ← put_le h off_address 8 (ip i);
  h ← put_le h off_p_port 2 (p_server_port i);
  h ← put_le h off_s_port 2 (s_server_port i);
  put_le h off_endpoint 2 (answer_endpoint i).

Definition with_opcode (op : Z) : DirectIODataPack := set_fields (set_opcode op (fields new_pack)) new_pack.

(** The pack of each operation, before it is sent. *)
Definition put_pack (key buffer : list Z) (put_mode : Z) : outcome DirectIODataPack :=
  let h := replicate (GET_PUT_OPCODE_FIXED_PART_LEN + length key + length key) 0 in
  h ← store h off_tag 1 (u8 put_mode);
  h ← store h off_key_len 1 (u8 (Z.of_nat (length key)));
  n ← load h off_key_len 1;
  h ← access (buf_write h 2 (take (Z.to_nat n) key));
  p ← DIRECT_IO_SET_CHANNEL_HEADER (with_opcode DeviceChannelOpcodePutOutput) h (Z.of_nat GET_PUT_OPCODE_FIXED_PART_LEN + u32 (Z.of_nat (length key)));
  let buffer_len := Z.of_nat (length buffer) in
  data_block (if buffer_len =? 0 then p else data_part p) buffer buffer_len.

Definition get_pack (i : AnswerServerInfo) (key : list Z) : outcome DirectIODataPack :=
  h ← put_info i (replicate sizeof_GetOpcode 0);
  p ← DIRECT_IO_SET_CHANNEL_HEADER (with_opcode DeviceChannelOpcodeGetLastOutput) h (Z.of_nat sizeof_GetOpcode);
  DIRECT_IO_SET_CHANNEL_DATA p key (Z.of_nat (length key)).

(** ** Receiving frames *)

(** Calls of [zmq_recv] on a socket: the frames that arrive, [None] for a call that fails.
    A round of the receiving loop waits for more, is given up, breaks the memory, or has a
    result. *)
Inductive rx (A : Type) : Type :=
  | Waits
  | GivesUp (rest : list (option (list Z)))
  | Breaks
  | Got (a : A) (rest : list (option (list Z))).
Arguments Waits {A}.
Arguments GivesUp {A}.
Arguments Breaks {A}.
Arguments Got {A}.

Definition RX (A : Type) : Type := list (option (list Z)) -> rx A.
#[export] Instance RX_ret : MRet RX := fun A a st => Got a st.
#[export] Instance RX_bind : MBind RX := fun A B k c st =>
  match c st with Got a st => k a st | Waits => Waits | GivesUp st => GivesUp st | Breaks => Breaks end.
Definition rx_lift {A} (o : outcome A) : RX A := fun st => match o with Ret a => Got a st | _ => Breaks end.
Definition rx_skip {A} : RX A := fun st => GivesUp st.

Definition zmq_recv : RX (list Z) := fun st =>
  match st with [] => Waits | None :: st => GivesUp st | Some f :: st => Got f st end.

(** ** Packing and unpacking *)

Section Wrapper.
(** The bytes of fresh memory. *)
Context (junk : Z).

(** [query_id] is the generated identifier, cut to eight characters. *)
Definition query_pack (i : AnswerServerInfo) (key : list Z) (start_ts end_ts : Z) (query_id : list Z) : outcome DirectIODataPack :=
  q ← new_CDataWrapper junk;
  q ← addStringValue junk QUERY_PARAM_SEARCH_KEY_STRING key q;
  q ← addInt64Value junk QUERY_PARAM_STAR_TS_I64 (s64 start_ts) q;
  q ← addInt64Value junk QUERY_PARAM_END_TS_I64 (s64 end_ts) q;
  h ← put_info i (replicate QUERY_DATA_CLOUD_OPCODE_HEADER_LEN 0);
  h ← strncpy h off_query_id query_id 8;
  '(buffer, _) ← getBSONData junk q;
  buffer ← access buffer;
  p ← DIRECT_IO_SET_CHANNEL_HEADER (with_opcode DeviceChannelOpcodeQueryDataCloud) h (Z.of_nat QUERY_DATA_CLOUD_OPCODE_HEADER_LEN);
  DIRECT_IO_SET_CHANNEL_DATA p buffer (Z.of_nat (length buffer)).

Definition start_pack (query_id : list Z) (total_element_found : Z) : outcome DirectIODataPack :=
  h ← strncpy (replicate QUERY_DATA_CLOUD_START_RESULT_OPCODE_HEADER_LEN 0) off_result_id query_id 8;
  h ← put_le h off_number 8 total_element_found;
  DIRECT_IO_SET_CHANNEL_HEADER (with_opcode DeviceChannelOpcodeQueryDataCloudStartResult) h (Z.of_nat QUERY_DATA_CLOUD_START_RESULT_OPCODE_HEADER_LEN).

Definition result_pack (query_id : list Z) (element_index : Z) (data : list Z) : outcome DirectIODataPack :=
  h ← strncpy (replicate QUERY_DATA_CLOUD_RESULT_OPCODE_HEADER_LEN 0) off_result_id query_id 8;
  h ← put_le h off_number 8 element_index;
  p ← DIRECT_IO_SET_CHANNEL_HEADER (with_opcode DeviceChannelOpcodeQueryDataCloudResult) h (Z.of_nat QUERY_DATA_CLOUD_RESULT_OPCODE_HEADER_LEN);
  DIRECT_IO_SET_CHANNEL_DATA p data (Z.of_nat (length data)).

Definition end_pack (query_id : list Z) (error : Z) (error_message : list Z) : outcome DirectIODataPack :=
  h ← strncpy (replicate QUERY_DATA_CLOUD_END_RESULT_OPCODE_HEADER_LEN 0) off_result_id query_id 8;
  h ← put_le h off_error 4 (u32 error);
  h ← put_le h off_error_length 4 (u32 (Z.of_nat (length error_message)));
  DIRECT_IO_SET_CHANNEL_HEADER (with_opcode DeviceChannelOpcodeQueryDataCloudEndResult) h (Z.of_nat QUERY_DATA_CLOUD_START_RESULT_OPCODE_HEADER_LEN).

(** ** On the wire *)

Inductive SentPart := SentPartHeader | SentPartData.

(** The result of a send: the return value, the frames given to the socket after the
    delimiter, and the blocks handed over or freed. *)
Record sent := mkSent { err : Z; frames : list (list Z); freed : list SentPart }.

Definition completeChannnelDataPack (b : bool) (p : DirectIODataPack) : DirectIODataPack :=
  set_fields (set_idx DIODataset_Channel_Index (set_synchronous b (fields p))) p.
Definition completeDataPack (endpoint : Z) (p : DirectIODataPack) : DirectIODataPack := set_fields (set_route endpoint (fields p)) p.

(** The conversions at the start of [writeToSocket], and the sixteen bytes of the header. *)
Definition wire_pack (p : DirectIODataPack) : outcome DirectIODataPack :=
  r ← to_le 8 (raw_data (fields p));
  h ← to_le 4 (channel_header_size p);
  d ← to_le 4 (channel_data_size p);
  mret (mkPack (fields_of r) h d (channel_header_data p) (channel_data p)).
Definition header_bytes (p : DirectIODataPack) : list Z :=
  host_bytes host_endian 8 (raw_data (fields p)) ++ host_bytes host_endian 4 (channel_header_size p) ++ host_bytes host_endian 4 (channel_data_size p).

(** [zmq_msg_init_data]: the message is the memory at the pointer. *)
Definition message (o : option (list Z)) (size : Z) : outcome (list Z) := b ← access o; access (buf_read b 0 (Z.to_nat size)).

(** [ok k]: the send number [k] succeeds.  Up to the answer. *)
Definition writeToSocket (ok : nat -> bool) (p : DirectIODataPack) : outcome sent :=
  p ← wire_pack p;
  let head := header_bytes p in
  let part := channel_part (fields p) in
  if part =? DIRECT_IO_CHANNEL_PART_EMPTY then
    mret (if ok 0%nat then mkSent (Z.of_nat DIRECT_IO_HEADER_SIZE) [head] [] else mkSent (-1) [] [])
  else if part =? DIRECT_IO_CHANNEL_PART_HEADER_ONLY then
    if negb (ok 0%nat) then mret (mkSent (-1) [] []) else
    h ← message (channel_header_data p) (channel_header_size p);
    mret (if ok 1%nat then mkSent 0 [head; h] [SentPartHeader] else mkSent (-1) [head] [SentPartHeader])
  else if part =? DIRECT_IO_CHANNEL_PART_DATA_ONLY then
    if negb (ok 0%nat) then mret (mkSent (-1) [] [SentPartData]) else
    d ← message (channel_data p) (channel_data_size p);
    mret (if ok 1%nat then mkSent 0 [head; d] [SentPartData] else mkSent (-1) [head] [SentPartData])
  else if part =? DIRECT_IO_CHANNEL_PART_HEADER_DATA then
    if negb (ok 0%nat) then mret (mkSent (-1) [] [SentPartData]) else
    h ← message (channel_header_data p) (channel_header_size p);
    if negb (ok 1%nat) then mret (mkSent (-1) [head] [SentPartHeader; SentPartData]) else
    d ← message (channel_data p) (channel_data_size p);
    (* the result of closing the messages replaces that of the last send *)
    mret (mkSent 0 (if ok 2%nat then [head; h; d] else [head; h]) [SentPartHeader; SentPartData])
  else mret (mkSent 0 [] []).

(** [sendPriorityData] of the channel and of the connection; [sendServiceData] of the channel
    calls the same. *)
Definition sendPriorityData (ok : nat -> bool) (endpoint : Z) (synchronous : bool) (p : DirectIODataPack) : outcome sent :=
  writeToSocket ok (completeDataPack endpoint (completeChannnelDataPack synchronous p)).

(** The operations of the client. *)
Inductive request :=
  | storeAndCacheDataOutputChannel (key buffer : list Z) (put_mode : Z)
  | requestLastOutputData (key : list Z)
  | queryDataCloud (key : list Z) (start_ts end_ts : Z) (query_id : list Z)
  | startQueryDataCloudResult (query_id : list Z) (total_element_found : Z)
  | sendResultToQueryDataCloud (query_id : list Z) (element_index : Z) (data : list Z)
  | endQueryDataCloudResult (query_id : list Z) (error : Z) (error_message : list Z).

Definition request_pack (i : AnswerServerInfo) (r : request) : outcome DirectIODataPack :=
  match r with
  | storeAndCacheDataOutputChannel key buffer m => put_pack key buffer m
  | requestLastOutputData key => get_pack i key
  | queryDataCloud key t0 t1 id => query_pack i key t0 t1 id
  | startQueryDataCloudResult id n => start_pack id n
  | sendResultToQueryDataCloud id k d => result_pack id k d
  | endQueryDataCloudResult id e m => end_pack id e m
  end.

(** Only [requestLastOutputData] waits for an answer. *)
Definition is_synchronous (r : request) : bool := match r with requestLastOutputData _ => true | _ => false end.

Definition send (ok : nat -> bool) (i : AnswerServerInfo) (endpoint : Z) (r : request) : outcome sent :=
  p ← request_pack i r; sendPriorityData ok endpoint (is_synchronous r) p.

(** ** The receiver *)

(** A received frame in a block of [size] bytes from [malloc]. *)
Definition recv_into (size : Z) : RX (list Z) :=
  f ← zmq_recv; mret (take (Z.to_nat size) f ++ replicate (Z.to_nat size - length f) junk).

Definition stringReceive : RX (list Z) := f ← zmq_recv; mret (c_str (take 255 f)).

(** The identity of the client and the pack. *)
Definition receive : RX (list Z * DirectIODataPack) :=
  identity ← stringReceive;
  stringReceive;;
  header_buffer ← zmq_recv;
  if negb (length header_buffer =? DIRECT_IO_HEADER_SIZE)%nat then rx_skip else
  raw ← rx_lift (v ← load header_buffer 0 8; from_le 8 v);
  let f := fields_of raw in
  hs ← rx_lift (v ← load header_buffer 8 4; from_le 4 v);
  ds ← rx_lift (v ← load header_buffer 12 4; from_le 4 v);
  let part := channel_part f in
  if part =? DIRECT_IO_CHANNEL_PART_HEADER_ONLY then
    h ← recv_into hs; mret (identity, mkPack f hs 0 (Some h) None)
  else if part =? DIRECT_IO_CHANNEL_PART_DATA_ONLY then
    d ← recv_into ds; mret (identity, mkPack f 0 ds None (Some d))
  else if part =? DIRECT_IO_CHANNEL_PART_HEADER_DATA then
    h ← recv_into hs; d ← recv_into ds; mret (identity, mkPack f hs ds (Some h) (Some d))
  else mret (identity, mkPack f 0 0 None None).

(** ** The device channel of the server *)

(** What the handler is called with; it owns the blocks. *)
Inductive handler_call :=
  | consumePutEvent (header : list Z) (channel_data : option (list Z)) (channel_data_len : Z)
  | consumeGetEvent (header : list Z) (key_data : option (list Z)) (key_len : Z)
  | consumeDataCloudQuery (header : list Z) (search_key : list Z) (search_start_ts search_end_ts : Z)
  | consumeDataCloudQueryStartResult (header : list Z)
  | consumeDataCloudQueryResult (header : list Z) (data_found : option (list Z)) (data_lenght : Z)
  | consumeDataCloudQueryEndResult (header : list Z) (data : option (list Z)) (len : Z).

Definition fix_info (h : list Z) : outcome (list Z) :=
  h ← fix_le 4 off_endpoint 2 h;
  h ← fix_le 4 off_p_port 2 h;
  h ← fix_le 4 off_s_port 2 h;
  fix_le 8 off_address 8 h.

(** [hasKey(key) ? get(key) : def] *)
Definition get_or {X} (key : list Z) (get : CDataWrapper -> outcome (X * CDataWrapper)) (def : X) (q : CDataWrapper) : outcome (X * CDataWrapper) :=
  '(b, q) ← hasKey junk key q; if b : bool then get q else mret (def, q).

(** The body of the [try]. *)
Definition consume_query (p : DirectIODataPack) : outcome (option handler_call) :=
  d ← access (channel_data p);
  query ← CDataWrapper_from junk d;
  match channel_header_data p with
  | None => mret None
  | Some h =>
      h ← fix_info h;
      '(key, query) ← get_or QUERY_PARAM_SEARCH_KEY_STRING (getStringValue junk QUERY_PARAM_SEARCH_KEY_STRING) [] query;
      '(t0, query) ← get_or QUERY_PARAM_STAR_TS_I64 (getUInt64Value junk QUERY_PARAM_STAR_TS_I64) 0 query;
      '(t1, query) ← get_or QUERY_PARAM_END_TS_I64 (getUInt64Value junk QUERY_PARAM_END_TS_I64) 0 query;
      if decide (key = []) then mret None else mret (Some (consumeDataCloudQuery h key t0 t1))
  end.

Definition consumeDataPack (p : DirectIODataPack) : outcome (option handler_call) :=
  let op := channel_opcode (fields p) in
  if op =? DeviceChannelOpcodePutOutput then
    h ← access (channel_header_data p); h ← fix_le 4 off_tag 1 h;
    mret (Some (consumePutEvent h (channel_data p) (channel_data_size p)))
  else if op =? DeviceChannelOpcodeGetLastOutput then
    h ← access (channel_header_data p); h ← fix_info h;
    mret (Some (consumeGetEvent h (channel_data p) (channel_data_size p)))
  else if op =? DeviceChannelOpcodeQueryDataCloud then
    match consume_query p with Throw _ => mret None | r => r end
  else if op =? DeviceChannelOpcodeQueryDataCloudStartResult then
    h ← access (channel_header_data p); h ← fix_le 8 off_number 8 h;
    mret (Some (consumeDataCloudQueryStartResult h))
  else if op =? DeviceChannelOpcodeQueryDataCloudResult then
    h ← access (channel_header_data p); h ← fix_le 8 off_number 8 h;
    mret (Some (consumeDataCloudQueryResult h (channel_data p) (channel_data_size p)))
  else if op =? DeviceChannelOpcodeQueryDataCloudEndResult then
    h ← access (channel_header_data p); h ← fix_le 4 off_error 4 h; h ← fix_le 4 off_error_length 4 h;
    mret (Some (consumeDataCloudQueryEndResult h (channel_data p) (channel_data_size p)))
  else mret None.

(** ** The answer *)

(** What the handler gives: its return value and the answer it stores. *)
Record handled := mkHandled { result : Z; answer : option (list Z) }.

(** The message of a round of the server and the call it leads to.  [route] finds the channel
    of a pack, if any. *)
Definition deliver (route : DirectIODataPack -> outcome (option nat)) : RX (list Z * DirectIODataPack * option (nat * handler_call)) :=
  '(identity, p) ← receive;
  o ← rx_lift (route p);
  c ← rx_lift (match o with Some _ => consumeDataPack p | None => mret None end);
  mret (identity, p, match o, c with Some k, Some c => Some (k, c) | _, _ => None end).

(** The block for the answer has the size of the pointer to it; the size of the answer is
    behind the pointer to its data. *)
Definition sizeof_synchronous_answer : nat := 8.
Definition off_answer_size : nat := 8.

(** One round of the server: the message, the call, and the frames sent back; [handler] is
    that of the channel. *)
Definition serve (route : DirectIODataPack -> outcome (option nat)) (handler : nat -> handler_call -> handled)
  : RX (option (nat * handler_call) * list (list Z)) :=
  '(identity, p, call) ← deliver route;
  let a := match call with Some (k, c) => answer (handler k c) | None => None end in
  if synchronous_answer (fields p) =? 0 then
    (* the pointer of the answer is null or of an earlier round *)
    match a with None => mret (call, []) | Some _ => rx_lift Fault end
  else
    let synchronous_answer := replicate sizeof_synchronous_answer 0 in
    block ← rx_lift (match a with
      | Some d => store synchronous_answer off_answer_size 4 (u32 (Z.of_nat (length d)))
      | None => mret synchronous_answer end);
    answer_size ← rx_lift (load block off_answer_size 4);
    mret (call, [c_str identity; []; take (Z.to_nat answer_size) (default [] a)]).

(** The end of [writeToSocket] and of [requestLastOutputData]: the delimiter and the answer. *)
Definition receive_answer : RX (option (list Z) * Z) :=
  stringReceive;; f ← zmq_recv;
  mret (if (length f =? 0)%nat then None else Some f, u32 (Z.of_nat (length f))).

End Wrapper.

(** ** Endpoints *)

Definition MAX_ENDPOINT_NUMBER : nat := 256.
Definition MAX_ENDPOINT_CHANNEL : nat := 256.

(** A channel is the address of its object. *)
Record endpoint := mkEndpoint { endpoint_route_index : nat; channel_slot : list (option nat) }.
Record EndpointFastDelegation := mkSlot { enable : bool; slot_endpoint : option nat }.

(** [endpoint_slot_array] is [None] before the allocation. *)
Record IODispatcher := mkIODispatcher {
  endpoint_slot_array : option (list EndpointFastDelegation);
  available_endpoint_slot : list nat;
  endpoints : gmap nat endpoint;
  next_endpoint : nat }.

Definition new_IODispatcher : IODispatcher := mkIODispatcher None [] ∅ 0.

Notation DM := (ST IODispatcher).

Definition slots : DM (list EndpointFastDelegation) := o ← st_gets endpoint_slot_array; st_lift o.
Definition set_slots l (s : IODispatcher) : IODispatcher := mkIODispatcher l (available_endpoint_slot s) (endpoints s) (next_endpoint s).
Definition set_available l (s : IODispatcher) : IODispatcher := mkIODispatcher (endpoint_slot_array s) l (endpoints s) (next_endpoint s).
Definition set_endpoints m (s : IODispatcher) : IODispatcher := mkIODispatcher (endpoint_slot_array s) (available_endpoint_slot s) m (next_endpoint s).

Definition dispatcher_init : DM unit :=
  st_modify (fun s => set_available (available_endpoint_slot s ++ seq 0 MAX_ENDPOINT_NUMBER)
    (set_slots (Some (replicate MAX_ENDPOINT_NUMBER (mkSlot false None))) s)).

(** [CLEAR_ENDPOINT_SLOT] *)
Definition clear_slot (i : nat) : DM unit :=
  l ← slots; x ← st_lift (l !! i);
  (match slot_endpoint x with
   | Some e => m ← st_gets endpoints; st_lift (m !! e);; st_modify (fun s => set_endpoints (delete e (endpoints s)) s)
   | None => mret tt
   end);;
  st_modify (set_slots (Some (<[i := mkSlot false None]> l))).

Fixpoint clear_slots (l : list nat) : DM unit := match l with [] => mret tt | i :: l => clear_slot i;; clear_slots l end.

(** The pointer to the array is not cleared; it dangles. *)
Definition dispatcher_deinit : DM unit :=
  o ← st_gets endpoint_slot_array;
  match o with
  | None => mret tt
  | Some _ => clear_slots (seq 0 MAX_ENDPOINT_NUMBER);; st_modify (set_slots None)
  end.

Definition getNewEndpoint : DM (option nat) :=
  a ← st_gets available_endpoint_slot;
  match a with
  | [] => mret None
  | i :: a =>
      st_modify (set_available a);;
      e ← st_gets next_endpoint;
      l ← slots; st_lift (l !! i);;
      st_modify (fun s => mkIODispatcher (Some (<[i := mkSlot true (Some e)]> l)) (available_endpoint_slot s)
        (<[e := mkEndpoint i (replicate MAX_ENDPOINT_CHANNEL None)]> (endpoints s)) (S e));;
      mret (Some e)
  end.

Definition the_endpoint (e : nat) : DM endpoint := m ← st_gets endpoints; st_lift (m !! e).

Definition releaseEndpoint (endpoint_to_release : option nat) : DM unit :=
  match endpoint_to_release with
  | None => mret tt
  | Some e =>
      x ← the_endpoint e;
      let slot_idx := endpoint_route_index x in
      clear_slot slot_idx;;
      st_modify (fun s => set_available (available_endpoint_slot s ++ [slot_idx]) s)
  end.

(** The channel [c] with the route index [idx]. *)
Definition set_channel (e idx : nat) (c : option nat) : DM unit :=
  x ← the_endpoint e;
  if decide (MAX_ENDPOINT_CHANNEL - 1 < idx)%nat then mret tt
  else st_modify (fun s => set_endpoints (<[e := mkEndpoint (endpoint_route_index x) (<[idx := c]> (channel_slot x))]> (endpoints s)) s).
Definition registerChannelInstance (e idx c : nat) : DM unit := set_channel e idx (Some c).
Definition deregisterChannelInstance (e idx : nat) : DM unit := set_channel e idx None.

(** [priorityDataReceived] and [serviceDataReceived] of dispatcher and endpoint, up to the
    channel.  For a slot that is not enabled the function ends without a value. *)
Definition route_pack (s : IODispatcher) (p : DirectIODataPack) : outcome (option nat) :=
  l ← access (endpoint_slot_array s);
  x ← access (l !! Z.to_nat (route_addr (fields p)));
  if negb (enable x) then mret None else
  e ← access (slot_endpoint x);
  e ← access (endpoints s !! e);
  access (channel_slot e !! Z.to_nat (channel_idx (fields p))).
