(* ===== verification/DirectIOSpec.v ===== *)
(** * What direct I/O promises

    Theorems about [DirectIO]: every operation of the device channel of a client reaches
    the handler of the addressed endpoint with the values its message carries, a request
    for an answer makes the server overrun the block of the answer, and live endpoints
    have routes of their own. *)

From S2P Require Import Prelude Endian Events BufBuilder Bson BsonBuilder CDataWrapper Container DirectIO.

Local Open Scope Z_scope.

(** ** Numbers and memory *)

Definition width (sz : nat) : Prop := sz ∈ [1; 2; 4; 8]%nat.

Lemma width1 : width 1.
Proof. unfold width. set_solver. Qed.
Lemma width2 : width 2.
Proof. unfold width. set_solver. Qed.
Lemma width4 : width 4.
Proof. unfold width. set_solver. Qed.
Lemma width8 : width 8.
Proof. unfold width. set_solver. Qed.
#[local] Hint Resolve width1 width2 width4 width8 : core.

Lemma to_le_id sz v : width sz -> to_le sz v = Ret v.
Proof. intros H. unfold to_le, byte_swap. by rewrite bool_decide_eq_true_2. Qed.
Lemma from_le_id sz v : width sz -> from_le sz v = Ret v.
Proof. intros H. unfold from_le, byte_swap. by rewrite bool_decide_eq_true_2. Qed.

(** A member with its bytes around it. *)
Lemma read_at (a b c : list Z) : buf_read (a ++ b ++ c) (length a) (length b) = Some b.
Proof.
  unfold buf_read. rewrite !length_app, decide_True by lia. rewrite drop_app_length, take_app_length. done.
Qed.
Lemma write_at (a b b' c : list Z) : length b' = length b -> buf_write (a ++ b ++ c) (length a) b' = Some (a ++ b' ++ c).
Proof.
  intros Hl. unfold buf_write. rewrite !length_app, decide_True by lia. rewrite take_app_length, Hl.
  by rewrite drop_app_add, drop_app_length.
Qed.

Lemma load_at a v c sz : in_u (8 * Z.of_nat sz) v -> load (a ++ le_bytes sz v ++ c) (length a) sz = Ret v.
Proof.
  intros Hv. unfold load. pose proof (read_at a (le_bytes sz v) c) as H. rewrite le_bytes_length in H. rewrite H. cbn [access]. simpl_out.
  f_equal. apply le_val_bytes. unfold in_u in Hv. by rewrite <- pow2_pow256.
Qed.

(** A conversion that keeps the bytes. *)
Lemma fix_le_id w off sz h :
  width w -> bytes h -> (off + sz <= length h)%nat -> fix_le w off sz h = Ret h.
Proof.
  intros Hw Hb Hl. unfold fix_le, load. set (b := take sz (drop off h)).
  assert (length b = sz) as Hlb by (unfold b; rewrite length_take, length_drop; lia).
  assert (h = take off h ++ b ++ drop (off + sz) h) as Hh.
  { rewrite <- (take_drop off h) at 1. f_equal. unfold b. rewrite <- (take_drop sz (drop off h)) at 1. f_equal. by rewrite drop_drop. }
  assert (length (take off h) = off) as Ho by (rewrite length_take; lia).
  pose proof (read_at (take off h) b (drop (off + sz) h)) as Hr. rewrite <- Hh, Ho, Hlb in Hr. rewrite Hr. cbn [access]. simpl_out.
  rewrite from_le_id by done. simpl_out. assert (bytes b) as Hbb by (unfold b; apply Forall_take, Forall_drop, Hb).
  rewrite uwrap_small.
  2:{ pose proof (le_val_range b Hbb) as Hv. rewrite Hlb in Hv. unfold in_u. rewrite pow2_pow256. exact Hv. }
  unfold store. cbn [host_endian host_bytes host_val]. pose proof (le_bytes_val b Hbb) as Hv. rewrite Hlb in Hv. rewrite Hv.
  pose proof (write_at (take off h) b b (drop (off + sz) h) eq_refl) as Hwr. rewrite <- Hh, Ho in Hwr. by rewrite Hwr.
Qed.

(** ** The dispatcher header *)

Record fields_ok (f : dispatcher_header) : Prop := {
  fk_route : in_u 16 (route_addr f);
  fk_synchronous : in_u 1 (synchronous_answer f);
  fk_unused : in_u 15 (unused f);
  fk_idx : in_u 8 (channel_idx f);
  fk_part : in_u 8 (channel_part f);
  fk_opcode : in_u 8 (channel_opcode f);
  fk_tag : in_u 8 (channel_specified_tag f) }.

(** The fields as digits of one number. *)
Definition fields_sum (f : dispatcher_header) : Z :=
  route_addr f + synchronous_answer f * 2 ^ 16 + unused f * 2 ^ 17 + channel_idx f * 2 ^ 32 + channel_part f * 2 ^ 40 +
  channel_opcode f * 2 ^ 48 + channel_specified_tag f * 2 ^ 56.

Lemma land_small v n : 0 <= n -> in_u n v -> Z.land v (Z.ones n) = v.
Proof. intros Hn H. rewrite Z.land_ones by done. by apply Z.mod_small. Qed.

Lemma raw_data_sum f : fields_ok f -> raw_data f = fields_sum f /\ in_u 64 (raw_data f).
Proof.
  intros [H1 H2 H3 H4 H5 H6 H7]. unfold raw_data, fields_sum.
  change 0xffff with (Z.ones 16). change 0x7fff with (Z.ones 15). change 0xff with (Z.ones 8). change 0x1 with (Z.ones 1).
  rewrite !land_small by done. unfold in_u in *.
  rewrite (lor_shiftl_add (route_addr f)) by lia.
  rewrite (lor_shiftl_add (_ + synchronous_answer f * _)) by lia.
  rewrite (lor_shiftl_add (_ + unused f * _)) by lia.
  rewrite (lor_shiftl_add (_ + channel_idx f * _)) by lia.
  rewrite (lor_shiftl_add (_ + channel_part f * _)) by lia.
  rewrite (lor_shiftl_add (_ + channel_opcode f * _)) by lia. lia.
Qed.

Lemma fields_roundtrip f : fields_ok f -> fields_of (raw_data f) = f.
Proof.
  intros Hf. rewrite (proj1 (raw_data_sum f Hf)). destruct Hf as [H1 H2 H3 H4 H5 H6 H7]. destruct f as [r s u i p o t]. simpl in *.
  unfold fields_of, fields_sum, in_u in *. simpl.
  change 0xffff with (Z.ones 16). change 0x7fff with (Z.ones 15). change 0xff with (Z.ones 8). change 0x1 with (Z.ones 1).
  rewrite !Z.land_ones, !Z.shiftr_div_pow2 by lia. f_equal; Z.to_euclidean_division_equations; lia.
Qed.

(** ** From socket to socket *)

Record pack_ok (p : DirectIODataPack) : Prop := {
  pk_fields : fields_ok (fields p);
  pk_header : in_u 32 (channel_header_size p);
  pk_data : in_u 32 (channel_data_size p) }.

Lemma wire_pack_id p : pack_ok p -> wire_pack p = Ret p.
Proof.
  intros [Hf _ _]. unfold wire_pack. rewrite !to_le_id by done. simpl_out.
  rewrite fields_roundtrip by done. by destruct p.
Qed.

Lemma header_loads p :
  pack_ok p ->
  length (header_bytes p) = DIRECT_IO_HEADER_SIZE /\
  load (header_bytes p) 0 8 = Ret (raw_data (fields p)) /\
  load (header_bytes p) 8 4 = Ret (channel_header_size p) /\
  load (header_bytes p) 12 4 = Ret (channel_data_size p).
Proof.
  intros [Hf Hh Hd]. unfold header_bytes. cbn [host_endian host_bytes]. split_and!.
  - by rewrite !length_app, !le_bytes_length.
  - apply (load_at []). by apply raw_data_sum.
  - pose proof (load_at (le_bytes 8 (raw_data (fields p))) (channel_header_size p) (le_bytes 4 (channel_data_size p)) 4 Hh) as H.
    by rewrite le_bytes_length in H.
  - pose proof (load_at (le_bytes 8 (raw_data (fields p)) ++ le_bytes 4 (channel_header_size p)) (channel_data_size p) [] 4 Hd) as H.
    by rewrite app_nil_r, <- app_assoc, length_app, !le_bytes_length in H.
Qed.

Lemma buf_read_take (b : list Z) n : (n <= length b)%nat -> buf_read b 0 n = Some (take n b).
Proof. intros H. unfold buf_read. by rewrite decide_True by lia. Qed.

Section Transfer.
Context (junk : Z).

Lemma recv_exact n f st : Z.of_nat (length f) = n -> recv_into junk n (Some f :: st) = Got f st.
Proof.
  intros <-. unfold recv_into, mbind, RX_bind, zmq_recv, mret, RX_ret. rewrite Nat2Z.id, take_ge by lia.
  by rewrite Nat.sub_diag, app_nil_r.
Qed.

(** The parts of a message and what the receiver makes of them. *)
Definition sent_frames (p : DirectIODataPack) (h : list Z) (d : option (list Z)) : list (list Z) :=
  header_bytes p :: h :: match d with Some d => [d] | None => [] end.

(** A pack whose blocks are [h], of which the pack sends the beginning, and [d]. *)
Record sendable (p : DirectIODataPack) (h : list Z) (d : option (list Z)) : Prop := {
  sd_ok : pack_ok p;
  sd_header : exists hb, channel_header_data p = Some hb /\ h = take (Z.to_nat (channel_header_size p)) hb /\
    (Z.to_nat (channel_header_size p) <= length hb)%nat;
  sd_data : match d with
    | Some d => channel_part (fields p) = 3 /\ channel_data p = Some d /\ channel_data_size p = Z.of_nat (length d)
    | None => channel_part (fields p) = 1
    end }.

Definition every (k : nat) : bool := true.

Lemma write_frames p h d : sendable p h d ->
  exists parts, writeToSocket every p = Ret (mkSent 0 (sent_frames p h d) parts).
Proof.
  intros [Hok (hb & Hhb & -> & Hl) Hd]. unfold writeToSocket. rewrite wire_pack_id by done. simpl_out.
  unfold message. rewrite Hhb. cbn [access]. simpl_out. rewrite buf_read_take by done. cbn [access]. simpl_out.
  destruct d as [d|]; [destruct Hd as (-> & -> & Hs)|rewrite Hd]; simpl; [|by eexists].
  rewrite Hs, Nat2Z.id, buf_read_take, (take_ge d) by lia. simpl. by eexists.
Qed.

Lemma receive_frames p h d id st : sendable p h d ->
  receive junk (Some id :: Some [] :: (Some <$> sent_frames p h d) ++ st) =
    Got (c_str (take 255 id), mkPack (fields p) (channel_header_size p) (match d with Some _ => channel_data_size p | None => 0 end) (Some h) d) st.
Proof.
  intros [Hok (hb & Hhb & -> & Hl) Hd]. destruct (header_loads p Hok) as (H0 & H1 & H2 & H3).
  unfold receive. unfold stringReceive, mbind, RX_bind, mret, RX_ret. simpl zmq_recv. cbn [zmq_recv sent_frames fmap list_fmap app].
  rewrite H0. cbn [Nat.eqb negb DIRECT_IO_HEADER_SIZE]. rewrite H1, H2, H3. unfold rx_lift. simpl_out.
  rewrite !from_le_id by done. rewrite fields_roundtrip by apply Hok.
  assert (Z.of_nat (length (take (Z.to_nat (channel_header_size p)) hb)) = channel_header_size p) as Hn.
  { rewrite length_take. pose proof (pk_header _ Hok) as Hh. unfold in_u in Hh. lia. }
  destruct d as [d|]; [destruct Hd as (-> & Hcd & Hs)|rewrite Hd].
  - cbn [Z.eqb Pos.eqb DIRECT_IO_CHANNEL_PART_HEADER_ONLY DIRECT_IO_CHANNEL_PART_DATA_ONLY DIRECT_IO_CHANNEL_PART_HEADER_DATA fmap list_fmap app].
    rewrite recv_exact by done. cbn match beta. by rewrite recv_exact by done.
  - cbn [Z.eqb Pos.eqb DIRECT_IO_CHANNEL_PART_HEADER_ONLY fmap list_fmap app]. by rewrite recv_exact by done.
Qed.

End Transfer.

(** ** What each operation sends *)

(** A query identifier in its member of a header. *)
Definition id_field (s : list Z) : list Z := take 8 (c_str s ++ replicate 8 0).

Lemma id_field_length s : length (id_field s) = 8%nat.
Proof. unfold id_field. rewrite length_take, length_app, length_replicate. lia. Qed.

Lemma c_str_bytes s : bytes s -> bytes (c_str s).
Proof. induction 1 as [|c s Hc Hs IH]; simpl; [constructor|]. destruct (c =? 0); [constructor|by constructor]. Qed.

Lemma zeros_bytes n : bytes (replicate n 0).
Proof. apply Forall_replicate. by split. Qed.

Lemma id_field_bytes s : bytes s -> bytes (id_field s).
Proof. intros H. apply Forall_take, Forall_app_2; [by apply c_str_bytes|apply zeros_bytes]. Qed.

Lemma put_le_at a b c off sz v :
  width sz -> length b = sz -> length a = off -> put_le (a ++ b ++ c) off sz v = Ret (a ++ le_bytes sz v ++ c).
Proof.
  intros Hw Hb <-. unfold put_le. rewrite to_le_id by done. simpl_out. unfold store. cbn [host_endian host_bytes].
  by rewrite write_at by (by rewrite le_bytes_length).
Qed.

Lemma strncpy_at a b c off s : length b = 8%nat -> length a = off -> strncpy (a ++ b ++ c) off s 8 = Ret (a ++ id_field s ++ c).
Proof. intros Hb <-. unfold strncpy. fold (id_field s). by rewrite write_at by (by rewrite id_field_length). Qed.

Definition info_bytes (i : AnswerServerInfo) : list Z :=
  le_bytes 2 (answer_endpoint i) ++ le_bytes 2 (p_server_port i) ++ le_bytes 2 (s_server_port i) ++ [0; 0] ++ le_bytes 8 (ip i).

Lemma put_info_bytes i c : put_info i (replicate 16 0 ++ c) = Ret (info_bytes i ++ c).
Proof.
  unfold put_info. change (replicate 16 0 ++ c) with (replicate 8 0 ++ replicate 8 0 ++ c).
  rewrite put_le_at by done. simpl_out.
  change (replicate 8 0 ++ le_bytes 8 (ip i) ++ c) with ([0; 0] ++ [0; 0] ++ ([0; 0; 0; 0] ++ le_bytes 8 (ip i) ++ c)).
  rewrite put_le_at by done. simpl_out. set (rest := [0; 0] ++ le_bytes 8 (ip i) ++ c).
  change ([0; 0] ++ le_bytes 2 (p_server_port i) ++ [0; 0; 0; 0] ++ le_bytes 8 (ip i) ++ c)
    with (([0; 0] ++ le_bytes 2 (p_server_port i)) ++ [0; 0] ++ rest).
  rewrite put_le_at by done. simpl_out.
  change (([0; 0] ++ le_bytes 2 (p_server_port i)) ++ le_bytes 2 (s_server_port i) ++ rest)
    with ([] ++ [0; 0] ++ (le_bytes 2 (p_server_port i) ++ le_bytes 2 (s_server_port i) ++ rest)).
  by rewrite put_le_at by done.
Qed.

(** The bytes of the header and of the data of a message. *)
Definition put_key (key : list Z) : list Z := take (Z.to_nat (u8 (Z.of_nat (length key)))) key.

Definition query_doc (key : list Z) (t0 t1 : Z) : doc :=
  doc_snoc (doc_snoc (doc_snoc DNil QUERY_PARAM_SEARCH_KEY_STRING (VString key)) QUERY_PARAM_STAR_TS_I64 (VLong (s64 t0)))
    QUERY_PARAM_END_TS_I64 (VLong (s64 t1)).

Definition sent_header (i : AnswerServerInfo) (r : request) : list Z :=
  match r with
  | storeAndCacheDataOutputChannel key _ m =>
      [u8 m; u8 (Z.of_nat (length key))] ++ put_key key ++ replicate (length key - length (put_key key)) 0
  | requestLastOutputData _ => info_bytes i
  | queryDataCloud _ _ _ id => info_bytes i ++ id_field id
  | startQueryDataCloudResult id n => id_field id ++ le_bytes 8 n
  | sendResultToQueryDataCloud id k _ => id_field id ++ le_bytes 8 k ++ replicate 8 0
  | endQueryDataCloudResult id e m => id_field id ++ le_bytes 4 (u32 e) ++ le_bytes 4 (u32 (Z.of_nat (length m)))
  end.

Definition sent_data (r : request) : option (list Z) :=
  match r with
  | storeAndCacheDataOutputChannel _ buffer _ => if decide (buffer = []) then None else Some buffer
  | requestLastOutputData key => Some key
  | queryDataCloud key t0 t1 _ => Some (enc_doc (query_doc key t0 t1))
  | sendResultToQueryDataCloud _ _ data => Some data
  | startQueryDataCloudResult _ _ | endQueryDataCloudResult _ _ _ => None
  end.

Definition opcode_of (r : request) : Z :=
  match r with
  | storeAndCacheDataOutputChannel _ _ _ => DeviceChannelOpcodePutOutput
  | requestLastOutputData _ => DeviceChannelOpcodeGetLastOutput
  | queryDataCloud _ _ _ _ => DeviceChannelOpcodeQueryDataCloud
  | startQueryDataCloudResult _ _ => DeviceChannelOpcodeQueryDataCloudStartResult
  | sendResultToQueryDataCloud _ _ _ => DeviceChannelOpcodeQueryDataCloudResult
  | endQueryDataCloudResult _ _ _ => DeviceChannelOpcodeQueryDataCloudEndResult
  end.

(** The values have their C types, and the sizes fit. *)
Definition request_ok (r : request) : Prop :=
  match r with
  | storeAndCacheDataOutputChannel key buffer _ => bytes key /\ Z.of_nat (length key) < 2 ^ 32 - 2 /\ Z.of_nat (length buffer) < 2 ^ 32
  | requestLastOutputData key => Z.of_nat (length key) < 2 ^ 32
  | queryDataCloud key t0 t1 id => key <> [] /\ fits (query_doc key t0 t1) /\ in_u 64 t0 /\ in_u 64 t1 /\ bytes id
  | startQueryDataCloudResult id n => bytes id /\ in_u 64 n
  | sendResultToQueryDataCloud id k data => bytes id /\ in_u 64 k /\ Z.of_nat (length data) < 2 ^ 32
  | endQueryDataCloudResult id e m => bytes id /\ in_s 32 e
  end.

Record info_ok (i : AnswerServerInfo) : Prop := {
  ik_p : in_u 16 (p_server_port i); ik_s : in_u 16 (s_server_port i); ik_endpoint : in_u 16 (answer_endpoint i); ik_ip : in_u 64 (ip i) }.

Definition device_fields (ep : Z) (sync : bool) (part op : Z) : dispatcher_header :=
  mkFields ep (if sync then 1 else 0) 0 2 part op 0.

Definition device_pack (ep : Z) (r : request) (h : list Z) : DirectIODataPack :=
  mkPack (device_fields ep (is_synchronous r) (match sent_data r with Some _ => 3 | None => 1 end) (opcode_of r))
    (Z.of_nat (length h)) (match sent_data r with Some d => Z.of_nat (length d) | None => 0 end) (Some h) (sent_data r).

(** A pack without its route: the parts that are set, its blocks and their sizes. *)
Lemma set_header_run op h n : in_u 32 n ->
  DIRECT_IO_SET_CHANNEL_HEADER (with_opcode op) h n = Ret (mkPack (mkFields 0 0 0 0 1 (u8 op) 0) n 0 (Some h) None).
Proof. intros Hn. unfold DIRECT_IO_SET_CHANNEL_HEADER. rewrite to_le_id by done. simpl_out. by rewrite uwrap_small. Qed.

Lemma set_data_run op h n d : Z.of_nat (length d) < 2 ^ 32 ->
  DIRECT_IO_SET_CHANNEL_DATA (mkPack (mkFields 0 0 0 0 1 (u8 op) 0) n 0 (Some h) None) d (Z.of_nat (length d)) =
    Ret (mkPack (mkFields 0 0 0 0 3 (u8 op) 0) n (Z.of_nat (length d)) (Some h) (Some d)).
Proof.
  intros Hd. unfold DIRECT_IO_SET_CHANNEL_DATA, data_block. rewrite to_le_id by done. simpl_out.
  by rewrite (uwrap_small 32 (Z.of_nat (length d))) by (unfold in_u; lia).
Qed.

Section Requests.
Context (junk : Z).

(** The data block of a pack, when it is sent. *)
Definition data_of (d dd : option (list Z)) : Prop := match d with Some x => dd = Some x | None => True end.

Definition packed (part op : Z) (hb h : list Z) (dn : Z) (dd : option (list Z)) : DirectIODataPack :=
  mkPack (mkFields 0 0 0 0 part (u8 op) 0) (Z.of_nat (length h)) dn (Some hb) dd.

Definition completed (ep : Z) (sync : bool) (p : DirectIODataPack) : DirectIODataPack :=
  completeDataPack ep (completeChannnelDataPack sync p).

Lemma completed_fields ep sync part op hb h dn dd :
  in_u 16 ep -> in_u 8 op -> fields (completed ep sync (packed part op hb h dn dd)) = device_fields ep sync part op.
Proof.
  intros He Ho. change (mkFields (u16 ep) (if sync then 1 else 0) 0 (u8 2) part (u8 op) 0 = device_fields ep sync part op).
  by rewrite (uwrap_small 16 ep), (uwrap_small 8 op).
Qed.

Lemma packed_sendable ep sync op hb h d dn dd :
  in_u 16 ep -> in_u 8 op -> (exists x, hb = h ++ x) -> Z.of_nat (length h) < 2 ^ 32 ->
  match d with Some x => dd = Some x /\ dn = Z.of_nat (length x) /\ Z.of_nat (length x) < 2 ^ 32 | None => dn = 0 end ->
  sendable (completed ep sync (packed (match d with Some _ => 3 | None => 1 end) op hb h dn dd)) h d.
Proof.
  intros He Ho [x ->] Hl Hd. split.
  - split.
    + rewrite completed_fields by done. unfold in_u in *. split; simpl; unfold in_u; try lia; [by destruct sync|by destruct d].
    + unfold in_u. simpl. lia.
    + unfold in_u. simpl. destruct d as [y|]; [destruct Hd as (_ & -> & ?)|subst dn]; lia.
  - exists (h ++ x). simpl. rewrite Nat2Z.id, take_app_length, length_app. split_and!; [done|done|lia].
  - rewrite completed_fields by done. destruct d as [y|]; [|done]. by destruct Hd as (-> & -> & _).
Qed.

Lemma put_header_block key m :
  let k := Z.to_nat (u8 (Z.of_nat (length key))) in
  (h ← store (replicate (GET_PUT_OPCODE_FIXED_PART_LEN + length key + length key) 0) off_tag 1 (u8 m);
   h ← store h off_key_len 1 (u8 (Z.of_nat (length key)));
   n ← load h off_key_len 1;
   access (buf_write h 2 (take (Z.to_nat n) key))) =
    Ret ([u8 m; u8 (Z.of_nat (length key))] ++ put_key key ++ replicate (length key + length key - k) 0).
Proof.
  intros k. set (n := length key). assert (in_u 8 (u8 (Z.of_nat n))) as Hn by (apply uwrap_range; lia).
  assert (le_bytes 1 (u8 m) = [u8 m]) as Hm1 by (simpl; f_equal; apply Z.mod_small, uwrap_range; lia).
  assert (le_bytes 1 (u8 (Z.of_nat n)) = [u8 (Z.of_nat n)]) as Hn1 by (simpl; f_equal; by apply Z.mod_small).
  assert (k <= n)%nat as Hk.
  { unfold k. fold n. pose proof (Z.mod_le (Z.of_nat n) (2 ^ 8) ltac:(lia) ltac:(lia)). unfold uwrap. lia. }
  unfold store. cbn [host_endian host_bytes]. rewrite Hm1, Hn1.
  change (replicate (GET_PUT_OPCODE_FIXED_PART_LEN + n + n) 0) with ([] ++ [0] ++ (0 :: replicate (n + n) 0)).
  rewrite (write_at [] [0] [u8 m]) by done. cbn [access]. simpl_out.
  change ([] ++ [u8 m] ++ 0 :: replicate (n + n) 0) with ([u8 m] ++ [0] ++ replicate (n + n) 0).
  rewrite (write_at [u8 m] [0] [u8 (Z.of_nat n)]) by done. cbn [access]. simpl_out. rewrite <- Hn1 at 1.
  rewrite (load_at [u8 m]) by done. simpl_out. fold n in k. change (Z.to_nat (u8 (Z.of_nat n))) with k.
  replace (n + n)%nat with (k + (n + n - k))%nat at 1 by lia. rewrite replicate_add.
  assert (length (take k key) = k) as Hlk by (rewrite length_take; fold n; lia).
  change ([u8 m] ++ [u8 (Z.of_nat n)] ++ replicate k 0 ++ replicate (n + n - k) 0)
    with ([u8 m; u8 (Z.of_nat n)] ++ replicate k 0 ++ replicate (n + n - k) 0).
  rewrite (write_at [u8 m; u8 (Z.of_nat n)]) by (by rewrite Hlk, length_replicate). done.
Qed.

Lemma put_key_length key : length (put_key key) = Z.to_nat (u8 (Z.of_nat (length key))) /\ (length (put_key key) <= length key)%nat.
Proof.
  unfold put_key. rewrite length_take.
  pose proof (Z.mod_le (Z.of_nat (length key)) (2 ^ 8) ltac:(lia) ltac:(lia)). unfold uwrap in *. lia.
Qed.

Lemma getBSONData_holds d W : holds d [] W -> fits d -> exists W', getBSONData junk W = Ret (Some (enc_doc d), W').
Proof.
  intros H Hf. pose proof (exec_refines junk GetBSON d [] W H Hf I Hf) as (W' & E & _). exists W'.
  cbn [exec] in E. unfold res in E. destruct (getBSONData junk W) as [[x Wx]|c|]; simpl in E; try done. by injection E as -> ->.
Qed.

(** The pack of each operation. *)

Lemma put_packed key buffer m :
  Z.of_nat (length key) < 2 ^ 32 - 2 -> Z.of_nat (length buffer) < 2 ^ 32 ->
  put_pack key buffer m = Ret (packed (match sent_data (storeAndCacheDataOutputChannel key buffer m) with Some _ => 3 | None => 1 end)
    DeviceChannelOpcodePutOutput
    ([u8 m; u8 (Z.of_nat (length key))] ++ put_key key ++ replicate (length key + length key - Z.to_nat (u8 (Z.of_nat (length key)))) 0)
    (sent_header (mkInfo 0 0 0 0) (storeAndCacheDataOutputChannel key buffer m)) (Z.of_nat (length buffer)) (Some buffer)).
Proof.
  intros Hk Hb. destruct (put_key_length key) as [Hpk Hle]. unfold put_pack. pose proof (put_header_block key m) as E. cbv zeta in E.
  revert E. generalize ([u8 m; u8 (Z.of_nat (length key))] ++ put_key key ++ replicate (length key + length key - Z.to_nat (u8 (Z.of_nat (length key)))) 0).
  intros hb. destruct (store _ off_tag 1 (u8 m)) as [h1|c|]; simpl_out; try done.
  destruct (store h1 off_key_len 1 _) as [h2|c|]; simpl_out; try done.
  destruct (load h2 off_key_len 1) as [n|c|]; simpl_out; try done. intros ->. simpl_out.
  assert (Z.of_nat GET_PUT_OPCODE_FIXED_PART_LEN + u32 (Z.of_nat (length key)) =
    Z.of_nat (length (sent_header (mkInfo 0 0 0 0) (storeAndCacheDataOutputChannel key buffer m)))) as ->.
  { rewrite (uwrap_small 32 (Z.of_nat (length key))) by (unfold in_u; lia). cbn [sent_header]. rewrite !length_app, length_replicate. cbn [length]. unfold GET_PUT_OPCODE_FIXED_PART_LEN. lia. }
  rewrite set_header_run.
  2:{ cbn [sent_header]. rewrite !length_app, length_replicate. unfold in_u. cbn [length]. lia. }
  simpl_out. unfold data_block. rewrite to_le_id by done. simpl_out. rewrite (uwrap_small 32 (Z.of_nat (length buffer))) by (unfold in_u; lia).
  cbn [sent_data]. destruct buffer as [|b buffer]; [done|]. by rewrite decide_False.
Qed.

Lemma get_packed i key : Z.of_nat (length key) < 2 ^ 32 ->
  get_pack i key = Ret (packed 3 DeviceChannelOpcodeGetLastOutput (info_bytes i) (info_bytes i) (Z.of_nat (length key)) (Some key)).
Proof.
  intros Hk. unfold get_pack. pose proof (put_info_bytes i []) as E. rewrite !app_nil_r in E.
  change (replicate sizeof_GetOpcode 0) with (replicate 16 0). rewrite E. simpl_out. rewrite set_header_run by done. simpl_out.
  by apply set_data_run.
Qed.

Lemma start_packed id n :
  start_pack id n = Ret (packed 1 DeviceChannelOpcodeQueryDataCloudStartResult (id_field id ++ le_bytes 8 n) (id_field id ++ le_bytes 8 n) 0 None).
Proof.
  unfold start_pack. change (replicate QUERY_DATA_CLOUD_START_RESULT_OPCODE_HEADER_LEN 0) with ([] ++ replicate 8 0 ++ (replicate 8 0 ++ [])).
  rewrite strncpy_at by done. simpl_out. cbn [app].
  rewrite put_le_at by (done || apply id_field_length). simpl_out. rewrite app_nil_r, set_header_run by done.
  unfold packed. by rewrite length_app, id_field_length, le_bytes_length.
Qed.

Lemma result_packed id k data : Z.of_nat (length data) < 2 ^ 32 ->
  result_pack id k data = Ret (packed 3 DeviceChannelOpcodeQueryDataCloudResult (id_field id ++ le_bytes 8 k ++ replicate 8 0)
    (id_field id ++ le_bytes 8 k ++ replicate 8 0) (Z.of_nat (length data)) (Some data)).
Proof.
  intros Hd. unfold result_pack. change (replicate QUERY_DATA_CLOUD_RESULT_OPCODE_HEADER_LEN 0) with ([] ++ replicate 8 0 ++ (replicate 8 0 ++ replicate 8 0)).
  rewrite strncpy_at by done. simpl_out. cbn [app].
  rewrite put_le_at by (done || apply id_field_length). simpl_out. rewrite set_header_run by done. simpl_out.
  unfold packed. rewrite !length_app, id_field_length, le_bytes_length. by apply set_data_run.
Qed.

Lemma end_packed id e m :
  end_pack id e m = Ret (packed 1 DeviceChannelOpcodeQueryDataCloudEndResult
    (sent_header (mkInfo 0 0 0 0) (endQueryDataCloudResult id e m) ++ replicate 8 0)
    (sent_header (mkInfo 0 0 0 0) (endQueryDataCloudResult id e m)) 0 None).
Proof.
  unfold end_pack. change (replicate QUERY_DATA_CLOUD_END_RESULT_OPCODE_HEADER_LEN 0)
    with ([] ++ replicate 8 0 ++ (replicate 4 0 ++ (replicate 4 0 ++ replicate 8 0))).
  rewrite strncpy_at by done. simpl_out. cbn [app].
  rewrite put_le_at by (done || apply id_field_length). simpl_out. rewrite app_assoc.
  rewrite put_le_at by (done || by rewrite length_app, id_field_length). simpl_out. rewrite set_header_run by done.
  unfold packed. cbn [sent_header]. rewrite !length_app, id_field_length, !le_bytes_length. by rewrite !app_assoc_reverse.
Qed.

Lemma query_packed i key t0 t1 id : fits (query_doc key t0 t1) ->
  query_pack junk i key t0 t1 id = Ret (packed 3 DeviceChannelOpcodeQueryDataCloud (info_bytes i ++ id_field id) (info_bytes i ++ id_field id)
    (Z.of_nat (length (enc_doc (query_doc key t0 t1)))) (Some (enc_doc (query_doc key t0 t1)))).
Proof.
  intros Hf. pose proof (fits_before _ _ _ Hf) as Hf2. pose proof (fits_before _ _ _ Hf2) as Hf1. unfold query_pack.
  destruct (@new_law _ (wrapper_container junk) (wrapper_laws junk)) as (w0 & E0 & H0). cbn [c_new wrapper_container] in E0. rewrite E0. simpl_out.
  destruct (add_law _ _ _ _ _ (@addStringValue_law _ _ (wrapper_laws junk) _ _) H0 Hf1) as (w1 & E1 & H1).
  cbn [c_addStringValue wrapper_container] in E1. rewrite E1. simpl_out.
  destruct (add_law _ _ _ _ _ (@addInt64Value_law _ _ (wrapper_laws junk) _ _) H1 Hf2) as (w2 & E2 & H2).
  cbn [c_addInt64Value wrapper_container] in E2. rewrite E2. simpl_out.
  destruct (add_law _ _ _ _ _ (@addInt64Value_law _ _ (wrapper_laws junk) _ _) H2 Hf) as (w3 & E3 & H3).
  cbn [c_addInt64Value wrapper_container] in E3. rewrite E3. simpl_out.
  change (replicate QUERY_DATA_CLOUD_OPCODE_HEADER_LEN 0) with (replicate 16 0 ++ (replicate 8 0 ++ [])).
  rewrite put_info_bytes. simpl_out. rewrite strncpy_at by done. simpl_out. rewrite app_nil_r.
  destruct (getBSONData_holds _ _ H3 Hf) as (w4 & E4). fold (query_doc key t0 t1) in E4. rewrite E4. simpl_out. cbn [access]. simpl_out.
  rewrite set_header_run by done. simpl_out. unfold packed. rewrite length_app, id_field_length.
  apply set_data_run. pose proof (fits_31 _ Hf). lia.
Qed.

Lemma info_bytes_length i : length (info_bytes i) = 16%nat.
Proof. done. Qed.

Lemma request_packed i ep r :
  request_ok r -> in_u 16 ep ->
  exists p, request_pack junk i r = Ret p /\
    sendable (completed ep (is_synchronous r) p) (sent_header i r) (sent_data r) /\
    fields (completed ep (is_synchronous r) p) =
      device_fields ep (is_synchronous r) (match sent_data r with Some _ => 3 | None => 1 end) (opcode_of r) /\
    (sent_data r = None -> channel_data_size (completed ep (is_synchronous r) p) = 0).
Proof.
  intros Hr He.
  assert (forall hb dn dd, in_u 8 (opcode_of r) -> (exists x, hb = sent_header i r ++ x) -> Z.of_nat (length (sent_header i r)) < 2 ^ 32 ->
    match sent_data r with Some x => dd = Some x /\ dn = Z.of_nat (length x) /\ Z.of_nat (length x) < 2 ^ 32 | None => dn = 0 end ->
    let p := packed (match sent_data r with Some _ => 3 | None => 1 end) (opcode_of r) hb (sent_header i r) dn dd in
    sendable (completed ep (is_synchronous r) p) (sent_header i r) (sent_data r) /\
    fields (completed ep (is_synchronous r) p) =
      device_fields ep (is_synchronous r) (match sent_data r with Some _ => 3 | None => 1 end) (opcode_of r) /\
    (sent_data r = None -> channel_data_size (completed ep (is_synchronous r) p) = 0)) as Hgo.
  { intros hb dn dd Ho Hx Hl Hd p. split_and!; [by apply packed_sendable|by apply completed_fields|].
    intros E. rewrite E in Hd. done. }
  destruct r as [key buffer m|key|key t0 t1 id|id n|id k data|id e m]; cbn [request_pack request_ok] in *.
  - destruct Hr as (_ & Hk & Hb). destruct (put_key_length key) as [Hpk Hle]. rewrite put_packed by done. eexists. split; [done|].
    apply Hgo; [done| | |].
    + exists (replicate (length key) 0). cbn [sent_header]. rewrite <- !app_assoc, <- replicate_add. repeat f_equal. lia.
    + cbn [sent_header]. rewrite !length_app, length_replicate. cbn [length]. lia.
    + cbn [sent_data]. destruct (decide (buffer = [])) as [->|]; done.
  - rewrite get_packed by done. eexists. split; [done|]. apply Hgo; [done|by exists []; rewrite app_nil_r|done|done].
  - destruct Hr as (_ & Hf & _). rewrite query_packed by done. eexists. split; [done|].
    apply Hgo; [done|by exists []; rewrite app_nil_r| |].
    + cbn [sent_header]. by rewrite length_app, info_bytes_length, id_field_length.
    + split_and!; [done|done|]. pose proof (fits_31 _ Hf). lia.
  - rewrite start_packed. eexists. split; [done|]. apply Hgo; [done|by exists []; rewrite app_nil_r| |done].
    cbn [sent_header]. by rewrite length_app, id_field_length.
  - destruct Hr as (_ & _ & Hd). rewrite result_packed by done. eexists. split; [done|].
    apply Hgo; [done|by exists []; rewrite app_nil_r| |done]. cbn [sent_header]. by rewrite !length_app, id_field_length.
  - rewrite end_packed. eexists. split; [done|]. apply Hgo; [done|by exists (replicate 8 0)| |done].
    cbn [sent_header]. by rewrite !length_app, id_field_length.
Qed.

(** ** What the handler gets *)

Definition call_of (i : AnswerServerInfo) (r : request) : handler_call :=
  let h := sent_header i r in
  let n := match sent_data r with Some d => Z.of_nat (length d) | None => 0 end in
  match r with
  | storeAndCacheDataOutputChannel _ _ _ => consumePutEvent h (sent_data r) n
  | requestLastOutputData _ => consumeGetEvent h (sent_data r) n
  | queryDataCloud key t0 t1 _ => consumeDataCloudQuery h key t0 t1
  | startQueryDataCloudResult _ _ => consumeDataCloudQueryStartResult h
  | sendResultToQueryDataCloud _ _ _ => consumeDataCloudQueryResult h (sent_data r) n
  | endQueryDataCloudResult _ _ _ => consumeDataCloudQueryEndResult h (sent_data r) n
  end.

Lemma info_bytes_bytes i : bytes (info_bytes i).
Proof. unfold info_bytes. repeat (apply Forall_app_2; [apply le_bytes_bytes || by repeat constructor|]). apply le_bytes_bytes. Qed.

Lemma sent_header_bytes i r : request_ok r -> bytes (sent_header i r).
Proof.
  assert (forall a b, bytes a -> bytes b -> bytes (a ++ b)) as Happ by (intros; by apply Forall_app_2).
  pose proof le_bytes_bytes. pose proof zeros_bytes. pose proof id_field_bytes. pose proof info_bytes_bytes.
  assert (forall z, is_byte (u8 z)) as Hu8 by (intros z; apply (uwrap_range 8); lia).
  destruct r; cbn [sent_header request_ok]; intros Hr; try (destruct Hr as [Hr1 Hr]); auto 8.
  - apply Happ; [do 2 (apply Forall_cons_2; [apply Hu8|]); apply Forall_nil_2|]. apply Happ; [by apply Forall_take|done].
  - apply Happ; [done|]. apply id_field_bytes. tauto.
Qed.

Lemma fix_info_id h : bytes h -> (16 <= length h)%nat -> fix_info h = Ret h.
Proof.
  intros Hb Hl. unfold fix_info. rewrite (fix_le_id 4 off_endpoint 2 h) by (done || unfold off_endpoint; lia). simpl_out.
  rewrite (fix_le_id 4 off_p_port 2 h) by (done || unfold off_p_port; lia). simpl_out.
  rewrite (fix_le_id 4 off_s_port 2 h) by (done || unfold off_s_port; lia). simpl_out.
  by apply fix_le_id; [|done|unfold off_address; lia].
Qed.

(** An optional field of the query. *)
Lemma get_or_holds {X} key (get : CDataWrapper -> outcome (X * CDataWrapper)) (g : option val -> outcome X) def d w v x :
  @reads _ _ (wrapper_container junk) get (fun d => g (doc_find key d)) -> holds d [] w -> fits d ->
  doc_find key d = Some v -> g (Some v) = Ret x -> exists w', get_or junk key get def w = Ret (x, w') /\ holds d [] w'.
Proof.
  intros Hg Hw Hf Hv Hx. unfold get_or.
  destruct (@hasKey_law _ _ (wrapper_laws junk) key d w Hw Hf) as (w1 & Hw1 & E1). cbn [c_hasKey wrapper_container] in E1. rewrite E1.
  unfold has_field, present. rewrite Hv. simpl_out. rewrite bool_decide_eq_true_2 by eauto.
  destruct (Hg d w1 Hw1 Hf) as (w2 & Hw2 & E2). rewrite E2, Hv, Hx. simpl_out. by exists w2.
Qed.

Lemma consume_query_run i key t0 t1 id p :
  request_ok (queryDataCloud key t0 t1 id) ->
  channel_header_data p = Some (info_bytes i ++ id_field id) -> channel_data p = Some (enc_doc (query_doc key t0 t1)) ->
  consume_query junk p = Ret (Some (consumeDataCloudQuery (info_bytes i ++ id_field id) key t0 t1)).
Proof.
  intros (Hk & Hf & Ht0 & Ht1 & Hid) Hh Hd. unfold consume_query. rewrite Hd. cbn [access]. simpl_out. set (d := query_doc key t0 t1) in *.
  destruct (from_holds junk d [] Hf) as (w0 & E0 & H0). rewrite app_nil_r in E0. rewrite E0, Hh. simpl_out.
  rewrite fix_info_id; [|apply Forall_app_2; [apply info_bytes_bytes|by apply id_field_bytes]|rewrite length_app, info_bytes_length; lia].
  simpl_out.
  destruct (get_or_holds QUERY_PARAM_SEARCH_KEY_STRING _ (field_spec as_string) [] d w0 (VString key) key
    (@getStringValue_law _ _ (wrapper_laws junk) _) H0 Hf) as (w1 & E1 & H1); [done|done|]. cbn [c_getStringValue wrapper_container] in E1. rewrite E1. simpl_out.
  destruct (get_or_holds QUERY_PARAM_STAR_TS_I64 _ (fun o => n ← as_int 64 o; mret (u64 n)) 0 d w1 (VLong (s64 t0)) t0
    (@getUInt64Value_law _ _ (wrapper_laws junk) _) H1 Hf) as (w2 & E2 & H2); [done| |]. { cbn [as_int]. simpl_out. rewrite !uwrap_swrap by lia. f_equal. by apply uwrap_small. }
  cbn [c_getUInt64Value wrapper_container] in E2. rewrite E2. simpl_out.
  destruct (get_or_holds QUERY_PARAM_END_TS_I64 _ (fun o => n ← as_int 64 o; mret (u64 n)) 0 d w2 (VLong (s64 t1)) t1
    (@getUInt64Value_law _ _ (wrapper_laws junk) _) H2 Hf) as (w3 & E3 & H3); [done| |]. { cbn [as_int]. simpl_out. rewrite !uwrap_swrap by lia. f_equal. by apply uwrap_small. }
  cbn [c_getUInt64Value wrapper_container] in E3. rewrite E3. simpl_out. by rewrite decide_False.
Qed.

Definition received (i : AnswerServerInfo) (ep : Z) (r : request) : DirectIODataPack :=
  mkPack (device_fields ep (is_synchronous r) (match sent_data r with Some _ => 3 | None => 1 end) (opcode_of r))
    (Z.of_nat (length (sent_header i r))) (match sent_data r with Some d => Z.of_nat (length d) | None => 0 end)
    (Some (sent_header i r)) (sent_data r).

Lemma consume_run i ep r : request_ok r -> consumeDataPack junk (received i ep r) = Ret (Some (call_of i r)).
Proof.
  intros Hr. pose proof (sent_header_bytes i r Hr) as Hb. destruct r as [key buffer m|key|key t0 t1 id|id n|id k data|id e m].
  - unfold consumeDataPack. cbn -[fix_le sent_header sent_data]. rewrite fix_le_id; [done|done|done|].
    cbn [sent_header]. rewrite length_app. unfold off_tag. cbn [length]. lia.
  - unfold consumeDataPack. cbn -[fix_info info_bytes]. by rewrite fix_info_id by (done || apply info_bytes_bytes).
  - unfold consumeDataPack. cbn -[consume_query]. by rewrite (consume_query_run i key t0 t1 id).
  - unfold consumeDataPack. cbn -[fix_le sent_header]. rewrite fix_le_id; [done|done|done|].
    cbn [sent_header]. rewrite length_app, id_field_length, le_bytes_length. unfold off_number. lia.
  - unfold consumeDataPack. cbn -[fix_le sent_header]. rewrite fix_le_id; [done|done|done|].
    cbn [sent_header]. rewrite !length_app, id_field_length, le_bytes_length. unfold off_number. lia.
  - assert (length (sent_header i (endQueryDataCloudResult id e m)) = 16%nat) as Hl
      by (cbn [sent_header]; by rewrite !length_app, id_field_length, !le_bytes_length).
    unfold consumeDataPack. cbn -[fix_le sent_header].
    rewrite (fix_le_id 4 off_error) by (done || (rewrite Hl; unfold off_error; lia)). simpl_out.
    rewrite (fix_le_id 4 off_error_length) by (done || (rewrite Hl; unfold off_error_length; lia)). done.
Qed.

(** How a handler reads the blocks it is given. *)
Inductive view :=
  | SeesPut (put_mode : Z) (key : list Z) (data : option (list Z))
  | SeesGet (i : AnswerServerInfo) (key : option (list Z))
  | SeesQuery (i : AnswerServerInfo) (query_id key : list Z) (start_ts end_ts : Z)
  | SeesStart (query_id : list Z) (total_element_found : Z)
  | SeesResult (query_id : list Z) (element_index : Z) (data : option (list Z))
  | SeesEnd (query_id : list Z) (error error_message_length : Z) (data : option (list Z)).

Definition view_info (h : list Z) : outcome AnswerServerInfo :=
  pp ← load h off_p_port 2; sp ← load h off_s_port 2; ep ← load h off_endpoint 2; a ← load h off_address 8;
  mret (mkInfo pp sp ep a).

(** The data is what the length says of the block. *)
Definition view_data (d : option (list Z)) (n : Z) : option (list Z) := take (Z.to_nat n) <$> d.

Definition view_of (c : handler_call) : outcome view :=
  match c with
  | consumePutEvent h d n =>
      m ← load h off_tag 1; k ← load h off_key_len 1; key ← access (buf_read h 2 (Z.to_nat k)); mret (SeesPut m key (view_data d n))
  | consumeGetEvent h d n => i ← view_info h; mret (SeesGet i (view_data d n))
  | consumeDataCloudQuery h key t0 t1 =>
      i ← view_info h; id ← access (buf_read h off_query_id 8); mret (SeesQuery i id key t0 t1)
  | consumeDataCloudQueryStartResult h => id ← access (buf_read h off_result_id 8); n ← load h off_number 8; mret (SeesStart id n)
  | consumeDataCloudQueryResult h d n =>
      id ← access (buf_read h off_result_id 8); k ← load h off_number 8; mret (SeesResult id k (view_data d n))
  | consumeDataCloudQueryEndResult h d n =>
      id ← access (buf_read h off_result_id 8); e ← load h off_error 4; l ← load h off_error_length 4;
      mret (SeesEnd id (s32 e) l (view_data d n))
  end.

(** What it should see; of a key, as many characters as the eight-bit length says. *)
Definition expected (i : AnswerServerInfo) (r : request) : view :=
  match r with
  | storeAndCacheDataOutputChannel key buffer m => SeesPut (u8 m) (put_key key) (if decide (buffer = []) then None else Some buffer)
  | requestLastOutputData key => SeesGet i (Some key)
  | queryDataCloud key t0 t1 id => SeesQuery i (id_field id) key t0 t1
  | startQueryDataCloudResult id n => SeesStart (id_field id) n
  | sendResultToQueryDataCloud id k data => SeesResult (id_field id) k (Some data)
  | endQueryDataCloudResult id e m => SeesEnd (id_field id) e (u32 (Z.of_nat (length m))) None
  end.

Lemma view_data_all r : view_data (sent_data r) (match sent_data r with Some d => Z.of_nat (length d) | None => 0 end) = sent_data r.
Proof. destruct (sent_data r) as [d|]; [|done]. simpl. by rewrite Nat2Z.id, take_ge by lia. Qed.

Lemma view_info_bytes i c : info_ok i -> view_info (info_bytes i ++ c) = Ret i.
Proof.
  intros [H1 H2 H3 H4]. unfold view_info, info_bytes. rewrite !app_assoc_reverse.
  pose proof (load_at (le_bytes 2 (answer_endpoint i)) (p_server_port i) (le_bytes 2 (s_server_port i) ++ [0; 0] ++ le_bytes 8 (ip i) ++ c) 2 H1) as E1.
  pose proof (load_at (le_bytes 2 (answer_endpoint i) ++ le_bytes 2 (p_server_port i)) (s_server_port i) ([0; 0] ++ le_bytes 8 (ip i) ++ c) 2 H2) as E2.
  pose proof (load_at [] (answer_endpoint i) (le_bytes 2 (p_server_port i) ++ le_bytes 2 (s_server_port i) ++ [0; 0] ++ le_bytes 8 (ip i) ++ c) 2 H3) as E3.
  pose proof (load_at (le_bytes 2 (answer_endpoint i) ++ le_bytes 2 (p_server_port i) ++ le_bytes 2 (s_server_port i) ++ [0; 0]) (ip i) c 8 H4) as E4.
  rewrite !app_assoc_reverse in *. rewrite ?length_app, ?le_bytes_length in *. cbn [length Nat.add app] in E1, E2, E3, E4.
  unfold off_p_port, off_s_port, off_endpoint, off_address. cbn [app] in *. rewrite E1. simpl_out. rewrite E2. simpl_out. rewrite E3. simpl_out. rewrite E4. simpl_out.
  by destruct i.
Qed.

Lemma read_id a id c off : length a = off -> buf_read (a ++ id_field id ++ c) off 8 = Some (id_field id).
Proof. intros <-. pose proof (read_at a (id_field id) c) as H. by rewrite id_field_length in H. Qed.

Lemma read_first_id id c : buf_read (id_field id ++ c) 0 8 = Some (id_field id).
Proof. by apply (read_id []). Qed.

Lemma load_number id v c sz : in_u (8 * Z.of_nat sz) v -> load (id_field id ++ le_bytes sz v ++ c) 8 sz = Ret v.
Proof. intros Hv. pose proof (load_at (id_field id) v c sz Hv) as H. by rewrite id_field_length in H. Qed.

Lemma u8_range z : in_u 8 (u8 z).
Proof. apply uwrap_range. lia. Qed.

Lemma view_put key buffer m :
  view_of (call_of (mkInfo 0 0 0 0) (storeAndCacheDataOutputChannel key buffer m)) = Ret (SeesPut (u8 m) (put_key key) (if decide (buffer = []) then None else Some buffer)).
Proof.
  set (r := storeAndCacheDataOutputChannel key buffer m). pose proof (view_data_all r) as Hv. set (n := u8 (Z.of_nat (length key))).
  assert (le_bytes 1 (u8 m) = [u8 m]) as Hm by (simpl; f_equal; apply Z.mod_small, u8_range).
  assert (le_bytes 1 n = [n]) as Hn by (simpl; f_equal; apply Z.mod_small, u8_range).
  assert (sent_header (mkInfo 0 0 0 0) r = [u8 m; n] ++ put_key key ++ replicate (length key - length (put_key key)) 0) as Hh by done.
  change (call_of (mkInfo 0 0 0 0) r) with
    (consumePutEvent (sent_header (mkInfo 0 0 0 0) r) (sent_data r) (match sent_data r with Some d => Z.of_nat (length d) | None => 0 end)).
  unfold view_of. rewrite Hv, Hh. set (z := replicate (length key - length (put_key key)) 0). set (rest := put_key key ++ z).
  assert (load ([u8 m; n] ++ rest) off_tag 1 = Ret (u8 m)) as ->.
  { pose proof (load_at [] (u8 m) ([n] ++ rest) 1 (u8_range m)) as E. by rewrite Hm in E. }
  assert (load ([u8 m; n] ++ rest) off_key_len 1 = Ret n) as ->.
  { pose proof (load_at [u8 m] n rest 1 (u8_range _)) as E. by rewrite Hn in E. }
  simpl_out. pose proof (read_at [u8 m; n] (put_key key) z) as E. rewrite (proj1 (put_key_length key)) in E. fold n rest in E.
  cbn [length] in E. by rewrite E.
Qed.

Lemma view_run i r : request_ok r -> info_ok i -> view_of (call_of i r) = Ret (expected i r).
Proof.
  intros Hr Hi. pose proof (view_data_all r) as Hv. destruct r as [key buffer m|key|key t0 t1 id|id n|id k data|id e m].
  - apply (view_put key buffer m).
  - unfold call_of, view_of. rewrite Hv. cbn [sent_header]. pose proof (view_info_bytes i [] Hi) as E. rewrite app_nil_r in E. by rewrite E.
  - unfold call_of, view_of. cbn [sent_header]. rewrite view_info_bytes by done. simpl_out.
    rewrite <- (app_nil_r (id_field id)), read_id by done. done.
  - unfold call_of, view_of. cbn [sent_header]. rewrite <- (app_nil_r (le_bytes 8 n)).
    rewrite read_first_id, load_number by (done || apply Hr). done.
  - unfold call_of, view_of. rewrite Hv. cbn [sent_header]. rewrite read_first_id, load_number by (done || apply Hr). done.
  - unfold call_of, view_of. rewrite Hv. cbn [sent_header]. rewrite read_first_id.
    assert (in_u 32 (u32 e)) as He by (apply uwrap_range; lia). set (l := u32 (Z.of_nat (length m))).
    assert (in_u 32 l) as Hl by (apply uwrap_range; lia). unfold off_error. rewrite load_number by done. cbn [access]. simpl_out.
    pose proof (load_at (id_field id ++ le_bytes 4 (u32 e)) l [] 4 Hl) as E. rewrite app_nil_r, app_assoc_reverse, length_app, id_field_length, le_bytes_length in E.
    unfold off_error_length. change (8 + 4)%nat with 12%nat in E. rewrite E. simpl_out. unfold expected. fold l. rewrite swrap_uwrap, swrap_small by (lia || apply Hr). done.
Qed.
End Requests.

(** ** Endpoints *)

#[local] Arguments MAX_ENDPOINT_NUMBER : simpl never.
#[local] Arguments MAX_ENDPOINT_CHANNEL : simpl never.

(** Slots are free or belong to one endpoint. *)
Record io_ok (s : IODispatcher) : Prop := {
  io_slots : exists l, endpoint_slot_array s = Some l /\ length l = MAX_ENDPOINT_NUMBER;
  io_free : forall l i, endpoint_slot_array s = Some l -> i ∈ available_endpoint_slot s -> l !! i = Some (mkSlot false None);
  io_nodup : NoDup (available_endpoint_slot s);
  io_live : forall l e x, endpoint_slot_array s = Some l -> endpoints s !! e = Some x ->
    l !! endpoint_route_index x = Some (mkSlot true (Some e)) /\ length (channel_slot x) = MAX_ENDPOINT_CHANNEL /\ (e < next_endpoint s)%nat;
  io_count : (length (available_endpoint_slot s) + base.size (endpoints s) = MAX_ENDPOINT_NUMBER)%nat }.

Inductive dop := DNew | DRelease (e : nat) | DRegister (e idx c : nat) | DDeregister (e idx : nat).

Definition dexec (o : dop) : ST IODispatcher unit :=
  match o with
  | DNew => getNewEndpoint;; mret tt
  | DRelease e => releaseEndpoint (Some e)
  | DRegister e idx c => registerChannelInstance e idx c
  | DDeregister e idx => deregisterChannelInstance e idx
  end.

(** Only endpoints that are alive are used. *)
Definition dop_ok (s : IODispatcher) (o : dop) : Prop :=
  match o with DNew => True | DRelease e | DRegister e _ _ | DDeregister e _ => is_Some (endpoints s !! e) end.

Definition dstep (s s' : IODispatcher) : Prop := exists o, dop_ok s o /\ dexec o s = Some (tt, s').

Definition initialised : IODispatcher := match dispatcher_init new_IODispatcher with Some (_, s) => s | None => new_IODispatcher end.

Lemma initialised_ok : io_ok initialised.
Proof.
  change initialised with (mkIODispatcher (Some (replicate MAX_ENDPOINT_NUMBER (mkSlot false None))) (seq 0 MAX_ENDPOINT_NUMBER) ∅ 0).
  split; cbn [endpoint_slot_array available_endpoint_slot endpoints next_endpoint].
  - eexists. split; [done|]. apply length_replicate.
  - intros l i E Hi%elem_of_seq. assert (l = replicate MAX_ENDPOINT_NUMBER (mkSlot false None)) as -> by congruence.
    apply lookup_replicate. split; [done|lia].
  - apply NoDup_seq.
  - intros l e x _ He. by rewrite lookup_empty in He.
  - by rewrite length_seq, map_size_empty, Nat.add_0_r.
Qed.

(** Two live endpoints have different slots. *)
Lemma own_slot s e e' x x' :
  io_ok s -> endpoints s !! e = Some x -> endpoints s !! e' = Some x' -> endpoint_route_index x = endpoint_route_index x' -> e = e'.
Proof.
  intros Hok He He' Hr. destruct (io_slots _ Hok) as (l & Hl & _).
  destruct (io_live _ Hok l e x Hl He) as (H1 & _). destruct (io_live _ Hok l e' x' Hl He') as (H2 & _). rewrite Hr in H1. congruence.
Qed.

Lemma getNewEndpoint_ok s :
  io_ok s -> wp getNewEndpoint (fun o s' => io_ok s' /\
    match o with
    | Some e => endpoints s !! e = None /\ exists x, endpoints s' !! e = Some x
    | None => available_endpoint_slot s = [] /\ s' = s
    end) s.
Proof.
  intros Hok. unfold getNewEndpoint. wp_steps. destruct (available_endpoint_slot s) as [|i a] eqn:Ha; [by wp_steps|].
  destruct (io_slots _ Hok) as (l & Hl & Hlen). pose proof (io_nodup _ Hok) as Hnd. rewrite Ha in Hnd. apply NoDup_cons in Hnd as [Hni Hnd].
  pose proof (io_free _ Hok l i Hl) as Hi. rewrite Ha in Hi. specialize (Hi ltac:(set_solver)).
  wp_steps. unfold slots. wp_steps. eapply wp_lift; [exact Hl|]. wp_steps. eapply wp_lift; [exact Hi|]. wp_steps. simpl.
  assert (endpoints s !! next_endpoint s = None) as Hnew.
  { destruct (endpoints s !! next_endpoint s) as [x|] eqn:E; [|done]. destruct (io_live _ Hok l _ x Hl E) as (_ & _ & ?). lia. }
  split; [|split; [done|eexists; by rewrite lookup_insert_eq]]. split; simpl.
  - eexists. split; [done|]. by rewrite length_insert.
  - intros l' j [= <-] Hj. rewrite list_lookup_insert_ne by (intros ->; done). apply (io_free _ Hok l j Hl). rewrite Ha. set_solver.
  - done.
  - intros l' e x [= <-] He. destruct (decide (e = next_endpoint s)) as [->|Hne].
    + rewrite lookup_insert_eq in He. injection He as <-. simpl. split_and!; [|done|lia].
      apply list_lookup_insert_eq. by eapply lookup_lt_Some.
    + rewrite lookup_insert_ne in He by done. destruct (io_live _ Hok l e x Hl He) as (H1 & H2 & H3). split_and!; [|done|lia].
      rewrite list_lookup_insert_ne; [done|]. intros Hr. rewrite <- Hr in H1. congruence.
  - rewrite map_size_insert_None by done. pose proof (io_count _ Hok) as Hc. rewrite Ha in Hc. cbn [length] in Hc. lia.
Qed.

Lemma releaseEndpoint_ok s e x :
  io_ok s -> endpoints s !! e = Some x -> wp (releaseEndpoint (Some e)) (fun _ s' => io_ok s' /\ endpoints s' = delete e (endpoints s)) s.
Proof.
  intros Hok He. destruct (io_slots _ Hok) as (l & Hl & Hlen). destruct (io_live _ Hok l e x Hl He) as (Hsl & _).
  unfold releaseEndpoint, the_endpoint. wp_steps. eapply wp_lift; [exact He|]. unfold clear_slot, slots. wp_steps.
  eapply wp_lift; [exact Hl|]. wp_steps. eapply wp_lift; [exact Hsl|]. cbn [slot_endpoint]. wp_steps. eapply wp_lift; [exact He|]. wp_steps. simpl.
  set (i := endpoint_route_index x) in *. assert (i < length l)%nat as Hlt by (by eapply lookup_lt_Some).
  assert (i ∉ available_endpoint_slot s) as Hni by (intros Hi; pose proof (io_free _ Hok l i Hl Hi); congruence).
  split; [|done]. split; simpl.
  - eexists. split; [done|]. by rewrite length_insert.
  - intros l' j [= <-] [Hj|Hj]%elem_of_app.
    + rewrite list_lookup_insert_ne by (intros ->; done). by apply (io_free _ Hok l j Hl).
    + apply list_elem_of_singleton in Hj as ->. by apply list_lookup_insert_eq.
  - apply NoDup_app. split_and!; [apply Hok|set_solver|apply NoDup_singleton].
  - intros l' e' x' [= <-] He'. apply lookup_delete_Some in He' as [Hne He'].
    destruct (io_live _ Hok l e' x' Hl He') as (H1 & H2 & H3). split_and!; [|done|done].
    rewrite list_lookup_insert_ne; [done|]. intros Hr. destruct Hne. by apply (own_slot s e e' x x').
  - rewrite map_size_delete_Some by eauto. rewrite length_app. cbn [length]. pose proof (io_count _ Hok) as Hc.
    assert (base.size (endpoints s) <> 0%nat); [|lia]. rewrite map_size_non_empty_iff. intros Hem. by rewrite Hem, lookup_empty in He.
Qed.

Lemma set_channel_ok s e x idx c :
  io_ok s -> endpoints s !! e = Some x -> wp (set_channel e idx c) (fun _ s' => io_ok s') s.
Proof.
  intros Hok He. unfold set_channel, the_endpoint. wp_steps. eapply wp_lift; [exact He|]. case_decide as Hi; wp_steps; [done|].
  destruct Hok as [H1 H2 H3 H4 H5]. split; simpl; try done; [|by rewrite map_size_insert_Some by eauto].
  intros l e' x' Hl He'. destruct (decide (e' = e)) as [->|Hne].
  - rewrite lookup_insert_eq in He'. injection He' as <-. simpl. rewrite length_insert. by apply H4.
  - rewrite lookup_insert_ne in He' by done. by apply H4.
Qed.

Lemma dexec_ok o s : io_ok s -> dop_ok s o -> wp (dexec o) (fun _ s' => io_ok s') s.
Proof.
  intros Hok Ho. destruct o as [|e|e idx c|e idx]; simpl in *.
  - wp_steps. eapply wp_mono; [by apply getNewEndpoint_ok|]. intros o s' [H _]. by wp_steps.
  - destruct Ho as [x Hx]. eapply wp_mono; [by eapply releaseEndpoint_ok|]. naive_solver.
  - destruct Ho as [x Hx]. by eapply set_channel_ok.
  - destruct Ho as [x Hx]. by eapply set_channel_ok.
Qed.

Lemma dispatcher_ok s : rtc dstep initialised s -> io_ok s.
Proof.
  revert s. refine (rtc_ind_r (fun s => io_ok s) initialised initialised_ok _).
  intros s1 s2 _ (o & Ho & E) Hok. pose proof (dexec_ok o s1 Hok Ho) as H. unfold wp in H. by rewrite E in H.
Qed.

Lemma route_live s e x p c :
  io_ok s -> endpoints s !! e = Some x -> route_addr (fields p) = Z.of_nat (endpoint_route_index x) ->
  channel_slot x !! Z.to_nat (channel_idx (fields p)) = Some c -> route_pack s p = Ret c.
Proof.
  intros Hok He Hr Hc. destruct (io_slots _ Hok) as (l & Hl & _). destruct (io_live _ Hok l e x Hl He) as (Hs & _).
  unfold route_pack. rewrite Hl. cbn [access]. simpl_out. rewrite Hr, Nat2Z.id, Hs. cbn [access]. simpl_out. cbn [enable negb slot_endpoint access].
  simpl_out. rewrite He. cbn [access]. simpl_out. by rewrite Hc.
Qed.

(** [C16] Through any allocation and release of endpoints and registration of channels no
    call fails, a message goes to the channel of the endpoint whose route it names, live
    endpoints have different routes, and a new endpoint is refused only if 256 are alive. *)
Theorem endpoints_have_own_routes s :
  rtc dstep initialised s ->
  (forall o, dop_ok s o -> exists s', dexec o s = Some (tt, s')) /\
  (forall e x p c, endpoints s !! e = Some x -> route_addr (fields p) = Z.of_nat (endpoint_route_index x) ->
     channel_slot x !! Z.to_nat (channel_idx (fields p)) = Some c -> route_pack s p = Ret c) /\
  (forall e e' x x', endpoints s !! e = Some x -> endpoints s !! e' = Some x' -> e <> e' -> endpoint_route_index x <> endpoint_route_index x') /\
  exists o s', getNewEndpoint s = Some (o, s') /\ (o = None <-> base.size (endpoints s) = MAX_ENDPOINT_NUMBER).
Proof.
  intros Hok%dispatcher_ok. split_and!.
  - intros o Ho. destruct (wp_elim _ _ _ (dexec_ok o s Hok Ho)) as ([] & s' & E & _). eauto.
  - intros e x p c. by apply route_live.
  - intros e e' x x' He He' Hne Hr. destruct Hne. by apply (own_slot s e e' x x').
  - destruct (wp_elim _ _ _ (getNewEndpoint_ok s Hok)) as (o & s' & E & _ & Ho). exists o, s'. split; [done|].
    pose proof (io_count _ Hok) as Hc. split.
    + intros ->. destruct Ho as [Ha _]. rewrite Ha in Hc. exact Hc.
    + intros Hs. rewrite Hs in Hc. assert (available_endpoint_slot s = []) as Ha by (apply length_zero_iff_nil; lia).
      unfold getNewEndpoint, mbind, ST_bind, st_gets in E. rewrite Ha in E. by injection E as <- _.
Qed.

(** ** From the client to the handler and back *)

Section Delivery.
Context (junk : Z).

(** A message is sent and delivered. *)
Lemma message_delivered s e x k i r identity rest :
  io_ok s -> endpoints s !! e = Some x -> channel_slot x !! 2%nat = Some (Some k) -> request_ok r ->
  exists m p, send junk every i (Z.of_nat (endpoint_route_index x)) r = Ret m /\ err m = 0 /\
    deliver junk (route_pack s) (Some identity :: Some [] :: (Some <$> frames m) ++ rest) =
      Got (c_str (take 255 identity), p, Some (k, call_of i r)) rest /\
    synchronous_answer (fields p) = if is_synchronous r then 1 else 0.
Proof.
  intros Hok He Hk Hr. set (ep := Z.of_nat (endpoint_route_index x)).
  assert (in_u 16 ep) as Hep.
  { destruct (io_slots _ Hok) as (l & Hl & Hlen). destruct (io_live _ Hok l e x Hl He) as (Hs & _).
    apply lookup_lt_Some in Hs. rewrite Hlen in Hs. unfold MAX_ENDPOINT_NUMBER in Hs. unfold in_u, ep. lia. }
  destruct (request_packed junk i ep r Hr Hep) as (p & Ep & Hs & Hf & Hds). set (q := completed ep (is_synchronous r) p) in *.
  destruct (write_frames q _ _ Hs) as (parts & Ew). exists (mkSent 0 (sent_frames q (sent_header i r) (sent_data r)) parts), (received i ep r).
  split; [|split; [done|]].
  { unfold send. rewrite Ep. simpl_out. exact Ew. }
  split; [|done]. cbn [frames]. unfold deliver, mbind, RX_bind. rewrite (receive_frames junk q _ _ identity rest Hs).
  assert (mkPack (fields q) (channel_header_size q) (match sent_data r with Some _ => channel_data_size q | None => 0 end)
    (Some (sent_header i r)) (sent_data r) = received i ep r) as ->.
  { unfold received. rewrite Hf. f_equal.
    - destruct (sd_header _ _ _ Hs) as (hb & _ & -> & Hl). rewrite length_take. pose proof (pk_header _ (sd_ok _ _ _ Hs)) as Hh. unfold in_u in Hh. lia.
    - pose proof (sd_data _ _ _ Hs) as Hd. destruct (sent_data r); [apply Hd|done]. }
  cbn beta iota. rewrite (route_live s e x _ (Some k) Hok He) by done. cbn [rx_lift]. by rewrite consume_run.
Qed.



End Delivery.

(** *** Scenarios *)

Module Witness.

(** An endpoint with a device channel, after another endpoint was allocated and released. *)
Definition history : list dop := [DNew; DNew; DRegister 1 2 7; DRelease 0; DNew].

Fixpoint drun (os : list dop) (s : IODispatcher) : option IODispatcher :=
  match os with
  | [] => Some s
  | o :: os =>
      if match o with DNew => true | DRelease e | DRegister e _ _ | DDeregister e _ => bool_decide (is_Some (endpoints s !! e)) end
      then s ← snd <$> dexec o s; drun os s else None
  end.

Lemma drun_rtc os : forall s s', drun os s = Some s' -> rtc dstep s s'.
Proof.
  induction os as [|o os IH]; intros s s'; simpl; [by intros [= ->]|]. destruct (match o with DNew => _ | _ => _ end) eqn:Ho; [|done].
  destruct (dexec o s) as [[[] s1]|] eqn:E; [|done]. simpl. intros H. eapply rtc_l; [|by apply IH]. exists o. split; [|done].
  destruct o; simpl; try done; by apply bool_decide_eq_true in Ho.
Qed.

Definition dispatcher : IODispatcher := default initialised (drun history initialised).
Definition at_one : endpoint := mkEndpoint 1 (<[2%nat := Some 7%nat]> (replicate MAX_ENDPOINT_CHANNEL None)).
Definition answer_to : AnswerServerInfo := mkInfo 5000 5001 3 16777343.
Definition no_answer (k : nat) (c : handler_call) : handled := mkHandled 0 None.

Lemma reached : rtc dstep initialised dispatcher.
Proof. apply (drun_rtc history). by vm_compute. Qed.
Lemma answer_to_ok : info_ok answer_to.
Proof. by split. Qed.

Lemma endpoints_have_own_routes_witness :
  exists o s', getNewEndpoint dispatcher = Some (o, s') /\ (o = None <-> base.size (endpoints dispatcher) = MAX_ENDPOINT_NUMBER).
Proof. apply (endpoints_have_own_routes dispatcher reached). Defined.



(** Initialised a second time, the dispatcher gives a slot to two endpoints. *)
Definition second_init : ST IODispatcher unit := dispatcher_init;; dispatcher_deinit;; dispatcher_init.
Fixpoint allocate (n : nat) : ST IODispatcher unit := match n with O => mret tt | S n => getNewEndpoint;; allocate n end.

Lemma reinitialised_dispatcher_shares_slot :
  exists s, (second_init;; allocate 257) new_IODispatcher = Some (tt, s) /\
    endpoint_route_index <$> endpoints s !! 0%nat = Some 0%nat /\ endpoint_route_index <$> endpoints s !! 256%nat = Some 0%nat.
Proof. eexists. split; [by vm_compute|]. by split; vm_compute. Qed.

End Witness.
