(* ===== verification/MessageChannel.v ===== *)
(** * Message channels

    Models [chaos/common/message/MessageChannel], which numbers the requests of a client
    and hands every answer to the thread that waits for it, with the semaphores it uses,
    [thread/ObjectWaitSemaphore.h] and [thread/MultiKeyObjectWaitSemaphore.h].

    Threads are program counters in the state of the channel and an event moves one of
    them through one critical section, so that any number of requests, answers and calls
    of [setHandler] interleave.  The semaphores are in a heap, and an access to a deleted
    one [Breaks].  The accesses to the map that the code makes outside of its mutex
    ([initKey], the untimed [wait]) are atomic steps here.

    The transport is outside: a request that is submitted is added to [sent], and answers
    are events.  So are the user's handler and [UUIDUtil]. *)

From S2P Require Import Prelude BufBuilder Bson BsonBuilder CDataWrapper Container Dispatcher.

Local Open Scope Z_scope.

(** ** [ObjectWaitSemaphore] *)

(** The object is the address of an answer. *)
Record ObjectWaitSemaphore := mkSem { inWait : bool; answered : bool; objecForWait : option nat }.

Definition new_ObjectWaitSemaphore : ObjectWaitSemaphore := mkSem false false None.
Definition setWaithedObject (p : nat) (k : ObjectWaitSemaphore) : ObjectWaitSemaphore := mkSem (inWait k) (answered k) (Some p).
Definition unlock (k : ObjectWaitSemaphore) : ObjectWaitSemaphore := mkSem (inWait k) true (objecForWait k).

(** [wait] up to the condition variable; [None] is its early return. *)
Definition wait_enter (k : ObjectWaitSemaphore) : option ObjectWaitSemaphore :=
  if inWait k then None else Some (mkSem true false (objecForWait k)).
(** [wait] after the condition variable. *)
Definition wait_leave (k : ObjectWaitSemaphore) : option nat * ObjectWaitSemaphore := (objecForWait k, mkSem false false None).

(** ** The channel *)

(** How long a thread waits; zero milliseconds are a limit for [pollAnswer] only. *)
Inductive waiting := Forever | For (millisecToWait : Z).

(** A function pointer; one constructor of the channel leaves it uninitialised. *)
Inductive MessageHandler := HIndeterminate | HNull | HFunction.

(** Where a thread is: in [sendRequest] or [pollAnswer] with its number, or in [response]
    with its message. *)
Inductive position (W : Type) :=
  | QKey (id : Z) (ms : waiting) (pack : W)
  | QSubmit (id : Z) (ms : option waiting) (pack : W)
  | QLookup (id : Z) (ms : waiting)
  | QEnter (id : Z) (ms : waiting) (ks : nat)
  | QBlocked (id : Z) (ms : waiting) (ks : nat)
  | QErase (id : Z) (ms : waiting) (ks : nat) (result : option nat)
  | QDone (id : Z) (result : option nat)
  | QThrown (id : Z)
  | RStart (p : nat)
  | RLookup (p : nat) (id : Z)
  | RSet (p : nat) (id : Z) (ks : nat)
  | RUnlock (p : nat) (id : Z) (ks : nat)
  | RHandler (p : nat) (id : Z)
  | RDone (p : nat) (detachData : bool)
  | RThrown (p : nat).
Arguments QKey {W}. Arguments QSubmit {W}. Arguments QLookup {W}. Arguments QEnter {W}. Arguments QBlocked {W}.
Arguments QErase {W}. Arguments QDone {W}. Arguments QThrown {W}. Arguments RStart {W}. Arguments RLookup {W}.
Arguments RSet {W}. Arguments RUnlock {W}. Arguments RHandler {W}. Arguments RDone {W}. Arguments RThrown {W}.

(** [mapAccessMutex] names its holder; [answers] are the live answers, [handled] those the
    handler was called with, [sent] the documents given to the broker. *)
Record Channel (W : Type) := mkChannel {
  channelRequestIDCounter : Z;
  remoteNodeAddress : list Z;
  channelID : list Z;
  mapAccessMutex : option nat;
  keySemaphoreMap : gmap Z (option nat);
  semaphores : gmap nat ObjectWaitSemaphore;
  response_handler : MessageHandler;
  threads : gmap nat (position W);
  answers : gmap nat W;
  handled : list (Z * nat);
  sent : list (list Z * W);
  next_address : nat }.
Arguments mkChannel {W}.
Arguments channelRequestIDCounter {W}. Arguments remoteNodeAddress {W}. Arguments channelID {W}. Arguments mapAccessMutex {W}.
Arguments keySemaphoreMap {W}. Arguments semaphores {W}. Arguments response_handler {W}. Arguments threads {W}.
Arguments answers {W}. Arguments handled {W}. Arguments sent {W}. Arguments next_address {W}.

(** What a step does: the next state, nothing because the thread cannot move, or undefined
    behaviour. *)
Inductive moved (W : Type) := Next (s : Channel W) | Waits | Breaks.
Arguments Next {W}. Arguments Waits {W}. Arguments Breaks {W}.

Section Channel.
Context {W : Type} `{C : !Container W}.
Implicit Types (s : Channel W) (t p ks : nat) (id : Z).

Definition set_thread t (c : position W) s : Channel W :=
  mkChannel (channelRequestIDCounter s) (remoteNodeAddress s) (channelID s) (mapAccessMutex s) (keySemaphoreMap s) (semaphores s)
    (response_handler s) (<[t := c]> (threads s)) (answers s) (handled s) (sent s) (next_address s).
Definition set_counter n s : Channel W :=
  mkChannel n (remoteNodeAddress s) (channelID s) (mapAccessMutex s) (keySemaphoreMap s) (semaphores s)
    (response_handler s) (threads s) (answers s) (handled s) (sent s) (next_address s).
Definition set_mutex o s : Channel W :=
  mkChannel (channelRequestIDCounter s) (remoteNodeAddress s) (channelID s) o (keySemaphoreMap s) (semaphores s)
    (response_handler s) (threads s) (answers s) (handled s) (sent s) (next_address s).
Definition set_keys m s : Channel W :=
  mkChannel (channelRequestIDCounter s) (remoteNodeAddress s) (channelID s) (mapAccessMutex s) m (semaphores s)
    (response_handler s) (threads s) (answers s) (handled s) (sent s) (next_address s).
Definition set_semaphores m s : Channel W :=
  mkChannel (channelRequestIDCounter s) (remoteNodeAddress s) (channelID s) (mapAccessMutex s) (keySemaphoreMap s) m
    (response_handler s) (threads s) (answers s) (handled s) (sent s) (next_address s).
Definition set_handler h s : Channel W :=
  mkChannel (channelRequestIDCounter s) (remoteNodeAddress s) (channelID s) (mapAccessMutex s) (keySemaphoreMap s) (semaphores s)
    h (threads s) (answers s) (handled s) (sent s) (next_address s).
Definition set_answers m s : Channel W :=
  mkChannel (channelRequestIDCounter s) (remoteNodeAddress s) (channelID s) (mapAccessMutex s) (keySemaphoreMap s) (semaphores s)
    (response_handler s) (threads s) m (handled s) (sent s) (next_address s).
Definition add_handled x s : Channel W :=
  mkChannel (channelRequestIDCounter s) (remoteNodeAddress s) (channelID s) (mapAccessMutex s) (keySemaphoreMap s) (semaphores s)
    (response_handler s) (threads s) (answers s) (handled s ++ [x]) (sent s) (next_address s).
Definition add_sent x s : Channel W :=
  mkChannel (channelRequestIDCounter s) (remoteNodeAddress s) (channelID s) (mapAccessMutex s) (keySemaphoreMap s) (semaphores s)
    (response_handler s) (threads s) (answers s) (handled s) (sent s ++ [x]) (next_address s).
Definition set_next n s : Channel W :=
  mkChannel (channelRequestIDCounter s) (remoteNodeAddress s) (channelID s) (mapAccessMutex s) (keySemaphoreMap s) (semaphores s)
    (response_handler s) (threads s) (answers s) (handled s) (sent s) n.

(** The two constructors; the first one is given an address. *)
Definition new_MessageChannel (remote_host : list Z) : Channel W :=
  mkChannel 0 remote_host [] None ∅ ∅ HNull ∅ ∅ [] [] 0.
Definition new_NodeMessageChannel (ipPort : list Z) : Channel W :=
  mkChannel 0 ipPort [] None ∅ ∅ HIndeterminate ∅ ∅ [] [] 0.

(** [init], with the generated identifier; the action it registers is [response]. *)
Definition init (uuid : list Z) s : Channel W :=
  mkChannel 0 (remoteNodeAddress s) uuid (mapAccessMutex s) (keySemaphoreMap s) (semaphores s)
    (response_handler s) (threads s) (answers s) (handled s) (sent s) (next_address s).

(** ** The documents of a request *)

(** [sendMessage] and the first part of [sendRequest] put the message under its key; a null
    message is left out. *)
Definition add_message (requestPack : option W) (dataPack : W) : outcome W :=
  match requestPack with
  | Some m => '(_, w) ← c_addCSDataValue CS_CMDM_ACTION_MESSAGE m dataPack; mret w
  | None => mret dataPack
  end.
Definition add_action (nodeID actionName : list Z) (dataPack : W) : outcome W :=
  w ← c_addStringValue CS_CMDM_ACTION_DOMAIN nodeID dataPack; c_addStringValue CS_CMDM_ACTION_NAME actionName w.

(** The first part of [sendRequest]. *)
Definition data_pack (requestPack : option W) : outcome W := w ← c_new; add_message requestPack w.

(** The document [sendMessage] gives to the broker. *)
Definition message_pack (nodeID actionName : list Z) (messagePack : option W) : outcome W :=
  w ← c_new; w ← add_action nodeID actionName w; add_message messagePack w.

(** The part of [prepareRequestPackAndSend] after [initKey], and [submiteRequest] of the broker with its own address. *)
Definition answer_pack (publishedHostAndPort : list Z) id (channel : list Z) (w : W) : outcome W :=
  w ← c_addInt32Value CS_CMDM_ANSWER_ID id w;
  w ← c_addStringValue CS_CMDM_ANSWER_DOMAIN channel w;
  w ← c_addStringValue CS_CMDM_ANSWER_ACTION (chars "response") w;
  c_addStringValue CS_CMDM_ANSWER_HOST_IP publishedHostAndPort w.

(** ** Critical sections *)

(** [delete(ks)]; the destructor deletes the object that nobody took. *)
Definition delete_semaphore ks s : moved W :=
  match semaphores s !! ks with
  | None => Breaks
  | Some k =>
      let s := set_semaphores (delete ks (semaphores s)) s in
      match objecForWait k with
      | None => Next s
      | Some p => if answers s !! p is Some _ then Next (set_answers (delete p (answers s)) s) else Breaks
      end
  end.

Definition and_then (m : moved W) (f : Channel W -> Channel W) : moved W :=
  match m with Next s => Next (f s) | Waits => Waits | Breaks => Breaks end.

(** The body of [initKey] under the mutex. *)
Definition insert_key id s : Channel W :=
  let ks := next_address s in
  set_keys (<[id := Some ks]> (keySemaphoreMap s)) (set_semaphores (<[ks := new_ObjectWaitSemaphore]> (semaphores s)) (set_next (S ks) s)).

(** The thread leaves the condition variable. *)
Definition leave t id ms ks s : moved W :=
  match semaphores s !! ks with
  | None => Breaks
  | Some k =>
      let '(result, k) := wait_leave k in
      Next (set_thread t (QErase id ms ks result) (set_semaphores (<[ks := k]> (semaphores s)) s))
  end.

(** The broker's address. *)
Context (publishedHostAndPort : list Z).

(** *** Requests

    [initKey], the rest of [prepareRequestPackAndSend], and the two [wait]s. *)

Definition request_step t (c : position W) s : moved W :=
  match c with
  | QKey id ms w =>
      if keySemaphoreMap s !! id is Some _ then Next (set_thread t (QSubmit id (Some ms) w) s)
      else if mapAccessMutex s then Waits
      else Next (set_thread t (QSubmit id (Some ms) w) (insert_key id s))
  | QSubmit id ms w =>
      match answer_pack publishedHostAndPort id (channelID s) w with
      | Ret w =>
          Next (set_thread t (match ms with Some ms => QLookup id ms | None => QDone id None end)
            (add_sent (remoteNodeAddress s, w) s))
      | Throw _ => Next (set_thread t (QThrown id) s)
      | Fault => Breaks
      end
  | QLookup id ms =>
      if mapAccessMutex s then Waits else
      match keySemaphoreMap s !! id with
      | Some (Some ks) => Next (set_thread t (QEnter id ms ks) s)
      | Some None => Next (set_thread t (QDone id None) s)
      | None => Next (set_thread t (QDone id None) (set_keys (<[id := None]> (keySemaphoreMap s)) s))
      end
  | QEnter id ms ks =>
      match semaphores s !! ks with
      | None => Breaks
      | Some k =>
          match wait_enter k with
          | None => Next (set_thread t (QErase id ms ks None) s)
          | Some k => Next (set_thread t (QBlocked id ms ks) (set_semaphores (<[ks := k]> (semaphores s)) s))
          end
      end
  | QBlocked id ms ks =>
      match semaphores s !! ks with
      | None => Breaks
      | Some k => if answered k then leave t id ms ks s else Next s
      end
  | QErase id Forever ks r =>
      and_then (delete_semaphore ks (set_keys (delete id (keySemaphoreMap s)) s)) (set_thread t (QDone id r))
  | QErase id (For _) ks r =>
      if mapAccessMutex s then Waits
      else if keySemaphoreMap s !! id is Some _ then
        and_then (delete_semaphore ks (set_keys (delete id (keySemaphoreMap s)) s)) (set_thread t (QDone id r))
      else Next (set_thread t (QDone id r) s)
  | _ => Waits
  end.

(** *** Answers *)

Definition response_step t (c : position W) s : moved W :=
  match c with
  | RStart p =>
      match answers s !! p with
      | None => Breaks
      | Some w =>
          match c_hasKey CS_CMDM_MESSAGE_ID w with
          | Ret (false, w) => Next (set_thread t (RDone p false) (set_answers (<[p := w]> (answers s)) s))
          | Ret (true, w) =>
              match c_getInt32Value CS_CMDM_MESSAGE_ID w with
              | Ret (id, w) => Next (set_thread t (RLookup p id) (set_answers (<[p := w]> (answers s)) s))
              | Throw _ => Next (set_thread t (RDone p false) (set_answers (<[p := w]> (answers s)) s))
              | Fault => Breaks
              end
          | Throw _ => Next (set_thread t (RThrown p) s)
          | Fault => Breaks
          end
      end
  | RLookup p id =>
      if mapAccessMutex s then Waits else
      match keySemaphoreMap s !! id with
      | Some (Some ks) => Next (set_thread t (RSet p id ks) (set_mutex (Some t) s))
      | _ => Next (set_thread t (RHandler p id) s)
      end
  | RSet p id ks =>
      match semaphores s !! ks with
      | None => Breaks
      | Some k => Next (set_thread t (RUnlock p id ks) (set_semaphores (<[ks := setWaithedObject p k]> (semaphores s)) s))
      end
  | RUnlock p id ks =>
      match semaphores s !! ks with
      | None => Breaks
      | Some k => Next (set_thread t (RDone p true) (set_mutex None (set_semaphores (<[ks := unlock k]> (semaphores s)) s)))
      end
  | RHandler p id =>
      match response_handler s with
      | HNull => Next (set_thread t (RDone p false) s)
      | HFunction => Next (set_thread t (RDone p true) (add_handled (id, p) s))
      | HIndeterminate => Breaks
      end
  | _ => Waits
  end.

(** The shared lock of [response]. *)
Definition in_response (c : position W) : bool :=
  match c with RLookup _ _ | RSet _ _ _ | RUnlock _ _ _ | RHandler _ _ => true | _ => false end.

(** ** Events *)

Inductive event :=
  | ESendMessage (nodeID actionName : list Z) (messagePack : option W)
  | ESendRequest (nodeID actionName : list Z) (requestPack : option W) (millisecToWait : Z) (async : bool)
  | EPollAnswer (id millisecToWait : Z)
  | EResponse (w : W)
  | ESetHandler
  | EClearHandler
  | EMove (t : nat)
  | ETimeout (t : nat).

(** A new thread that starts in [c]. *)
Definition spawn (c : position W) s : Channel W := set_thread (next_address s) c (set_next (S (next_address s)) s).

(** [sendMessage] *)
Definition sendMessage (nodeID actionName : list Z) (messagePack : option W) s : moved W :=
  match message_pack nodeID actionName messagePack with
  | Ret w => Next (add_sent (remoteNodeAddress s, w) s)
  | Throw _ => Next s
  | Fault => Breaks
  end.

(** [sendRequest] up to [initKey]: the documents are local, the number is taken atomically. *)
Definition sendRequest (nodeID actionName : list Z) (requestPack : option W) (millisecToWait : Z) (async : bool) s : moved W :=
  let id := channelRequestIDCounter s in
  match data_pack requestPack with
  | Ret w =>
      let s := set_counter (s32 (id + 1)) s in
      match add_action nodeID actionName w with
      | Ret w =>
          Next (spawn (if async then QSubmit id None w
                       else QKey id (if millisecToWait =? 0 then Forever else For millisecToWait) w) s)
      | Throw _ => Next (spawn (QThrown id) s)
      | Fault => Breaks
      end
  | Throw _ => Next s
  | Fault => Breaks
  end.

(** The dispatcher calls [response] with a message of its own. *)
Definition response (w : W) s : Channel W :=
  let p := next_address s in spawn (RStart p) (set_answers (<[p := w]> (answers s)) (set_next (S p) s)).

Definition setHandler (h : MessageHandler) s : moved W :=
  if decide (map_Forall (fun _ c => in_response c = false) (threads s)) then Next (set_handler h s) else Waits.

Definition exec (e : event) s : moved W :=
  match e with
  | ESendMessage n a m => sendMessage n a m s
  | ESendRequest n a m ms async => sendRequest n a m ms async s
  | EPollAnswer id ms => Next (spawn (QLookup id (For ms)) s)
  | EResponse w => Next (response w s)
  | ESetHandler => setHandler HFunction s
  | EClearHandler => setHandler HNull s
  | EMove t =>
      match threads s !! t with
      | Some c => match request_step t c s with Waits => response_step t c s | m => m end
      | None => Waits
      end
  | ETimeout t =>
      match threads s !! t with
      | Some (QBlocked id (For ms) ks) => leave t id (For ms) ks s
      | _ => Waits
      end
  end.

(** A run; a thread that cannot move stays where it is. *)
Fixpoint run (es : list event) s : option (Channel W) :=
  match es with
  | [] => Some s
  | e :: es => match exec e s with Next s => run es s | Waits => run es s | Breaks => None end
  end.

End Channel.
