(* ===== verification/MessageChannelSpec.v ===== *)
(** * What a message channel promises

    Theorems about [MessageChannel]: however requests with a time limit, answers and changes
    of the handler interleave, no thread touches a deleted semaphore, and an answer is
    given to one place only, the request with its number if that still waits. *)

From S2P Require Import Prelude BufBuilder Bson BsonBuilder CDataWrapper Container Dispatcher MessageChannel.

Local Open Scope Z_scope.

(** ** Documents *)

Definition with_message (m : option doc) (d : doc) : doc :=
  match m with Some m => doc_snoc d CS_CMDM_ACTION_MESSAGE (VObject m) | None => d end.
Definition with_action (nodeID actionName : list Z) (d : doc) : doc :=
  doc_snoc (doc_snoc d CS_CMDM_ACTION_DOMAIN (VString nodeID)) CS_CMDM_ACTION_NAME (VString actionName).
Definition with_answer (host : list Z) (id : Z) (channel : list Z) (d : doc) : doc :=
  doc_snoc (doc_snoc (doc_snoc (doc_snoc d CS_CMDM_ANSWER_ID (VInt id)) CS_CMDM_ANSWER_DOMAIN (VString channel))
    CS_CMDM_ANSWER_ACTION (VString (chars "response"))) CS_CMDM_ANSWER_HOST_IP (VString host).

(** What [sendRequest] sends. *)
Definition request_doc (host : list Z) (id : Z) (channel nodeID actionName : list Z) (m : option doc) : doc :=
  with_answer host id channel (with_action nodeID actionName (with_message m DNil)).

(** What [sendMessage] sends. *)
Definition message_doc (nodeID actionName : list Z) (m : option doc) : doc := with_message m (with_action nodeID actionName DNil).

(** The document an optional message holds. *)
Definition opt_holds {W} `{Container W} (m : option doc) (o : option W) : Prop :=
  match m, o with Some d, Some w => c_holds d w /\ fits d | None, None => True | _, _ => False end.

Section Packs.
Context {W : Type} `{C : !Container W, L : !ContainerLaws W}.

Lemma add_message_holds m o d w :
  opt_holds m o -> c_holds d w -> fits (with_message m d) -> exists w', add_message o w = Ret w' /\ c_holds (with_message m d) w'.
Proof.
  intros Hm Hw Hf. destruct m as [m|], o as [x|]; try done; [|by exists w]. destruct Hm as [Hx Hfx].
  destruct (addCSDataValue_law CS_CMDM_ACTION_MESSAGE m d x w Hx Hfx Hw Hf) as (x' & w' & E & _ & Hw'). exists w'. simpl. by rewrite E.
Qed.

Lemma add_action_holds n a d w :
  c_holds d w -> fits (with_action n a d) -> exists w', add_action n a w = Ret w' /\ c_holds (with_action n a d) w'.
Proof.
  intros Hw Hf. unfold add_action. destruct (add_law _ _ _ _ _ (addStringValue_law _ n) Hw (fits_before _ _ _ Hf)) as (w1 & -> & H1). simpl_out.
  apply (add_law _ _ _ _ _ (addStringValue_law _ a) H1 Hf).
Qed.

Lemma answer_pack_holds host id ch d w :
  c_holds d w -> fits (with_answer host id ch d) -> exists w', answer_pack host id ch w = Ret w' /\ c_holds (with_answer host id ch d) w'.
Proof.
  intros Hw Hf. pose proof (fits_before _ _ _ Hf) as Hf3. pose proof (fits_before _ _ _ Hf3) as Hf2. pose proof (fits_before _ _ _ Hf2) as Hf1.
  unfold answer_pack. destruct (add_law _ _ _ _ _ (addInt32Value_law _ id) Hw Hf1) as (w1 & -> & H1). simpl_out.
  destruct (add_law _ _ _ _ _ (addStringValue_law _ ch) H1 Hf2) as (w2 & -> & H2). simpl_out.
  destruct (add_law _ _ _ _ _ (addStringValue_law _ _) H2 Hf3) as (w3 & -> & H3). simpl_out.
  apply (add_law _ _ _ _ _ (addStringValue_law _ host) H3 Hf).
Qed.

Lemma fits_before_answer host id ch d : fits (with_answer host id ch d) -> fits d.
Proof. intros Hf. do 4 apply fits_before in Hf. done. Qed.
Lemma fits_before_action n a d : fits (with_action n a d) -> fits d.
Proof. intros Hf. do 2 apply fits_before in Hf. done. Qed.

Lemma data_pack_holds m o : opt_holds m o -> fits (with_message m DNil) -> exists w, data_pack o = Ret w /\ c_holds (with_message m DNil) w.
Proof.
  intros Hm Hf. unfold data_pack. destruct new_law as (w & -> & Hw). simpl_out. by apply add_message_holds.
Qed.

Lemma message_pack_holds n a m o :
  opt_holds m o -> fits (message_doc n a m) -> exists w, message_pack n a o = Ret w /\ c_holds (message_doc n a m) w.
Proof.
  intros Hm Hf. assert (fits (with_action n a DNil)) as Hf1 by (destruct m; [by eapply fits_before|done]).
  unfold message_pack. destruct new_law as (w & -> & Hw). simpl_out.
  destruct (add_action_holds n a DNil w Hw Hf1) as (w1 & -> & H1). simpl_out. by apply add_message_holds.
Qed.

End Packs.

(** ** The invariant *)

Section Spec.
Context {W : Type} `{C : !Container W, L : !ContainerLaws W} (host : list Z).
Implicit Types (s : Channel W) (c : position W) (t p ks : nat) (id : Z).

(** The number of the request of a thread. *)
Definition number c : option Z :=
  match c with
  | QKey id _ _ | QSubmit id _ _ | QLookup id _ | QEnter id _ _ | QBlocked id _ _ | QErase id _ _ _ | QDone id _ | QThrown id => Some id
  | _ => None
  end.

(** The number whose key belongs to a thread. *)
Definition key_of c : option Z :=
  match c with
  | QSubmit id (Some _) _ | QLookup id _ | QEnter id _ _ | QBlocked id _ _ | QErase id _ _ _ => Some id
  | _ => None
  end.

(** The numbers whose entry in the map a thread relies on. *)
Definition cares c : option Z :=
  match c with QKey id _ _ => Some id | RSet _ id _ | RUnlock _ id _ => Some id | _ => key_of c end.

(** The answer a thread owns. *)
Definition bearing c : option nat :=
  match c with
  | RStart p | RLookup p _ | RSet p _ _ | RHandler p _ | RDone p false | RThrown p => Some p
  | QErase _ _ _ r | QDone _ r => r
  | _ => None
  end.

(** A live answer to the request [id]. *)
Definition answer_to s p id : Prop :=
  exists w d, answers s !! p = Some w /\ c_holds d w /\ fits d /\ as_int 32 (doc_find CS_CMDM_MESSAGE_ID d) = Ret id.

Definition timed (ms : waiting) : Prop := ms <> Forever.

(** A document that can be completed to a request. *)
Definition packable s id (w : W) : Prop := exists d, c_holds d w /\ fits (with_answer host id (channelID s) d).

(** The semaphore of a key, with its flag. *)
Definition sem_at s id ks (b : bool) : Prop :=
  keySemaphoreMap s !! id = Some (Some ks) /\ inWait <$> semaphores s !! ks = Some b.

Definition stands s t c : Prop :=
  match c with
  | QKey id ms w => timed ms /\ packable s id w /\ keySemaphoreMap s !! id = None
  | QSubmit id ms w => packable s id w /\ match ms with Some ms => timed ms /\ exists ks, sem_at s id ks false | None => True end
  | QLookup id ms => timed ms /\ exists ks, sem_at s id ks false
  | QEnter id ms ks => timed ms /\ sem_at s id ks false
  | QBlocked id ms ks => timed ms /\ sem_at s id ks true
  | QErase id ms ks r => timed ms /\ sem_at s id ks false /\ forall p, r = Some p -> answer_to s p id
  | QDone id r => forall p, r = Some p -> answer_to s p id
  | RStart p => exists id, answer_to s p id
  | RLookup p id | RHandler p id => answer_to s p id
  | RSet p id ks => mapAccessMutex s = Some t /\ answer_to s p id /\ exists b, sem_at s id ks b
  | RUnlock p id ks => mapAccessMutex s = Some t /\ exists b, sem_at s id ks b
  | _ => True
  end.

(** The places where an answer can be. *)
Inductive place := InThread (t : nat) | InSemaphore (ks : nat) | WithHandler (i : nat).

Definition bears s (pl : place) p : Prop :=
  match pl with
  | InThread t => exists c, threads s !! t = Some c /\ bearing c = Some p
  | InSemaphore ks => exists k, semaphores s !! ks = Some k /\ objecForWait k = Some p
  | WithHandler i => exists id, handled s !! i = Some (id, p)
  end.

(** [n] requests have been made. *)
Record channel_ok (n : nat) s : Prop := {
  ok_count : channelRequestIDCounter s = s32 (Z.of_nat n);
  ok_numbers t c id : threads s !! t = Some c -> number c = Some id -> exists k, (k < n)%nat /\ id = s32 (Z.of_nat k);
  ok_distinct t t' c c' id : threads s !! t = Some c -> threads s !! t' = Some c' -> number c = Some id -> number c' = Some id -> t = t';
  ok_threads t c : threads s !! t = Some c -> (t < next_address s)%nat /\ stands s t c;
  ok_keys id o : keySemaphoreMap s !! id = Some o ->
    exists t c ks b, threads s !! t = Some c /\ key_of c = Some id /\ o = Some ks /\ sem_at s id ks b;
  ok_inj id id' ks : keySemaphoreMap s !! id = Some (Some ks) -> keySemaphoreMap s !! id' = Some (Some ks) -> id = id';
  ok_mutex t : mapAccessMutex s = Some t ->
    exists p id ks, threads s !! t = Some (RSet p id ks) \/ threads s !! t = Some (RUnlock p id ks);
  ok_sem id ks k p : keySemaphoreMap s !! id = Some (Some ks) -> semaphores s !! ks = Some k -> objecForWait k = Some p -> answer_to s p id;
  ok_place pl pl' p : bears s pl p -> bears s pl' p -> pl = pl';
  ok_borne pl p : bears s pl p -> (p < next_address s)%nat;
  ok_fresh ks : is_Some (semaphores s !! ks) -> (ks < next_address s)%nat;
  ok_handler : response_handler s <> HIndeterminate }.

(** The events of the theorems: requests have a limit and fit, answers are documents. *)
Definition fair s (e : event) : Prop :=
  match e with
  | ESendMessage n a o => exists m, opt_holds m o /\ fits (message_doc n a m)
  | ESendRequest n a o ms async =>
      (async = false -> ms <> 0) /\
      exists m, opt_holds m o /\ fits (request_doc host (channelRequestIDCounter s) (channelID s) n a m)
  | EPollAnswer _ _ => False
  | EResponse w => exists d id, c_holds d w /\ fits d /\ as_int 32 (doc_find CS_CMDM_MESSAGE_ID d) = Ret id
  | _ => True
  end.

Definition requests_in (e : event (W := W)) : nat := match e with ESendRequest _ _ _ _ _ => 1%nat | _ => 0%nat end.

(** The states of a channel after [n] requests. *)
Inductive reach (s0 : Channel W) : nat -> Channel W -> Prop :=
  | reach_start : reach s0 0 s0
  | reach_step n s e s' : reach s0 n s -> fair s e -> exec host e s = Next s' -> reach s0 (n + requests_in e) s'.

(** A channel that has been created with an address and initialised. *)
Definition fresh_channel (address uuid : list Z) : Channel W := init uuid (new_MessageChannel address).

Lemma fresh_ok address uuid : channel_ok 0 (fresh_channel address uuid).
Proof.
  split; try done.
  - intros [t|ks|i] pl' p; [by intros (c & H & _)|by intros (k & H & _)|by intros (id & H)].
  - intros [t|ks|i] p; [by intros (c & H & _)|by intros (k & H & _)|by intros (id & H)].
  - intros ks [k H]. done.
Qed.

(** ** What a step of the thread [t] leaves to the others *)

Record step_frame s s1 t c : Prop := {
  fr_channel : channelID s1 = channelID s;
  fr_keys id : keySemaphoreMap s1 !! id = keySemaphoreMap s !! id \/ (number c = Some id /\ mapAccessMutex s = None);
  fr_sems ks b : inWait <$> semaphores s !! ks = Some b ->
    inWait <$> semaphores s1 !! ks = Some b \/
    exists id, number c = Some id /\ keySemaphoreMap s !! id = Some (Some ks) /\
      (mapAccessMutex s = None \/ exists b', inWait <$> semaphores s1 !! ks = Some b');
  fr_answers p : answers s1 !! p = answers s !! p \/ exists pl, bears s pl p /\ forall t', pl = InThread t' -> t' = t;
  fr_mutex t' : t' <> t -> mapAccessMutex s = Some t' -> mapAccessMutex s1 = Some t' }.

Lemma answer_to_same s s1 p id : answers s1 !! p = answers s !! p -> answer_to s p id -> answer_to s1 p id.
Proof. unfold answer_to. by intros ->. Qed.

Lemma others_stand n s s1 t c t' c' :
  channel_ok n s -> threads s !! t = Some c -> step_frame s s1 t c ->
  t' <> t -> threads s !! t' = Some c' -> stands s t' c' -> stands s1 t' c'.
Proof.
  intros Hok Ht [Fc Fk Fs Fa Fm] Hne Ht' Hst.
  assert (forall p, bearing c' = Some p -> answers s1 !! p = answers s !! p) as Ha.
  { intros p Hp. destruct (Fa p) as [|(pl & Hpl & Hown)]; [done|]. destruct Hne. apply Hown.
    apply (ok_place _ _ Hok pl _ p Hpl). by exists c'. }
  assert (forall p id, bearing c' = Some p -> answer_to s p id -> answer_to s1 p id) as Hans.
  { intros p id Hp. apply answer_to_same. auto. }
  assert (forall id, number c' = Some id -> number c <> Some id) as Hnum.
  { intros id H H'. destruct Hne. eapply (ok_distinct _ _ Hok); eauto. }
  assert (forall id ks b, number c' = Some id -> sem_at s id ks b -> sem_at s1 id ks b) as Hreq.
  { intros id ks b Hid [Hk Hb]. split.
    - destruct (Fk id) as [->|[H _]]; [done|]. by destruct (Hnum id Hid).
    - destruct (Fs ks b Hb) as [|(id' & Hid' & Hk' & _)]; [done|].
      assert (id' = id) as -> by (by eapply (ok_inj _ _ Hok)). by destruct (Hnum id Hid). }
  assert (forall id ks b, mapAccessMutex s = Some t' -> sem_at s id ks b -> exists b', sem_at s1 id ks b') as Hresp.
  { intros id ks b Hm [Hk Hb]. assert (keySemaphoreMap s1 !! id = Some (Some ks)) as Hk1.
    { destruct (Fk id) as [->|[_ H]]; [done|congruence]. }
    destruct (Fs ks b Hb) as [|(id' & Hid' & Hk' & [H|[b' H]])]; [by exists b|congruence|by exists b']. }
  assert (forall id w, packable s id w -> packable s1 id w) as Hpack by (unfold packable; by rewrite Fc).
  destruct c'; simpl in *; try done.
  - destruct Hst as (H1 & H2 & H3). split_and!; [done|by apply Hpack|]. destruct (Fk id) as [->|[H _]]; [done|]. by destruct (Hnum id).
  - destruct Hst as (H1 & H2). split; [by apply Hpack|]. destruct ms as [ms|]; [|done]. destruct H2 as (H2 & ks & H3). split; [done|]. exists ks. auto.
  - destruct Hst as (H2 & ks & H3). split; [done|]. exists ks. auto.
  - destruct Hst as (H2 & H3). auto.
  - destruct Hst as (H2 & H3). auto.
  - destruct Hst as (H2 & H3 & H4). split_and!; auto.
  - auto.
  - destruct Hst as (id & Hst). exists id. auto.
  - auto.
  - destruct Hst as (H1 & H2 & b & H3). split_and!; eauto.
  - destruct Hst as (H1 & b & H3). split; eauto.
  - auto.
Qed.

(** ** A step of a thread *)

#[local] Instance place_eq_dec : EqDecision place.
Proof. solve_decision. Defined.

(** Two places exchanged. *)
Definition swap (a b pl : place) : place := if decide (pl = a) then b else if decide (pl = b) then a else pl.

Lemma swap_inj a b pl pl' : swap a b pl = swap a b pl' -> pl = pl'.
Proof. unfold swap. repeat case_decide; congruence. Qed.
Lemma swap_same a pl : swap a a pl = pl.
Proof. unfold swap. by repeat case_decide. Qed.

(** After an exchange every answer is still in one place. *)
Lemma place_swapped s s' a b :
  (forall pl p, bears s' pl p -> bears s (swap a b pl) p) ->
  (forall pl pl' p, bears s pl p -> bears s pl' p -> pl = pl') -> forall pl pl' p, bears s' pl p -> bears s' pl' p -> pl = pl'.
Proof. intros Hm Hu pl pl' p H H'. apply (swap_inj a b). eauto. Qed.

Lemma thread_moves n s s1 t c c' :
  channel_ok n s -> threads s !! t = Some c -> step_frame s s1 t c -> number c' = number c -> stands s1 t c' ->
  channelRequestIDCounter s1 = channelRequestIDCounter s -> threads s1 = threads s -> (next_address s <= next_address s1)%nat ->
  response_handler s1 = response_handler s ->
  (forall id o, keySemaphoreMap s1 !! id = Some o ->
    (key_of c' = Some id /\ exists ks b, o = Some ks /\ sem_at s1 id ks b) \/
    (key_of c <> Some id /\ keySemaphoreMap s !! id = Some o /\ forall ks b, sem_at s id ks b -> exists b', sem_at s1 id ks b')) ->
  (forall id id' ks, keySemaphoreMap s1 !! id = Some (Some ks) -> keySemaphoreMap s1 !! id' = Some (Some ks) -> id = id') ->
  (forall t', mapAccessMutex s1 = Some t' -> (t' = t /\ exists p id ks, c' = RSet p id ks \/ c' = RUnlock p id ks) \/ (t' <> t /\ mapAccessMutex s = Some t')) ->
  (forall id ks k p, keySemaphoreMap s1 !! id = Some (Some ks) -> semaphores s1 !! ks = Some k -> objecForWait k = Some p -> answer_to s1 p id) ->
  (exists a b, forall pl p, bears (set_thread t c' s1) pl p -> bears s (swap a b pl) p) ->
  (forall ks, is_Some (semaphores s1 !! ks) -> (ks < next_address s1)%nat) ->
  channel_ok n (set_thread t c' s1).
Proof.
  intros Hok Ht Hfr Hn Hst Hc Hth Hnx Hh Hkeys Hinj Hmx Hsem (a & b & Hpl) Hf.
  assert (forall t2 c2, threads (set_thread t c' s1) !! t2 = Some c2 -> (t2 = t /\ c2 = c') \/ (t2 <> t /\ threads s !! t2 = Some c2)) as Hlook.
  { intros t2 c2. simpl. rewrite Hth. intros [[-> <-]|[H H']]%lookup_insert_Some; eauto. }
  assert (forall t2 c2, threads (set_thread t c' s1) !! t2 = Some c2 -> exists c3, threads s !! t2 = Some c3 /\ number c3 = number c2) as Hold.
  { intros t2 c2 [[-> ->]|[_ H]]%Hlook; eauto. }
  split; simpl; try done.
  - by rewrite Hc, (ok_count _ _ Hok).
  - intros t2 c2 id (c3 & H3 & Hn3)%Hold Hid. rewrite <- Hn3 in Hid. by eapply (ok_numbers _ _ Hok).
  - intros t2 t3 c2 c3 id (c4 & H4 & Hn4)%Hold (c5 & H5 & Hn5)%Hold Hid Hid'. rewrite <- Hn4 in Hid. rewrite <- Hn5 in Hid'.
    by eapply (ok_distinct _ _ Hok).
  - intros t2 c2 [[-> ->]|[Hne H2]]%Hlook.
    + split; [|done]. pose proof (proj1 (ok_threads _ _ Hok _ _ Ht)). lia.
    + destruct (ok_threads _ _ Hok _ _ H2) as [Hlt Hs2]. split; [lia|]. by eapply (others_stand n s s1 t c t2 c2).
  - intros id o [(Hk & ks & b0 & -> & Hs)|(Hk & Hm & Hs)]%Hkeys.
    + exists t, c', ks, b0. by rewrite Hth, lookup_insert_eq.
    + destruct (ok_keys _ _ Hok id o Hm) as (t2 & c2 & ks & b0 & H2 & Hk2 & -> & Hs2). destruct (Hs ks b0 Hs2) as [b' Hb'].
      exists t2, c2, ks, b'. rewrite Hth, lookup_insert_ne; [done|]. intros <-. congruence.
  - intros t2 [[-> (p & id & ks & Hc')]|[Hne Hm]]%Hmx.
    + exists p, id, ks. rewrite Hth, lookup_insert_eq. naive_solver.
    + destruct (ok_mutex _ _ Hok _ Hm) as (p & id & ks & H). exists p, id, ks. by rewrite Hth, lookup_insert_ne.
  - eapply place_swapped; [exact Hpl|apply (ok_place _ _ Hok)].
  - intros pl p Hb%Hpl. pose proof (ok_borne _ _ Hok _ _ Hb). lia.
  - rewrite Hh. apply (ok_handler _ _ Hok).
Qed.

(** *** Steps that change the position of the thread only *)

Lemma bears_set_thread t c' s pl p :
  bears (set_thread t c' s) pl p -> (pl = InThread t /\ bearing c' = Some p) \/ (pl <> InThread t /\ bears s pl p).
Proof.
  destruct pl as [t2|ks|i]; simpl; [|by right..]. intros (c2 & [[<- <-]|[Hne H2]]%lookup_insert_Some & Hb); [by left|].
  right. split; [congruence|]. by exists c2.
Qed.

Lemma not_holder n s t c : channel_ok n s -> threads s !! t = Some c -> (forall p id ks, c <> RSet p id ks /\ c <> RUnlock p id ks) -> mapAccessMutex s <> Some t.
Proof. intros Hok Ht Hc Hm. destruct (ok_mutex _ _ Hok t Hm) as (p & id & ks & H). destruct (Hc p id ks). destruct H; congruence. Qed.

Lemma stands_same s s1 t c :
  channelID s1 = channelID s -> keySemaphoreMap s1 = keySemaphoreMap s -> semaphores s1 = semaphores s ->
  answers s1 = answers s -> mapAccessMutex s1 = mapAccessMutex s -> stands s t c -> stands s1 t c.
Proof. destruct s, s1. simpl. intros -> -> -> -> ->. by destruct c. Qed.

Lemma thread_walks n s s1 t c c' :
  channel_ok n s -> threads s !! t = Some c -> number c' = number c -> key_of c' = key_of c -> (forall p, bearing c' = Some p -> bearing c = Some p) ->
  stands s t c' -> mapAccessMutex s <> Some t ->
  channelRequestIDCounter s1 = channelRequestIDCounter s -> channelID s1 = channelID s -> threads s1 = threads s ->
  next_address s1 = next_address s -> response_handler s1 = response_handler s -> keySemaphoreMap s1 = keySemaphoreMap s ->
  semaphores s1 = semaphores s -> answers s1 = answers s -> mapAccessMutex s1 = mapAccessMutex s -> handled s1 = handled s ->
  channel_ok n (set_thread t c' s1).
Proof.
  intros Hok Ht Hn Hkey Hb Hst Hm E1 E2 E3 E4 E5 E6 E7 E8 E9 E10.
  assert (forall id ks b, sem_at s id ks b <-> sem_at s1 id ks b) as Hsa by (intros; unfold sem_at; by rewrite E6, E7).
  assert (forall p id, answer_to s p id <-> answer_to s1 p id) as Han by (intros; unfold answer_to; by rewrite E8).
  assert (forall pl p, bears (set_thread t c' s1) pl p -> bears s pl p) as Hbears.
  { intros pl p [[-> H]|[_ H]]%bears_set_thread; [exists c; auto|].
    destruct pl; simpl in *; [by rewrite <- E3|by rewrite <- E7|by rewrite <- E10]. }
  apply (thread_moves n s s1 t c c'); try done.
  - split; [done|left; by rewrite E6|left; by rewrite E7|left; by rewrite E8|by rewrite E9].
  - by apply (stands_same s s1).
  - by rewrite E4.
  - intros id o Hid. rewrite E6 in Hid. destruct (decide (key_of c = Some id)) as [Hk|Hk].
    + left. rewrite Hkey. split; [done|]. destruct (ok_keys _ _ Hok id o Hid) as (_ & _ & ks & b & _ & _ & -> & Hs). exists ks, b. by rewrite <- Hsa.
    + right. split_and!; [done|done|]. intros ks b Hs. exists b. by apply Hsa.
  - rewrite E6. apply (ok_inj _ _ Hok).
  - rewrite E9. intros t' Ht'. right. split; [congruence|done].
  - rewrite E6, E7. intros id ks k p H1 H2 H3. apply Han. by eapply (ok_sem _ _ Hok).
  - exists (InThread t), (InThread t). intros pl p. rewrite swap_same. auto.
  - rewrite E7, E4. apply (ok_fresh _ _ Hok).
Qed.

(** *** Steps that change one semaphore *)

(** The answer of the semaphore stays, or is exchanged with the one of the thread. *)
Definition passes (exchange : bool) (r r' o o' : option nat) : Prop :=
  (forall p, o' = Some p -> (if exchange then r else o) = Some p) /\ (forall p, r' = Some p -> (if exchange then o else r) = Some p).

Lemma bears_semaphore exchange t c c' ks k k' m s pl p :
  threads s !! t = Some c -> semaphores s !! ks = Some k ->
  passes exchange (bearing c) (bearing c') (objecForWait k) (objecForWait k') ->
  bears (set_thread t c' (set_mutex m (set_semaphores (<[ks := k']> (semaphores s)) s))) pl p ->
  bears s (swap (if exchange then InThread t else InSemaphore ks) (InSemaphore ks) pl) p.
Proof.
  intros Ht Hk [Ho Hr] [[-> H]|[Hne H]]%bears_set_thread.
  - apply Hr in H. unfold swap. destruct exchange; repeat case_decide; try done; [by exists k|by exists c].
  - destruct pl as [t2|ks2|i]; unfold swap.
    + destruct exchange; repeat case_decide; try done.
    + destruct H as (k2 & Hk2 & Hp). simpl in Hk2. apply lookup_insert_Some in Hk2 as [[<- <-]|[Hn2 H2]].
      * apply Ho in Hp. destruct exchange; repeat case_decide; try done; [by exists c|by exists k].
      * destruct exchange; repeat case_decide; try congruence; by exists k2.
    + destruct exchange; repeat case_decide; done.
Qed.

Lemma semaphore_changes exchange n s t c c' id ks k k' m :
  channel_ok n s -> threads s !! t = Some c -> number c' = number c -> key_of c' = key_of c ->
  keySemaphoreMap s !! id = Some (Some ks) -> semaphores s !! ks = Some k ->
  (inWait k' = inWait k \/ number c = Some id) ->
  let s1 := set_mutex m (set_semaphores (<[ks := k']> (semaphores s)) s) in
  stands s1 t c' ->
  (m = mapAccessMutex s /\ (mapAccessMutex s <> Some t \/ exists p, c' = RUnlock p id ks) \/ m = None /\ mapAccessMutex s = Some t) ->
  (forall p, objecForWait k' = Some p -> answer_to s p id) ->
  passes exchange (bearing c) (bearing c') (objecForWait k) (objecForWait k') ->
  channel_ok n (set_thread t c' s1).
Proof.
  intros Hok Ht Hn Hkey Hk Hks Hw s1 Hst Hm Ha Hpass.
  assert (forall id' ks' b, sem_at s id' ks' b -> exists b', sem_at s1 id' ks' b') as Hsa.
  { intros id' ks' b [H1 H2]. destruct (decide (ks' = ks)) as [->|Hne].
    - exists (inWait k'). split; [done|]. simpl. by rewrite lookup_insert_eq.
    - exists b. split; [done|]. simpl. by rewrite lookup_insert_ne. }
  apply (thread_moves n s s1 t c c'); try done.
  - split; try done; [by left| |by left|].
    + intros ks2 b Hb. destruct (decide (ks2 = ks)) as [->|Hne]; [|left; simpl; by rewrite lookup_insert_ne].
      simpl. rewrite lookup_insert_eq. rewrite Hks in Hb. injection Hb as <-. destruct Hw as [Hw|Hw]; [left; by rewrite <- Hw|].
      right. exists id. split_and!; [done|done|]. right. by exists (inWait k').
    + intros t' Hne Ht'. simpl. destruct Hm as [[-> _]|[_ H]]; congruence.
  - intros id' o Hid. destruct (decide (key_of c = Some id')) as [Hkc|Hkc]; [left|right; by eauto].
    rewrite Hkey. split; [done|]. destruct (ok_keys _ _ Hok id' o Hid) as (_ & _ & ks2 & b & _ & _ & -> & Hs).
    destruct (Hsa _ _ _ Hs) as [b' Hs']. by exists ks2, b'.
  - apply (ok_inj _ _ Hok).
  - intros t' Hm1. simpl in Hm1. destruct Hm as [[-> Hh]|[-> _]]; [|done]. destruct (decide (t' = t)) as [->|Hne]; [left|by right].
    split; [done|]. destruct Hh as [Hh|[p ->]]; [done|]. eauto.
  - intros id2 ks2 k2 p H1 H2 H3. simpl in H1, H2. apply lookup_insert_Some in H2 as [[<- <-]|[Hne H2]].
    + assert (id2 = id) as -> by (by eapply (ok_inj _ _ Hok)). by apply Ha.
    + by apply (ok_sem _ _ Hok id2 ks2 k2 p).
  - exists (if exchange then InThread t else InSemaphore ks), (InSemaphore ks). intros pl p. by apply bears_semaphore with c k.
  - intros ks2 [k2 H2]. simpl in H2. apply lookup_insert_Some in H2 as [[<- _]|[_ H2]]; apply (ok_fresh _ _ Hok); eauto.
Qed.

(** ** The steps *)

Definition good (n : nat) (m : moved W) : Prop := match m with Next s => channel_ok n s | Waits => True | Breaks => False end.

Lemma key_present n s id ks : channel_ok n s -> keySemaphoreMap s !! id = Some (Some ks) -> (ks < next_address s)%nat.
Proof.
  intros Hok (t & c & ks' & b & _ & _ & [= <-] & _ & Hb)%(ok_keys _ _ Hok). apply (ok_fresh _ _ Hok).
  destruct (semaphores s !! ks); [by eexists|done].
Qed.

Lemma key_step n s t id ms w :
  channel_ok n s -> threads s !! t = Some (QKey id ms w) -> good n (request_step host t (QKey id ms w) s).
Proof.
  intros Hok Ht. destruct (ok_threads _ _ Hok _ _ Ht) as [_ (Hms & Hpack & Hk)]. simpl. rewrite Hk.
  destruct (mapAccessMutex s) as [h|] eqn:Hm; [done|]. simpl. set (ks := next_address s).
  assert (semaphores s !! ks = None) as Hks.
  { destruct (semaphores s !! ks) eqn:H; [|done]. assert (ks < ks)%nat; [|lia]. apply (ok_fresh _ _ Hok). by eexists. }
  assert (forall id' o, keySemaphoreMap (insert_key id s) !! id' = Some o -> (id' = id /\ o = Some ks) \/ (id' <> id /\ keySemaphoreMap s !! id' = Some o)) as Hmap.
  { intros id' o H. simpl in H. apply lookup_insert_Some in H as [[<- <-]|[H1 H2]]; [by left|right; auto]. }
  assert (sem_at (insert_key id s) id ks false) as Hat by (split; simpl; by rewrite lookup_insert_eq).
  assert (forall ks' b, inWait <$> semaphores s !! ks' = Some b -> inWait <$> semaphores (insert_key id s) !! ks' = Some b) as Hflag.
  { intros ks' b H. simpl. fold ks. rewrite lookup_insert_ne; [done|]. intros <-. by rewrite Hks in H. }
  apply (thread_moves n s (insert_key id s) t (QKey id ms w)); try done.
  - split; try done; [|by left; apply Hflag|by left].
    intros id'. simpl. destruct (decide (id' = id)) as [->|Hne]; [by right|left]. by rewrite lookup_insert_ne.
  - simpl. split; [done|]. split; [done|]. by exists ks.
  - simpl. lia.
  - intros id' o [[-> ->]|[Hne H]]%Hmap; [left; split; [done|]; by exists ks, false|right]. split_and!; [done|done|].
    intros ks' b [H1 H2]. exists b. split; [|by apply Hflag]. simpl. by rewrite lookup_insert_ne.
  - intros id1 id2 ks' [[-> Hs1]|[Hn1 H1]]%Hmap [[-> Hs2]|[Hn2 H2]]%Hmap; [done| | |by eapply (ok_inj _ _ Hok)].
    + injection Hs1 as ->. pose proof (key_present n s id2 ks Hok H2). lia.
    + injection Hs2 as ->. pose proof (key_present n s id1 ks Hok H1). lia.
  - intros t' H. simpl in H. congruence.
  - intros id' ks' k p [[-> [= ->]]|[Hne H]]%Hmap Hk' Hp; simpl in Hk'; fold ks in Hk'.
    + rewrite lookup_insert_eq in Hk'. by injection Hk' as <-.
    + pose proof (key_present n s id' ks' Hok H). rewrite lookup_insert_ne in Hk' by lia. by apply (ok_sem _ _ Hok id' ks' k p).
  - exists (InThread t), (InThread t). intros pl p [[-> H]|[Hne H]]%bears_set_thread; rewrite swap_same; [done|].
    destruct pl as [|ks'|]; try done. destruct H as (k & H & Hp). simpl in H. apply lookup_insert_Some in H as [[_ <-]|[_ H]]; [done|]. by exists k.
  - intros ks' [k H]. simpl in *. apply lookup_insert_Some in H as [[<- _]|[_ H]]; [fold ks; lia|].
    assert (ks' < next_address s)%nat; [|lia]. apply (ok_fresh _ _ Hok). by eexists.
Qed.

Lemma submit_step n s t id ms w :
  channel_ok n s -> threads s !! t = Some (QSubmit id ms w) -> good n (request_step host t (QSubmit id ms w) s).
Proof.
  intros Hok Ht. destruct (ok_threads _ _ Hok _ _ Ht) as [_ ((d & Hd & Hf) & Hms)]. simpl.
  destruct (answer_pack_holds host id (channelID s) d w Hd Hf) as (w' & -> & _). simpl.
  apply (thread_walks n s _ t (QSubmit id ms w)); try done; try (by destruct ms).
  by apply (not_holder n s t _ Hok Ht).
Qed.

Lemma lookup_step n s t id ms :
  channel_ok n s -> threads s !! t = Some (QLookup id ms) -> good n (request_step host t (QLookup id ms) s).
Proof.
  intros Hok Ht. destruct (ok_threads _ _ Hok _ _ Ht) as [_ (Hms & ks & Hk)]. simpl. destruct (mapAccessMutex s); [done|].
  rewrite (proj1 Hk). simpl. apply (thread_walks n s _ t (QLookup id ms)); try done. by apply (not_holder n s t _ Hok Ht).
Qed.

Lemma sem_at_inv s id ks b : sem_at s id ks b -> exists k, semaphores s !! ks = Some k /\ inWait k = b.
Proof. intros [_ H]. destruct (semaphores s !! ks) as [k|]; [|done]. injection H as <-. by exists k. Qed.

Lemma sem_at_set s id ks k m : keySemaphoreMap s !! id = Some (Some ks) -> sem_at (set_mutex m (set_semaphores (<[ks := k]> (semaphores s)) s)) id ks (inWait k).
Proof. intros H. split; [done|]. simpl. by rewrite lookup_insert_eq. Qed.

(** Writing back the mutex changes nothing. *)
Lemma set_mutex_id s : set_mutex (mapAccessMutex s) s = s.
Proof. by destruct s. Qed.

Lemma enter_step n s t id ms ks :
  channel_ok n s -> threads s !! t = Some (QEnter id ms ks) -> good n (request_step host t (QEnter id ms ks) s).
Proof.
  intros Hok Ht. destruct (ok_threads _ _ Hok _ _ Ht) as [_ (Hms & Hat)]. destruct (sem_at_inv _ _ _ _ Hat) as (k & Hk & Hw).
  pose proof (not_holder n s t _ Hok Ht ltac:(done)) as Hm. destruct Hat as [Hid _]. simpl. rewrite Hk. unfold wait_enter. rewrite Hw.
  pose proof (sem_at_set s id ks (mkSem true false (objecForWait k)) (mapAccessMutex s) Hid) as Hat'.
  apply (semaphore_changes false n s t (QEnter id ms ks) (QBlocked id ms ks) id ks k _ (mapAccessMutex s)); try done; [by right|by left; auto|].
  intros p. by apply (ok_sem _ _ Hok id ks k).
Qed.

Lemma leave_step n s t id ms ks :
  channel_ok n s -> threads s !! t = Some (QBlocked id ms ks) -> good n (leave t id ms ks s).
Proof.
  intros Hok Ht. destruct (ok_threads _ _ Hok _ _ Ht) as [_ (Hms & Hat)]. destruct (sem_at_inv _ _ _ _ Hat) as (k & Hk & Hw).
  pose proof (not_holder n s t _ Hok Ht ltac:(done)) as Hm. destruct Hat as [Hid _]. unfold leave. rewrite Hk. simpl.
  apply (semaphore_changes true n s t (QBlocked id ms ks) (QErase id ms ks (objecForWait k)) id ks k (mkSem false false None) (mapAccessMutex s)); try done; [by right| |by left; auto].
  split_and!; [done|by apply sem_at_set|]. intros p Hp. by apply (ok_sem _ _ Hok id ks k).
Qed.

Lemma blocked_step n s t id ms ks :
  channel_ok n s -> threads s !! t = Some (QBlocked id ms ks) -> good n (request_step host t (QBlocked id ms ks) s).
Proof.
  intros Hok Ht. pose proof (leave_step n s t id ms ks Hok Ht) as Hl. destruct (ok_threads _ _ Hok _ _ Ht) as [_ (_ & Hat)].
  destruct (sem_at_inv _ _ _ _ Hat) as (k & Hk & _). simpl. rewrite Hk. by destruct (answered k).
Qed.

(** The semaphore of a request that has stopped waiting is deleted, with an answer nobody
    took. *)
Lemma erase_step n s t id ms ks r :
  channel_ok n s -> threads s !! t = Some (QErase id ms ks r) -> good n (request_step host t (QErase id ms ks r) s).
Proof.
  intros Hok Ht. destruct (ok_threads _ _ Hok _ _ Ht) as [_ (Hms & Hat & Hr)]. destruct (sem_at_inv _ _ _ _ Hat) as (k & Hk & _).
  destruct Hat as [Hid _]. destruct ms as [|ms]; [done|]. simpl. destruct (mapAccessMutex s) eqn:Hm; [done|]. rewrite Hid.
  unfold delete_semaphore. simpl. rewrite Hk.
  set (s1 := set_semaphores (delete ks (semaphores s)) (set_keys (delete id (keySemaphoreMap s)) s)).
  set (a := match objecForWait k with Some p => delete p (answers s) | None => answers s end).
  assert (forall p, answers (set_answers a s1) !! p = answers s !! p \/ objecForWait k = Some p) as Hans.
  { intros p. simpl. unfold a. destruct (objecForWait k) as [q|]; [|by left]. destruct (decide (q = p)) as [->|Hne]; [by right|left].
    by rewrite lookup_delete_ne. }
  assert (forall id' ks', keySemaphoreMap s1 !! id' = Some (Some ks') -> id' <> id /\ ks' <> ks /\ keySemaphoreMap s !! id' = Some (Some ks')) as Hmap.
  { intros id' ks' H. simpl in H. apply lookup_delete_Some in H as [H1 H2]. split_and!; [done| |done]. intros ->. destruct H1. by eapply (ok_inj _ _ Hok). }
  assert (channel_ok n (set_thread t (QDone id r) (set_answers a s1))) as Hgoal.
  { apply (thread_moves n s _ t (QErase id (For ms) ks r)); try done.
    - split; try done.
      + intros id'. destruct (decide (id' = id)) as [->|Hne]; [by right|left]. simpl. by rewrite lookup_delete_ne.
      + intros ks' b Hb. destruct (decide (ks' = ks)) as [->|Hne]; [right; exists id; by auto|left]. simpl. by rewrite lookup_delete_ne.
      + intros p. destruct (Hans p) as [H|H]; [by left|right]. exists (InSemaphore ks). split; [by exists k|done].
    - intros p ->. apply (answer_to_same s); [|by apply Hr]. destruct (Hans p) as [|H]; [done|].
      assert (InThread t = InSemaphore ks); [|done]. apply (ok_place _ _ Hok _ _ p); [by eexists|by exists k].
    - intros id' o H. simpl in H. apply lookup_delete_Some in H as [H1 H2]. right. split_and!; [simpl; congruence|done|].
      intros ks' b [H3 H4]. exists b. assert (keySemaphoreMap s1 !! id' = Some (Some ks')) as H5 by (simpl; by rewrite lookup_delete_ne).
      destruct (Hmap _ _ H5) as (_ & Hne & _). split; [done|]. simpl. by rewrite lookup_delete_ne.
    - intros id1 id2 ks' (_ & _ & H1)%Hmap (_ & _ & H2)%Hmap. by eapply (ok_inj _ _ Hok).
    - intros t' H. simpl in H. congruence.
    - intros id' ks' k' p (_ & Hne & H1)%Hmap H2 Hp. simpl in H2. rewrite lookup_delete_ne in H2 by done.
      apply (answer_to_same s); [|by apply (ok_sem _ _ Hok id' ks' k' p)]. destruct (Hans p) as [|H]; [done|]. destruct Hne.
      assert (InSemaphore ks' = InSemaphore ks) as E; [|congruence]. apply (ok_place _ _ Hok _ _ p); [by exists k'|by exists k].
    - exists (InThread t), (InThread t). intros pl p [[-> H]|[Hne H]]%bears_set_thread; rewrite swap_same; [by eexists|].
      destruct pl as [|ks'|]; try done. destruct H as (k' & H & Hp). simpl in H. apply lookup_delete_Some in H as [_ H]. by exists k'.
    - intros ks' [k' H]. simpl in H. apply lookup_delete_Some in H as [_ H]. apply (ok_fresh _ _ Hok). by eexists. }
  revert Hgoal. unfold a. destruct (objecForWait k) as [p|] eqn:Hp; [|by intros H].
  destruct (ok_sem _ _ Hok id ks k p Hid Hk Hp) as (w & _ & Hw & _). simpl. by rewrite Hw.
Qed.

(** *** Answers *)

Lemma start_step n s t p :
  channel_ok n s -> threads s !! t = Some (RStart p) -> good n (response_step t (RStart p) s).
Proof.
  intros Hok Ht. destruct (ok_threads _ _ Hok _ _ Ht) as [_ (id & w & d & Hw & Hd & Hf & Hid)]. simpl. rewrite Hw.
  assert (forall w' c', c_holds d w' -> number c' = None -> key_of c' = None -> bearing c' = Some p ->
    stands (set_answers (<[p := w']> (answers s)) s) t c' -> channel_ok n (set_thread t c' (set_answers (<[p := w']> (answers s)) s))) as Hgo.
  { intros w' c' Hd' Hn Hk Hb Hst. set (s1 := set_answers _ s) in *.
    assert (forall q, q <> p -> answers s1 !! q = answers s !! q) as Hq by (intros; simpl; by rewrite lookup_insert_ne).
    assert (bears s (InThread t) p) as Hme by (by eexists).
    apply (thread_moves n s s1 t (RStart p)); try done.
    - split; try done; [by left|by left|]. intros q. destruct (decide (q = p)) as [->|Hne]; [right|left; auto].
      exists (InThread t). split; [done|]. by intros t' [= ->].
    - intros id' o H. right. split_and!; [done|done|]. intros ks b Hs. by exists b.
    - apply (ok_inj _ _ Hok).
    - intros t' H. right. split; [|done]. intros ->. by apply (not_holder n s t _ Hok Ht).
    - intros id' ks k q H1 H2 H3. apply (answer_to_same s); [apply Hq|by apply (ok_sem _ _ Hok id' ks k q)]. intros ->.
      assert (InSemaphore ks = InThread t); [|done]. apply (ok_place _ _ Hok _ _ p); [by exists k|done].
    - exists (InThread t), (InThread t). intros pl q [[-> H]|[Hne H]]%bears_set_thread; rewrite swap_same; [|by destruct pl].
      by replace q with p by congruence.
    - apply (ok_fresh _ _ Hok). }
  destruct (hasKey_law CS_CMDM_MESSAGE_ID d w Hd Hf) as (w1 & Hw1 & ->). cbn [mbind outcome_bind mret outcome_ret].
  destruct (has_field CS_CMDM_MESSAGE_ID d); [|by apply Hgo].
  destruct (getInt32Value_law CS_CMDM_MESSAGE_ID d w1 Hw1 Hf) as (w2 & Hw2 & ->). rewrite Hid. cbn [mbind outcome_bind mret outcome_ret].
  apply Hgo; try done. exists w2, d. split_and!; try done. simpl. by rewrite lookup_insert_eq.
Qed.

Lemma rlookup_step n s t p id :
  channel_ok n s -> threads s !! t = Some (RLookup p id) -> good n (response_step t (RLookup p id) s).
Proof.
  intros Hok Ht. destruct (ok_threads _ _ Hok _ _ Ht) as [_ Ha]. simpl. destruct (mapAccessMutex s) eqn:Hm; [done|].
  pose proof (not_holder n s t _ Hok Ht ltac:(done)) as Hnm.
  destruct (keySemaphoreMap s !! id) as [[ks|]|] eqn:Hk; try by apply (thread_walks n s s t (RLookup p id)).
  destruct (ok_keys _ _ Hok _ _ Hk) as (_ & _ & ks' & b & _ & _ & [= <-] & Hat).
  apply (thread_moves n s _ t (RLookup p id)); try done.
  - split; try done; [by left|by left|by left|congruence].
  - split_and!; [done|done|by exists b].
  - intros id' o H. right. split_and!; [done|done|]. intros ks' b' Hs. by exists b'.
  - apply (ok_inj _ _ Hok).
  - intros t' [= <-]. left. split; [done|]. exists p, id, ks. by left.
  - apply (ok_sem _ _ Hok).
  - exists (InThread t), (InThread t). intros pl q [[-> H]|[Hne H]]%bears_set_thread; rewrite swap_same; [by eexists|by destruct pl].
  - apply (ok_fresh _ _ Hok).
Qed.

Lemma rset_step n s t p id ks :
  channel_ok n s -> threads s !! t = Some (RSet p id ks) -> good n (response_step t (RSet p id ks) s).
Proof.
  intros Hok Ht. destruct (ok_threads _ _ Hok _ _ Ht) as [_ (Hm & Ha & b & Hat)]. destruct (sem_at_inv _ _ _ _ Hat) as (k & Hk & _).
  destruct Hat as [Hid _]. simpl. rewrite Hk.
  apply (semaphore_changes true n s t (RSet p id ks) (RUnlock p id ks) id ks k (setWaithedObject p k) (mapAccessMutex s)); try done.
  - by left.
  - split; [done|]. eexists. by apply sem_at_set.
  - left. split; [done|right]. by exists p.
  - by intros q [= <-].
Qed.

Lemma runlock_step n s t p id ks :
  channel_ok n s -> threads s !! t = Some (RUnlock p id ks) -> good n (response_step t (RUnlock p id ks) s).
Proof.
  intros Hok Ht. destruct (ok_threads _ _ Hok _ _ Ht) as [_ (Hm & b & Hat)]. destruct (sem_at_inv _ _ _ _ Hat) as (k & Hk & _).
  destruct Hat as [Hid _]. simpl. rewrite Hk.
  apply (semaphore_changes false n s t (RUnlock p id ks) (RDone p true) id ks k (unlock k) None); try done; [by left|by right|].
  intros q. by apply (ok_sem _ _ Hok id ks k).
Qed.

Lemma rhandler_step n s t p id :
  channel_ok n s -> threads s !! t = Some (RHandler p id) -> good n (response_step t (RHandler p id) s).
Proof.
  intros Hok Ht. destruct (ok_threads _ _ Hok _ _ Ht) as [_ Ha]. pose proof (not_holder n s t _ Hok Ht ltac:(done)) as Hm. simpl.
  destruct (response_handler s) eqn:Hh; [by apply (ok_handler _ _ Hok)|by apply (thread_walks n s s t (RHandler p id))|].
  apply (thread_moves n s _ t (RHandler p id)); try done.
  - split; try done; by left.
  - intros id' o H. right. split_and!; [done|done|]. intros ks' b' Hs. by exists b'.
  - apply (ok_inj _ _ Hok).
  - intros t' H. right. split; [|done]. intros ->. done.
  - apply (ok_sem _ _ Hok).
  - exists (InThread t), (WithHandler (length (handled s))). intros pl q [[-> H]|[Hne H]]%bears_set_thread; [done|].
    unfold swap. destruct pl as [t'|ks|i]; repeat case_decide; try done.
    + simplify_eq. destruct H as [id' H]. simpl in H. rewrite lookup_app_r, Nat.sub_diag in H by done. injection H as -> ->. by eexists.
    + destruct H as [id' H]. simpl in H. exists id'. apply lookup_app_Some in H as [H|[Hi1 Hi2]]; [done|].
      apply list_lookup_singleton_Some in Hi2 as [Hi2 _]. assert (i = length (handled s)) as -> by lia. done.
  - apply (ok_fresh _ _ Hok).
Qed.

Lemma move_ok n s t : channel_ok n s -> good n (exec host (EMove t) s).
Proof.
  intros Hok. simpl. destruct (threads s !! t) as [c|] eqn:Ht; [|done].
  assert (good n (request_step host t c s)) as Hq.
  { destruct c; try done; eauto using key_step, submit_step, lookup_step, enter_step, blocked_step, erase_step. }
  assert (good n (response_step t c s)) as Hr.
  { destruct c; try done; eauto using start_step, rlookup_step, rset_step, runlock_step, rhandler_step. }
  by destruct (request_step host t c s).
Qed.

Lemma timeout_ok n s t : channel_ok n s -> good n (exec host (ETimeout t) s).
Proof.
  intros Hok. simpl. destruct (threads s !! t) as [c|] eqn:Ht; [|done]. destruct c as [| | | |id ms ks| | | | | | | | | |]; try done.
  destruct ms; [done|]. by apply leave_step.
Qed.

(** *** New threads *)

Lemma s32_inj a b : (0 <= a < 2 ^ 32) -> (0 <= b < 2 ^ 32) -> s32 a = s32 b -> a = b.
Proof.
  intros Ha Hb E. apply (f_equal (uwrap 32)) in E. rewrite !uwrap_swrap in E by lia. by rewrite !uwrap_small in E.
Qed.

Lemma s32_succ a : s32 (s32 a + 1) = s32 (a + 1).
Proof.
  rewrite <- (swrap_uwrap 32 (s32 a + 1)), <- (swrap_uwrap 32 (a + 1)) by lia. f_equal.
  pose proof (uwrap_swrap 32 a ltac:(lia)) as E. unfold uwrap in *. by rewrite <- (Zplus_mod_idemp_l (s32 a)), E, Zplus_mod_idemp_l.
Qed.

Lemma spawned n n' s s0 c :
  channel_ok n s -> channelRequestIDCounter s0 = s32 (Z.of_nat n') -> (n <= n')%nat ->
  channelID s0 = channelID s -> threads s0 = threads s -> (next_address s <= next_address s0)%nat ->
  response_handler s0 = response_handler s -> keySemaphoreMap s0 = keySemaphoreMap s -> semaphores s0 = semaphores s ->
  mapAccessMutex s0 = mapAccessMutex s -> handled s0 = handled s ->
  (forall p, (p < next_address s)%nat -> answers s0 !! p = answers s !! p) ->
  (forall id, number c = Some id -> id = s32 (Z.of_nat n) /\ (n < n')%nat /\ Z.of_nat n' <= 2 ^ 32) ->
  (forall p, bearing c = Some p -> (next_address s <= p < next_address s0)%nat) -> stands s0 (next_address s0) c ->
  channel_ok n' (spawn c s0).
Proof.
  intros Hok Hc Hnn E1 E2 Hnx E3 E4 E5 E6 E7 Ha Hnum Hb Hst. unfold spawn. set (t := next_address s0).
  assert (forall p id, (exists pl, bears s pl p) -> answer_to s p id -> answer_to s0 p id) as Hans.
  { intros p id [pl Hp]. apply answer_to_same, Ha. by apply (ok_borne _ _ Hok pl). }
  assert (forall id ks b, sem_at s id ks b <-> sem_at s0 id ks b) as Hsa by (intros; unfold sem_at; by rewrite E4, E5).
  assert (forall t2 c2, threads (spawn c s0) !! t2 = Some c2 -> (t2 = t /\ c2 = c) \/ (t2 <> t /\ threads s !! t2 = Some c2)) as Hlook.
  { intros t2 c2. simpl. rewrite E2. intros [[<- <-]|[H H']]%lookup_insert_Some; auto. }
  assert (forall t2 c2, threads s !! t2 = Some c2 -> t2 <> t) as Hold.
  { intros t2 c2 H ->. pose proof (proj1 (ok_threads _ _ Hok _ _ H)). lia. }
  assert (forall t2 c2 id, threads s !! t2 = Some c2 -> number c2 = Some id -> number c <> Some id) as Hdiff.
  { intros t2 c2 id H2 Hid Hid'. destruct (Hnum id Hid') as (-> & Hlt & Hle). destruct (ok_numbers _ _ Hok _ _ _ H2 Hid) as (k & Hk & E).
    apply s32_inj in E; lia. }
  assert (forall pl p, bears (spawn c s0) pl p -> (pl = InThread t /\ bearing c = Some p) \/ (bears s pl p /\ (p < next_address s)%nat)) as Hbears.
  { intros pl p H. apply bears_set_thread in H as [H|[Hne H]]; [by left|right].
    assert (bears s pl p) as Hp; [|split; [done|by apply (ok_borne _ _ Hok pl)]].
    destruct pl; simpl in *; [by rewrite <- E2|by rewrite <- E5|by rewrite <- E7]. }
  split; simpl; try done.
  - intros t2 c2 id [[-> ->]|[_ H2]]%Hlook Hid.
    + destruct (Hnum id Hid) as (-> & Hlt & _). by exists n.
    + destruct (ok_numbers _ _ Hok _ _ _ H2 Hid) as (k & Hk & ->). exists k. split; [lia|done].
  - intros t2 t3 c2 c3 id [[-> ->]|[_ H2]]%Hlook [[-> ->]|[_ H3]]%Hlook Hid Hid'; [done| | |by eapply (ok_distinct _ _ Hok)].
    + by destruct (Hdiff t3 c3 id H3 Hid').
    + by destruct (Hdiff t2 c2 id H2 Hid).
  - intros t2 c2 [[-> ->]|[Hne H2]]%Hlook; [split; [fold t; lia|]; exact Hst|].
    destruct (ok_threads _ _ Hok _ _ H2) as [Hlt Hs2]. split; [lia|].
    assert (forall p id, bearing c2 = Some p -> answer_to s p id -> answer_to s0 p id) as Ht2.
    { intros p id Hp. apply Hans. by exists (InThread t2), c2. }
    change (stands s0 t2 c2). destruct c2; simpl in *; unfold packable in *; rewrite ?E1, ?E4, ?E6; try done; try (by setoid_rewrite <- Hsa); try (by eauto).
    + destruct Hs2 as [? Hs2]. split; [done|]. destruct ms; [|done]. by setoid_rewrite <- Hsa.
    + destruct Hs2 as (? & ? & ?). rewrite <- Hsa. split_and!; eauto.
    + destruct Hs2 as [id Hs2]. eauto.
    + destruct Hs2 as (? & ? & b & ?). split_and!; eauto. exists b. by rewrite <- Hsa.
  - rewrite E4. intros id o (t2 & c2 & ks & b & H2 & Hk & -> & Hs)%(ok_keys _ _ Hok). exists t2, c2, ks, b.
    rewrite E2, lookup_insert_ne by (apply not_eq_sym; eauto). split_and!; [done|done|done|]. by apply Hsa.
  - rewrite E4. apply (ok_inj _ _ Hok).
  - rewrite E6, E2. intros t2 (p & id & ks & H)%(ok_mutex _ _ Hok). exists p, id, ks.
    rewrite lookup_insert_ne; [done|]. apply not_eq_sym. destruct H; eauto.
  - rewrite E4, E5. intros id ks k p H1 H2 H3. apply Hans; [by exists (InSemaphore ks), k|]. by apply (ok_sem _ _ Hok id ks k).
  - intros pl pl' p [[-> H]|[H Hlt]]%Hbears [[-> H']|[H' Hlt']]%Hbears; [done| | |by eapply (ok_place _ _ Hok)].
    + apply Hb in H. lia.
    + apply Hb in H'. lia.
  - intros pl p [[-> H]|[H Hlt]]%Hbears; [apply Hb in H|]; lia.
  - rewrite E5. intros ks H%(ok_fresh _ _ Hok). lia.
  - rewrite E3. apply (ok_handler _ _ Hok).
Qed.

Lemma request_ok n s na a o ms async m :
  channel_ok n s -> (async = false -> ms <> 0) -> opt_holds m o -> Z.of_nat n + 1 <= 2 ^ 32 ->
  fits (request_doc host (channelRequestIDCounter s) (channelID s) na a m) -> good (n + 1) (sendRequest na a o ms async s).
Proof.
  intros Hok Hms Hm Hn Hf. pose proof (fits_before_answer _ _ _ _ Hf) as Hf1. pose proof (fits_before_action _ _ _ Hf1) as Hf2.
  unfold sendRequest. destruct (data_pack_holds m o Hm Hf2) as (w1 & -> & Hw1). destruct (add_action_holds na a _ w1 Hw1 Hf1) as (w2 & -> & Hw2).
  rewrite (ok_count _ _ Hok) in *. set (c := if async then _ else _).
  apply (spawned n (n + 1) s _ c); try done; try lia.
  - simpl. rewrite s32_succ. f_equal. lia.
  - intros id. unfold c. destruct async; intros [= <-]; split_and!; try done; lia.
  - unfold c. by destruct async.
  - unfold c. destruct async.
    + split; [|done]. by eexists.
    + split_and!; [destruct (Z.eqb_spec ms 0) as [->|]; [by destruct (Hms eq_refl)|done]|by eexists|]. simpl.
      destruct (keySemaphoreMap s !! s32 (Z.of_nat n)) as [o'|] eqn:Hk; [|done].
      destruct (ok_keys _ _ Hok _ _ Hk) as (t2 & c2 & ks & b & H2 & Hk2 & _). 
      assert (number c2 = Some (s32 (Z.of_nat n))) as Hn2 by (destruct c2 as [|? []| | | | | | | | | | | | |]; by simplify_eq/=).
      destruct (ok_numbers _ _ Hok _ _ _ H2 Hn2) as (k & Hlt & E). apply s32_inj in E; lia.
Qed.

Lemma event_ok n s e :
  channel_ok n s -> fair s e -> Z.of_nat (n + requests_in e) <= 2 ^ 32 -> good (n + requests_in e) (exec host e s).
Proof.
  intros Hok Hfair Hn. destruct e as [na a o|na a o ms async|id ms|w| | |t|t]; simpl in Hn; cbn [requests_in]; rewrite ?Nat.add_0_r in *.
  - destruct Hfair as (m & Hm & Hf). simpl. unfold sendMessage. destruct (message_pack_holds na a m o Hm Hf) as (w & -> & _).
    by destruct Hok.
  - destruct Hfair as (Hms & m & Hm & Hf). apply (request_ok n s na a o ms async m); try done. lia.
  - done.
  - destruct Hfair as (d & id & Hd & Hf & Hid). simpl.
    apply (spawned n n s); try done; try (simpl; lia).
    + apply (ok_count _ _ Hok).
    + intros p Hp. simpl. rewrite lookup_insert_ne by lia. done.
    + intros p [= <-]. simpl. lia.
    + exists id, w, d. split_and!; try done. simpl. by rewrite lookup_insert_eq.
  - simpl. unfold setHandler. case_decide; [|done]. by destruct Hok.
  - simpl. unfold setHandler. case_decide; [|done]. by destruct Hok.
  - by apply move_ok.
  - by apply timeout_ok.
Qed.

Lemma reach_from k s0 n s : channel_ok k s0 -> reach s0 n s -> Z.of_nat (k + n) <= 2 ^ 32 -> channel_ok (k + n) s.
Proof.
  intros H0. induction 1 as [|n s e s' Hr IH Hfair E]; intros Hn; [by rewrite Nat.add_0_r|].
  rewrite Nat.add_assoc in *. pose proof (event_ok (k + n) s e (IH ltac:(lia)) Hfair Hn) as Hg. by rewrite E in Hg.
Qed.

Lemma reach_ok address uuid n s : reach (fresh_channel address uuid) n s -> Z.of_nat n <= 2 ^ 32 -> channel_ok n s.
Proof. intros Hr Hn. apply (reach_from 0 _ n s (fresh_ok address uuid) Hr Hn). Qed.

(** ** Every request comes back *)

(** The steps that are left to a request. *)
Definition pending c : option nat :=
  match c with
  | QKey _ _ _ => Some 6%nat | QSubmit _ (Some _) _ => Some 5%nat | QLookup _ _ => Some 4%nat | QEnter _ _ _ => Some 3%nat
  | QBlocked _ _ _ => Some 2%nat | QErase _ _ _ _ | QSubmit _ None _ => Some 1%nat | QDone _ _ => Some 0%nat
  | _ => None
  end.

(** The event that moves it. *)
Definition turn t c : event (W := W) := match c with QBlocked _ _ _ => ETimeout t | _ => EMove t end.

Ltac advances :=
  eexists _, _; split_and!; [reflexivity|done|apply lookup_insert_eq| |];
  try match goal with ms : option waiting |- _ => destruct ms end; by simplify_eq/=.

Lemma request_moves n s t c r :
  channel_ok n s -> mapAccessMutex s = None -> threads s !! t = Some c -> pending c = Some (S r) ->
  exists s' c', exec host (turn t c) s = Next s' /\ mapAccessMutex s' = None /\ threads s' !! t = Some c' /\
    pending c' = Some r /\ number c' = number c.
Proof.
  intros Hok Hm Ht Hp. destruct (ok_threads _ _ Hok _ _ Ht) as [_ Hst].
  destruct c as [id ms w|id ms w|id ms|id ms ks|id ms ks|id ms ks r'|id r'|id| | | | | | |]; try done; simpl in Hst.
  - destruct Hst as (_ & _ & Hk). simpl. rewrite Ht. simpl. rewrite Hk, Hm. advances.
  - destruct Hst as ((d & Hd & Hf) & _). simpl. rewrite Ht. simpl. destruct (answer_pack_holds host id (channelID s) d w Hd Hf) as (w' & -> & _).
    advances.
  - destruct Hst as (_ & ks & Hk & _). simpl. rewrite Ht. simpl. rewrite Hm, Hk. advances.
  - destruct Hst as (_ & Hat). destruct (sem_at_inv _ _ _ _ Hat) as (k & Hk & Hw). simpl. rewrite Ht. simpl. rewrite Hk. unfold wait_enter. rewrite Hw.
    advances.
  - destruct Hst as (Hms & Hat). destruct (sem_at_inv _ _ _ _ Hat) as (k & Hk & Hw). destruct ms as [|ms]; [done|]. simpl. rewrite Ht. simpl.
    unfold leave. rewrite Hk. advances.
  - destruct Hst as (Hms & Hat & _). destruct (sem_at_inv _ _ _ _ Hat) as (k & Hk & _). destruct ms as [|ms]; [done|]. simpl. rewrite Ht. simpl.
    rewrite Hm, (proj1 Hat). unfold delete_semaphore. simpl. rewrite Hk. destruct (objecForWait k) as [p|] eqn:Hp'.
    + destruct (ok_sem _ _ Hok id ks k p (proj1 Hat) Hk Hp') as (w & _ & Hw & _). simpl. rewrite Hw. simpl.
      advances.
    + advances.
Qed.

Lemma run_then es es' s s' : run host es s = Some s' -> run host (es ++ es') s = run host es' s'.
Proof. revert s. induction es as [|e es IH]; intros s; simpl; [by intros [= ->]|]. destruct (exec host e s); eauto. done. Qed.

Lemma fair_turn s t c : fair s (turn t c).
Proof. by destruct c. Qed.
Lemma no_request_turn t c : requests_in (turn t c) = 0%nat.
Proof. by destruct c. Qed.

Lemma request_finishes r : forall n s t c, Z.of_nat n <= 2 ^ 32 ->
  channel_ok n s -> mapAccessMutex s = None -> threads s !! t = Some c -> pending c = Some r ->
  exists es s' id o, length es = r /\ Forall (fun e => e = EMove t \/ e = ETimeout t) es /\ run host es s = Some s' /\
    number c = Some id /\ threads s' !! t = Some (QDone id o).
Proof.
  induction r as [|r IH]; intros n s t c Hn Hok Hm Ht Hp.
  - destruct c as [|? []| | | | |id r| | | | | | | |]; try done. exists [], s, id, r. by split_and!.
  - destruct (request_moves n s t c r Hok Hm Ht Hp) as (s1 & c1 & E & Hm1 & Ht1 & Hp1 & Hnum).
    pose proof (event_ok n s (turn t c) Hok (fair_turn s t c)) as Hg. rewrite no_request_turn, Nat.add_0_r, E in Hg. specialize (Hg Hn).
    destruct (IH n s1 t c1 Hn Hg Hm1 Ht1 Hp1) as (es & s' & id & o & Hl & Hes & Hrun & Hid & Hd).
    exists (turn t c :: es), s', id, o. simpl. rewrite E. split_and!; [by f_equal| |done|congruence|done].
    constructor; [destruct c; auto|done].
Qed.

(** The answer that holds the mutex releases it. *)
Lemma mutex_released n s h : Z.of_nat n <= 2 ^ 32 -> channel_ok n s -> mapAccessMutex s = Some h ->
  exists es s', (length es <= 2)%nat /\ Forall (fun e => e = EMove h) es /\ run host es s = Some s' /\ channel_ok n s' /\
    mapAccessMutex s' = None /\ forall t, t <> h -> threads s' !! t = threads s !! t.
Proof.
  assert (forall s, channel_ok n s -> mapAccessMutex s = Some h -> (exists p id ks, threads s !! h = Some (RUnlock p id ks)) ->
    exists s', exec host (EMove h) s = Next s' /\ channel_ok n s' /\ mapAccessMutex s' = None /\ forall t, t <> h -> threads s' !! t = threads s !! t) as Hun.
  { intros s1 Hok Hm (p & id & ks & Ht). pose proof (move_ok n s1 h Hok) as Hg. destruct (ok_threads _ _ Hok _ _ Ht) as [_ (_ & b & Hat)].
    destruct (sem_at_inv _ _ _ _ Hat) as (k & Hk & _). simpl in *. rewrite Ht in *. simpl in *. rewrite Hk in *.
    eexists. split_and!; [done|done|done|]. intros t Hne. simpl. by rewrite lookup_insert_ne. }
  intros Hn Hok Hm. destruct (ok_mutex _ _ Hok h Hm) as (p & id & ks & [Ht|Ht]).
  - pose proof (move_ok n s h Hok) as Hg. destruct (ok_threads _ _ Hok _ _ Ht) as [_ (_ & _ & b & Hat)].
    destruct (sem_at_inv _ _ _ _ Hat) as (k & Hk & _). simpl in Hg. rewrite Ht in Hg. simpl in Hg. rewrite Hk in Hg. set (s1 := set_thread _ _ _) in Hg.
    assert (exec host (EMove h) s = Next s1) as E1 by (simpl; rewrite Ht; simpl; by rewrite Hk).
    destruct (Hun s1 Hg Hm) as (s' & E & Hok' & Hm' & Hth).
    { exists p, id, ks. simpl. by rewrite lookup_insert_eq. }
    exists [EMove h; EMove h], s'. cbn [run]. rewrite E1, E. split_and!; [done|by repeat constructor|done|done|done|].
    intros t Hne. rewrite Hth by done. simpl. by rewrite lookup_insert_ne.
  - destruct (Hun s Hok Hm) as (s' & E & Hok' & Hm' & Hth); [eauto|].
    exists [EMove h], s'. cbn [run]. rewrite E. split_and!; [simpl; lia|by repeat constructor|done|done|done|done].
Qed.

(** ** Answers that arrived are not lost *)

(** The request of [t] has its answer: in its semaphore while it waits, then in its hands. *)
Definition has_answer s t : Prop :=
  (exists c id ks k p, threads s !! t = Some c /\ key_of c = Some id /\ bearing c = None /\ (forall i m x r, c <> QErase i m x r) /\
     keySemaphoreMap s !! id = Some (Some ks) /\ semaphores s !! ks = Some k /\ objecForWait k = Some p) \/
  (exists id ms ks p, threads s !! t = Some (QErase id ms ks (Some p))) \/
  (exists id p, threads s !! t = Some (QDone id (Some p))).

(** The steps of other threads: their semaphores are others, or get an answer. *)
Definition spares s s' t : Prop :=
  threads s' !! t = threads s !! t /\
  forall c id ks k p, threads s !! t = Some c -> key_of c = Some id -> keySemaphoreMap s !! id = Some (Some ks) ->
    semaphores s !! ks = Some k -> objecForWait k = Some p ->
    keySemaphoreMap s' !! id = Some (Some ks) /\ exists k' p', semaphores s' !! ks = Some k' /\ objecForWait k' = Some p'.

Lemma spares_has s s' t : spares s s' t -> has_answer s t -> has_answer s' t.
Proof.
  intros [Ht Hs] [(c & id & ks & k & p & H1 & H2 & H3 & H4 & H5 & H6 & H7)|[H|H]].
  - left. destruct (Hs c id ks k p) as [Hk (k' & p' & Hk' & Hp')]; try done. exists c, id, ks, k', p'. by rewrite Ht.
  - right; left. by rewrite Ht.
  - right; right. by rewrite Ht.
Qed.

Lemma key_number c id : key_of c = Some id -> number c = Some id.
Proof. destruct c as [|? []| | | | | | | | | | | | |]; by intros [=->]. Qed.

(** A step that changes no key and no semaphore. *)
Lemma spares_quiet s s' t :
  threads s' !! t = threads s !! t -> keySemaphoreMap s' = keySemaphoreMap s -> semaphores s' = semaphores s -> spares s s' t.
Proof. intros Ht Hk Hs. split; [done|]. intros c id ks k p _ _ H1 H2 H3. rewrite Hk, Hs. eauto. Qed.

(** A step that changes the semaphore [ks2] and keeps or sets its answer. *)
Lemma spares_semaphore s s' t ks2 k2 k2' :
  threads s' !! t = threads s !! t -> keySemaphoreMap s' = keySemaphoreMap s -> semaphores s !! ks2 = Some k2 ->
  semaphores s' = <[ks2 := k2']> (semaphores s) -> (is_Some (objecForWait k2) -> is_Some (objecForWait k2')) -> spares s s' t.
Proof.
  intros Ht Hk Hk2 Hs Ho. split; [done|]. intros c id ks k p _ _ H1 H2 H3. rewrite Hk, Hs. split; [done|].
  destruct (decide (ks = ks2)) as [->|Hne]; [|rewrite lookup_insert_ne by done; eauto]. rewrite lookup_insert_eq. simplify_eq.
  destruct Ho as [p' Hp']; [by eexists|]. eauto.
Qed.

(** Another request touches the entry and the semaphore of its own key. *)
Lemma own_entry n s t t2 c2 id2 ks2 c id ks :
  channel_ok n s -> t2 <> t -> threads s !! t2 = Some c2 -> number c2 = Some id2 -> keySemaphoreMap s !! id2 = Some (Some ks2) ->
  threads s !! t = Some c -> key_of c = Some id -> keySemaphoreMap s !! id = Some (Some ks) -> id <> id2 /\ ks <> ks2.
Proof.
  intros Hok Hne H2 Hn2 Hk2 Ht Hc%key_number Hk. assert (id <> id2) as Hid.
  { intros ->. destruct Hne. by eapply (ok_distinct _ _ Hok). }
  split; [done|]. intros ->. destruct Hid. by eapply (ok_inj _ _ Hok).
Qed.

Lemma leave_spares n s s' t t2 id ms ks :
  channel_ok n s -> t2 <> t -> threads s !! t2 = Some (QBlocked id ms ks) -> leave t2 id ms ks s = Next s' -> spares s s' t.
Proof.
  intros Hok Hne H2 E. destruct (ok_threads _ _ Hok _ _ H2) as [_ (_ & Hat)]. unfold leave in E.
  destruct (semaphores s !! ks) as [k2|] eqn:Hk2; [|done]. injection E as <-. split; [simpl; by rewrite lookup_insert_ne|].
  intros c id' ks' k p H3 H4 H5 H6 H7. destruct (own_entry n s t t2 _ id ks c id' ks' Hok Hne H2 eq_refl (proj1 Hat) H3 H4 H5) as [_ Hks].
  simpl. rewrite lookup_insert_ne by done. eauto.
Qed.

Lemma request_spares n s s' t t2 c2 :
  channel_ok n s -> t2 <> t -> threads s !! t2 = Some c2 -> request_step host t2 c2 s = Next s' -> spares s s' t.
Proof.
  intros Hok Hne H2 E. destruct (ok_threads _ _ Hok _ _ H2) as [_ Hst].
  destruct c2 as [id ms w|id ms w|id ms|id ms ks|id ms ks|id ms ks r| | | | | | | | |]; try done; simpl in E, Hst.
  - destruct Hst as (_ & _ & Hk). rewrite Hk in E. destruct (mapAccessMutex s); [done|]. injection E as <-. split; [simpl; by rewrite lookup_insert_ne|].
    intros c id' ks' k p H3 H4 H5 H6 H7. pose proof (key_present n s id' ks' Hok H5). simpl. rewrite !lookup_insert_ne by (lia || congruence). eauto.
  - destruct (answer_pack _ _ _ _); [| |done]; injection E as <-; apply spares_quiet; try done; simpl; by rewrite lookup_insert_ne.
  - destruct Hst as (_ & ks & Hk & _). rewrite Hk in E. destruct (mapAccessMutex s); [done|]. injection E as <-.
    apply spares_quiet; try done. simpl. by rewrite lookup_insert_ne.
  - destruct Hst as (_ & Hat). destruct (sem_at_inv _ _ _ _ Hat) as (k & Hk & Hw). rewrite Hk in E. unfold wait_enter in E. rewrite Hw in E.
    injection E as <-. eapply (spares_semaphore s _ t ks k); [simpl; by rewrite lookup_insert_ne|done|done|done|done].
  - destruct (semaphores s !! ks) as [k|]; [|done]. destruct (answered k); [|injection E as <-; by apply spares_quiet].
    by eapply leave_spares.
  - destruct Hst as (Hms & Hat & _). destruct ms as [|ms]; [done|]. destruct (mapAccessMutex s); [done|]. rewrite (proj1 Hat) in E.
    destruct (sem_at_inv _ _ _ _ Hat) as (k2 & Hk2 & _). unfold delete_semaphore in E. simpl in E. rewrite Hk2 in E.
    assert (keySemaphoreMap s' = delete id (keySemaphoreMap s) /\ semaphores s' = delete ks (semaphores s) /\ threads s' = <[t2 := QDone id r]> (threads s)) as (E1 & E2 & E3).
    { destruct (objecForWait k2) as [p|]; [destruct (answers s !! p); [|done]|]; by injection E as <-. }
    split; [rewrite E3; by rewrite lookup_insert_ne|]. intros c id' ks' k p H3 H4 H5 H6 H7.
    destruct (own_entry n s t t2 _ id ks c id' ks' Hok Hne H2 eq_refl (proj1 Hat) H3 H4 H5) as [Hid Hks].
    rewrite E1, E2, !lookup_delete_ne by done. eauto.
Qed.

Lemma response_spares n s s' t t2 c2 :
  channel_ok n s -> t2 <> t -> threads s !! t2 = Some c2 -> response_step t2 c2 s = Next s' -> spares s s' t.
Proof.
  intros Hok Hne H2 E.
  assert (forall c' f, s' = set_thread t2 c' (f s) -> keySemaphoreMap (f s) = keySemaphoreMap s -> semaphores (f s) = semaphores s -> threads (f s) = threads s -> spares s s' t) as Hq.
  { intros c' f -> H3 H4 H5. apply spares_quiet; try done. simpl. by rewrite H5, lookup_insert_ne. }
  destruct c2 as [| | | | | | | |p|p id|p id ks|p id ks|p id| |]; try done; simpl in E.
  - destruct (answers s !! p) as [w|]; [|done]. destruct (c_hasKey _ w) as [[[] w1]|x|]; [|by injection E as <-; eapply (Hq _ (fun s => set_answers _ s))|by injection E as <-; eapply (Hq _ (fun s => s))|done].
    destruct (c_getInt32Value _ w1) as [[id w2]|x|]; [| |done]; injection E as <-; by eapply (Hq _ (fun s => set_answers _ s)).
  - destruct (mapAccessMutex s); [done|]. destruct (keySemaphoreMap s !! id) as [[ks|]|]; injection E as <-;
      [by eapply (Hq _ (fun s => set_mutex _ s))|by eapply (Hq _ (fun s => s))|by eapply (Hq _ (fun s => s))].
  - destruct (semaphores s !! ks) as [k|] eqn:Hk; [|done]. injection E as <-.
    eapply (spares_semaphore s _ t ks k); [simpl; by rewrite lookup_insert_ne|done|done|done|by eexists].
  - destruct (semaphores s !! ks) as [k|] eqn:Hk; [|done]. injection E as <-.
    eapply (spares_semaphore s _ t ks k); [simpl; by rewrite lookup_insert_ne|done|done|done|done].
  - destruct (response_handler s); [done| |]; injection E as <-; [by eapply (Hq _ (fun s => s))|by eapply (Hq _ (fun s => add_handled _ s))].
Qed.

(** The steps of the request itself. *)
Lemma own_leave n s s' t id ms ks :
  channel_ok n s -> threads s !! t = Some (QBlocked id ms ks) -> leave t id ms ks s = Next s' -> has_answer s t -> has_answer s' t.
Proof.
  intros Hok Ht E [(c & id' & ks' & k & p & H1 & H2 & _ & _ & H5 & H6 & H7)|[(? & ? & ? & ? & H)|(? & ? & H)]]; [|congruence..].
  destruct (ok_threads _ _ Hok _ _ Ht) as [_ (_ & Hat)]. rewrite Ht in H1. injection H1 as <-. injection H2 as <-. rewrite (proj1 Hat) in H5. injection H5 as <-.
  unfold leave in E. rewrite H6 in E. injection E as <-. right; left. exists id, ms, ks, p. simpl. by rewrite lookup_insert_eq, H7.
Qed.

Lemma own_step n s s' t c :
  channel_ok n s -> threads s !! t = Some c -> request_step host t c s = Next s' -> has_answer s t -> has_answer s' t.
Proof.
  intros Hok Ht E Hh. destruct (ok_threads _ _ Hok _ _ Ht) as [_ Hst].
  destruct c as [id ms w|id ms w|id ms|id ms ks|id ms ks|id ms ks r|id r| | | | | | | |]; try done; simpl in E, Hst.
  - by destruct Hh as [(c & ? & ? & ? & ? & H1 & H2 & _)|[(? & ? & ? & ? & H)|(? & ? & H)]]; simplify_eq.
  - destruct Hh as [(c & id' & ks & k & p & H1 & H2 & _ & _ & H5 & H6 & H7)|[(? & ? & ? & ? & H)|(? & ? & H)]]; simplify_eq.
    destruct ms as [ms|]; [|done]. injection H2 as <-. destruct Hst as ((d & Hd & Hf) & _).
    destruct (answer_pack_holds host id (channelID s) d w Hd Hf) as (w' & Ew & _). rewrite Ew in E. injection E as <-.
    left. exists (QLookup id ms), id, ks, k, p. split_and!; try done. apply lookup_insert_eq.
  - destruct Hh as [(c & id' & ks & k & p & H1 & H2 & _ & _ & H5 & H6 & H7)|[(? & ? & ? & ? & H)|(? & ? & H)]]; simplify_eq/=.
    destruct (mapAccessMutex s); [done|]. rewrite H5 in E. injection E as <-. left. exists (QEnter id' ms ks), id', ks, k, p.
    split_and!; try done. apply lookup_insert_eq.
  - destruct Hh as [(c & id' & ks' & k & p & H1 & H2 & _ & _ & H5 & H6 & H7)|[(? & ? & ? & ? & H)|(? & ? & H)]]; simplify_eq/=.
    destruct Hst as (_ & Hat). rewrite (proj1 Hat) in H5. injection H5 as <-. destruct (sem_at_inv _ _ _ _ Hat) as (k' & Hk & Hw). simplify_eq.
    rewrite H6 in E. unfold wait_enter in E. rewrite Hw in E. injection E as <-.
    left. exists (QBlocked id' ms ks), id', ks, (mkSem true false (objecForWait k)), p. split_and!; try done; [apply lookup_insert_eq|apply Hat|apply lookup_insert_eq].
  - destruct (semaphores s !! ks) as [k|]; [|done]. destruct (answered k); [by eapply own_leave|by injection E as <-].
  - assert (exists p, r = Some p) as [p ->].
    { destruct Hh as [(c & ? & ? & ? & ? & H1 & H2 & _ & H4 & _)|[(? & ? & ? & p & H)|(? & ? & H)]]; simplify_eq; [by destruct (H4 id ms ks r)|eauto]. }
    right; right. exists id, p. destruct Hst as (Hms & Hat & _). destruct (sem_at_inv _ _ _ _ Hat) as (k & Hk & _). destruct ms as [|ms]; [done|].
    destruct (mapAccessMutex s); [done|]. rewrite (proj1 Hat) in E. unfold delete_semaphore in E. simpl in E. rewrite Hk in E.
    destruct (objecForWait k) as [q|]; [destruct (answers s !! q); [|done]|]; injection E as <-; apply lookup_insert_eq.
Qed.

Lemma exec_keeps n s e s' t :
  channel_ok n s -> fair s e -> exec host e s = Next s' -> has_answer s t -> has_answer s' t.
Proof.
  intros Hok Hfair E Hh.
  assert (exists c, threads s !! t = Some c) as [c Ht].
  { destruct Hh as [(c & ? & ? & ? & ? & H & _)|[(? & ? & ? & ? & H)|(? & ? & H)]]; eauto. }
  pose proof (proj1 (ok_threads _ _ Hok _ _ Ht)) as Hlt.
  assert (forall s', threads s' !! t = threads s !! t -> keySemaphoreMap s' = keySemaphoreMap s -> semaphores s' = semaphores s -> has_answer s' t) as Hq.
  { intros s2 H1 H2 H3. eapply spares_has; [by apply spares_quiet|done]. }
  destruct e as [na a o|na a o ms async|id ms|w| | |t2|t2]; simpl in E; try done.
  - unfold sendMessage in E. destruct (message_pack _ _ _); [| |done]; injection E as <-; by apply Hq.
  - unfold sendRequest in E. destruct (data_pack o) as [w|x|]; [|injection E as <-; by apply Hq|done].
    destruct (add_action na a w); [| |done]; injection E as <-; apply Hq; try done; simpl; by rewrite lookup_insert_ne by lia.
  - injection E as <-. apply Hq; try done. simpl. by rewrite lookup_insert_ne by lia.
  - unfold setHandler in E. case_decide; [|done]. injection E as <-. by apply Hq.
  - unfold setHandler in E. case_decide; [|done]. injection E as <-. by apply Hq.
  - destruct (threads s !! t2) as [c2|] eqn:H2; [|done].
    destruct (request_step host t2 c2 s) as [s2| |] eqn:E2; [injection E as <-| |done].
    + destruct (decide (t2 = t)) as [->|Hne]; [by eapply (own_step n s s2 t c2)|]. eapply spares_has; [by eapply request_spares|done].
    + destruct (decide (t2 = t)) as [->|Hne]; [|eapply spares_has; [by eapply response_spares|done]].
      rewrite Ht in H2. injection H2 as <-. exfalso. clear Hq.
      destruct Hh as [(c' & id & ks & k & p & H & Hk & _)|[(? & ? & ? & ? & H)|(? & ? & H)]]; rewrite Ht in H; injection H as ->; try done.
      by destruct c'.
  - destruct (threads s !! t2) as [c2|] eqn:H2; [|done]. destruct c2 as [| | | |id ms ks| | | | | | | | | |]; try done. destruct ms as [|ms]; [done|].
    destruct (decide (t2 = t)) as [->|Hne]; [by eapply own_leave|]. eapply spares_has; [by eapply leave_spares|done].
Qed.

Lemma reach_keeps k s n s' t :
  channel_ok k s -> reach s n s' -> Z.of_nat (k + n) <= 2 ^ 32 -> has_answer s t -> has_answer s' t.
Proof.
  intros Hok. induction 1 as [|n s1 e s' Hr IH Hfair E]; intros Hn Hh; [done|].
  eapply (exec_keeps (k + n)); [eapply (reach_from k s n s1); [done..|lia]|done|done|]. apply IH; [lia|done].
Qed.

(** An answer that is taken for a waiting request is the answer of that request. *)
Lemma taken_answer n s s' t c u p id ks :
  channel_ok n s -> threads s !! t = Some c -> key_of c = Some id -> bearing c = None -> (forall i m x r, c <> QErase i m x r) ->
  threads s !! u = Some (RSet p id ks) -> exec host (EMove u) s = Next s' -> has_answer s' t.
Proof.
  intros Hok Ht Hk Hb He Hu E. destruct (ok_threads _ _ Hok _ _ Hu) as [_ (_ & _ & b & Hat)]. destruct (sem_at_inv _ _ _ _ Hat) as (k & Hks & _).
  simpl in E. rewrite Hu in E. simpl in E. rewrite Hks in E. injection E as <-. left. exists c, id, ks, (setWaithedObject p k), p.
  split_and!; try done; [|apply Hat|apply lookup_insert_eq]. simpl. rewrite lookup_insert_ne; [done|]. intros ->. rewrite Ht in Hu. by simplify_eq.
Qed.

(** ** A request without a limit *)

(** No answer to the request [id]: what [response] reads of the message. *)
Definition not_numbered id (w : W) : Prop := forall w1 i w2,
  c_hasKey CS_CMDM_MESSAGE_ID w = Ret (true, w1) -> c_getInt32Value CS_CMDM_MESSAGE_ID w1 = Ret (i, w2) -> i <> id.

(** A thread that works on another number and another semaphore; the thread of an answer is
    the address behind that of the message. *)
Definition stranger id ks s t c : Prop :=
  match c with
  | QKey i _ _ | QSubmit i _ _ | QLookup i _ | RLookup _ i => i <> id
  | QEnter i _ k | QBlocked i _ k | QErase i _ k _ => i <> id /\ k <> ks
  | RSet _ _ k | RUnlock _ _ k => k <> ks
  | RStart p => t = S p /\ forall w, answers s !! p = Some w -> not_numbered id w
  | _ => True
  end.

(** The semaphore [ks] belongs to the number [id], on which no thread but [t] works. *)
Record alone t id ks s : Prop := {
  al_below t' : is_Some (threads s !! t') -> (t' < next_address s)%nat;
  al_sem : (ks < next_address s)%nat;
  al_key : keySemaphoreMap s !! id = Some (Some ks);
  al_inj i : keySemaphoreMap s !! i = Some (Some ks) -> i = id;
  al_others t' c' : t' <> t -> threads s !! t' = Some c' -> stranger id ks s t' c' }.

(** Later events: anything but requests and polls with the number [id] and answers to it. *)
Definition elsewhere id s (e : event) : Prop :=
  match e with
  | ESendRequest _ _ _ _ _ => channelRequestIDCounter s <> id
  | EPollAnswer i _ => i <> id
  | EResponse w => not_numbered id w
  | _ => True
  end.
Definition elsewhere_step id s s' : Prop := exists e, elsewhere id s e /\ exec host e s = Next s'.

(** [t] waits, its answer [p] is in the semaphore, and the flag is cleared. *)
Record hung t id ks p s : Prop := {
  hg_thread : threads s !! t = Some (QBlocked id Forever ks);
  hg_sem : semaphores s !! ks = Some (mkSem true false (Some p));
  hg_alone : alone t id ks s }.

Lemma stranger_answers id ks s s' t c :
  (forall p w, t = S p -> answers s' !! p = Some w -> answers s !! p = Some w) -> stranger id ks s t c -> stranger id ks s' t c.
Proof. intros Ha Hs. destruct c; simpl in *; try done. destruct Hs as [-> Hs]. split; [done|]. eauto. Qed.

(** A step of another thread, or a new thread [u]. *)
Lemma hung_frame t id ks p s s' u c' :
  hung t id ks p s -> u <> t -> threads s' = <[u := c']> (threads s) -> (u < next_address s')%nat ->
  (next_address s <= next_address s')%nat -> semaphores s' !! ks = semaphores s !! ks ->
  keySemaphoreMap s' !! id = keySemaphoreMap s !! id ->
  (forall i, keySemaphoreMap s' !! i = Some (Some ks) -> keySemaphoreMap s !! i = Some (Some ks)) ->
  (forall t' p' w, is_Some (threads s !! t') -> t' <> u -> t' = S p' -> answers s' !! p' = Some w -> answers s !! p' = Some w) ->
  stranger id ks s' u c' -> hung t id ks p s'.
Proof.
  intros [Ht Hks [H1 H2 H3 H4 H5]] Hu Hth Hlt Hn Hsem Hkey Hinj Ha Hc. split; [by rewrite Hth, lookup_insert_ne|congruence|].
  split; [| lia | congruence | auto |].
  - intros t'. rewrite Hth. destruct (decide (t' = u)) as [->|Hne]; [done|]. rewrite lookup_insert_ne by done. intros Hs%H1. lia.
  - intros t' x Hne. rewrite Hth. destruct (decide (t' = u)) as [->|Hne']; [rewrite lookup_insert_eq; by intros [= <-]|].
    rewrite lookup_insert_ne by done. intros Hx. eapply stranger_answers; [|by apply H5]. intros p' w. by apply (Ha t').
Qed.

(** Nothing but the handler or the documents sent changes. *)
Lemma hung_same t id ks p s s' :
  hung t id ks p s -> threads s' = threads s -> next_address s' = next_address s -> semaphores s' = semaphores s ->
  keySemaphoreMap s' = keySemaphoreMap s -> answers s' = answers s -> hung t id ks p s'.
Proof.
  intros [Ht Hks [H1 H2 H3 H4 H5]] E1 E2 E3 E4 E5. split; [by rewrite E1|by rewrite E3|].
  split; [by rewrite E1, E2|by rewrite E2|by rewrite E4|by rewrite E4|]. intros t' c'. rewrite E1. intros Hne Hc.
  eapply stranger_answers; [|by apply H5]. intros p' w _. by rewrite E5.
Qed.

(** The new thread of a request. *)
Lemma hung_spawn t id ks p s n c :
  hung t id ks p s -> (forall u, stranger id ks s u c) -> hung t id ks p (spawn c (set_counter n s)).
Proof.
  intros H Hc. pose proof (al_below _ _ _ _ (hg_alone _ _ _ _ _ H) t (mk_is_Some _ _ (hg_thread _ _ _ _ _ H))) as Hlt.
  eapply (hung_frame t id ks p s _ (next_address s) c); try done; simpl; try lia. apply Hc.
Qed.

(** Another thread moves. *)
Lemma hung_request t id ks p s u c s' :
  hung t id ks p s -> u <> t -> threads s !! u = Some c -> request_step host u c s = Next s' -> hung t id ks p s'.
Proof.
  intros H Hu Hc E. pose proof H as [Ht Hks [H1 H2 H3 H4 H5]]. pose proof (H5 u c Hu Hc) as Hs.
  pose proof (H1 u (mk_is_Some _ _ Hc)) as Hlt.
  assert (forall i k, k <> ks -> i <> id -> forall r,
    and_then (delete_semaphore k (set_keys (delete i (keySemaphoreMap s)) s)) (set_thread u (QDone i r)) = Next s' -> hung t id ks p s') as Hdel.
  { intros i k Hk Hi r. unfold delete_semaphore. simpl. destruct (semaphores s !! k) as [x|]; [|done].
    destruct (objecForWait x) as [q|]; [destruct (answers s !! q); [|done]|]; intros [= <-];
      (eapply (hung_frame _ _ _ _ s _ u (QDone i r)); [done..| | | | |done]); simpl; rewrite ?lookup_delete_ne by done; try done;
      try (intros j; rewrite lookup_delete_Some; tauto). intros ? ? ?. rewrite lookup_delete_Some. tauto. }
  destruct c as [i ms w|i ms w|i ms|i ms k|i ms k|i ms k r|i r|i|q|q i|q i k|q i k|q i|q b|q]; simpl in Hs, E; try done.
  - destruct (keySemaphoreMap s !! i) eqn:Ei; [injection E as <-; by eapply (hung_frame _ _ _ _ s _ u)|].
    destruct (mapAccessMutex s); [done|]. injection E as <-.
    eapply (hung_frame _ _ _ _ s _ u); try done; simpl; try lia.
    + by rewrite lookup_insert_ne by lia.
    + by rewrite lookup_insert_ne by done.
    + intros j. destruct (decide (j = i)) as [->|Hne]; [rewrite lookup_insert_eq; intros [= ?]; lia|by rewrite lookup_insert_ne by done].
  - destruct (answer_pack _ _ _ _) as [w'|x|]; [| |done]; injection E as <-; eapply (hung_frame _ _ _ _ s _ u); try done. by destruct ms.
  - destruct (mapAccessMutex s); [done|]. destruct (keySemaphoreMap s !! i) as [[k|]|] eqn:Ei; injection E as <-.
    + eapply (hung_frame _ _ _ _ s _ u); try done. simpl. split; [done|]. intros ->. by apply H4 in Ei.
    + by eapply (hung_frame _ _ _ _ s _ u).
    + eapply (hung_frame _ _ _ _ s _ u); try done; simpl; [by rewrite lookup_insert_ne by done|].
      intros j. destruct (decide (j = i)) as [->|Hne]; [by rewrite lookup_insert_eq|by rewrite lookup_insert_ne by done].
  - destruct Hs as [Hi Hk]. destruct (semaphores s !! k) as [x|]; [|done]. destruct (wait_enter x); injection E as <-;
      eapply (hung_frame _ _ _ _ s _ u); try done. simpl. by rewrite lookup_insert_ne by done.
  - destruct Hs as [Hi Hk]. destruct (semaphores s !! k) as [x|] eqn:Ex; [|done]. destruct (answered x); [|by injection E as <-].
    unfold leave in E. rewrite Ex in E. injection E as <-. eapply (hung_frame _ _ _ _ s _ u); try done. simpl. by rewrite lookup_insert_ne by done.
  - destruct Hs as [Hi Hk]. destruct ms as [|ms]; [by eapply Hdel|]. destruct (mapAccessMutex s); [done|].
    destruct (keySemaphoreMap s !! i); [by eapply Hdel|]. injection E as <-. by eapply (hung_frame _ _ _ _ s _ u).
Qed.

Lemma hung_response t id ks p s u c s' :
  hung t id ks p s -> u <> t -> threads s !! u = Some c -> response_step u c s = Next s' -> hung t id ks p s'.
Proof.
  intros H Hu Hc E. pose proof H as [Ht Hks [H1 H2 H3 H4 H5]]. pose proof (H5 u c Hu Hc) as Hs.
  pose proof (H1 u (mk_is_Some _ _ Hc)) as Hlt.
  destruct c as [i ms w|i ms w|i ms|i ms k|i ms k|i ms k r|i r|i|q|q i|q i k|q i k|q i|q b|q]; simpl in Hs, E; try done.
  - destruct Hs as [-> Hs]. destruct (answers s !! q) as [w|] eqn:Hq; [|done]. specialize (Hs w eq_refl).
    assert (forall c w', stranger id ks (set_answers (<[q := w']> (answers s)) s) (S q) c ->
      hung t id ks p (set_thread (S q) c (set_answers (<[q := w']> (answers s)) s))) as Hset.
    { intros c w' Hst. eapply (hung_frame _ _ _ _ s _ (S q)); try done; simpl.
      intros t' p' w2 _ Hne ->. by rewrite lookup_insert_ne by congruence. }
    destruct (c_hasKey CS_CMDM_MESSAGE_ID w) as [[[] w1]|x|] eqn:Hh; [| | |done].
    + destruct (c_getInt32Value CS_CMDM_MESSAGE_ID w1) as [[i w2]|x|] eqn:Hg; [| |done]; injection E as <-; apply Hset; [|done].
      simpl. by eapply Hs.
    + injection E as <-. by apply Hset.
    + injection E as <-. by eapply (hung_frame _ _ _ _ s _ (S q)).
  - destruct (mapAccessMutex s); [done|]. destruct (keySemaphoreMap s !! i) as [[k|]|] eqn:Ei; injection E as <-;
      eapply (hung_frame _ _ _ _ s _ u); try done. simpl. intros ->. by apply H4 in Ei.
  - destruct (semaphores s !! k); [|done]. injection E as <-. eapply (hung_frame _ _ _ _ s _ u); try done. simpl. by rewrite lookup_insert_ne by done.
  - destruct (semaphores s !! k); [|done]. injection E as <-. eapply (hung_frame _ _ _ _ s _ u); try done. simpl. by rewrite lookup_insert_ne by done.
  - destruct (response_handler s); [done|..]; injection E as <-; by eapply (hung_frame _ _ _ _ s _ u).
Qed.

Lemma hung_step t id ks p s s' : hung t id ks p s -> elsewhere_step id s s' -> hung t id ks p s'.
Proof.
  intros H (e & He & E). pose proof H as [Ht Hks Hal]. pose proof (al_below _ _ _ _ Hal t (mk_is_Some _ _ Ht)) as Hlt.
  destruct e as [na a o|na a o ms async|i ms|w| | |u|u]; simpl in He, E.
  - unfold sendMessage in E. destruct (message_pack _ _ _); [| |done]; injection E as <-; [by eapply hung_same|done].
  - unfold sendRequest in E. destruct (data_pack o) as [w|x|]; [|by injection E as <-|done].
    destruct (add_action na a w); [| |done]; injection E as <-; apply hung_spawn; try done. by destruct async.
  - injection E as <-. eapply (hung_frame _ _ _ _ s _ (next_address s) (QLookup i (For ms))); try done; simpl; lia.
  - injection E as <-. eapply (hung_frame _ _ _ _ s _ (S (next_address s)) (RStart (next_address s))); try done; simpl; try lia.
    + intros t' p' w' Hc'%(al_below _ _ _ _ Hal) _ ->. rewrite lookup_insert_ne; [done|]. lia.
    + split; [done|]. intros w'. rewrite lookup_insert_eq. by intros [= <-].
  - unfold setHandler in E. case_decide; [|done]. injection E as <-. by eapply hung_same.
  - unfold setHandler in E. case_decide; [|done]. injection E as <-. by eapply hung_same.
  - destruct (threads s !! u) as [c|] eqn:Hc; [|done]. destruct (decide (u = t)) as [->|Hne].
    + rewrite Ht in Hc. injection Hc as <-. simpl in E. rewrite Hks in E. simpl in E. by injection E as <-.
    + destruct (request_step host u c s) as [s2| |] eqn:E2; [|by eapply hung_response|done]. injection E as <-. by eapply hung_request.
  - destruct (threads s !! u) as [c|] eqn:Hc; [|done]. destruct c as [| | | |i ms k| | | | | | | | | |]; try done.
    destruct ms as [|ms]; [done|]. assert (u <> t) as Hne by congruence. destruct (al_others _ _ _ _ Hal u _ Hne Hc) as [Hi Hk].
    unfold leave in E. destruct (semaphores s !! k); [|done]. injection E as <-.
    pose proof (al_below _ _ _ _ Hal u (mk_is_Some _ _ Hc)). eapply (hung_frame _ _ _ _ s _ u); try done. simpl. by rewrite lookup_insert_ne by done.
Qed.

(** ** The theorems *)

(** [C7] However requests with a time limit, answers, unknown and repeated ones among them,
    and changes of the handler interleave on a channel with at most 2^32 requests, no thread
    touches a deleted semaphore or message; an answer a request returns carries the number
    of that request, and it is in no other place: not returned to another request, not in
    a semaphore, not given to the handler and not left to the dispatcher. *)
Theorem answers_reach_their_request address uuid n s :
  reach (fresh_channel address uuid) n s -> Z.of_nat n <= 2 ^ 32 ->
  (forall e, fair s e -> Z.of_nat (n + requests_in e) <= 2 ^ 32 -> exec host e s <> Breaks) /\
  forall t id p, threads s !! t = Some (QDone id (Some p)) ->
    answer_to s p id /\ (forall pl, bears s pl p -> pl = InThread t) /\
    forall t' id' o, threads s !! t' = Some (QDone id' o) -> t' <> t -> o <> Some p /\ id' <> id.
Proof.
  intros Hr Hn. pose proof (reach_ok address uuid n s Hr Hn) as Hok. split.
  - intros e Hfair He E. pose proof (event_ok n s e Hok Hfair He) as Hg. by rewrite E in Hg.
  - intros t id p Ht. destruct (ok_threads _ _ Hok _ _ Ht) as [_ Hst].
    assert (bears s (InThread t) p) as Hme by (by eexists). split_and!; [by apply Hst|intros pl Hpl; by apply (ok_place _ _ Hok pl _ p)|].
    intros t' id' o Ht' Hne. split; intros ->; destruct Hne.
    + assert (InThread t' = InThread t) as E; [|congruence]. apply (ok_place _ _ Hok _ _ p); [by eexists|done].
    + by eapply (ok_distinct _ _ Hok).
Qed.

(** [C19] A request with a time limit comes back: at every moment eight steps are enough, two
    of the answer that holds the mutex and six of the request.  And once an answer to its
    number has been taken while it had not stopped waiting, it returns an answer with its
    number, whatever happens before it does. *)
Theorem request_comes_back address uuid n s t c r :
  reach (fresh_channel address uuid) n s -> Z.of_nat n <= 2 ^ 32 -> threads s !! t = Some c -> pending c = Some r ->
  (exists es s' id o, (length es <= 8)%nat /\ Forall (fun e => exists u, e = EMove u \/ e = ETimeout u) es /\ run host es s = Some s' /\
     number c = Some id /\ threads s' !! t = Some (QDone id o)) /\
  forall u p id ks s1 m s' o, key_of c = Some id -> (2 <= r)%nat -> threads s !! u = Some (RSet p id ks) -> exec host (EMove u) s = Next s1 ->
    reach s1 m s' -> Z.of_nat (n + m) <= 2 ^ 32 -> threads s' !! t = Some (QDone id o) -> exists p', o = Some p' /\ answer_to s' p' id.
Proof.
  intros Hr Hn Ht Hp. pose proof (reach_ok address uuid n s Hr Hn) as Hok. split.
  - assert (r <= 6)%nat as Hr6 by (destruct c as [|? []| | | | | | | | | | | | |]; simplify_eq/=; lia).
    destruct (mapAccessMutex s) as [h|] eqn:Hm.
    + destruct (mutex_released n s h Hn Hok Hm) as (es1 & s1 & Hl1 & Hf1 & Hr1 & Hok1 & Hm1 & Hth).
      assert (t <> h) as Hne. { intros ->. destruct (ok_mutex _ _ Hok h Hm) as (p & id & ks & [H|H]); rewrite Ht in H; by simplify_eq. }
      destruct (request_finishes r n s1 t c Hn Hok1 Hm1 ltac:(by rewrite Hth) Hp) as (es & s' & id & o & Hl & Hf & Hrun & Hid & Hd).
      exists (es1 ++ es), s', id, o. rewrite length_app, (run_then _ _ _ _ Hr1). split_and!; try done; [lia|].
      apply Forall_app. split; eapply Forall_impl; eauto; simpl; naive_solver.
    + destruct (request_finishes r n s t c Hn Hok Hm Ht Hp) as (es & s' & id & o & Hl & Hf & Hrun & Hid & Hd).
      exists es, s', id, o. split_and!; try done; [lia|]. eapply Forall_impl; eauto. simpl. naive_solver.
  - intros u p id ks s1 m s' o Hk Hr2 Hu E Hr1 Hnm Hd.
    assert (channel_ok n s1) as Hok1. { pose proof (move_ok n s u Hok) as Hg. by rewrite E in Hg. }
    assert (has_answer s1 t) as Hh.
    { apply (taken_answer n s s1 t c u p id ks); try done; destruct c as [|? []| | | | | | | | | | | | |]; simplify_eq/=; try done; lia. }
    pose proof (reach_from n s1 m s' Hok1 Hr1 Hnm) as Hok'.
    destruct (reach_keeps n s1 m s' t Hok1 Hr1 Hnm Hh) as [(c' & ? & ? & ? & ? & H & Hk' & _)|[(? & ? & ? & ? & H)|(id' & p' & H)]]; rewrite Hd in H; simplify_eq.
    exists p'. split; [done|]. destruct (ok_threads _ _ Hok' _ _ Hd) as [_ Hst]. by apply Hst.
Qed.

(** Steps of [t] itself towards the semaphore. *)
Lemma alone_own t id ks s s' c' :
  alone t id ks s -> is_Some (threads s !! t) -> threads s' = <[t := c']> (threads s) -> next_address s' = next_address s ->
  keySemaphoreMap s' = keySemaphoreMap s -> answers s' = answers s -> alone t id ks s'.
Proof.
  intros [H1 H2 H3 H4 H5] Ht E1 E2 E3 E4. split; rewrite ?E2, ?E3; try done.
  - intros t'. rewrite E1. destruct (decide (t' = t)) as [->|Hne]; [intros _; by apply H1|rewrite lookup_insert_ne by done; apply H1].
  - intros u x Hne. rewrite E1, lookup_insert_ne by done. intros Hx. eapply stranger_answers; [|by apply H5]. intros p w _. by rewrite E4.
Qed.

Lemma enter_hangs t id ks p s :
  threads s !! t = Some (QEnter id Forever ks) -> semaphores s !! ks = Some (mkSem false true (Some p)) -> alone t id ks s ->
  exists s1, exec host (EMove t) s = Next s1 /\ hung t id ks p s1.
Proof.
  intros Ht Hks Hal. eexists. split; [simpl; rewrite Ht; simpl; by rewrite Hks|]. simpl.
  split; [apply lookup_insert_eq|apply lookup_insert_eq|]. by eapply (alone_own _ _ _ s).
Qed.

(** [C38] A request without a time limit can wait for ever although its answer has come.
    On any channel, let the answer [p] be taken for the request of the thread [t] before
    [t] starts to wait (it has still to look up its semaphore, with the mutex of the map
    free, or has just done so), and let no other thread work on its number.  Then [t]
    starts to wait with its next steps, and whatever happens afterwards, short of a second
    answer to its number or of another request or poll that reuses the number, it stays
    there, with its answer in the semaphore. *)
Theorem unlimited_request_can_hang t id ks p s c :
  threads s !! t = Some c -> (c = QLookup id Forever /\ mapAccessMutex s = None) \/ c = QEnter id Forever ks ->
  semaphores s !! ks = Some (mkSem false true (Some p)) -> alone t id ks s ->
  exists n s1, (1 <= n <= 2)%nat /\ run host (replicate n (EMove t)) s = Some s1 /\
    forall s2, rtc (elsewhere_step id) s1 s2 ->
      threads s2 !! t = Some (QBlocked id Forever ks) /\ objecForWait <$> semaphores s2 !! ks = Some (Some p).
Proof.
  intros Ht Hc Hks Hal.
  assert (forall s1 s2, hung t id ks p s1 -> rtc (elsewhere_step id) s1 s2 ->
    threads s2 !! t = Some (QBlocked id Forever ks) /\ objecForWait <$> semaphores s2 !! ks = Some (Some p)) as Hstay.
  { intros s1 s2 H Hr. assert (hung t id ks p s2) as [H1 H2 _]; [|by rewrite H2].
    induction Hr as [|x y z Hxy _ IH]; [done|]. by apply IH, (hung_step _ _ _ _ x). }
  destruct Hc as [[-> Hm]| ->].
  - destruct (enter_hangs t id ks p (set_thread t (QEnter id Forever ks) s)) as (s1 & E & H1);
      [apply lookup_insert_eq|done|by eapply (alone_own _ _ _ s)|].
    exists 2%nat, s1. split; [lia|]. split; [|intros s2; by apply Hstay]. cbn [replicate run].
    assert (exec host (EMove t) s = Next (set_thread t (QEnter id Forever ks) s)) as ->
      by (simpl; rewrite Ht; simpl; by rewrite Hm, (al_key _ _ _ _ Hal)).
    by rewrite E.
  - destruct (enter_hangs t id ks p s Ht Hks Hal) as (s1 & E & H1). exists 1%nat, s1. split; [lia|]. split; [|intros s2; by apply Hstay].
    cbn [replicate run]. by rewrite E.
Qed.

End Spec.

(** ** Scenarios *)

Module Witness.

#[local] Existing Instance doc_container.

#[local] Instance doc_laws : ContainerLaws doc.
Proof.
  assert (forall (op : doc -> outcome doc) key v, (forall d, op d = fitting (doc_snoc d key v)) -> adds op key v) as Hadd.
  { intros op key v Hop d w <- _ Hf. exists (doc_snoc d key v). rewrite Hop. unfold fitting. by rewrite decide_True. }
  split; try (intros key d w <- Hf; by exists d); try (intros key x; by apply Hadd).
  - by exists DNil.
  - intros key d w <- Hf. by exists (sub_doc (doc_find key d)), d.
  - intros key sub d cs w <- _ <- Hf. exists sub, (doc_snoc d key (VObject sub)). simpl. unfold fitting. by rewrite decide_True.
Qed.

Notation host := (chars "client:1").
Notation node := (chars "cu").

(** The conditions on an event, decided. *)
Definition fairb (e : event (W := doc)) (s : Channel doc) : bool :=
  match e with
  | ESendMessage n a o => bool_decide (fits (message_doc n a o)) && bool_decide (fits (default DNil o))
  | ESendRequest n a o ms async => (async || negb (ms =? 0)) && bool_decide (fits (default DNil o)) &&
      bool_decide (fits (request_doc host (channelRequestIDCounter s) (channelID s) n a o))
  | EPollAnswer _ _ => false
  | EResponse d => bool_decide (fits d) && match as_int 32 (doc_find CS_CMDM_MESSAGE_ID d) with Ret _ => true | _ => false end
  | _ => true
  end.

Lemma fairb_fair e s : fairb e s = true -> fair host s e.
Proof.
  assert (forall o : option doc, fits (default DNil o) -> opt_holds o o) as Ho by (intros [d|]; done).
  destruct e as [n a o|n a o ms async|id ms|d| | |t|t]; simpl; intros H; reflect_bool; try done.
  - exists o. split; [apply Ho|]; assumption.
  - split; [|exists o; split; [apply Ho|]; assumption]. intros ->. simpl in *. by reflect_bool.
  - destruct (as_int 32 _) as [id|x|] eqn:E; try done. by exists d, id.
Qed.

(** The events of a fair run, with the number of requests. *)
Fixpoint fair_run (es : list (event (W := doc))) (n : nat) (s : Channel doc) : option (nat * Channel doc) :=
  match es with
  | [] => Some (n, s)
  | e :: es => if fairb e s then match exec host e s with Next s => fair_run es (n + requests_in e) s | _ => None end else None
  end.

Lemma fair_run_reach es : forall s0 n s n' s', reach host s0 n s -> fair_run es n s = Some (n', s') -> reach host s0 n' s'.
Proof.
  induction es as [|e es IH]; intros s0 n s n' s' Hr; simpl; [by intros [= <- <-]|].
  destruct (fairb e s) eqn:Hf; [|done]. destruct (exec host e s) as [s1| |] eqn:E; [|done..]. apply IH.
  eapply reach_step; [done|by apply fairb_fair|done].
Qed.

Definition start : Channel doc := fresh_channel (chars "server:1") (chars "uuid").
Definition question : event (W := doc) := ESendRequest node (chars "init") (Some DNil) 100 false.
Definition reply : doc := DCons CS_CMDM_ACTION_SUBMISSION_ERROR_CODE (VInt 0) (DCons CS_CMDM_MESSAGE_ID (VInt 0) DNil).

(** The request waits and the answer is about to be taken for it; then it returns. *)
Definition before : list (event (W := doc)) := [question; EMove 0; EMove 0; EMove 0; EMove 0; EResponse reply; EMove 3; EMove 3]%nat.
Definition after : list (event (W := doc)) := [EMove 3; EMove 0; EMove 0]%nat.
Definition state (es : list (event (W := doc))) (s : Channel doc) : Channel doc := default s (snd <$> fair_run es 0 s).
Definition asked : Channel doc := state before start.
Definition taken : Channel doc := state [EMove 3%nat] asked.
Definition returned : Channel doc := state after taken.

Lemma asked_reached : reach host start 1 asked.
Proof. apply (fair_run_reach before start 0 start); [constructor|by vm_compute]. Qed.
Lemma returned_reached : reach host taken 0 returned.
Proof. apply (fair_run_reach after taken 0 taken); [constructor|by vm_compute]. Qed.
Lemma all_reached : reach host start 1 returned.
Proof. apply (fair_run_reach (before ++ [EMove 3%nat] ++ after) start 0 start); [constructor|by vm_compute]. Qed.

Lemma answers_reach_their_request_witness :
  threads returned !! 0%nat = Some (QDone 0 (Some 2%nat)) /\ answer_to returned 2%nat 0 /\
  forall pl, bears returned pl 2%nat -> pl = InThread 0.
Proof.
  assert (threads returned !! 0%nat = Some (QDone 0 (Some 2%nat))) as Ht by (by vm_compute).
  destruct (answers_reach_their_request host _ _ 1 returned all_reached ltac:(by vm_compute)) as [_ Ha].
  destruct (Ha 0%nat 0 2%nat Ht) as (H1 & H2 & _). by split_and!.
Defined.

Lemma request_comes_back_witness : exists p, answer_to returned p 0.
Proof.
  destruct (request_comes_back host (chars "server:1") (chars "uuid") 1 asked 0%nat (QBlocked 0 (For 100) 1) 2%nat asked_reached ltac:(by vm_compute)
    ltac:(by vm_compute) eq_refl) as [_ Hb].
  destruct (Hb 3%nat 2%nat 0 1%nat taken 0%nat returned (Some 2%nat)) as (p & _ & Hp); [done|lia|by vm_compute|by vm_compute|
    exact returned_reached|by vm_compute|by vm_compute|]. by exists p.
Defined.

(** *** A request without a limit *)

(** Its answer is taken before it starts to wait. *)
Definition unlimited : list (event (W := doc)) :=
  [ESendRequest node (chars "init") None 0 false; EMove 0; EMove 0; EResponse reply; EMove 3; EMove 3; EMove 3; EMove 3]%nat.
Definition early : Channel doc := default start (run host unlimited start).

Lemma early_alone : alone 0%nat 0 1%nat early.
Proof.
  assert (threads early = {[ 0%nat := QLookup 0 Forever; 3%nat := RDone 2 true ]}) as Ht by (by vm_compute).
  assert (keySemaphoreMap early = {[ 0 := Some 1%nat ]}) as Hk by (by vm_compute).
  assert (next_address early = 4%nat) as Hn by (by vm_compute).
  split; rewrite ?Hk, ?Hn; [|lia|by vm_compute|..].
  - intros t. rewrite Ht.
    destruct (decide (t = 0%nat)) as [->|H0]; [lia|]. rewrite lookup_insert_ne by done.
    destruct (decide (t = 3%nat)) as [->|H3]; [lia|]. rewrite lookup_singleton_ne by done. by intros [? ?].
  - by intros i [-> _]%lookup_singleton_Some.
  - intros t c H0. rewrite Ht, lookup_insert_ne by done. by intros [_ <-]%lookup_singleton_Some.
Qed.

Lemma unlimited_request_can_hang_witness :
  run host unlimited start = Some early /\ threads early !! 3%nat = Some (RDone 2 true) /\
  exists n s1, (1 <= n <= 2)%nat /\ run host (replicate n (EMove 0%nat)) early = Some s1 /\
    forall s2, rtc (elsewhere_step host 0) s1 s2 ->
      threads s2 !! 0%nat = Some (QBlocked 0 Forever 1%nat) /\ objecForWait <$> semaphores s2 !! 1%nat = Some (Some 2%nat).
Proof.
  split; [by vm_compute|]. split; [by vm_compute|].
  apply (unlimited_request_can_hang host 0%nat 0 1%nat 2%nat early (QLookup 0 Forever)); [by vm_compute|left; by vm_compute|by vm_compute|exact early_alone].
Defined.

(** *** Polling *)

(** [pollAnswer] of a number that is not used yet leaves a null entry: the request with that
    number returns at once, without its answer, which goes to the handler. *)
Example polled_number_is_spent :
  exists s, run host [EPollAnswer 0 0; EMove 0; question; EMove 1; EMove 1; EMove 1]%nat start = Some s /\ threads s !! 1%nat = Some (QDone 0 None).
Proof. eexists. split; [by vm_compute|by vm_compute]. Qed.

(** [pollAnswer] of the number of a waiting request deletes the semaphore under it. *)
Example polling_breaks_a_request :
  run host [question; EMove 0; EMove 0; EMove 0; EMove 0; EPollAnswer 0 5; EMove 2; EMove 2; EMove 2; EMove 0]%nat start = None.
Proof. by vm_compute. Qed.

(** A channel of a node calls an uninitialised pointer for the answer to an asynchronous
    request, unless [setHandler] or [clearHandler] has been called. *)
Example node_channel_breaks :
  run host [ESendRequest node (chars "init") None 0 true; EMove 0; EResponse reply; EMove 2; EMove 2; EMove 2]%nat
    (init (chars "uuid") (new_NodeMessageChannel (chars "server:1"))) = None.
Proof. by vm_compute. Qed.

End Witness.
