(* ===== verification/DeviceChannel.v ===== *)
(** * Calling a device

    Models [chaos/common/message/DeviceMessageChannel]: every operation is a request or a
    message to the node of the device, sent over the channel of [MessageChannel], and the
    answer is reduced to an error code and a value.  The theorem follows a call through
    both dispatchers: the request document is one the server's dispatcher serves and
    answers, the answer is one the client's dispatcher brings to the channel under the
    number of the request, and what the caller gets is how the action ended. *)

From S2P Require Import Prelude BufBuilder Bson BsonBuilder CDataWrapper Container ProcessingQueue Dispatcher DispatcherSpec DispatcherRegistry DispatcherService MessageChannel MessageChannelSpec.

Local Open Scope Z_scope.

(** ** Names *)

Definition EC_NO_ERROR : Z := 0.
Definition EC_TIMEOUT : Z := 1.
Definition DEVICE_ID := chars "ds_attr_dom".
Definition CS_CM_THREAD_SCHEDULE_DELAY := chars "cs|cm|cu|thr|sch_del".
Definition CS_CM_CU_TYPE := chars "cs|cm|cu_type".
Definition CONTROL_UNIT_STATE := chars "cu_state".
Definition ACTION_CU_INIT := chars "initControlUnit".
Definition ACTION_CU_DEINIT := chars "deinitControlUnit".
Definition ACTION_CU_START := chars "startControlUnit".
Definition ACTION_CU_STOP := chars "stopControlUnit".
Definition ACTION_CU_GET_STATE := chars "getControlUnitState".
Definition ACTION_CU_GET_INFO := chars "getControlUnitInfo".

(** [CNodeNetworkAddress] and [CDeviceNetworkAddress] *)
Record CDeviceNetworkAddress := mkAddress { ipPort : list Z; nodeID : list Z; deviceID : list Z }.

(** ** Operations *)

Section Device.
Context {W : Type} `{C : !Container W}.

Inductive device_op :=
  | initDevice (initData : W)
  | deinitDevice
  | startDevice
  | stopDevice
  | getType
  | getState
  | setAttributeValue (attributesValues : W) (noWait : bool)
  | setScheduleDelay (scheduledDealy : Z)
  | sendCustomMessage (actAlias : list Z) (requestData : option W)
  | sendCustomRequest (actAlias : list Z) (requestData : option W) (resultData async : bool).

Definition action_of (op : device_op) : list Z :=
  match op with
  | initDevice _ => ACTION_CU_INIT
  | deinitDevice => ACTION_CU_DEINIT
  | startDevice => ACTION_CU_START
  | stopDevice => ACTION_CU_STOP
  | getType => ACTION_CU_GET_INFO
  | getState => ACTION_CU_GET_STATE
  | setAttributeValue _ _ => chars "setDatasetAttribute"
  | setScheduleDelay _ => chars "updateConfiguration"
  | sendCustomMessage a _ | sendCustomRequest a _ _ _ => a
  end.

(** The message of an operation. *)
Definition op_message (device : list Z) (op : device_op) : outcome (option W) :=
  match op with
  | initDevice w => mret (Some w)
  | deinitDevice | startDevice | stopDevice | getState => w ← c_new; w ← c_addStringValue DEVICE_ID device w; mret (Some w)
  | getType => mret None
  | setAttributeValue w _ => w ← c_addStringValue DEVICE_ID device w; mret (Some w)
  | setScheduleDelay d =>
      w ← c_new; w ← c_addStringValue DEVICE_ID device w; w ← c_addInt64Value CS_CM_THREAD_SCHEDULE_DELAY (s64 d) w; mret (Some w)
  | sendCustomMessage _ o | sendCustomRequest _ o _ _ => mret o
  end.

(** The call on the channel. *)
Definition op_event (a : CDeviceNetworkAddress) (op : device_op) (millisecToWait : Z) : outcome (event (W := W)) :=
  o ← op_message (deviceID a) op;
  mret match op with
  | setAttributeValue _ true | sendCustomMessage _ _ => ESendMessage (nodeID a) (action_of op) o
  | sendCustomRequest _ _ _ async => ESendRequest (nodeID a) (action_of op) o millisecToWait async
  | _ => ESendRequest (nodeID a) (action_of op) o millisecToWait false
  end.

(** ** Results *)

(** [CHECK_TIMEOUT_AND_RESULT_CODE], with the error code that was set before. *)
Definition check_result (x : option W) (e : Z) : outcome (Z * option W) :=
  match x with
  | None => mret (EC_TIMEOUT, None)
  | Some w =>
      '(b, w) ← c_hasKey CS_CMDM_ACTION_SUBMISSION_ERROR_CODE w;
      if b : bool then '(n, w) ← c_getInt32Value CS_CMDM_ACTION_SUBMISSION_ERROR_CODE w; mret (n, Some w) else mret (e, Some w)
  end.

(** What an operation gives its caller besides the code; [None] leaves the variable. *)
Inductive device_value := NoValue | TypeIs (t : option (list Z)) | StateIs (s : option Z) | DataIs (d : W).

Definition op_value (op : device_op) (w : W) : outcome device_value :=
  match op with
  | getType =>
      '(info, _) ← c_getCSDataValue CS_CMDM_ACTION_MESSAGE w;
      '(b, info) ← c_hasKey CS_CM_CU_TYPE info;
      if b : bool then '(t, _) ← c_getStringValue CS_CM_CU_TYPE info; mret (TypeIs (Some t)) else mret (TypeIs None)
  | getState =>
      '(pack, _) ← c_getCSDataValue CS_CMDM_ACTION_MESSAGE w;
      '(b, pack) ← c_hasKey CONTROL_UNIT_STATE pack;
      if b : bool then '(s, _) ← c_getInt32Value CONTROL_UNIT_STATE pack; mret (StateIs (Some s)) else mret (StateIs None)
  | sendCustomRequest _ _ true _ => '(d, _) ← c_getCSDataValue CS_CMDM_ACTION_MESSAGE w; mret (DataIs d)
  | _ => mret NoValue
  end.

(** Whether the operation sends a message, which has no result. *)
Definition one_way (op : device_op) : bool :=
  match op with setAttributeValue _ true | sendCustomMessage _ _ => true | _ => false end.

(** Whether the request is asynchronous: [sendRequest] then does not wait. *)
Definition asynchronous (op : device_op) : bool := match op with sendCustomRequest _ _ _ async => async | _ => false end.

(** The result of [sendRequest] becomes the result of the operation. *)
Definition op_result (op : device_op) (x : option W) : outcome (Z * device_value) :=
  if one_way op then mret (EC_NO_ERROR, NoValue) else
  '(err, x) ← check_result x EC_NO_ERROR;
  match x with
  | Some w => if err =? EC_NO_ERROR then v ← op_value op w; mret (err, v) else mret (err, NoValue)
  | None => mret (err, NoValue)
  end.

End Device.
Arguments device_op W : clear implicits.
Arguments device_value W : clear implicits.

(** ** From the caller to the action and back *)

(** How an action ended, as the caller should see it. *)
Definition code_of (e : @action_end doc) : Z := match e with AReturns _ => 0 | AThrows x => errorCode x end.
Definition data_of (e : @action_end doc) : doc := match e with AReturns (Some r) => r | _ => DNil end.

(** An optional field of the data. *)
Definition optional {X} (f : option val -> outcome X) (key : list Z) (r : doc) : outcome (option X) :=
  if has_field key r then x ← f (doc_find key r); mret (Some x) else mret None.

Definition caller_sees {W} `{Container W} (op : device_op W) (e : @action_end doc) (x : outcome (Z * device_value W)) : Prop :=
  if code_of e =? 0 then
    match op with
    | getType => x = (t ← optional (field_spec as_string) CS_CM_CU_TYPE (data_of e); mret (0, TypeIs t))
    | getState => x = (n ← optional (as_int 32) CONTROL_UNIT_STATE (data_of e); mret (0, StateIs n))
    | sendCustomRequest _ _ true _ => exists w, x = Ret (0, DataIs w) /\ c_holds (data_of e) w
    | _ => x = Ret (0, NoValue)
    end
  else x = Ret (code_of e, NoValue).

Section Spec.
Context {W : Type} `{C : !Container W, L : !ContainerLaws W}.

(** The fields of an answer. *)
Lemma answer_fields i e (r := numbered i (remote_doc e)) :
  doc_find CS_CMDM_MESSAGE_ID r = Some (VInt (answerID i)) /\
  doc_find CS_CMDM_ACTION_SUBMISSION_ERROR_CODE r = Some (VInt (code_of e)) /\
  sub_doc (doc_find CS_CMDM_ACTION_MESSAGE r) = data_of e.
Proof. by destruct e as [[d|]|x]. Qed.

Lemma reads_of {X} (op : W -> outcome (X * W)) spec d w :
  reads op spec -> c_holds d w -> fits d -> exists w', c_holds d w' /\ forall B (k : X * W -> outcome B), op w ≫= k = (x ← spec d; k (x, w')).
Proof.
  intros Hr Hw Hf. destruct (Hr d w Hw Hf) as (w' & Hw' & ->). exists w'. split; [done|]. intros B k. by destruct (spec d).
Qed.

(** A field of the data in an answer. *)
Lemma data_field {X} (get : list Z -> W -> outcome (X * W)) (f : option val -> outcome X) key d w :
  (forall key, reads (get key) (fun d => f (doc_find key d))) -> c_holds d w -> fits d -> fits (sub_doc (doc_find CS_CMDM_ACTION_MESSAGE d)) ->
  forall B (k : option X -> outcome B),
  ('(info, _) ← c_getCSDataValue CS_CMDM_ACTION_MESSAGE w; '(b, info) ← c_hasKey key info;
   if b : bool then '(t, _) ← get key info; k (Some t) else k None) = (t ← optional f key (sub_doc (doc_find CS_CMDM_ACTION_MESSAGE d)); k t).
Proof.
  intros Hg Hw Hf Hs B k. destruct (getCSDataValue_law CS_CMDM_ACTION_MESSAGE d w Hw Hf) as (w1 & w2 & -> & H1 & _). simpl_out.
  destruct (reads_of _ _ _ _ (hasKey_law key) H1 Hs) as (w3 & H3 & ->). simpl_out. unfold optional.
  destruct (has_field key _); [|done]. destruct (reads_of _ _ _ _ (Hg key) H3 Hs) as (w4 & _ & ->). by destruct (f _).
Qed.

Lemma op_result_sees op i e w :
  one_way op = false -> c_holds (numbered i (remote_doc e)) w -> fits (numbered i (remote_doc e)) -> fits (data_of e) ->
  caller_sees op e (op_result op (Some w)).
Proof.
  intros Ho Hw Hf Hd. destruct (answer_fields i e) as (_ & Hcode & Hsub). unfold op_result, caller_sees. rewrite Ho. unfold check_result.
  destruct (reads_of _ _ _ _ (hasKey_law CS_CMDM_ACTION_SUBMISSION_ERROR_CODE) Hw Hf) as (w1 & H1 & E1). rewrite E1. clear E1. simpl_out.
  assert (has_field CS_CMDM_ACTION_SUBMISSION_ERROR_CODE (numbered i (remote_doc e)) = true) as -> by (unfold has_field; by rewrite Hcode).
  destruct (reads_of _ _ _ _ (getInt32Value_law CS_CMDM_ACTION_SUBMISSION_ERROR_CODE) H1 Hf) as (w2 & H2 & E2). rewrite E2. clear E2. rewrite Hcode. cbn [as_int]. simpl_out.
  change EC_NO_ERROR with 0. destruct (Z.eqb_spec (code_of e) 0) as [->|Hne]; [cbn [Z.eqb]|done].
  destruct op; try done; unfold op_value.
  - rewrite (data_field c_getStringValue (field_spec as_string) CS_CM_CU_TYPE _ w2 getStringValue_law H2 Hf) with (k := fun t => mret (TypeIs t)) by (by rewrite Hsub).
    rewrite Hsub. by destruct (optional _ _ _).
  - rewrite (data_field c_getInt32Value (as_int 32) CONTROL_UNIT_STATE _ w2 getInt32Value_law H2 Hf) with (k := fun n => mret (StateIs n)) by (by rewrite Hsub).
    rewrite Hsub. by destruct (optional _ _ _).
  - destruct resultData; [|done]. destruct (getCSDataValue_law CS_CMDM_ACTION_MESSAGE _ w2 H2 Hf) as (w3 & w4 & E3 & H3 & _). rewrite E3. simpl_out.
    exists w3. by rewrite <- Hsub.
Qed.

(** What a dispatcher reads in a request. *)
Lemma request_fields host id ch n a m (d := request_doc host id ch n a m) :
  asks d n a /\ info_of d = Ret (Some (mkInfo id host ch (chars "response"))) /\ message_of d = m /\ has_field CS_CMDM_SUB_CMD d = false.
Proof. by destruct m as [m|]. Qed.

(** What a dispatcher reads in an answer that is addressed to a channel. *)
Lemma response_fields id host ch e (i := mkInfo id host ch (chars "response")) :
  ch <> [] -> asks (response_doc i e) ch (chars "response") /\ info_of (response_doc i e) = Ret None /\
  message_of (response_doc i e) = Some (numbered i (remote_doc e)).
Proof. intros Hch. by destruct ch. Qed.

Lemma fits_data i e : fits (numbered i (remote_doc e)) -> fits (data_of e).
Proof.
  intros Hf. destruct e as [[r|]|x]; try apply fits_nil. by eapply (fits_sub _ CS_CMDM_ACTION_MESSAGE _ r Hf); [|left].
Qed.

(** [C6] A call of a device that waits for its answer makes the whole way.  The document its
    channel sends asks for the action of the operation in the domain of the node, with the
    message of the operation, and for an answer to the channel under the number of the
    request.  The dispatcher of a server where that action is registered, whose queue has
    room and whose forwarder takes the answer, accepts this document, calls the action with
    the message and, however the action ends, submits to the host of the client an answer
    that asks the client's dispatcher for the response action of the channel, wants no answer
    itself, and carries the number; and from its message the caller gets the code of the
    exception, or zero and the data of the action. *)
Theorem device_call_makes_the_way table pf (call : nat -> option W -> @action_end W * bool) call' forwards
    (s : Dispatcher W) t r p act a op o m host id channel :
  one_way op = false -> asynchronous op = false -> op_message (deviceID a) op = Ret o -> opt_holds m o -> channel <> [] ->
  let d := request_doc host id channel (nodeID a) (action_of op) m in
  let i := mkInfo id host channel (chars "response") in
  let e := (call' act m).1 in
  fits d ->
  same_calls call call' -> related s t -> implements table t r -> heap_fresh t ->
  packs t !! p = Some d -> (p < heap_next t)%nat -> accepts t (nodeID a) ->
  actions r !! (nodeID a, action_of op) = Some act -> act ∉ retired r ->
  forwards host = true -> fits (response_doc i e) -> bytes pf -> (length pf <= 4096)%nat ->
  (forall ms, op_event a op ms = Ret (ESendRequest (nodeID a) (action_of op) o ms false)) /\
  (exists w1 w2 w, data_pack o = Ret w1 /\ add_action (nodeID a) (action_of op) w1 = Ret w2 /\
     answer_pack host id channel w2 = Ret w /\ c_holds d w) /\
  (exists q s1 s2 answer w, dispatchCommand pf (Some p) s = (Val (heap_next s), s1) /\
     processBufferElement pf call forwards q p s1 = (Val tt, s2) /\
     submitted s2 = submitted s ++ [(host, answer)] /\ packs s2 !! answer = Some w /\ c_holds (response_doc i e) w) /\
  asks (response_doc i e) channel (chars "response") /\ info_of (response_doc i e) = Ret None /\
  exists x, message_of (response_doc i e) = Some x /\ as_int 32 (doc_find CS_CMDM_MESSAGE_ID x) = Ret id /\
    forall w, c_holds x w -> caller_sees op e (op_result op (Some w)).
Proof.
  intros Hone Hasync Ho Hm Hch d i e Hf Hcall Hs Him Hfr Hp Hlt Hacc Hact Hret Hfw He Hb Hlen.
  destruct (request_fields host id channel (nodeID a) (action_of op) m) as (H1 & H2 & H3 & H4).
  pose proof (fits_before_answer _ _ _ _ Hf) as Hf1. pose proof (fits_before_action _ _ _ Hf1) as Hf2.
  split; [|split; [|split]].
  - intros ms. unfold op_event. rewrite Ho. simpl_out. destruct op as [| | | | | |w []| | |? ? ? []]; done.
  - destruct (data_pack_holds m o Hm Hf2) as (w1 & E1 & Hw1). destruct (add_action_holds (nodeID a) (action_of op) _ w1 Hw1 Hf1) as (w2 & E2 & Hw2).
    destruct (answer_pack_holds host id channel _ w2 Hw2 Hf) as (w & E & Hw). by exists w1, w2, w.
  - destruct (request_served table pf call call' forwards s t r p d (nodeID a) (action_of op) act (Some i)
      Hcall Hs Him Hfr Hp Hlt H1 Hacc Hact Hret H4 H2) as (q & x & s1 & s2 & _ & E1 & _ & E2 & _ & Hsub);
      [change (fits (response_doc i (call' act (message_of d)).1)); unfold d; by rewrite H3|done|done|].
    change (message_of d) with (message_of (request_doc host id channel (nodeID a) (action_of op) m)) in Hsub.
    rewrite H3 in Hsub. cbn [answerIP i] in Hsub. rewrite Hfw in Hsub. destruct Hsub as (answer & w & Hsub & Hpk & Hw).
    by exists q, s1, s2, answer, w.
  - destruct (response_fields id host channel e Hch) as (R1 & R2 & R3). split_and!; [done|done|].
    pose proof (fits_snoc_sub _ _ _ He) as Hr. exists (numbered i (remote_doc e)).
    split_and!; [done|by rewrite (proj1 (answer_fields i e))|].
    intros w Hw. apply (op_result_sees op i e w); try done. by apply (fits_data i).
Qed.

End Spec.

(** ** A call *)

Module Witness.

#[local] Existing Instance doc_container.
#[local] Existing Instance MessageChannelSpec.Witness.doc_laws.

(** The action [init] of the domain [cu], called for data that the action gives back. *)
Definition unit7 : CDeviceNetworkAddress := mkAddress (chars "server:1") (chars "cu") (chars "dev").
Definition data : doc := DCons (chars "x") (VInt 3) DNil.
Definition ask_init : device_op doc := sendCustomRequest (chars "init") (Some data) true false.
Definition sent : doc := request_doc (chars "client:1") 5 (chars "uuid") (chars "cu") (chars "init") (Some data).

Import DispatcherService.Witness.

Definition server : Dispatcher doc := after once sent.
Definition request_at : nat := pred (heap_next server).

Lemma sent_fits : fits sent.
Proof. apply (bool_decide_unpack _). by vm_compute. Qed.
Lemma server_related : related server server.
Proof.
  split; try done. intros p. unfold server, after. simpl.
  destruct (decide (p = heap_next (perform_all once (new_Dispatcher table : Dispatcher doc)).2)) as [->|Hne].
  - rewrite !lookup_singleton_eq. exists sent. split_and!; [done|done|exact sent_fits].
  - by rewrite !lookup_singleton_ne.
Qed.

(** The caller gets the data the action returned. *)
Lemma device_call_makes_the_way_witness :
  exists q s1 s2 answer w x, dispatchCommand pf (Some request_at) server = (Val (heap_next server), s1) /\
    processBufferElement pf echo always q request_at s1 = (Val tt, s2) /\
    submitted s2 = [(chars "client:1", answer)] /\ packs s2 !! answer = Some w /\ message_of w = Some x /\
    as_int 32 (doc_find CS_CMDM_MESSAGE_ID x) = Ret 5 /\ op_result ask_init (Some x) = Ret (0, DataIs data).
Proof.
  destruct (device_call_makes_the_way table pf echo echo always server server (foldl (registry_step table) no_actions once) request_at 7%nat
    unit7 ask_init (Some data) (Some data) (chars "client:1") 5 (chars "uuid"))
    as (_ & _ & (q & s1 & s2 & answer & w & E1 & E2 & Hsub & Hp & Hw) & _ & _ & x & Hx & Hid & Hsee).
  - done.
  - done.
  - done.
  - split; [done|apply (bool_decide_unpack _); by vm_compute].
  - done.
  - exact sent_fits.
  - apply same_echo.
  - exact server_related.
  - apply after_implements. by repeat constructor.
  - intros n Hn. change (heap_next server) with 3%nat in Hn. apply lookup_singleton_ne. vm_compute. lia.
  - by vm_compute.
  - by apply Nat.ltb_lt; vm_compute.
  - intros q x Hq Hx. change (das_map server !! chars "cu") with (Some 1%nat) in Hq. injection Hq as <-.
    vm_compute in Hx. by injection Hx as <-.
  - by vm_compute.
  - change (retired _) with (∅ : gset nat). set_solver.
  - done.
  - apply (bool_decide_unpack _). by vm_compute.
  - apply (bool_decide_unpack _). by vm_compute.
  - by apply Nat.leb_le; vm_compute.
  - exists q, s1, s2, answer, w, x. cbn in Hw. subst w. split_and!; [exact E1|exact E2|exact Hsub|exact Hp|exact Hx|exact Hid|].
    destruct (Hsee x eq_refl) as (y & Ey & Hy). rewrite Ey. by rewrite Hy.
Defined.

(** An asynchronous request always reports a timeout. *)
Example asynchronous_request_times_out alias o b : op_result (W := doc) (sendCustomRequest alias o b true) None = Ret (EC_TIMEOUT, NoValue).
Proof. done. Qed.

End Witness.
